(** * xtest.c: the script scanner, the typing interpreter and the run loop

    A shallow embedding of the core of [xtest.c] (an XTest + ncurses
    keyboard simulator): [parse_special_token], [parse_and_type],
    [expand_and_parse] and [simulate_typing], together with the small
    helpers they call ([add_log], [pressKeyDown], [pressKeyUp], [pressKey],
    [map_char_to_keysym], [send_char]).  Around the core, the file also
    embeds the log behind [add_log] (the ring [g_logBuffer], the log file
    and [draw_logs]), [load_messages_file], and the part of [main] that
    keeps the four input fields and the key log and starts the runs.

    Conventions of the embedding.
    - A [const char *] is a [string]: the characters stored at the pointer,
      with every read past the stored characters returning NUL.  A NUL
      character inside the [string] is the terminator, exactly as in C, so
      the model reads no character behind it.
    - Offsets into a text ([idx], [digits_start], [consumed], [i]) are [int]
      in the source; they are never negative and never exceed the length of
      the text plus one, so they are [nat] here.  Values that can be
      negative or wrap ([msgIndex], [holdMs], [remain], [loops], the delays,
      key symbols and key codes) are [Z].
    - The process state touched by the core is the record [world]: the stop
      flag, the chronological list of observable effects (log lines, fake
      key events, sleeps, terminal mode switches) and the values the
      keyboard has to give to the coming [getch()] calls.  A call made after
      [nodelay(stdscr, TRUE)] takes the next value, [ERR] once they are used
      up; a call made in blocking mode, as [initscr] leaves the terminal and
      [nodelay(stdscr, FALSE)] puts it again, takes the next value that is
      a key and does not return when none is left.  The mode is that of the
      last [nodelay] among the effects.
    - A function that reads the keyboard has a [result]: it returns, or it
      waits for ever in a [getch()], or (next point) it is too deep.
    - The C stack is unbounded in the language but not in the model:
      [parse_and_type] takes the number of nested activations it may use and
      answers [TooDeep] when a run needs more.
    - Besides the program, the file defines it once more with a keyboard
      that never makes it wait (names ending in [_nd]: every [getch()]
      returns at once, as in nodelay mode).  That version is total where it
      does not nest, and the proofs go through it: a call of the program
      that returns has the result of its [_nd] version, and the two are the
      same from nodelay mode on until a message is expanded.
    - Where the code indexes an array, the array is a list and the access
      is checked: an access outside it, undefined in C, is [None]. *)

From Equations Require Import Equations.
From Equations.Prop Require Import Logic.
From Stdlib Require Import ZArith List String Ascii Bool Lia Arith Relations.
Import ListNotations.
Local Open Scope string_scope.
Local Open Scope list_scope.
Local Open Scope Z_scope.

(** ** C strings *)

Module CStr.

(** [text[i]]. *)
Fixpoint char_at (text : string) (i : nat) : ascii :=
  match text, i with
  | EmptyString, _ => zero
  | String c _, O => c
  | String _ t, S i' => char_at t i'
  end.

(** [&text[i]]. *)
Fixpoint advance (i : nat) (text : string) : string :=
  match i, text with
  | O, _ => text
  | S _, EmptyString => EmptyString
  | S i', String _ t => advance i' t
  end.

(** [strlen(text)]: the number of characters before the first NUL. *)
Fixpoint strlen (text : string) : nat :=
  match text with
  | EmptyString => O
  | String c t => if Ascii.eqb c zero then O else S (strlen t)
  end.

(** The first [n] characters of [text], the text itself when shorter. *)
Fixpoint take (n : nat) (text : string) : string :=
  match n, text with
  | O, _ => EmptyString
  | S _, EmptyString => EmptyString
  | S n', String c t => String c (take n' t)
  end.

(** [strncmp(s1, s2, n) == 0]. *)
Fixpoint strncmp_eq (s1 s2 : string) (n : nat) : bool :=
  match n with
  | O => true
  | S n' =>
      let a := char_at s1 0 in
      let b := char_at s2 0 in
      if Ascii.eqb a b
      then if Ascii.eqb a zero then true
           else strncmp_eq (advance 1 s1) (advance 1 s2) n'
      else false
  end.

(** [c >= '0' && c <= '9']. *)
Definition is_digit (c : ascii) : bool :=
  ((48 <=? nat_of_ascii c) && (nat_of_ascii c <=? 57))%nat.

(** The characters of a text that sit in a buffer: the text up to its
    terminator. *)
Definition contents (text : string) : string := take (strlen text) text.

End CStr.
Import CStr.

Arguments char_at : simpl nomatch.
Arguments advance : simpl nomatch.

(** ** [atoi] on a buffer of decimal digits

    The two buffers handed to [atoi] ([numBuf], [holdBuf]) hold decimal
    digits only, at most 31 of them.  A value that fits an [int] is
    returned as it is.  For a larger one ISO C leaves the result open; the
    model takes the C library the program is linked with on Linux, where
    [atoi(s)] is [(int) strtol(s, NULL, 10)]: [strtol] saturates at
    [LONG_MAX] and the conversion to [int] keeps the low 32 bits. *)

Definition INT_MAX : Z := 2147483647.
Definition LONG_MAX : Z := 9223372036854775807.

Definition to_int (z : Z) : Z := (z + 2 ^ 31) mod 2 ^ 32 - 2 ^ 31.

Definition digit_value (c : ascii) : Z := Z.of_nat (nat_of_ascii c) - 48.

Fixpoint decimal_from (acc : Z) (s : string) : Z :=
  match s with
  | EmptyString => acc
  | String c t =>
      if is_digit c then decimal_from (10 * acc + digit_value c) t else acc
  end.

(** The number a run of digits denotes. *)
Definition decimal (s : string) : Z := decimal_from 0 s.

Definition strtol10 (s : string) : Z := Z.min (decimal s) LONG_MAX.

Definition atoi (s : string) : Z := to_int (strtol10 s).

(** ** Key symbols (X11/keysymdef.h) and ncurses key codes *)

Definition KeySym := Z.
Definition KeyCode := Z.

Definition NoSymbol : KeySym := 0.

Definition XK_Up : KeySym := 0xff52.
Definition XK_Down : KeySym := 0xff54.
Definition XK_Left : KeySym := 0xff51.
Definition XK_Right : KeySym := 0xff53.
Definition XK_Return : KeySym := 0xff0d.
Definition XK_Shift_L : KeySym := 0xffe1.
Definition XK_Control_L : KeySym := 0xffe3.
Definition XK_Alt_L : KeySym := 0xffe9.
Definition XK_space : KeySym := 0x20.
Definition XK_exclam : KeySym := 0x21.
Definition XK_quotedbl : KeySym := 0x22.
Definition XK_numbersign : KeySym := 0x23.
Definition XK_dollar : KeySym := 0x24.
Definition XK_percent : KeySym := 0x25.
Definition XK_ampersand : KeySym := 0x26.
Definition XK_apostrophe : KeySym := 0x27.
Definition XK_parenleft : KeySym := 0x28.
Definition XK_parenright : KeySym := 0x29.
Definition XK_asterisk : KeySym := 0x2a.
Definition XK_plus : KeySym := 0x2b.
Definition XK_comma : KeySym := 0x2c.
Definition XK_minus : KeySym := 0x2d.
Definition XK_period : KeySym := 0x2e.
Definition XK_slash : KeySym := 0x2f.
Definition XK_colon : KeySym := 0x3a.
Definition XK_semicolon : KeySym := 0x3b.
Definition XK_less : KeySym := 0x3c.
Definition XK_equal : KeySym := 0x3d.
Definition XK_greater : KeySym := 0x3e.
Definition XK_question : KeySym := 0x3f.
Definition XK_at : KeySym := 0x40.
Definition XK_bracketleft : KeySym := 0x5b.
Definition XK_backslash : KeySym := 0x5c.
Definition XK_bracketright : KeySym := 0x5d.
Definition XK_asciicircum : KeySym := 0x5e.
Definition XK_underscore : KeySym := 0x5f.
Definition XK_grave : KeySym := 0x60.
Definition XK_braceleft : KeySym := 0x7b.
Definition XK_bar : KeySym := 0x7c.
Definition XK_braceright : KeySym := 0x7d.
Definition XK_asciitilde : KeySym := 0x7e.

(** ncurses: [ERR] is -1 and [KEY_F(n)] is [KEY_F0 + n] with [KEY_F0 = 0410]. *)
Definition ERR : Z := -1.
Definition KEY_F (n : Z) : Z := 264 + n.

(** ** The observable effects *)

(** One constructor per [add_log] call of the modelled functions, carrying
    the arguments of its format string. *)
Inductive log_line : Type :=
| WarnKeycodeDown (ks : KeySym)
| WarnKeycodeUp (ks : KeySym)
| WarnNoKeySym (c : ascii)
| WarnMessageRange (msgIndex count : Z)
| FoundMessage (numBuf : string) (msgIndex : Z) (expandBuf : string)
| F2Typing
| F1Typing
| InsertLine (expandBuf : string)
| Holding (sym : KeySym) (holdMs : Z)
| F2Hold
| F1Hold
| QuickPress (sym : KeySym)
| SendingChar (c : ascii)
| SimStart (startDelay_ms loopDelay_ms loops : Z) (text : string)
| SleepingBefore (startDelay_ms : Z)
| F2Before
| F1Before
| AbortedBefore
| LoopBegin (l1 loops : Z)
| LoopInterrupted (l1 loops : Z)
| LoopDone (l1 loops : Z)
| SleepingNext (loopDelay_ms : Z)
| F2Between
| F1Between
| AbortedBetween (l1 loops : Z)
| AllDone
| StoppedByUser.

Inductive event : Type :=
| Log (line : log_line)
| FakeKey (kc : KeyCode) (is_press : bool)
| Usleep (usec : Z)
| Nodelay (bf : bool).

Record world : Type := mkWorld {
  g_stopRequested : bool;
  effects : list event;
  pending : list Z
}.

Definition emit (e : event) (w : world) : world :=
  mkWorld (g_stopRequested w) (effects w ++ [e]) (pending w).

Definition add_log (line : log_line) (w : world) : world := emit (Log line) w.

Definition usleep (usec : Z) (w : world) : world := emit (Usleep usec) w.

Definition nodelay (bf : bool) (w : world) : world := emit (Nodelay bf) w.

Definition request_stop (w : world) : world :=
  mkWorld true (effects w) (pending w).

Definition reset_stop (w : world) : world :=
  mkWorld false (effects w) (pending w).

(** ** The token record *)

Record TokenAction : Type := mkTokenAction {
  sym : KeySym;
  holdMs : Z;
  expandBuf : string;
  useExpand : Z
}.

(** [memset(&action, 0, sizeof(action))]. *)
Definition zero_action : TokenAction := mkTokenAction 0 0 EmptyString 0.

(** ** Arrays

    A C array is the list of its elements; an access outside it is
    undefined in C and [None] here. *)

Fixpoint store {A : Type} (i : nat) (x : A) (l : list A) : option (list A) :=
  match l, i with
  | [], _ => None
  | _ :: t, O => Some (x :: t)
  | y :: t, S i' =>
      match store i' x t with
      | Some t' => Some (y :: t')
      | None => None
      end
  end.

(** [l[i] = x] for an [int] index. *)
Definition store_at {A : Type} (i : Z) (x : A) (l : list A)
  : option (list A) :=
  if i <? 0 then None else store (Z.to_nat i) x l.

(** [l[i]] for an [int] index. *)
Definition load_at {A : Type} (i : Z) (l : list A) : option A :=
  if i <? 0 then None else nth_error l (Z.to_nat i).

(** ** The log: a ring of rows and a file

    [add_log] formats its arguments into [tmp], copies [tmp] into the row
    of [g_logBuffer] under [g_logHead] and appends it to the log file;
    [draw_logs] prints the rows from the newest one upwards.  The text the
    format and its arguments expand to is the argument [msg] here. *)

Module Ring.

Definition MAX_LOG_LINES : Z := 200.

(** [g_logBuffer] (a row is the C string it holds), [g_logHead], and what
    has been written to [g_fileLog], [None] when the file is not open. *)
Record log : Type := mkLog {
  g_logBuffer : list string;
  g_logHead : Z;
  g_fileLog : option string
}.

(** Static storage starts zeroed. *)
Definition start (file : option string) : log :=
  mkLog (repeat EmptyString 200) 0 file.

Definition add_log (msg : string) (st : log) : option log :=
  (* vsnprintf(tmp, sizeof(tmp), fmt, args), tmp being char[512] *)
  let tmp := contents (take 511 msg) in
  (* strncpy(row, tmp, sizeof(row) - 1); row[sizeof(row) - 1] = 0 *)
  match store_at (g_logHead st) (take 255 tmp) (g_logBuffer st) with
  | None => None
  | Some rows =>
      Some (mkLog rows
              (Z.rem (g_logHead st + 1) MAX_LOG_LINES)
              (match g_fileLog st with
               | Some out => Some (out ++ tmp ++ String "010" EmptyString)%string
               | None => None
               end))
  end.

(** A call [mvprintw(y, x, "%s", str)]. *)
Record mvprintw : Type := mkPrint { at_y : Z; at_x : Z; shown : string }.

(** The [for] loop of [draw_logs], [n] turns from [i] on. *)
Fixpoint draw_rows (n : nat) (i index max_y : Z) (rows : list string)
  : option (list mvprintw) :=
  match n with
  | O => Some []
  | S n' =>
      let index := Z.rem (index - 1 + MAX_LOG_LINES) MAX_LOG_LINES in
      match load_at index rows with
      | None => None
      | Some row =>
          match draw_rows n' (i + 1) index max_y rows with
          | Some calls => Some (mkPrint (max_y - 1 - i) 0 row :: calls)
          | None => None
          end
      end
  end.

(** [draw_logs(start_line)] on a screen of [max_y] lines. *)
Definition draw_logs (max_y start_line : Z) (st : log)
  : option (list mvprintw) :=
  let lines_for_logs := max_y - start_line in
  if lines_for_logs <=? 0 then Some []
  else draw_rows (Z.to_nat lines_for_logs) 0 (g_logHead st) max_y
         (g_logBuffer st).

(** The log after the messages [msgs], one [add_log] each. *)
Fixpoint logged (msgs : list string) (st : log) : option log :=
  match msgs with
  | [] => Some st
  | msg :: rest =>
      match add_log msg st with
      | Some st' => logged rest st'
      | None => None
      end
  end.

(** What a row keeps of a message, and what the file gets. *)
Definition row_of (msg : string) : string := take 255 (contents (take 511 msg)).

Definition line_of (msg : string) : string :=
  (contents (take 511 msg) ++ String "010" EmptyString)%string.

(** Head and rows are within the arrays. *)
Definition well_formed (st : log) : Prop :=
  List.length (g_logBuffer st) = 200%nat /\
  0 <= g_logHead st < 200 /\
  Forall (fun row => (String.length row <= 255)%nat) (g_logBuffer st).

End Ring.
(** ** Loading the message table

    [load_messages_file] reads the file line by line into [g_messages].
    The file is the characters [fopen] gives access to, [None] when it
    cannot be opened. *)

Inductive info_line : Type :=
| CouldNotOpen (filename : string)
| LoadedLines (count : Z) (filename : string).

Definition MAX_MESSAGES : nat := 100.

(** [fgets(linebuf, room + 1, fp)]: the characters read, up to and with the
    first newline and [room] at most, and the characters left in the file.
    It returns [NULL] when nothing is left to read. *)
Fixpoint fgets (room : nat) (file : string) : string * string :=
  match room, file with
  | O, _ => (EmptyString, file)
  | _, EmptyString => (EmptyString, EmptyString)
  | S room', String c rest =>
      if Ascii.eqb c "010" then (String c EmptyString, rest)
      else let '(line, rest') := fgets room' rest in (String c line, rest')
  end.

Definition is_eol (c : ascii) : bool := Ascii.eqb c "010" || Ascii.eqb c "013".

(** [while (len > 0 && (linebuf[len-1] == '\n' || linebuf[len-1] == '\r'))
       { linebuf[len-1] = '\0'; len--; }], and the string left in
    [linebuf]. *)
Fixpoint strip (len : nat) (linebuf : string) : string :=
  match len with
  | O => EmptyString
  | S len' =>
      if is_eol (char_at linebuf len') then strip len' linebuf
      else take len linebuf
  end.

(** What the loop keeps of the characters [l] of a line, read into the
    buffer with or without its line end: [l] up to its first NUL, without the
    carriage returns (and newlines) at the end of that. *)
Definition kept (l : string) : string := strip (strlen l) l.

(** The [while (fgets(...))] loop, with [slots = MAX_MESSAGES - index]
    entries of [g_messages] still free; it leaves the lines it has stored. *)
Fixpoint read_lines (slots : nat) (file : string) : list string :=
  match slots, file with
  | O, _ => []
  | _, EmptyString => []
  | S slots', _ =>
      let '(linebuf, rest) := fgets 1023 file in
      strip (strlen linebuf) linebuf :: read_lines slots' rest
  end.

(** [load_messages_file(filename)]: the table [g_messages] (its length is
    [g_messageCount]) and the line logged.  A file that cannot be opened
    leaves the table as it is. *)
Definition load_messages_file (filename : string) (file : option string)
  (g_messages : list string) : list string * info_line :=
  match file with
  | None => (g_messages, CouldNotOpen filename)
  | Some chars =>
      let lines := read_lines MAX_MESSAGES chars in
      (lines, LoadedLines (Z.of_nat (List.length lines)) filename)
  end.

(** [c] does not occur in [s]. *)
Fixpoint lacks (c : ascii) (s : string) : bool :=
  match s with
  | EmptyString => true
  | String c' t => negb (Ascii.eqb c' c) && lacks c t
  end.

(** A line as the loader keeps it: no NUL and no newline in it, no newline
    or carriage return at its end. *)
Definition whole_line (l : string) : bool :=
  lacks zero l && lacks "010" l &&
  negb (is_eol (char_at l (Nat.pred (String.length l)))).

(** A text file: [lines], each with its line end (LF, or CR LF where the
    flag is set). *)
Definition line_end (crlf : bool) : string :=
  if crlf then String "013" (String "010" EmptyString)
  else String "010" EmptyString.

Fixpoint file_of (lines : list (string * bool)) : string :=
  match lines with
  | [] => EmptyString
  | (l, crlf) :: rest => (l ++ line_end crlf ++ file_of rest)%string
  end.

(** ** The terminal mode and [getch()]

    [getch()] reads the keyboard in the mode the last call of [nodelay] has
    set.  In nodelay mode it returns at once: the next of the values to
    come, and [ERR] when none is left.  In blocking mode, the mode
    [initscr] leaves and [nodelay(stdscr, FALSE)] restores, it waits for a
    key: it returns the next value that is not [ERR], and it does not
    return when no such value is left. *)

(** The mode after the calls of [nodelay] among [evs], from [mode]. *)
Definition mode_after (evs : list event) (mode : bool) : bool :=
  fold_left (fun mode e => match e with Nodelay bf => bf | _ => mode end)
    evs mode.

(** Whether the terminal is in nodelay mode. *)
Definition nodelay_on (w : world) : bool := mode_after (effects w) false.

(** [getch()] in nodelay mode ([true]) or blocking mode, over the values to
    come: the value read and the values left, [None] when the call does not
    return. *)
Fixpoint getch (mode : bool) (keys : list Z) : option (Z * list Z) :=
  match keys with
  | [] => if mode then Some (ERR, []) else None
  | ch :: keys' =>
      if (ch =? ERR) && negb mode then getch mode keys'
      else Some (ch, keys')
  end.

(** What a call that reads the keyboard comes to: it returns; or it waits
    in a [getch()] for a key that does not come, in the world given; or,
    for [parse_and_type], it needs more nested activations than it may
    use. *)
Inductive result (A : Type) : Type :=
| Returns (a : A)
| Waits (w : world)
| TooDeep.

Arguments Returns {A} a.
Arguments Waits {A} w.
Arguments TooDeep {A}.

Definition bind {A B : Type} (r : result A) (k : A -> result B) : result B :=
  match r with
  | Returns a => k a
  | Waits w => Waits w
  | TooDeep => TooDeep
  end.

Notation "x <- r ;; k" := (bind r (fun x => k))
  (at level 61, r at next level, right associativity).

(** ** A sample environment

    A message table without and one with an entry that leads back to
    itself, and an X server that knows the letters, the digits and the named
    keys, used to run the program on concrete inputs. *)

Module Sample.

Definition messages : list string := ["hi{up}"; "{message1}!"].

Definition looping : list string := ["{message2}"; "x{message1}"].


Definition keycode (ks : KeySym) : KeyCode :=
  if (0x20 <=? ks) && (ks <=? 0x7e) then ks - 24
  else if (0xff00 <=? ks) && (ks <=? 0xffff) then ks - 0xff00 + 1
  else 0.

Definition keysym (s : string) : KeySym :=
  match s with
  | String c EmptyString =>
      let n := Z.of_nat (nat_of_ascii c) in
      if ((48 <=? n) && (n <=? 57)) || ((65 <=? n) && (n <=? 90))
         || ((97 <=? n) && (n <=? 122))
      then n else NoSymbol
  | _ => NoSymbol
  end.

(** Nothing logged, no key waiting, no stop requested. *)
Definition fresh : world := mkWorld false [] [].

(** The keys [keys] waiting, and a stop flag left set by an earlier run. *)
Definition stale (keys : list Z) : world := mkWorld true [] keys.

(** The world of [fresh] once [parse_and_type] has set nodelay mode, with the
    keys [keys] waiting. *)
Definition polling (keys : list Z) : world := mkWorld false [Nodelay true] keys.

End Sample.

(** ** The program, over its environment

    [g_messages] is the table filled by [load_messages_file] before any
    run ([g_messageCount] is its length); [XKeysymToKeycode] and
    [XStringToKeysym] are the X server's answers. *)

Section Program.

Variable g_messages : list string.
Variable XKeysymToKeycode : KeySym -> KeyCode.
Variable XStringToKeysym : string -> KeySym.

Definition g_messageCount : Z := Z.of_nat (List.length g_messages).

(** *** Pressing and releasing keys *)

Definition pressKeyDown (ks : KeySym) (w : world) : world :=
  let kc := XKeysymToKeycode ks in
  if kc =? 0 then add_log (WarnKeycodeDown ks) w
  else emit (FakeKey kc true) w.

Definition pressKeyUp (ks : KeySym) (w : world) : world :=
  let kc := XKeysymToKeycode ks in
  if kc =? 0 then add_log (WarnKeycodeUp ks) w
  else emit (FakeKey kc false) w.

Definition pressKey (ks : KeySym) (w : world) : world :=
  usleep 30000 (pressKeyUp ks (usleep 30000 (pressKeyDown ks w))).

(** The [switch] of [map_char_to_keysym], case by case. *)
Definition keysym_cases : list (ascii * KeySym) :=
  [ (" "%char, XK_space); ("!"%char, XK_exclam); ("034"%char, XK_quotedbl);
    ("#"%char, XK_numbersign); ("$"%char, XK_dollar); ("%"%char, XK_percent);
    ("&"%char, XK_ampersand); ("'"%char, XK_apostrophe);
    ("("%char, XK_parenleft); (")"%char, XK_parenright);
    ("*"%char, XK_asterisk); ("+"%char, XK_plus); (","%char, XK_comma);
    ("-"%char, XK_minus); ("."%char, XK_period); ("/"%char, XK_slash);
    (":"%char, XK_colon); (";"%char, XK_semicolon); ("<"%char, XK_less);
    ("="%char, XK_equal); (">"%char, XK_greater); ("?"%char, XK_question);
    ("@"%char, XK_at); ("["%char, XK_bracketleft); ("\"%char, XK_backslash);
    ("]"%char, XK_bracketright); ("^"%char, XK_asciicircum);
    ("_"%char, XK_underscore); ("`"%char, XK_grave);
    ("{"%char, XK_braceleft); ("|"%char, XK_bar); ("}"%char, XK_braceright);
    ("~"%char, XK_asciitilde);
    ("010"%char, XK_Return); ("013"%char, XK_Return) ].

Fixpoint switch_on (c : ascii) (cases : list (ascii * KeySym)) : option KeySym :=
  match cases with
  | [] => None
  | (c', ks) :: rest => if Ascii.eqb c c' then Some ks else switch_on c rest
  end.

Definition map_char_to_keysym (c : ascii) : KeySym :=
  match switch_on c keysym_cases with
  | Some ks => ks
  | None => XStringToKeysym (String c EmptyString)
  end.

Definition send_char (c : ascii) (w : world) : world :=
  let ks := map_char_to_keysym c in
  if ks =? NoSymbol then add_log (WarnNoKeySym c) w
  else pressKey ks w.

(** *** The token scanner *)

(** [(int)sizeof(numBuf) - 1] and [(int)sizeof(holdBuf) - 1], both buffers
    being [char[32]]. *)
Definition buf_room : nat := 31.

(** [while (text[idx] >= '0' && text[idx] <= '9' && nb < sizeof(buf)-1)
       buf[nb++] = text[idx++];]
    with [room] the free places left in the 32-byte buffer. *)
Fixpoint scan_digits (room : nat) (text : string) (idx : nat) (buf : string)
  : nat * string :=
  match room with
  | O => (idx, buf)
  | S room' =>
      let c := char_at text idx in
      if is_digit c
      then scan_digits room' text (S idx) (buf ++ String c EmptyString)%string
      else (idx, buf)
  end.

Definition key_table : list (string * KeySym) :=
  [ ("up", XK_Up); ("down", XK_Down); ("left", XK_Left); ("right", XK_Right);
    ("enter", XK_Return); ("shift", XK_Shift_L); ("ctrl", XK_Control_L);
    ("alt", XK_Alt_L); ("space", XK_space) ].

(** The [for] loop over [table]: every entry whose [cmd] matches returns. *)
Fixpoint scan_table (table : list (string * KeySym)) (text : string)
  (out : TokenAction) : nat * TokenAction :=
  match table with
  | [] => (O, out)
  | (cmd, ks) :: rest =>
      let c_len := String.length cmd in
      if strncmp_eq (advance 1 text) cmd c_len then
        let idx_after := (1 + c_len)%nat in
        if Ascii.eqb (char_at text idx_after) "}" then
          ((idx_after + 1)%nat, mkTokenAction ks 0 (expandBuf out) 0)
        else if Ascii.eqb (char_at text idx_after) ":" then
          let '(digits_start, holdBuf) :=
            scan_digits buf_room text (idx_after + 1) EmptyString in
          if Ascii.eqb (char_at text digits_start) "}" then
            ((digits_start + 1)%nat,
             mkTokenAction ks (atoi holdBuf) (expandBuf out) 0)
          else (O, out)
        else (O, out)
      else scan_table rest text out
  end.

(** [strncpy(dst, src, n); dst[n] = 0]. *)
Definition strncpy (src : string) (n : nat) : string := take n (contents src).

Definition parse_special_token (text : string) (out : TokenAction) (w : world)
  : nat * TokenAction * world :=
  if negb (Ascii.eqb (char_at text 0) "{") then (O, out, w)
  else if strncmp_eq text "{message" 8 then
    let '(idx, numBuf) := scan_digits buf_room text 8 EmptyString in
    if Ascii.eqb (char_at text idx) "}" then
      let msgIndex := atoi numBuf in
      if (msgIndex <? 1) || (g_messageCount <? msgIndex) then
        (O, out, add_log (WarnMessageRange msgIndex g_messageCount) w)
      else
        let buf :=
          strncpy (nth (Z.to_nat (msgIndex - 1)) g_messages EmptyString) 2047 in
        ((idx + 1)%nat, mkTokenAction 0 0 buf 1,
         add_log (FoundMessage numBuf msgIndex buf) w)
    else (O, out, w)
  else
    let '(consumed, out') := scan_table key_table text out in
    (consumed, out', w).

(** *** Polling the keyboard *)

(** [ch = getch(); while (ch != ERR) { ...; ch = getch(); }] over the values
    to come.  In nodelay mode the loop ends with the first [ERR]; in
    blocking mode no call returns [ERR], so the loop reads every key that
    comes and then waits. *)
Fixpoint drain (onF2 onF1 : log_line) (keys : list Z) (w : world)
  : result world :=
  match keys with
  | [] =>
      if nodelay_on w
      then Returns (mkWorld (g_stopRequested w) (effects w) [])
      else Waits (mkWorld (g_stopRequested w) (effects w) [])
  | ch :: keys' =>
      if ch =? ERR then
        if nodelay_on w
        then Returns (mkWorld (g_stopRequested w) (effects w) keys')
        else drain onF2 onF1 keys' w
      else if ch =? KEY_F 2 then
        drain onF2 onF1 keys' (request_stop (add_log onF2 w))
      else if ch =? KEY_F 1 then drain onF2 onF1 keys' (add_log onF1 w)
      else drain onF2 onF1 keys' w
  end.

Definition poll (onF2 onF1 : log_line) (w : world) : result world :=
  drain onF2 onF1 (pending w) w.

(** [while (remain > 0 && !g_stopRequested) { usleep(step * 1000);
       remain -= step; poll; }] with [step = 50].  The hold loop ends its body
    with [if (g_stopRequested) break;], which the loop test repeats. *)
Equations? wait_loop (onF2 onF1 : log_line) (remain : Z) (w : world)
  : result world by wf (Z.to_nat remain) lt :=
  wait_loop onF2 onF1 remain w with Z_lt_dec 0 remain := {
    | right _ => Returns w
    | left _ =>
        if g_stopRequested w then Returns w
        else
          match poll onF2 onF1 (usleep 50000 w) with
          | Returns w' => wait_loop onF2 onF1 (remain - 50) w'
          | Waits w' => Waits w'
          | TooDeep => TooDeep
          end }.
Proof. lia. Qed.

(** *** The interpreter *)

(** Lines 380-409 of [parse_and_type]: press, wait in slices of 50 ms while
    polling, release. *)
Definition hold_key (ks : KeySym) (ms : Z) (w : world) : result world :=
  let w := add_log (Holding ks ms) w in
  let w := pressKeyDown ks w in
  w <- wait_loop F2Hold F1Hold ms w ;;
  let w := pressKeyUp ks w in
  Returns (usleep 30000 w).

(** What one turn of the [while] loop of [parse_and_type] does to [i]. *)
Inductive turn : Type :=
| Leave (w : world)
| Advance (n : nat) (w : world).

Section Interpreter.

(** [expand_and_parse], with the activations left for it. *)
Variable expand_and_parse : string -> world -> result world.

(** The loop test and one body of [while (text[i] && !g_stopRequested)]. *)
Definition typing_step (text : string) (i : nat) (w : world) : result turn :=
  if Ascii.eqb (char_at text i) zero || g_stopRequested w
  then Returns (Leave w)
  else
    w <- poll F2Typing F1Typing w ;;
    if g_stopRequested w then Returns (Leave w)
    else
      let '(consumed, action, w) :=
        parse_special_token (advance i text) zero_action w in
      if (0 <? consumed)%nat then
        if negb (useExpand action =? 0) then
          w <- expand_and_parse (expandBuf action)
                 (add_log (InsertLine (expandBuf action)) w) ;;
          Returns (Advance consumed w)
        else if 0 <? holdMs action then
          w <- hold_key (sym action) (holdMs action) w ;;
          Returns (Advance consumed w)
        else
          Returns (Advance consumed
                     (pressKey (sym action)
                        (add_log (QuickPress (sym action)) w)))
      else
        let c := char_at text i in
        Returns (Advance 1
                   (usleep 30000 (send_char c (add_log (SendingChar c) w)))).

(** The [while] loop, from position [i]; it returns the last [i]. *)
Equations? typing_loop (text : string) (i : nat) (w : world)
  : result (nat * world) by wf (String.length text - i)%nat lt :=
  typing_loop text i w with inspect (typing_step text i w) := {
    | exist _ (Returns (Leave w')) _ => Returns (i, w')
    | exist _ (Returns (Advance n w')) Hstep => typing_loop text (i + n)%nat w'
    | exist _ (Waits w') _ => Waits w'
    | exist _ TooDeep _ => TooDeep }.
Proof.
  unfold typing_step in Hstep.
  assert (Hin : forall t j, Ascii.eqb (char_at t j) zero = false ->
                       (j < String.length t)%nat).
  { induction t as [|c t IH]; intros [|j] Hz; simpl in *;
      try discriminate; try lia.
    specialize (IH j Hz). lia. }
  assert (Hlt : (i < String.length text)%nat).
  { destruct (Ascii.eqb (char_at text i) zero) eqn:Hz; [discriminate|].
    apply Hin, Hz. }
  assert (Hpos : (0 < n)%nat).
  { destruct (Ascii.eqb (char_at text i) zero || g_stopRequested w);
      [discriminate|].
    destruct (poll F2Typing F1Typing w) as [w0| |]; cbn [bind] in Hstep;
      try discriminate.
    destruct (g_stopRequested w0); [discriminate|].
    destruct (parse_special_token _ _ _) as [[consumed action] w1].
    destruct (0 <? consumed)%nat eqn:Hc.
    - apply Nat.ltb_lt in Hc.
      destruct (negb (useExpand action =? 0)).
      + destruct (expand_and_parse _ _); cbn [bind] in Hstep;
          inversion Hstep; subst; exact Hc.
      + destruct (0 <? holdMs action).
        * destruct (hold_key _ _ _); cbn [bind] in Hstep;
            inversion Hstep; subst; exact Hc.
        * inversion Hstep; subst; exact Hc.
    - inversion Hstep; lia. }
  lia.
Qed.

End Interpreter.

(** [parse_and_type], [depth] activations deep at most: the nested call of
    [expand_and_parse] has one activation less. *)
Fixpoint parse_and_type (depth : nat) (text : string) (w : world)
  : result world :=
  match depth with
  | O => TooDeep
  | S depth' =>
      r <- typing_loop (parse_and_type depth') text 0 (nodelay true w) ;;
      Returns (nodelay false (snd r))
  end.

Definition expand_and_parse (depth : nat) (chunk : string) (w : world)
  : result world :=
  parse_and_type depth chunk w.

(** *** The run loop *)

(** [nodelay(stdscr, TRUE); while (remain > 0 && !g_stopRequested) {...}
    nodelay(stdscr, FALSE);], the shape of both delays of
    [simulate_typing]. *)
Definition delay (onF2 onF1 : log_line) (ms : Z) (w : world) : result world :=
  w <- wait_loop onF2 onF1 ms (nodelay true w) ;;
  Returns (nodelay false w).

(** One body of [for (l = 0; l < loops; l++)]: [inl] leaves the loop
    ([break]), [inr] goes on to [l++]. *)
Definition loop_body (depth : nat) (text : string) (loops loopDelay_ms l : Z)
  (w : world) : result (world + world) :=
  if g_stopRequested w then Returns (inl w)
  else
    w <- parse_and_type depth text (add_log (LoopBegin (l + 1) loops) w) ;;
    if g_stopRequested w
    then Returns (inl (add_log (LoopInterrupted (l + 1) loops) w))
    else
      let w := add_log (LoopDone (l + 1) loops) w in
      if (l <? loops - 1) && (0 <? loopDelay_ms) then
        let w := add_log (SleepingNext loopDelay_ms) w in
        w <- delay F2Between F1Between loopDelay_ms w ;;
        if g_stopRequested w
        then Returns (inl (add_log (AbortedBetween (l + 1) loops) w))
        else Returns (inr w)
      else Returns (inr w).

Equations? run_loops (depth : nat) (text : string) (loops loopDelay_ms l : Z)
  (w : world) : result world by wf (Z.to_nat (loops - l)) lt :=
  run_loops depth text loops loopDelay_ms l w with Z_lt_dec l loops := {
    | right _ => Returns w
    | left _ with loop_body depth text loops loopDelay_ms l w := {
        | Returns (inl w') => Returns w'
        | Returns (inr w') => run_loops depth text loops loopDelay_ms (l + 1) w'
        | Waits w' => Waits w'
        | TooDeep => TooDeep } }.
Proof. lia. Qed.

Definition simulate_typing (depth : nat) (text : string)
  (loops startDelay_ms loopDelay_ms : Z) (w : world) : result world :=
  let w := add_log (SimStart startDelay_ms loopDelay_ms loops text) w in
  let w := reset_stop w in
  let finish (w : world) :=
    w <- run_loops depth text loops loopDelay_ms 0 w ;;
    if negb (g_stopRequested w) then Returns (add_log AllDone w)
    else Returns (add_log StoppedByUser w) in
  if 0 <? startDelay_ms then
    let w := add_log (SleepingBefore startDelay_ms) w in
    w <- delay F2Before F1Before startDelay_ms w ;;
    if g_stopRequested w then Returns (add_log AbortedBefore w)
    else finish w
  else finish w.

(** ** The program with a keyboard that never makes it wait

    The functions above once more, with every [getch()] returning at once,
    as if the terminal were in nodelay mode throughout: the next value, and
    [ERR] once the values are used up.  Nothing waits here, so these
    functions are total but for the activations [parse_and_type_nd] may run
    out of ([None]).  They are what the program computes as long as it is
    in nodelay mode, and what it has computed whenever it returns; the
    proofs are made on them and carried over. *)

(** *** Polling the keyboard *)

(** The loop of [drain], ending with the first [ERR] whatever the mode. *)
Fixpoint drain_nd (onF2 onF1 : log_line) (keys : list Z) (w : world) : world :=
  match keys with
  | [] => mkWorld (g_stopRequested w) (effects w) []
  | ch :: keys' =>
      if ch =? ERR then mkWorld (g_stopRequested w) (effects w) keys'
      else if ch =? KEY_F 2 then
        drain_nd onF2 onF1 keys' (request_stop (add_log onF2 w))
      else if ch =? KEY_F 1 then drain_nd onF2 onF1 keys' (add_log onF1 w)
      else drain_nd onF2 onF1 keys' w
  end.

Definition poll_nd (onF2 onF1 : log_line) (w : world) : world :=
  drain_nd onF2 onF1 (pending w) w.

(** [while (remain > 0 && !g_stopRequested) { usleep(step * 1000);
       remain -= step; poll; }] with [step = 50].  The hold loop ends its body
    with [if (g_stopRequested) break;], which the loop test repeats. *)
Equations? wait_loop_nd (onF2 onF1 : log_line) (remain : Z) (w : world) : world
  by wf (Z.to_nat remain) lt :=
  wait_loop_nd onF2 onF1 remain w with Z_lt_dec 0 remain := {
    | right _ => w
    | left _ =>
        if g_stopRequested w then w
        else wait_loop_nd onF2 onF1 (remain - 50) (poll_nd onF2 onF1 (usleep 50000 w)) }.
Proof. lia. Qed.

(** *** The interpreter *)

(** Lines 380-409 of [parse_and_type]: press, wait in slices of 50 ms while
    polling, release. *)
Definition hold_key_nd (ks : KeySym) (ms : Z) (w : world) : world :=
  let w := add_log (Holding ks ms) w in
  let w := pressKeyDown ks w in
  let w := wait_loop_nd F2Hold F1Hold ms w in
  let w := pressKeyUp ks w in
  usleep 30000 w.

(** What one turn of the [while] loop of [parse_and_type] does to [i]. *)
Inductive turn_nd : Type :=
| Leave_nd (w : world)
| Advance_nd (n : nat) (w : world)
| TooDeep_nd.

Section Loop.

(** [expand_and_parse], with the activations left for it. *)
Variable expand_and_parse_nd : string -> world -> option world.

(** The loop test and one body of [while (text[i] && !g_stopRequested)]. *)
Definition typing_step_nd (text : string) (i : nat) (w : world) : turn_nd :=
  if Ascii.eqb (char_at text i) zero || g_stopRequested w then Leave_nd w
  else
    let w := poll_nd F2Typing F1Typing w in
    if g_stopRequested w then Leave_nd w
    else
      let '(consumed, action, w) :=
        parse_special_token (advance i text) zero_action w in
      if (0 <? consumed)%nat then
        if negb (useExpand action =? 0) then
          match expand_and_parse_nd (expandBuf action)
                  (add_log (InsertLine (expandBuf action)) w) with
          | Some w => Advance_nd consumed w
          | None => TooDeep_nd
          end
        else if 0 <? holdMs action then
          Advance_nd consumed (hold_key_nd (sym action) (holdMs action) w)
        else
          Advance_nd consumed (pressKey (sym action) (add_log (QuickPress (sym action)) w))
      else
        let c := char_at text i in
        Advance_nd 1 (usleep 30000 (send_char c (add_log (SendingChar c) w))).

(** The [while] loop, from position [i]; it returns the last [i]. *)
Equations? typing_loop_nd (text : string) (i : nat) (w : world)
  : option (nat * world) by wf (String.length text - i)%nat lt :=
  typing_loop_nd text i w with inspect (typing_step_nd text i w) := {
    | exist _ (Leave_nd w') _ => Some (i, w')
    | exist _ TooDeep_nd _ => None
    | exist _ (Advance_nd n w') Hstep => typing_loop_nd text (i + n)%nat w' }.
Proof.
  unfold typing_step_nd in Hstep.
  assert (Hin : forall t j, Ascii.eqb (char_at t j) zero = false ->
                       (j < String.length t)%nat).
  { induction t as [|c t IH]; intros [|j] Hz; simpl in *;
      try discriminate; try lia.
    specialize (IH j Hz). lia. }
  assert (Hlt : (i < String.length text)%nat).
  { destruct (Ascii.eqb (char_at text i) zero) eqn:Hz; [discriminate|].
    apply Hin, Hz. }
  assert (Hpos : (0 < n)%nat).
  { destruct (Ascii.eqb (char_at text i) zero || g_stopRequested w);
      [discriminate|].
    destruct (g_stopRequested (poll_nd F2Typing F1Typing w)); [discriminate|].
    destruct (parse_special_token _ _ _) as [[consumed action] w1].
    destruct (0 <? consumed)%nat eqn:Hc.
    - apply Nat.ltb_lt in Hc.
      destruct (negb (useExpand action =? 0)).
      + destruct (expand_and_parse_nd _ _); inversion Hstep; subst; exact Hc.
      + destruct (0 <? holdMs action); inversion Hstep; subst; exact Hc.
    - inversion Hstep; lia. }
  lia.
Qed.

End Loop.

(** [parse_and_type], [depth] activations deep at most: the nested call of
    [expand_and_parse] has one activation less. *)
Fixpoint parse_and_type_nd (depth : nat) (text : string) (w : world)
  : option world :=
  match depth with
  | O => None
  | S depth' =>
      match typing_loop_nd (parse_and_type_nd depth') text 0 (nodelay true w) with
      | Some (_, w') => Some (nodelay false w')
      | None => None
      end
  end.

Definition expand_and_parse_nd (depth : nat) (chunk : string) (w : world)
  : option world :=
  parse_and_type_nd depth chunk w.

(** *** The run loop *)

(** [nodelay(stdscr, TRUE); while (remain > 0 && !g_stopRequested) {...}
    nodelay(stdscr, FALSE);], the shape of both delays of
    [simulate_typing]. *)
Definition delay_nd (onF2 onF1 : log_line) (ms : Z) (w : world) : world :=
  nodelay false (wait_loop_nd onF2 onF1 ms (nodelay true w)).

(** One body of [for (l = 0; l < loops; l++)]: [inl] leaves the loop
    ([break]), [inr] goes on to [l++]. *)
Definition loop_body_nd (depth : nat) (text : string) (loops loopDelay_ms l : Z)
  (w : world) : option (world + world) :=
  if g_stopRequested w then Some (inl w)
  else
    match parse_and_type_nd depth text (add_log (LoopBegin (l + 1) loops) w) with
    | None => None
    | Some w =>
        if g_stopRequested w
        then Some (inl (add_log (LoopInterrupted (l + 1) loops) w))
        else
          let w := add_log (LoopDone (l + 1) loops) w in
          if (l <? loops - 1) && (0 <? loopDelay_ms) then
            let w := add_log (SleepingNext loopDelay_ms) w in
            let w := delay_nd F2Between F1Between loopDelay_ms w in
            if g_stopRequested w
            then Some (inl (add_log (AbortedBetween (l + 1) loops) w))
            else Some (inr w)
          else Some (inr w)
    end.

Equations? run_loops_nd (depth : nat) (text : string) (loops loopDelay_ms l : Z)
  (w : world) : option world by wf (Z.to_nat (loops - l)) lt :=
  run_loops_nd depth text loops loopDelay_ms l w with Z_lt_dec l loops := {
    | right _ => Some w
    | left _ with loop_body_nd depth text loops loopDelay_ms l w := {
        | None => None
        | Some (inl w') => Some w'
        | Some (inr w') => run_loops_nd depth text loops loopDelay_ms (l + 1) w' } }.
Proof. lia. Qed.

Definition simulate_typing_nd (depth : nat) (text : string)
  (loops startDelay_ms loopDelay_ms : Z) (w : world) : option world :=
  let w := add_log (SimStart startDelay_ms loopDelay_ms loops text) w in
  let w := reset_stop w in
  let finish (w : world) :=
    match run_loops_nd depth text loops loopDelay_ms 0 w with
    | None => None
    | Some w =>
        if negb (g_stopRequested w) then Some (add_log AllDone w)
        else Some (add_log StoppedByUser w)
    end in
  if 0 <? startDelay_ms then
    let w := add_log (SleepingBefore startDelay_ms) w in
    let w := delay_nd F2Before F1Before startDelay_ms w in
    if g_stopRequested w then Some (add_log AbortedBefore w)
    else finish w
  else finish w.


(** *** The fields and the main loop

    [main] keeps four fields in [char] arrays, the cursor position in each
    and the active field.  One turn of its [while (1)] loop draws the
    screen, reads a key and acts on it; the drawing (from [erase()] to
    [refresh()]) changes no variable of the program and is left out.  The
    lines [main] logs and the effects of the runs it starts are kept in one
    list, in the order they happen. *)

Definition KEY_BACKSPACE : Z := 263.

Inductive ui_line : Type :=
| ProgramStarted
| TipKeys
| TipReset
| TipTokens
| KeyPressed (key shown count : Z)
| FieldsReset
| StopRequested.

Inductive ui_event : Type :=
| Ui (line : ui_line)
| Info (line : info_line)
| Core (e : event).

Record fields : Type := mkFields {
  text_str : list ascii;
  startDelay_str : list ascii;
  loopDelay_str : list ascii;
  loops_str : list ascii;
  text_pos : Z;
  startDelay_pos : Z;
  loopDelay_pos : Z;
  loops_pos : Z;
  field : Z
}.

(** The fields, the two counters of the key log, [g_stopRequested], what
    has happened so far and the values the coming [getch()] calls of the
    main loop and of the runs return. *)
Record ui_state : Type := mkUi {
  form : fields;
  s_lastKey : Z;
  s_repeatCount : Z;
  stop : bool;
  trace : list ui_event;
  input : list Z
}.

(** What a turn of the main loop comes to: the next state; an access
    outside an array or an overflow of an [int] (undefined in C); a run
    that waits for a key for ever, in the state given; or a run that needs
    more activations than it was given. *)
Inductive outcome : Type :=
| Goes (a : ui_state)
| Undefined
| Waiting (a : ui_state)
| Deeper.

(** The C string in a [char] array: the characters before the first NUL;
    without a NUL the read leaves the array. *)
Fixpoint cstring (buf : list ascii) : option string :=
  match buf with
  | [] => None
  | c :: t =>
      if Ascii.eqb c zero then Some EmptyString
      else match cstring t with
           | Some s => Some (String c s)
           | None => None
           end
  end.

(** [strcpy(dst, src)] for a literal [src]. *)
Fixpoint strcpy (src : string) (dst : list ascii) : option (list ascii) :=
  match src, dst with
  | _, [] => None
  | EmptyString, _ :: t => Some (zero :: t)
  | String c s, _ :: t =>
      match strcpy s t with
      | Some t' => Some (c :: t')
      | None => None
      end
  end.

(** [char name[size] = "..."]: the literal, then zeros. *)
Definition char_array (size : nat) (init : string) : list ascii :=
  list_ascii_of_string init ++ repeat zero (size - String.length init).

(** [buf[pos++] = (char)ch; buf[pos] = '\0';] *)
Definition put_char (buf : list ascii) (pos ch : Z)
  : option (list ascii * Z) :=
  match store_at pos (ascii_of_nat (Z.to_nat ch)) buf with
  | None => None
  | Some buf1 =>
      match store_at (pos + 1) zero buf1 with
      | None => None
      | Some buf2 => Some (buf2, pos + 1)
      end
  end.

(** [buf[--pos] = '\0';] *)
Definition del_char (buf : list ascii) (pos : Z) : option (list ascii * Z) :=
  match store_at (pos - 1) zero buf with
  | None => None
  | Some buf1 => Some (buf1, pos - 1)
  end.

Definition initial_fields : fields :=
  mkFields (char_array 256 EmptyString) (char_array 16 "3000")
    (char_array 16 "2000") (char_array 16 "1") 0 4 4 1 0.

Definition log_ui (line : ui_line) (a : ui_state) : ui_state :=
  mkUi (form a) (s_lastKey a) (s_repeatCount a) (stop a)
    (trace a ++ [Ui line]) (input a).

Definition with_form (f : fields) (a : ui_state) : ui_state :=
  mkUi f (s_lastKey a) (s_repeatCount a) (stop a) (trace a) (input a).

(** The state [main] enters its loop in, [info] being the line
    [load_messages_file] has logged and [keys] the keys to come. *)
Definition started (info : info_line) (keys : list Z) : ui_state :=
  mkUi initial_fields (-1) 0 false
    [Info info; Ui ProgramStarted; Ui TipKeys; Ui TipReset; Ui TipTokens]
    keys.

Definition flush_key_log (a : ui_state) : ui_state :=
  let a :=
    if (0 <=? s_lastKey a) && (0 <? s_repeatCount a) then
      log_ui (KeyPressed (s_lastKey a)
                (if (32 <=? s_lastKey a) && (s_lastKey a <=? 126)
                 then s_lastKey a else 63)
                (s_repeatCount a)) a
    else a in
  mkUi (form a) (-1) 0 (stop a) (trace a) (input a).

Definition resetAllFields (a : ui_state) : outcome :=
  let f := form a in
  match store_at 0 zero (text_str f), strcpy "3000" (startDelay_str f),
        strcpy "2000" (loopDelay_str f), strcpy "1" (loops_str f) with
  | Some t, Some sd, Some ld, Some n =>
      Goes (log_ui FieldsReset
              (with_form (mkFields t sd ld n 0 4 4 1 (field f)) a))
  | _, _, _, _ => Undefined
  end.

(** [if (ch == s_lastKey) s_repeatCount++; else { flush_key_log();
    s_lastKey = ch; s_repeatCount = 1; }] *)
Definition count_key (ch : Z) (a : ui_state) : outcome :=
  if ch =? s_lastKey a then
    if s_repeatCount a =? INT_MAX then Undefined
    else Goes (mkUi (form a) (s_lastKey a) (s_repeatCount a + 1) (stop a)
                 (trace a) (input a))
  else
    let a := flush_key_log a in
    Goes (mkUi (form a) ch 1 (stop a) (trace a) (input a)).

(** The branch for [KEY_BACKSPACE] and 127. *)
Definition backspace (f : fields) : option fields :=
  if (field f =? 0) && (0 <? text_pos f) then
    match del_char (text_str f) (text_pos f) with
    | Some (buf, pos) =>
        Some (mkFields buf (startDelay_str f) (loopDelay_str f) (loops_str f)
                pos (startDelay_pos f) (loopDelay_pos f) (loops_pos f)
                (field f))
    | None => None
    end
  else if (field f =? 1) && (0 <? startDelay_pos f) then
    match del_char (startDelay_str f) (startDelay_pos f) with
    | Some (buf, pos) =>
        Some (mkFields (text_str f) buf (loopDelay_str f) (loops_str f)
                (text_pos f) pos (loopDelay_pos f) (loops_pos f) (field f))
    | None => None
    end
  else if (field f =? 2) && (0 <? loopDelay_pos f) then
    match del_char (loopDelay_str f) (loopDelay_pos f) with
    | Some (buf, pos) =>
        Some (mkFields (text_str f) (startDelay_str f) buf (loops_str f)
                (text_pos f) (startDelay_pos f) pos (loops_pos f) (field f))
    | None => None
    end
  else if (field f =? 3) && (0 <? loops_pos f) then
    match del_char (loops_str f) (loops_pos f) with
    | Some (buf, pos) =>
        Some (mkFields (text_str f) (startDelay_str f) (loopDelay_str f) buf
                (text_pos f) (startDelay_pos f) (loopDelay_pos f) pos
                (field f))
    | None => None
    end
  else Some f.

(** [ch >= '0' && ch <= '9'] for an [int]. *)
Definition is_digit_key (ch : Z) : bool := (48 <=? ch) && (ch <=? 57).

(** The branch for the printable characters: any of them into the text,
    digits only into the numeric fields, and nothing into a full field. *)
Definition insert (ch : Z) (f : fields) : option fields :=
  if (field f =? 0) && (text_pos f <? 255) then
    match put_char (text_str f) (text_pos f) ch with
    | Some (buf, pos) =>
        Some (mkFields buf (startDelay_str f) (loopDelay_str f) (loops_str f)
                pos (startDelay_pos f) (loopDelay_pos f) (loops_pos f)
                (field f))
    | None => None
    end
  else if (field f =? 1) && (startDelay_pos f <? 15) && is_digit_key ch then
    match put_char (startDelay_str f) (startDelay_pos f) ch with
    | Some (buf, pos) =>
        Some (mkFields (text_str f) buf (loopDelay_str f) (loops_str f)
                (text_pos f) pos (loopDelay_pos f) (loops_pos f) (field f))
    | None => None
    end
  else if (field f =? 2) && (loopDelay_pos f <? 15) && is_digit_key ch then
    match put_char (loopDelay_str f) (loopDelay_pos f) ch with
    | Some (buf, pos) =>
        Some (mkFields (text_str f) (startDelay_str f) buf (loops_str f)
                (text_pos f) (startDelay_pos f) pos (loops_pos f) (field f))
    | None => None
    end
  else if (field f =? 3) && (loops_pos f <? 15) && is_digit_key ch then
    match put_char (loops_str f) (loops_pos f) ch with
    | Some (buf, pos) =>
        Some (mkFields (text_str f) (startDelay_str f) (loopDelay_str f) buf
                (text_pos f) (startDelay_pos f) (loopDelay_pos f) pos
                (field f))
    | None => None
    end
  else Some f.

(** The branch for ['\n']: the numbers in the three numeric fields, a
    negative delay raised to 0 and a number of loops below 1 to 1, and
    the run. *)
Definition enter (depth : nat) (a : ui_state) : outcome :=
  let f := form a in
  match cstring (text_str f), cstring (startDelay_str f),
        cstring (loopDelay_str f), cstring (loops_str f) with
  | Some script, Some sd, Some ld, Some n =>
      let start_ms := atoi sd in
      let loop_ms := atoi ld in
      let loops := atoi n in
      let start_ms := if start_ms <? 0 then 0 else start_ms in
      let loop_ms := if loop_ms <? 0 then 0 else loop_ms in
      let loops := if loops <? 1 then 1 else loops in
      match simulate_typing depth script loops start_ms loop_ms
              (mkWorld (stop a) [] (input a)) with
      | Returns w =>
          Goes (mkUi f (s_lastKey a) (s_repeatCount a) (g_stopRequested w)
                  (trace a ++ map Core (effects w)) (pending w))
      | Waits w =>
          Waiting (mkUi f (s_lastKey a) (s_repeatCount a) (g_stopRequested w)
                     (trace a ++ map Core (effects w)) (pending w))
      | TooDeep => Deeper
      end
  | _, _, _, _ => Undefined
  end.

(** The chain of [if]s on the key. *)
Definition handle_key (depth : nat) (ch : Z) (a : ui_state) : outcome :=
  if ch =? KEY_F 1 then resetAllFields a
  else if ch =? KEY_F 2 then
    let a := log_ui StopRequested a in
    Goes (mkUi (form a) (s_lastKey a) (s_repeatCount a) true (trace a)
            (input a))
  else if ch =? 9 then
    let f := form a in
    if field f =? INT_MAX then Undefined
    else
      Goes (with_form
              (mkFields (text_str f) (startDelay_str f) (loopDelay_str f)
                 (loops_str f) (text_pos f) (startDelay_pos f)
                 (loopDelay_pos f) (loops_pos f) (Z.rem (field f + 1) 4)) a)
  else if ch =? 10 then enter depth a
  else if (ch =? KEY_BACKSPACE) || (ch =? 127) then
    match backspace (form a) with
    | Some f => Goes (with_form f a)
    | None => Undefined
    end
  else if (32 <=? ch) && (ch <=? 126) then
    match insert ch (form a) with
    | Some f => Goes (with_form f a)
    | None => Undefined
    end
  else Goes a.

(** From [getch()] to the end of the loop body, [ch] being the key read. *)
Definition main_turn (depth : nat) (ch : Z) (a : ui_state) : outcome :=
  match count_key ch a with
  | Goes a => handle_key depth ch a
  | r => r
  end.

(** [turns] turns of the main loop at most.  [main] reads its keys in
    blocking mode, the mode [initscr] and every run leave the terminal in.
    [Goes a] is the state after these turns, or the state in which the loop
    stands in [getch()] when the keyboard has no key left to give. *)
Fixpoint main_loop (depth turns : nat) (a : ui_state) : outcome :=
  match turns with
  | O => Goes a
  | S turns' =>
      match getch false (input a) with
      | None => Goes a
      | Some (ch, keys) =>
          match main_turn depth ch
                  (mkUi (form a) (s_lastKey a) (s_repeatCount a) (stop a)
                     (trace a) keys) with
          | Goes a' => main_loop depth turns' a'
          | r => r
          end
      end
  end.

(** ** Vocabulary of the statements *)

(** What the scanner returns, by component. *)
Definition consumed_of (r : nat * TokenAction * world) : nat := fst (fst r).
Definition action_of (r : nat * TokenAction * world) : TokenAction := snd (fst r).
Definition world_of (r : nat * TokenAction * world) : world := snd r.

(** The scanner's count for a text; the world only receives log lines. *)
Definition consumed_at (text : string) : nat :=
  consumed_of (parse_special_token text zero_action (mkWorld false [] [])).

Definition action_at (text : string) : TokenAction :=
  action_of (parse_special_token text zero_action (mkWorld false [] [])).

(** How far the interpreter moves over a text that starts at a position it
    scans: [i += consumed] or [i++]. *)
Definition step_width (text : string) : nat :=
  if (0 <? consumed_at text)%nat then consumed_at text else 1%nat.

(** The positions of [text] the loop of [parse_and_type] stands at when no
    stop is requested. *)
Inductive visited (text : string) : nat -> Prop :=
| visited_start : visited text 0
| visited_next i :
    visited text i -> char_at text i <> zero ->
    visited text (i + step_width (advance i text)).

(** A run of the [while] loop from position [i]: the advances it makes, and
    how it ends. *)
Inductive loop_run_nd (expand : string -> world -> option world) (text : string)
  : nat -> world -> list nat -> option (nat * world) -> Prop :=
| run_nd_leave i w w' :
    typing_step_nd expand text i w = Leave_nd w' ->
    loop_run_nd expand text i w [] (Some (i, w'))
| run_nd_too_deep i w :
    typing_step_nd expand text i w = TooDeep_nd ->
    loop_run_nd expand text i w [] None
| run_nd_advance i w n w1 ns r :
    typing_step_nd expand text i w = Advance_nd n w1 ->
    loop_run_nd expand text (i + n) w1 ns r ->
    loop_run_nd expand text i w (n :: ns) r.

(** The positions a list of advances starts from. *)
Fixpoint starts (i : nat) (ns : list nat) : list nat :=
  match ns with
  | [] => []
  | n :: ns' => i :: starts (i + n) ns'
  end.

(** The pieces a list of advances cuts a text into. *)
Fixpoint pieces (ns : list nat) (text : string) : list string :=
  match ns with
  | [] => []
  | n :: ns' => take n text :: pieces ns' (advance n text)
  end.

Fixpoint join (l : list string) : string :=
  match l with
  | [] => EmptyString
  | s :: l' => (s ++ join l')%string
  end.

(** Projections of the effects. *)
Definition observe {A : Type} (f : event -> option A) (evs : list event)
  : list A :=
  flat_map (fun e => match f e with Some a => [a] | None => [] end) evs.

Definition typed_char (e : event) : option ascii :=
  match e with Log (SendingChar c) => Some c | _ => None end.

Definition fake_key (e : event) : option (KeyCode * bool) :=
  match e with FakeKey kc b => Some (kc, b) | _ => None end.

Definition inserted (e : event) : option string :=
  match e with Log (InsertLine buf) => Some buf | _ => None end.

Definition begun (e : event) : option Z :=
  match e with Log (LoopBegin l1 _) => Some l1 | _ => None end.

Definition next_sleep (e : event) : option Z :=
  match e with Log (SleepingNext ms) => Some ms | _ => None end.

(** The log lines of [simulate_typing] itself. *)
Definition controller_line (line : log_line) : bool :=
  match line with
  | SimStart _ _ _ _ | SleepingBefore _ | F2Before | F1Before | AbortedBefore
  | LoopBegin _ _ | LoopInterrupted _ _ | LoopDone _ _ | SleepingNext _
  | F2Between | F1Between | AbortedBetween _ _ | AllDone | StoppedByUser => true
  | _ => false
  end.

(** What [parse_and_type] and the functions under it can emit. *)
Definition interpreter_event (e : event) : Prop :=
  match e with
  | Log line => controller_line line = false
  | _ => True
  end.

Definition any_event (e : event) : Prop := True.

(** [w'] is [w] after more effects, all of them in [Q]. *)
Definition emits (Q : event -> Prop) (w w' : world) : Prop :=
  exists d, effects w' = effects w ++ d /\ Forall Q d.

(** No stop is requested, and none will be: F2 is not among the keys to
    come. *)
Definition calm (w : world) : Prop :=
  g_stopRequested w = false /\ ~ In (KEY_F 2) (pending w).

(** The flag is a latch from [w] to [w']. *)
Definition latched (w w' : world) : Prop :=
  g_stopRequested w = true -> g_stopRequested w' = true.

(** [w'] follows [w]: more effects (all in [Q]), the flag latched, and no
    stop out of a calm world. *)
Definition follows (Q : event -> Prop) (w w' : world) : Prop :=
  emits Q w w' /\ latched w w' /\ (calm w -> calm w').

(** [t] holds, at a position the interpreter stands at, a message token
    that expands to [t']. *)
Definition splices_to (t t' : string) : Prop :=
  exists p, visited t p /\ char_at t p <> zero /\
            (0 < consumed_at (advance p t))%nat /\
            useExpand (action_at (advance p t)) <> 0 /\
            expandBuf (action_at (advance p t)) = t'.

(** The texts [{messageN}] can expand to. *)
Definition entries : list string := map (fun m => strncpy m 2047) g_messages.



Fixpoint all_digits (s : string) : bool :=
  match s with
  | EmptyString => true
  | String c t => is_digit c && all_digits t
  end.

Fixpoint no_nul (s : string) : bool :=
  match s with
  | EmptyString => true
  | String c t => negb (Ascii.eqb c zero) && no_nul t
  end.

(** The world after the scanner has looked at [text]. *)
Definition scanned (text : string) (w : world) : world :=
  world_of (parse_special_token text zero_action w).

(** The cases of one turn of the loop, at position [i] in world [w]. *)
Inductive turn_case_nd (expand : string -> world -> option world)
  (text : string) (i : nat) (w : world) : turn_nd -> Prop :=
| turn_end :
    char_at text i = zero \/ g_stopRequested w = true ->
    turn_case_nd expand text i w (Leave_nd w)
| turn_break :
    char_at text i <> zero -> g_stopRequested w = false ->
    g_stopRequested (poll_nd F2Typing F1Typing w) = true ->
    turn_case_nd expand text i w (Leave_nd (poll_nd F2Typing F1Typing w))
| turn_literal :
    char_at text i <> zero -> g_stopRequested w = false ->
    g_stopRequested (poll_nd F2Typing F1Typing w) = false ->
    consumed_at (advance i text) = O ->
    turn_case_nd expand text i w
      (Advance_nd 1
         (usleep 30000
            (send_char (char_at text i)
               (add_log (SendingChar (char_at text i))
                  (scanned (advance i text) (poll_nd F2Typing F1Typing w))))))
| turn_splice w' :
    char_at text i <> zero -> g_stopRequested w = false ->
    g_stopRequested (poll_nd F2Typing F1Typing w) = false ->
    (0 < consumed_at (advance i text))%nat ->
    useExpand (action_at (advance i text)) <> 0 ->
    expand (expandBuf (action_at (advance i text)))
      (add_log (InsertLine (expandBuf (action_at (advance i text))))
         (scanned (advance i text) (poll_nd F2Typing F1Typing w))) = Some w' ->
    turn_case_nd expand text i w (Advance_nd (consumed_at (advance i text)) w')
| turn_splice_deep :
    char_at text i <> zero -> g_stopRequested w = false ->
    g_stopRequested (poll_nd F2Typing F1Typing w) = false ->
    (0 < consumed_at (advance i text))%nat ->
    useExpand (action_at (advance i text)) <> 0 ->
    expand (expandBuf (action_at (advance i text)))
      (add_log (InsertLine (expandBuf (action_at (advance i text))))
         (scanned (advance i text) (poll_nd F2Typing F1Typing w))) = None ->
    turn_case_nd expand text i w TooDeep_nd
| turn_hold :
    char_at text i <> zero -> g_stopRequested w = false ->
    g_stopRequested (poll_nd F2Typing F1Typing w) = false ->
    (0 < consumed_at (advance i text))%nat ->
    useExpand (action_at (advance i text)) = 0 ->
    0 < holdMs (action_at (advance i text)) ->
    turn_case_nd expand text i w
      (Advance_nd (consumed_at (advance i text))
         (hold_key_nd (sym (action_at (advance i text)))
            (holdMs (action_at (advance i text)))
            (scanned (advance i text) (poll_nd F2Typing F1Typing w))))
| turn_tap :
    char_at text i <> zero -> g_stopRequested w = false ->
    g_stopRequested (poll_nd F2Typing F1Typing w) = false ->
    (0 < consumed_at (advance i text))%nat ->
    useExpand (action_at (advance i text)) = 0 ->
    holdMs (action_at (advance i text)) <= 0 ->
    turn_case_nd expand text i w
      (Advance_nd (consumed_at (advance i text))
         (pressKey (sym (action_at (advance i text)))
            (add_log (QuickPress (sym (action_at (advance i text))))
               (scanned (advance i text) (poll_nd F2Typing F1Typing w))))).

(** A call of [pressKeyDown] ([true]) or [pressKeyUp] ([false]), seen by
    what it leaves: the fake key event of the key code, or the warning
    about a key symbol without one. *)
Definition key_call (e : event) : option ((KeyCode + KeySym) * bool) :=
  match e with
  | FakeKey kc b => Some (inl kc, b)
  | Log (WarnKeycodeDown ks) => Some (inr ks, true)
  | Log (WarnKeycodeUp ks) => Some (inr ks, false)
  | _ => None
  end.

(** The key a call for [ks] acts on. *)
Definition key_of (ks : KeySym) : KeyCode + KeySym :=
  if XKeysymToKeycode ks =? 0 then inr ks else inl (XKeysymToKeycode ks).

(** The lines the loop over the iterations writes itself. *)
Definition loop_line (line : log_line) : bool :=
  match line with
  | LoopBegin _ _ | LoopInterrupted _ _ | LoopDone _ _ | SleepingNext _
  | F2Between | F1Between | AbortedBetween _ _ => true
  | _ => false
  end.

(** What the loop over the iterations can emit. *)
Definition loop_event (e : event) : Prop :=
  match e with
  | Log line => controller_line line = false \/ loop_line line = true
  | _ => True
  end.

(** What a delay can emit. *)
Definition delay_event (onF2 onF1 : log_line) (e : event) : Prop :=
  e = Log onF2 \/ e = Log onF1 \/ e = Usleep 50000 \/
  e = Nodelay true \/ e = Nodelay false.

(** The iteration numbers [l + 1], ..., [l + n], as [LoopBegin] logs them. *)
Definition iterations (l : Z) (n : nat) : list Z :=
  map (fun j => l + Z.of_nat j) (seq 1 n).

(** What a turn over a character that starts no token can emit. *)
Definition literal_event (e : event) : Prop :=
  match e with
  | Log (InsertLine _) | Log (FoundMessage _ _ _) | Log (Holding _ _)
  | Log (QuickPress _) => False
  | Log line => controller_line line = false
  | _ => True
  end.

(** [t] leads, through expansions, to a text that expands to itself again. *)
Definition doomed (t : string) : Prop :=
  exists c, clos_refl_trans string splices_to t c /\
            clos_trans string splices_to c c.

(** The scanner accepts nothing at any position of [text]. *)
Definition token_free (text : string) : bool :=
  forallb (fun p => (consumed_at (advance p text) =? 0)%nat)
    (seq 0 (String.length text)).

(** The calls made for a list of keys each pressed and then released. *)
Definition strokes (kss : list KeySym) : list ((KeyCode + KeySym) * bool) :=
  flat_map (fun ks => [(key_of ks, true); (key_of ks, false)]) kss.

(** The four lines that report F2. *)
Definition stop_line (e : event) : bool :=
  match e with
  | Log F2Typing | Log F2Hold | Log F2Before | Log F2Between => true
  | _ => false
  end.

(** What is left to a run once F2 has been read: the other keys of the
    same poll, the release of a held key with its 30 ms, the return to
    blocking input, and the closing lines. *)
Definition winding_down (e : event) : bool :=
  match e with
  | FakeKey _ is_press => negb is_press
  | Usleep usec => usec =? 30000
  | Nodelay bf => negb bf
  | Log line =>
      match line with
      | F2Typing | F1Typing | F2Hold | F1Hold | F2Before | F1Before
      | F2Between | F1Between | WarnKeycodeUp _ | LoopInterrupted _ _
      | AbortedBefore | AbortedBetween _ _ | StoppedByUser => true
      | _ => false
      end
  end.

(** The effects [d] between a world with flag [f] and a later one with flag
    [f']: no F2 line while the flag stays clear, and once it is set nothing
    but winding down. *)
Definition stops_promptly (f : bool) (d : list event) (f' : bool) : Prop :=
  if f then f' = true /\ Forall (fun e => winding_down e = true) d
  else if f' then
    exists a e b,
      d = a ++ e :: b /\ Forall (fun e => stop_line e = false) a /\
      stop_line e = true /\ Forall (fun e => winding_down e = true) b
  else Forall (fun e => stop_line e = false) d.

Definition prompt (w w' : world) : Prop :=
  exists d, effects w' = effects w ++ d /\
            stops_promptly (g_stopRequested w) d (g_stopRequested w').

(** Key calls and sleeps, in the order they happen. *)
Definition timeline (e : event) : option ((KeyCode + KeySym) * bool + Z) :=
  match key_call e with
  | Some call => Some (inl call)
  | None => match e with Usleep usec => Some (inr usec) | _ => None end
  end.

(** The slices of 50 ms a wait of [ms] milliseconds takes. *)
Definition slices (ms : Z) : nat := Z.to_nat ((ms + 49) / 50).

(** From [w] to [w'] every key that is pressed is released before anything
    else is done to a key. *)
Definition paired (w w' : world) : Prop :=
  exists d kss, effects w' = effects w ++ d /\
                observe key_call d = strokes kss.

(** The array [buf] of [size] characters holds the C string [s], and [pos]
    is the length of [s]. *)
Definition holds (buf : list ascii) (size : nat) (pos : Z) (s : string)
  : Prop :=
  List.length buf = size /\ cstring buf = Some s /\
  pos = Z.of_nat (String.length s) /\ (String.length s < size)%nat.

(** The four fields hold [script], [sd], [ld] and [n]. *)
Definition reads (f : fields) (script sd ld n : string) : Prop :=
  holds (text_str f) 256 (text_pos f) script /\
  holds (startDelay_str f) 16 (startDelay_pos f) sd /\
  holds (loopDelay_str f) 16 (loopDelay_pos f) ld /\
  holds (loops_str f) 16 (loops_pos f) n.

(** The fields are C strings within their arrays with the positions at
    their ends, the numeric ones digits only, and [field] is 0..3. *)
Definition form_ok (f : fields) : Prop :=
  exists script sd ld n,
    reads f script sd ld n /\
    all_digits sd = true /\ all_digits ld = true /\ all_digits n = true /\
    0 <= field f < 4.

(** The character a key code stands for. *)
Definition char_of_key (ch : Z) : ascii := ascii_of_nat (Z.to_nat ch).

Definition keys_of (s : string) : list Z :=
  map (fun c => Z.of_nat (nat_of_ascii c)) (list_ascii_of_string s).

(** Printable: [' '] to ['~']. *)
Definition printable (c : ascii) : bool :=
  ((32 <=? nat_of_ascii c) && (nat_of_ascii c <=? 126))%nat.

(** [s] without its last character. *)
Definition chop (s : string) : string := take (Nat.pred (String.length s)) s.

(** The key lines of the log, as key and count. *)
Definition key_line (e : ui_event) : option (Z * Z) :=
  match e with
  | Ui (KeyPressed key _ count) => Some (key, count)
  | _ => None
  end.

Definition key_lines (evs : list ui_event) : list (Z * Z) :=
  flat_map (fun e => match key_line e with Some r => [r] | None => [] end) evs.

(** The run of equal keys the counters stand for. *)
Definition counted (a : ui_state) : list (Z * Z) :=
  if s_lastKey a <? 0 then [] else [(s_lastKey a, s_repeatCount a)].

(** The keys a list of runs stands for. *)
Definition unfolded (runs : list (Z * Z)) : list Z :=
  flat_map (fun r => repeat (fst r) (Z.to_nat (snd r))) runs.

(** Neighbouring runs are runs of different keys. *)
Fixpoint maximal (runs : list (Z * Z)) : Prop :=
  match runs with
  | r :: ((r' :: _) as rest) => fst r <> fst r' /\ maximal rest
  | _ => True
  end.

(** A state of the main loop whose fields are in order and whose repeat
    count is not negative. *)
Definition ui_ok (a : ui_state) : Prop :=
  form_ok (form a) /\ 0 <= s_repeatCount a.

(** The effects of the runs among what has happened. *)
Definition core_events (evs : list ui_event) : list event :=
  flat_map (fun e => match e with Core e => [e] | _ => [] end) evs.

(** The runs of keys the main loop has counted: the ones logged, and the
    one the counters stand for. *)
Definition key_log (a : ui_state) : list (Z * Z) :=
  key_lines (trace a) ++ counted a.

(** The runs counted so far are the keys [read] so far, cut where the key
    changes. *)
Definition counts (a : ui_state) (read : list Z) : Prop :=
  unfolded (key_log a) = read /\ maximal (key_log a) /\
  Forall (fun r => 0 <= fst r /\ 1 <= snd r) (key_log a) /\
  (s_lastKey a < 0 -> key_lines (trace a) = []) /\
  0 <= s_repeatCount a.

(** ** Vocabulary for the terminal mode *)

(** An effect that is no call of [nodelay]. *)
Definition keeps_mode (e : event) : Prop :=
  match e with Nodelay _ => False | _ => True end.

(** The values that are keys, as blocking reads see them. *)
Definition keys_only (keys : list Z) : list Z :=
  filter (fun ch => negb (ch =? ERR)) keys.

(** A run of the [while] loop of [parse_and_type] from position [i]: the
    advances it makes, and how it ends. *)
Inductive loop_run (expand : string -> world -> result world) (text : string)
  : nat -> world -> list nat -> result (nat * world) -> Prop :=
| run_leave i w w' :
    typing_step expand text i w = Returns (Leave w') ->
    loop_run expand text i w [] (Returns (i, w'))
| run_waits i w w' :
    typing_step expand text i w = Waits w' ->
    loop_run expand text i w [] (Waits w')
| run_too_deep i w :
    typing_step expand text i w = TooDeep ->
    loop_run expand text i w [] TooDeep
| run_advance i w n w1 ns r :
    typing_step expand text i w = Returns (Advance n w1) ->
    loop_run expand text (i + n) w1 ns r ->
    loop_run expand text i w (n :: ns) r.

(** What a call comes to when [getch()] never waits, as a [result]. *)
Definition returned {A : Type} (o : option A) : result A :=
  match o with
  | Some a => Returns a
  | None => TooDeep
  end.

Definition turn_of (t : turn_nd) : result turn :=
  match t with
  | Leave_nd w => Returns (Leave w)
  | Advance_nd n w => Returns (Advance n w)
  | TooDeep_nd => TooDeep
  end.

(** [f_nd] computes what [f] returns, and fails where [f] needs more
    activations. *)
Definition agrees {A B : Type} (f : A -> world -> result B)
  (f_nd : A -> world -> option B) : Prop :=
  forall a w,
    match f a w with
    | Returns b => f_nd a w = Some b
    | Waits _ => True
    | TooDeep => f_nd a w = None
    end.

(** What [expand] returns, for the program in which no call waits. *)
Definition erase (expand : string -> world -> result world)
  : string -> world -> option world :=
  fun s w => match expand s w with Returns w' => Some w' | _ => None end.

(** A message token is accepted at position [i] of [text]. *)
Definition splice_at (text : string) (i : nat) : Prop :=
  (0 < consumed_at (advance i text))%nat /\
  useExpand (action_at (advance i text)) <> 0.

(** No message token is accepted at any position of [text]. *)
Definition splice_free (text : string) : Prop :=
  forall p, (0 < consumed_at (advance p text))%nat ->
            useExpand (action_at (advance p text)) = 0.

(** The positions of [text] the loop stands at before it has expanded a
    message token. *)
Inductive visited_first (text : string) : nat -> Prop :=
| first_start : visited_first text 0
| first_next i :
    visited_first text i -> char_at text i <> zero -> ~ splice_at text i ->
    visited_first text (i + step_width (advance i text)).

(** The first message token of [t] that the interpreter accepts expands to
    [t']. *)
Definition first_splices_to (t t' : string) : Prop :=
  exists p, visited_first t p /\ char_at t p <> zero /\ splice_at t p /\
            expandBuf (action_at (advance p t)) = t'.


(** * Properties *)

(** ** The loops, unfolded once *)

Lemma wait_loop_nd_eq onF2 onF1 remain w :
  wait_loop_nd onF2 onF1 remain w =
  if 0 <? remain then
    if g_stopRequested w then w
    else wait_loop_nd onF2 onF1 (remain - 50) (poll_nd onF2 onF1 (usleep 50000 w))
  else w.
Proof.
  rewrite wait_loop_nd_equation_1. 
  destruct (Z_lt_dec 0 remain) as [H|H]; simpl;
    destruct (Z.ltb_spec 0 remain); try lia; reflexivity.
Qed.

Lemma typing_loop_nd_eq expand text i w :
  typing_loop_nd expand text i w =
  match typing_step_nd expand text i w with
  | Leave_nd w' => Some (i, w')
  | TooDeep_nd => None
  | Advance_nd n w' => typing_loop_nd expand text (i + n) w'
  end.
Proof.
  rewrite typing_loop_nd_equation_1. unfold inspect.
  assert (H : forall t (e : typing_step_nd expand text i w = t),
             typing_loop_nd_unfold_clause_1 expand text i w (exist _ t e) =
             match t with
             | Leave_nd w' => Some (i, w')
             | TooDeep_nd => None
             | Advance_nd n w' => typing_loop_nd expand text (i + n) w'
             end).
  { intros t e. destruct t; simp typing_loop_nd; reflexivity. }
  apply H.
Qed.

Lemma run_loops_nd_eq depth text loops ld l w :
  run_loops_nd depth text loops ld l w =
  if l <? loops then
    match loop_body_nd depth text loops ld l w with
    | None => None
    | Some (inl w') => Some w'
    | Some (inr w') => run_loops_nd depth text loops ld (l + 1) w'
    end
  else Some w.
Proof.
  rewrite run_loops_nd_equation_1.
  destruct (Z_lt_dec l loops) as [H|H]; simpl;
    destruct (Z.ltb_spec l loops); try lia; [|reflexivity].
  destruct (loop_body_nd depth text loops ld l w) as [[?|?]|]; reflexivity.
Qed.

(** ** C strings: reading and advancing *)

Lemma char_at_advance i : forall text j,
  char_at (advance i text) j = char_at text (i + j).
Proof.
  induction i as [|i IH]; intros [|c t] j; simpl; auto.
Qed.

Lemma advance_advance i : forall text n,
  advance n (advance i text) = advance (i + n) text.
Proof.
  induction i as [|i IH]; intros [|c t] n; simpl; auto.
  destruct n; reflexivity.
Qed.

Lemma char_at_head text c :
  char_at text 0 = c -> c <> zero -> text = String c (advance 1 text).
Proof.
  destruct text as [|a t]; simpl; intros H Hc; subst; [contradiction|reflexivity].
Qed.

Lemma char_at_append_right s : forall rest j,
  char_at (s ++ rest) (String.length s + j) = char_at rest j.
Proof. induction s as [|c s IH]; intros rest j; simpl; auto. Qed.

Lemma char_at_append_left s : forall rest j,
  (j < String.length s)%nat -> char_at (s ++ rest) j = char_at s j.
Proof.
  induction s as [|c s IH]; intros rest j Hj; simpl in *; [lia|].
  destruct j; [reflexivity|]. apply IH. lia.
Qed.

Lemma append_assoc (a b c : string) : ((a ++ b) ++ c = a ++ (b ++ c))%string.
Proof. induction a as [|x a IH]; simpl; [reflexivity|now rewrite IH]. Qed.

Lemma append_length (a b : string) :
  String.length (a ++ b) = (String.length a + String.length b)%nat.
Proof. induction a as [|x a IH]; simpl; [reflexivity|now rewrite IH]. Qed.

Lemma append_empty_r (a : string) : (a ++ EmptyString)%string = a.
Proof. induction a as [|x a IH]; simpl; [reflexivity|now rewrite IH]. Qed.

Lemma eqb_zero_false c : c <> zero -> Ascii.eqb c zero = false.
Proof. intro H. apply Ascii.eqb_neq. exact H. Qed.

Lemma is_digit_not_zero c : is_digit c = true -> c <> zero.
Proof. intros H E. subst c. discriminate H. Qed.

Lemma is_digit_not_brace c : is_digit c = true -> Ascii.eqb c "}" = false.
Proof.
  intro H. apply Ascii.eqb_neq. intro E. subst c. discriminate H.
Qed.

(** [strncmp] against a word without NUL succeeds on that prefix only. *)
Lemma strncmp_eq_prefix s2 : forall s1,
  no_nul s2 = true ->
  strncmp_eq s1 s2 (String.length s2) = true ->
  s1 = (s2 ++ advance (String.length s2) s1)%string.
Proof.
  induction s2 as [|c s2 IH]; intros s1 Hn H; [reflexivity|].
  simpl in Hn. apply andb_prop in Hn as [Hc Hn].
  cbn [String.length strncmp_eq] in H.
  destruct s1 as [|a s1]; cbn [char_at] in H.
  - destruct (Ascii.eqb zero c) eqn:E; [|discriminate].
    apply Ascii.eqb_eq in E. subst c. discriminate Hc.
  - destruct (Ascii.eqb a c) eqn:E; [|discriminate].
    apply Ascii.eqb_eq in E. subst c.
    destruct (Ascii.eqb a zero); [discriminate Hc|].
    simpl in H. simpl. f_equal. apply IH; assumption.
Qed.

(** ** The digit loop *)

Opaque buf_room.

Lemma scan_digits_stop room text idx buf :
  is_digit (char_at text idx) = false ->
  scan_digits room text idx buf = (idx, buf).
Proof. intro H. destruct room; simpl; [reflexivity|now rewrite H]. Qed.

(** Over a run [ds] of digits the loop copies what fits the buffer. *)
Lemma scan_digits_run ds : forall room text idx buf tail,
  all_digits ds = true ->
  advance idx text = (ds ++ tail)%string ->
  (String.length ds <= room)%nat ->
  is_digit (char_at tail 0) = false ->
  scan_digits room text idx buf = ((idx + String.length ds)%nat, (buf ++ ds)%string).
Proof.
  induction ds as [|c ds IH]; intros room text idx buf tail Hd Ha Hr Ht.
  - simpl in *. rewrite Nat.add_0_r, append_empty_r.
    apply scan_digits_stop.
    replace idx with (idx + 0)%nat by lia.
    rewrite <- char_at_advance, Ha. exact Ht.
  - simpl in Hd. apply andb_prop in Hd as [Hc Hd].
    destruct room as [|room]; [simpl in Hr; lia|].
    cbn [scan_digits].
    assert (E : char_at text idx = c).
    { replace idx with (idx + 0)%nat by lia.
      rewrite <- char_at_advance, Ha. reflexivity. }
    rewrite E, Hc.
    rewrite (IH room text (S idx) _ tail); auto.
    + cbn [String.length]. f_equal; [lia|].
      rewrite append_assoc. reflexivity.
    + replace (S idx) with (idx + 1)%nat by lia.
      rewrite <- advance_advance, Ha. reflexivity.
    + simpl in Hr. lia.
Qed.

(** A run of digits longer than the buffer stops the loop on a digit. *)
Lemma scan_digits_full ds : forall room text idx buf tail,
  all_digits ds = true ->
  advance idx text = (ds ++ tail)%string ->
  (room < String.length ds)%nat ->
  exists buf',
    scan_digits room text idx buf = ((idx + room)%nat, buf') /\
    is_digit (char_at text (idx + room)) = true.
Proof.
  induction ds as [|c ds IH]; intros room text idx buf tail Hd Ha Hr.
  - simpl in Hr. lia.
  - simpl in Hd. apply andb_prop in Hd as [Hc Hd].
    assert (E : char_at text idx = c).
    { replace idx with (idx + 0)%nat by lia.
      rewrite <- char_at_advance, Ha. reflexivity. }
    destruct room as [|room].
    + exists buf. simpl. rewrite Nat.add_0_r, E. auto.
    + cbn [scan_digits]. rewrite E, Hc.
      destruct (IH room text (S idx) (buf ++ String c EmptyString)%string tail)
        as [buf' [H1 H2]]; auto.
      * replace (S idx) with (idx + 1)%nat by lia.
        rewrite <- advance_advance, Ha. reflexivity.
      * simpl in Hr. lia.
      * exists buf'. replace (idx + S room)%nat with (S idx + room)%nat by lia.
        auto.
Qed.

(** The loop moves forward over digits only. *)
Lemma scan_digits_span room : forall text idx buf idx' buf',
  scan_digits room text idx buf = (idx', buf') ->
  (idx <= idx')%nat /\
  forall k, (idx <= k < idx')%nat -> is_digit (char_at text k) = true.
Proof.
  induction room as [|room IH]; intros text idx buf idx' buf' H; simpl in H.
  - inversion H; subst. split; [lia|]. intros k Hk. lia.
  - destruct (is_digit (char_at text idx)) eqn:E.
    + apply IH in H as [H1 H2]. split; [lia|].
      intros k Hk. destruct (Nat.eq_dec k idx) as [->|Hne]; [exact E|].
      apply H2. lia.
    + inversion H; subst. split; [lia|]. intros k Hk. lia.
Qed.

(** ** What a scan returns does not depend on the world *)

Lemma scan_table_reject table : forall text out,
  fst (scan_table table text out) = O -> snd (scan_table table text out) = out.
Proof.
  induction table as [|[cmd ks] rest IH]; intros text out H; simpl in *; auto.
  destruct (strncmp_eq (advance 1 text) cmd (String.length cmd)); auto.
  destruct (Ascii.eqb _ "}"); [simpl in H; lia|].
  destruct (Ascii.eqb _ ":"); auto.
  destruct (scan_digits _ _ _ _) as [ds hb].
  destruct (Ascii.eqb _ "}"); [simpl in H; lia|auto].
Qed.

Lemma scan_table_out_irrelevant table : forall text out out',
  fst (scan_table table text out) = fst (scan_table table text out').
Proof.
  induction table as [|[cmd ks] rest IH]; intros text out out'; simpl; auto.
  destruct (strncmp_eq (advance 1 text) cmd (String.length cmd)); auto.
  destruct (Ascii.eqb _ "}"); auto.
  destruct (Ascii.eqb _ ":"); auto.
  destruct (scan_digits _ _ _ _) as [ds hb].
  destruct (Ascii.eqb _ "}"); auto.
Qed.

Lemma consumed_of_any text out w :
  consumed_of (parse_special_token text out w) = consumed_at text.
Proof.
  unfold consumed_at, consumed_of, parse_special_token.
  destruct (negb (Ascii.eqb (char_at text 0) "{")); [reflexivity|].
  destruct (strncmp_eq text "{message" 8).
  - destruct (scan_digits _ _ _ _) as [idx numBuf].
    destruct (Ascii.eqb _ "}"); [|reflexivity].
    destruct (_ || _); reflexivity.
  - pose proof (scan_table_out_irrelevant key_table text out zero_action) as E.
    destruct (scan_table key_table text out), (scan_table key_table text zero_action).
    simpl in *. exact E.
Qed.

(** ** A rejected scan and the caller's record *)

(** C10: a scan that returns 0 hands back the caller's [TokenAction] as it
    received it; the fields are written on the accepting paths only. *)
Theorem rejected_scan_leaves_action text out w :
  consumed_of (parse_special_token text out w) = O ->
  action_of (parse_special_token text out w) = out.
Proof.
  unfold consumed_of, action_of, parse_special_token.
  destruct (negb (Ascii.eqb (char_at text 0) "{")); [reflexivity|].
  destruct (strncmp_eq text "{message" 8).
  - destruct (scan_digits _ _ _ _) as [idx numBuf].
    destruct (Ascii.eqb _ "}"); [|reflexivity].
    destruct (_ || _); [reflexivity|]. simpl. lia.
  - pose proof (scan_table_reject key_table text out) as E.
    destruct (scan_table key_table text out) as [consumed out'].
    simpl in *. exact E.
Qed.

(** ** The keyword table *)

Lemma key_table_no_nul :
  Forall (fun e : string * KeySym => no_nul (fst e) = true) key_table.
Proof. repeat constructor. Qed.

(** An accepting pass of the table loop: which entry matched, and how. *)
Lemma scan_table_accept table : forall text out n a,
  scan_table table text out = (n, a) -> (0 < n)%nat ->
  exists cmd ks,
    In (cmd, ks) table /\
    strncmp_eq (advance 1 text) cmd (String.length cmd) = true /\
    sym a = ks /\ useExpand a = 0 /\ expandBuf a = expandBuf out /\
    ((char_at text (1 + String.length cmd) = "}"%char /\
      n = (String.length cmd + 2)%nat /\ holdMs a = 0) \/
     (char_at text (1 + String.length cmd) = ":"%char /\
      exists ds hb,
        scan_digits buf_room text (1 + String.length cmd + 1) EmptyString = (ds, hb) /\
        char_at text ds = "}"%char /\ n = (ds + 1)%nat /\ holdMs a = atoi hb)).
Proof.
  induction table as [|[cmd ks] rest IH]; intros text out n a H Hn;
    cbn [scan_table] in H.
  - inversion H; subst. lia.
  - destruct (strncmp_eq (advance 1 text) cmd (String.length cmd)) eqn:Hcmp.
    + exists cmd, ks. split; [left; reflexivity|]. split; [exact Hcmp|].
      destruct (Ascii.eqb (char_at text (1 + String.length cmd)) "}") eqn:Hb.
      * apply Ascii.eqb_eq in Hb. inversion H; subst; cbn.
        repeat split; auto; try (left; repeat split; auto; lia).
      * destruct (Ascii.eqb (char_at text (1 + String.length cmd)) ":") eqn:Hc.
        -- apply Ascii.eqb_eq in Hc.
           destruct (scan_digits _ _ _ _) as [ds hb] eqn:Hs.
           destruct (Ascii.eqb (char_at text ds) "}") eqn:Hd.
           ++ apply Ascii.eqb_eq in Hd. inversion H; subst; cbn.
              split; [reflexivity|]. split; [reflexivity|].
              split; [reflexivity|]. right. split; [exact Hc|].
              exists ds, hb. repeat split; auto.
           ++ inversion H; subst. lia.
        -- inversion H; subst. lia.
    + destruct (IH text out n a H Hn) as (c & k & Hin & Hrest).
      exists c, k. split; [right; exact Hin|exact Hrest].
Qed.

(** ** Keywords and what must follow them *)

(** C2: after [{] and one of the nine keywords the scanner accepts only
    when the next character is [}] (a quick press) or [:] (the hold path);
    any other character there gives 0 and leaves everything untouched.  The
    keyword is compared character by character, so an accepted key token is
    [{], a keyword of the table exactly as spelt there, and [}] or [:].
    [{upward}] and [{UP}] are not key tokens. *)
Theorem keyword_needs_terminator :
  (forall kw ks rest out w,
      In (kw, ks) key_table ->
      let r := parse_special_token ("{" ++ kw ++ rest) out w in
      (char_at rest 0 = "}"%char ->
       r = ((String.length kw + 2)%nat, mkTokenAction ks 0 (expandBuf out) 0, w)) /\
      (char_at rest 0 <> "}"%char -> char_at rest 0 <> ":"%char ->
       r = (O, out, w)) /\
      ((0 < consumed_of r)%nat ->
       (char_at rest 0 = "}"%char \/ char_at rest 0 = ":"%char) /\
       sym (action_of r) = ks /\ useExpand (action_of r) = 0 /\
       world_of r = w)) /\
  (forall text out w,
      (0 < consumed_of (parse_special_token text out w))%nat ->
      useExpand (action_of (parse_special_token text out w)) = 0 ->
      exists kw ks rest,
        In (kw, ks) key_table /\ text = ("{" ++ kw ++ rest)%string /\
        (char_at rest 0 = "}"%char \/ char_at rest 0 = ":"%char)) /\
  (forall out w, parse_special_token "{upward}" out w = (O, out, w)) /\
  (forall out w, parse_special_token "{UP}" out w = (O, out, w)).
Proof.
  split; [|split; [|split]].
  - intros kw ks rest out w Hin r. subst r.
    unfold key_table in Hin. simpl in Hin.
    repeat (destruct Hin as [Hin|Hin]; [inversion Hin; subst; clear Hin|]);
      try contradiction;
      unfold parse_special_token, consumed_of, action_of, world_of; cbn;
      (destruct (Ascii.eqb (char_at rest 0) "}") eqn:Hb;
       [apply Ascii.eqb_eq in Hb|apply Ascii.eqb_neq in Hb];
       [cbn; repeat split; auto; congruence|]);
      (destruct (Ascii.eqb (char_at rest 0) ":") eqn:Hc;
       [apply Ascii.eqb_eq in Hc|apply Ascii.eqb_neq in Hc];
       [|cbn; repeat split; auto; try congruence; lia]);
      (destruct (scan_digits _ _ _ _) as [ds hb];
       destruct (Ascii.eqb _ "}"); cbn;
       repeat split; auto; try congruence; lia).
  - intros text out w Hpos Hexp.
    unfold parse_special_token, consumed_of, action_of in Hpos, Hexp.
    destruct (Ascii.eqb (char_at text 0) "{") eqn:H0; cbn [negb] in Hpos, Hexp;
      [|cbn in Hpos; lia].
    apply Ascii.eqb_eq in H0.
    destruct (strncmp_eq text "{message" 8).
    + destruct (scan_digits _ _ _ _) as [idx numBuf].
      destruct (Ascii.eqb _ "}"); [|cbn in Hpos; lia].
      destruct (_ || _); [cbn in Hpos; lia|]. cbn in Hexp. discriminate.
    + destruct (scan_table key_table text out) as [n a] eqn:Hs.
      cbn in Hpos, Hexp.
      destruct (scan_table_accept _ _ _ _ _ Hs Hpos)
        as (cmd & ks & Hin & Hcmp & _ & _ & _ & Hshape).
      assert (Hnn : no_nul cmd = true).
      { pose proof key_table_no_nul as F. rewrite Forall_forall in F.
        apply (F (cmd, ks) Hin). }
      apply strncmp_eq_prefix in Hcmp; [|exact Hnn].
      exists cmd, ks, (advance (String.length cmd) (advance 1 text)).
      split; [exact Hin|].
      assert (Htext : text = String "{" (advance 1 text)).
      { apply char_at_head; [exact H0|discriminate]. }
      split.
      * cbn [append]. rewrite <- Hcmp. exact Htext.
      * rewrite !char_at_advance, Nat.add_0_r.
        destruct Hshape as [(H1 & _)|(H1 & _)]; [left|right]; exact H1.
  - intros out w. reflexivity.
  - intros out w. reflexivity.
Qed.

(** ** A hold token without digits *)


(** ** Effects: projections and growth *)

Lemma observe_app {A} (f : event -> option A) l1 l2 :
  observe f (l1 ++ l2) = observe f l1 ++ observe f l2.
Proof. unfold observe. apply flat_map_app. Qed.

Lemma observe_silent {A} (f : event -> option A) (Q : event -> Prop) d :
  (forall e, Q e -> f e = None) -> Forall Q d -> observe f d = [].
Proof.
  intros HQ H. induction H as [|e d He _ IH]; [reflexivity|].
  unfold observe in *. simpl. rewrite (HQ e He). exact IH.
Qed.

Lemma emits_refl Q w : emits Q w w.
Proof. exists []. split; [now rewrite app_nil_r|constructor]. Qed.

Lemma emits_trans Q w1 w2 w3 : emits Q w1 w2 -> emits Q w2 w3 -> emits Q w1 w3.
Proof.
  intros (d1 & E1 & F1) (d2 & E2 & F2). exists (d1 ++ d2). split.
  - rewrite E2, E1, app_assoc. reflexivity.
  - apply Forall_app. split; assumption.
Qed.

Lemma emits_weaken (Q Q' : event -> Prop) w w' :
  (forall e, Q e -> Q' e) -> emits Q w w' -> emits Q' w w'.
Proof.
  intros HQ (d & E & F). exists d. split; [exact E|].
  eapply Forall_impl; [exact HQ|exact F].
Qed.

Lemma emits_emit (Q : event -> Prop) e w : Q e -> emits Q w (emit e w).
Proof. intro H. exists [e]. split; [reflexivity|repeat constructor; exact H]. Qed.

Lemma emits_same_effects Q w w' : effects w' = effects w -> emits Q w w'.
Proof. intro E. exists []. split; [now rewrite app_nil_r|constructor]. Qed.

Lemma emits_observe {A} (f : event -> option A) Q w w' :
  (forall e, Q e -> f e = None) -> emits Q w w' ->
  observe f (effects w') = observe f (effects w).
Proof.
  intros HQ (d & E & F). rewrite E, observe_app.
  rewrite (observe_silent f Q d HQ F). apply app_nil_r.
Qed.

Lemma observe_emit {A} (f : event -> option A) e w :
  observe f (effects (emit e w)) =
  observe f (effects w) ++ match f e with Some a => [a] | None => [] end.
Proof.
  unfold emit. cbn [effects]. rewrite observe_app. unfold observe. simpl.
  rewrite app_nil_r. reflexivity.
Qed.

Lemma latched_refl w : latched w w.
Proof. intro H. exact H. Qed.

Lemma latched_trans w1 w2 w3 : latched w1 w2 -> latched w2 w3 -> latched w1 w3.
Proof. unfold latched. auto. Qed.

Lemma latched_same w w' : g_stopRequested w' = g_stopRequested w -> latched w w'.
Proof. unfold latched. congruence. Qed.

Lemma calm_same w w' :
  g_stopRequested w' = g_stopRequested w -> pending w' = pending w ->
  calm w -> calm w'.
Proof. unfold calm. intros -> ->. auto. Qed.

Lemma follows_refl Q w : follows Q w w.
Proof. split; [apply emits_refl|split; [apply latched_refl|auto]]. Qed.

Lemma follows_trans Q w1 w2 w3 :
  follows Q w1 w2 -> follows Q w2 w3 -> follows Q w1 w3.
Proof.
  intros (E1 & L1 & C1) (E2 & L2 & C2). split; [|split].
  - eapply emits_trans; eassumption.
  - eapply latched_trans; eassumption.
  - auto.
Qed.

Lemma follows_weaken (Q Q' : event -> Prop) w w' :
  (forall e, Q e -> Q' e) -> follows Q w w' -> follows Q' w w'.
Proof.
  intros HQ (E & L & C). split; [|split]; auto.
  eapply emits_weaken; eassumption.
Qed.

Lemma follows_emit (Q : event -> Prop) e w : Q e -> follows Q w (emit e w).
Proof.
  intro H. split; [apply emits_emit, H|split].
  - apply latched_same. reflexivity.
  - apply calm_same; reflexivity.
Qed.

(** ** Polling *)

Lemma drain_nd_follows onF2 onF1 : forall keys w,
  follows (fun e => e = Log onF2 \/ e = Log onF1)
    (mkWorld (g_stopRequested w) (effects w) keys) (drain_nd onF2 onF1 keys w).
Proof.
  induction keys as [|ch keys IH]; intro w; cbn [drain_nd].
  - apply follows_refl.
  - destruct (ch =? ERR) eqn:Herr.
    + split; [apply emits_same_effects; reflexivity|split].
      * apply latched_same. reflexivity.
      * intros [Hs Hp]. split; [exact Hs|]. cbn in *. tauto.
    + destruct (ch =? KEY_F 2) eqn:H2; [|destruct (ch =? KEY_F 1) eqn:H1].
      * specialize (IH (request_stop (add_log onF2 w))).
        destruct IH as (E & L & C). split; [|split].
        -- eapply emits_trans; [|exact E].
           exists [Log onF2]. split; [reflexivity|]. constructor; [left; reflexivity|constructor].
        -- intros _. apply L. reflexivity.
        -- intros [_ Hp]. exfalso. apply Hp. left.
           apply Z.eqb_eq in H2. auto.
      * specialize (IH (add_log onF1 w)).
        destruct IH as (E & L & C). split; [|split].
        -- eapply emits_trans; [|exact E].
           exists [Log onF1]. split; [reflexivity|]. constructor; [right; reflexivity|constructor].
        -- intro H. apply L. exact H.
        -- intros [Hs Hp]. apply C. split; [exact Hs|]. cbn in *. tauto.
      * specialize (IH w). destruct IH as (E & L & C). split; [|split].
        -- exact E.
        -- exact L.
        -- intros [Hs Hp]. apply C. split; [exact Hs|]. cbn in *. tauto.
Qed.

Lemma poll_nd_follows onF2 onF1 w :
  follows (fun e => e = Log onF2 \/ e = Log onF1) w (poll_nd onF2 onF1 w).
Proof.
  unfold poll_nd. pose proof (drain_nd_follows onF2 onF1 (pending w) w) as H.
  destruct w; exact H.
Qed.

Lemma wait_loop_nd_follows onF2 onF1 : forall n remain w,
  (Z.to_nat remain <= n)%nat ->
  follows (fun e => e = Log onF2 \/ e = Log onF1 \/ e = Usleep 50000)
    w (wait_loop_nd onF2 onF1 remain w).
Proof.
  induction n as [|n IH]; intros remain w Hn; rewrite wait_loop_nd_eq.
  - destruct (Z.ltb_spec 0 remain); [lia|apply follows_refl].
  - destruct (Z.ltb_spec 0 remain); [|apply follows_refl].
    destruct (g_stopRequested w); [apply follows_refl|].
    eapply follows_trans; [|apply IH; lia].
    eapply follows_trans; [apply follows_emit; auto|].
    eapply follows_weaken; [|apply poll_nd_follows]. cbn. tauto.
Qed.

Lemma wait_follows onF2 onF1 remain w :
  follows (fun e => e = Log onF2 \/ e = Log onF1 \/ e = Usleep 50000)
    w (wait_loop_nd onF2 onF1 remain w).
Proof. apply (wait_loop_nd_follows onF2 onF1 (Z.to_nat remain)). lia. Qed.


(** ** One turn of the interpreter loop *)

Lemma action_of_any_world text out w w0 :
  action_of (parse_special_token text out w) =
  action_of (parse_special_token text out w0).
Proof.
  unfold action_of, parse_special_token.
  destruct (negb (Ascii.eqb (char_at text 0) "{")); [reflexivity|].
  destruct (strncmp_eq text "{message" 8).
  - destruct (scan_digits _ _ _ _) as [idx numBuf].
    destruct (Ascii.eqb _ "}"); [|reflexivity].
    destruct (_ || _); reflexivity.
  - destruct (scan_table key_table text out). reflexivity.
Qed.

Lemma scan_result text w :
  parse_special_token text zero_action w =
  (consumed_at text, action_at text, scanned text w).
Proof.
  destruct (parse_special_token text zero_action w) as [[n a] w1] eqn:E.
  pose proof (consumed_of_any text zero_action w) as Hn.
  pose proof (action_of_any_world text zero_action w (mkWorld false [] [])) as Ha.
  unfold scanned. rewrite E in *. cbn in *. unfold action_at.
  rewrite <- Hn, <- Ha. reflexivity.
Qed.

Lemma typing_step_nd_case expand text i w :
  turn_case_nd expand text i w (typing_step_nd expand text i w).
Proof.
  unfold typing_step_nd.
  destruct (Ascii.eqb (char_at text i) zero) eqn:Hz.
  { apply Ascii.eqb_eq in Hz. cbn [orb]. apply turn_end. left. exact Hz. }
  apply Ascii.eqb_neq in Hz. cbn [orb].
  destruct (g_stopRequested w) eqn:Hw.
  { apply turn_end. right. exact Hw. }
  destruct (g_stopRequested (poll_nd F2Typing F1Typing w)) eqn:Hp.
  { apply turn_break; assumption. }
  rewrite scan_result.
  destruct (Nat.ltb_spec 0 (consumed_at (advance i text))) as [Hc|Hc].
  - destruct (Z.eqb_spec (useExpand (action_at (advance i text))) 0) as [He|He];
      cbn [negb].
    + destruct (Z.ltb_spec 0 (holdMs (action_at (advance i text)))).
      * apply turn_hold; assumption.
      * apply turn_tap; assumption.
    + destruct (expand _ _) as [w'|] eqn:Hx.
      * apply turn_splice; assumption.
      * apply turn_splice_deep; assumption.
  - apply turn_literal; try assumption. lia.
Qed.

(** An advance is the scanner's count, or one character. *)
Lemma typing_step_nd_width expand text i w n w' :
  typing_step_nd expand text i w = Advance_nd n w' ->
  n = step_width (advance i text) /\ char_at text i <> zero.
Proof.
  intro H. pose proof (typing_step_nd_case expand text i w) as C.
  rewrite H in C. unfold step_width.
  inversion C; subst; split; auto;
    try (destruct (Nat.ltb_spec 0 (consumed_at (advance i text))); [reflexivity|lia]).
  match goal with E : consumed_at _ = O |- _ => rewrite E end. reflexivity.
Qed.

(** ** The loop as a run *)

Lemma typing_loop_nd_run expand text : forall m i w,
  (String.length text - i <= m)%nat ->
  exists ns, loop_run_nd expand text i w ns (typing_loop_nd expand text i w).
Proof.
  induction m as [|m IH]; intros i w Hm; rewrite typing_loop_nd_eq;
    destruct (typing_step_nd expand text i w) as [w'|n w'|] eqn:Hs;
    try (exists []; constructor; exact Hs).
  - exfalso. pose proof (typing_step_nd_case expand text i w) as C.
    rewrite Hs in C.
    assert (Hz : char_at text i <> zero) by (inversion C; assumption).
    apply Hz. clear - Hm. revert i Hm.
    induction text as [|c t IHt]; intros i Hm; [destruct i; reflexivity|].
    destruct i; simpl in Hm; [lia|]. cbn. apply IHt. lia.
  - apply typing_step_nd_width in Hs as Hw. destruct Hw as [Hn Hz].
    assert (Hpos : (0 < n)%nat).
    { subst n. unfold step_width.
      destruct (Nat.ltb_spec 0 (consumed_at (advance i text))); lia. }
    destruct (IH (i + n)%nat w') as [ns Hr]; [lia|].
    exists (n :: ns). econstructor; eassumption.
Qed.

Lemma loop_run_nd_result expand text : forall i w ns r,
  loop_run_nd expand text i w ns r -> typing_loop_nd expand text i w = r.
Proof.
  induction 1 as [i w w' H|i w H|i w n w1 ns r H _ IH];
    rewrite typing_loop_nd_eq, H; auto.
Qed.

Lemma loop_run_nd_exists expand text i w :
  exists ns, loop_run_nd expand text i w ns (typing_loop_nd expand text i w).
Proof. apply (typing_loop_nd_run expand text (String.length text - i)). lia. Qed.

(** A stop request ends the loop where it stands. *)
Lemma typing_loop_nd_stopped expand text i w :
  g_stopRequested w = true -> typing_loop_nd expand text i w = Some (i, w).
Proof.
  intro H. rewrite typing_loop_nd_eq. unfold typing_step_nd.
  rewrite H, orb_true_r. reflexivity.
Qed.

Lemma typing_loop_nd_at_end expand text i w :
  char_at text i = zero -> typing_loop_nd expand text i w = Some (i, w).
Proof.
  intro H. rewrite typing_loop_nd_eq. unfold typing_step_nd.
  rewrite H. reflexivity.
Qed.

(** ** What the interpreter does to the world *)

Ltac follow_emit :=
  eapply follows_trans; [|apply follows_emit; first [exact I|reflexivity]].

Lemma pressKeyDown_follows ks w : follows interpreter_event w (pressKeyDown ks w).
Proof.
  unfold pressKeyDown. destruct (XKeysymToKeycode ks =? 0);
    apply follows_emit; first [exact I|reflexivity].
Qed.

Lemma pressKeyUp_follows ks w : follows interpreter_event w (pressKeyUp ks w).
Proof.
  unfold pressKeyUp. destruct (XKeysymToKeycode ks =? 0);
    apply follows_emit; first [exact I|reflexivity].
Qed.

Lemma pressKey_follows ks w : follows interpreter_event w (pressKey ks w).
Proof.
  unfold pressKey, usleep. follow_emit.
  eapply follows_trans; [|apply pressKeyUp_follows].
  follow_emit. apply pressKeyDown_follows.
Qed.

Lemma send_char_follows c w : follows interpreter_event w (send_char c w).
Proof.
  unfold send_char. destruct (map_char_to_keysym c =? NoSymbol).
  - apply follows_emit. reflexivity.
  - apply pressKey_follows.
Qed.

Lemma poll_nd_typing_follows onF2 onF1 w :
  controller_line onF2 = false -> controller_line onF1 = false ->
  follows interpreter_event w (poll_nd onF2 onF1 w).
Proof.
  intros H2 H1. eapply follows_weaken; [|apply poll_nd_follows].
  intros e [->| ->]; assumption.
Qed.

Lemma wait_typing_follows onF2 onF1 ms w :
  controller_line onF2 = false -> controller_line onF1 = false ->
  follows interpreter_event w (wait_loop_nd onF2 onF1 ms w).
Proof.
  intros H2 H1. eapply follows_weaken; [|apply wait_follows].
  intros e [->|[->| ->]]; first [assumption|exact I].
Qed.

(** The scanner writes at most one line, and nothing else. *)
Lemma scanned_cases text w :
  scanned text w = w \/
  (exists n c, scanned text w = add_log (WarnMessageRange n c) w) \/
  (exists b n e, scanned text w = add_log (FoundMessage b n e) w).
Proof.
  unfold scanned, world_of, parse_special_token.
  destruct (negb (Ascii.eqb (char_at text 0) "{")); [left; reflexivity|].
  destruct (strncmp_eq text "{message" 8).
  - destruct (scan_digits _ _ _ _) as [idx numBuf].
    destruct (Ascii.eqb _ "}"); [|left; reflexivity].
    destruct (_ || _); cbn [snd]; right; [left|right]; eauto.
  - destruct (scan_table key_table text zero_action). left. reflexivity.
Qed.

Lemma scanned_follows text w : follows interpreter_event w (scanned text w).
Proof.
  destruct (scanned_cases text w) as [E|[(n & c & E)|(b & n & e & E)]];
    rewrite E; [apply follows_refl| |]; apply follows_emit; reflexivity.
Qed.

Lemma hold_key_nd_follows ks ms w : follows interpreter_event w (hold_key_nd ks ms w).
Proof.
  unfold hold_key_nd, usleep. follow_emit.
  eapply follows_trans; [|apply pressKeyUp_follows].
  eapply follows_trans;
    [|apply (wait_typing_follows F2Hold F1Hold); reflexivity].
  eapply follows_trans; [|apply pressKeyDown_follows].
  apply follows_emit. reflexivity.
Qed.

Section LoopFacts.

Variable expand : string -> world -> option world.
Hypothesis expand_follows :
  forall s w w', expand s w = Some w' -> follows interpreter_event w w'.

Lemma typing_step_nd_follows text i w :
  match typing_step_nd expand text i w with
  | Leave_nd w' | Advance_nd _ w' => follows interpreter_event w w'
  | TooDeep_nd => True
  end.
Proof.
  destruct (typing_step_nd_case expand text i w);
    try exact I; try apply follows_refl;
    try (apply (poll_nd_typing_follows F2Typing F1Typing); reflexivity);
    (eapply follows_trans;
     [apply (poll_nd_typing_follows F2Typing F1Typing); reflexivity|]);
    (eapply follows_trans; [apply (scanned_follows (advance i text))|]).
  - unfold usleep. follow_emit.
    eapply follows_trans; [|apply send_char_follows].
    apply follows_emit. reflexivity.
  - eapply follows_trans; [|eapply expand_follows; eassumption].
    apply follows_emit. reflexivity.
  - apply hold_key_nd_follows.
  - eapply follows_trans; [|apply pressKey_follows].
    apply follows_emit. reflexivity.
Qed.

Lemma loop_run_nd_follows text : forall i w ns r,
  loop_run_nd expand text i w ns r ->
  forall j w', r = Some (j, w') -> follows interpreter_event w w'.
Proof.
  induction 1 as [i w w1 H|i w H|i w n w1 ns r H _ IH]; intros j w' Er.
  - pose proof (typing_step_nd_follows text i w) as F.
    rewrite H in F. inversion Er; subst. exact F.
  - discriminate.
  - pose proof (typing_step_nd_follows text i w) as F. rewrite H in F.
    eapply follows_trans; [exact F|eapply IH, Er].
Qed.

Lemma typing_loop_nd_follows text i w j w' :
  typing_loop_nd expand text i w = Some (j, w') -> follows interpreter_event w w'.
Proof.
  intro H. destruct (loop_run_nd_exists expand text i w) as [ns R].
  eapply loop_run_nd_follows; [exact R|exact H].
Qed.

End LoopFacts.

Lemma parse_and_type_nd_follows depth : forall text w w',
  parse_and_type_nd depth text w = Some w' -> follows interpreter_event w w'.
Proof.
  induction depth as [|depth IH]; intros text w w' H; cbn [parse_and_type_nd] in H;
    [discriminate|].
  destruct (typing_loop_nd _ _ _ _) as [[j w1]|] eqn:E; [|discriminate].
  inversion H; subst. unfold nodelay. follow_emit.
  apply typing_loop_nd_follows in E; [|exact IH].
  eapply follows_trans; [|exact E]. apply follows_emit. exact I.
Qed.

(** ** Projections across the quiet operations *)

Lemma poll_nd_observe {A} (f : event -> option A) onF2 onF1 w :
  f (Log onF2) = None -> f (Log onF1) = None ->
  observe f (effects (poll_nd onF2 onF1 w)) = observe f (effects w).
Proof.
  intros H2 H1. eapply emits_observe; [|apply poll_nd_follows].
  intros e [->| ->]; assumption.
Qed.

Lemma wait_observe {A} (f : event -> option A) onF2 onF1 ms w :
  f (Log onF2) = None -> f (Log onF1) = None -> f (Usleep 50000) = None ->
  observe f (effects (wait_loop_nd onF2 onF1 ms w)) = observe f (effects w).
Proof.
  intros H2 H1 Hu. eapply emits_observe; [|apply wait_follows].
  intros e [->|[->| ->]]; assumption.
Qed.

Lemma scanned_observe {A} (f : event -> option A) text w :
  (forall n c, f (Log (WarnMessageRange n c)) = None) ->
  (forall b n e, f (Log (FoundMessage b n e)) = None) ->
  observe f (effects (scanned text w)) = observe f (effects w).
Proof.
  intros Hw Hf.
  destruct (scanned_cases text w) as [E|[(n & c & E)|(b & n & e & E)]];
    rewrite E; [reflexivity| |]; unfold add_log; rewrite observe_emit.
  - rewrite Hw. apply app_nil_r.
  - rewrite Hf. apply app_nil_r.
Qed.

(** ** The scanner never reads across the end of the text *)

Lemma no_nul_char_at s : forall k,
  no_nul s = true -> (k < String.length s)%nat -> char_at s k <> zero.
Proof.
  induction s as [|c s IH]; intros k Hn Hk; cbn in Hk; [lia|].
  cbn in Hn. apply andb_prop in Hn as [Hc Hn].
  destruct k; cbn.
  - intro E. subst c. discriminate Hc.
  - apply IH; [exact Hn|lia].
Qed.

Lemma strlen_char_at s : forall k, (k < strlen s)%nat -> char_at s k <> zero.
Proof.
  induction s as [|c s IH]; intros k Hk; cbn in Hk; [lia|].
  destruct (Ascii.eqb c zero) eqn:E; [lia|]. apply Ascii.eqb_neq in E.
  destruct k; cbn; [exact E|]. apply IH. lia.
Qed.

Lemma strlen_end s : char_at s (strlen s) = zero.
Proof.
  induction s as [|c s IH]; cbn; [reflexivity|].
  destruct (Ascii.eqb c zero) eqn:E; cbn; [|exact IH].
  apply Ascii.eqb_eq in E. exact E.
Qed.

Lemma strlen_least s : forall n,
  (forall k, (k < n)%nat -> char_at s k <> zero) -> (n <= strlen s)%nat.
Proof.
  induction s as [|c s IH]; intros n H.
  - destruct n; [lia|]. exfalso. apply (H 0%nat); [lia|reflexivity].
  - cbn. destruct (Ascii.eqb c zero) eqn:E.
    + apply Ascii.eqb_eq in E. destruct n; [lia|].
      exfalso. apply (H 0%nat); [lia|exact E].
    + destruct n; [lia|]. apply le_n_S. apply IH.
      intros k Hk. apply (H (S k)). lia.
Qed.

Lemma strlen_advance n : forall s,
  (n <= strlen s)%nat -> strlen (advance n s) = (strlen s - n)%nat.
Proof.
  induction n as [|n IH]; intros s Hn; cbn; [lia|].
  destruct s as [|c s]; cbn in *; [reflexivity|].
  destruct (Ascii.eqb c zero); [lia|]. apply IH. lia.
Qed.

Lemma take_take_advance n : forall m s,
  (take n s ++ take m (advance n s))%string = take (n + m) s.
Proof.
  induction n as [|n IH]; intros m s; cbn; [reflexivity|].
  destruct s as [|c s]; cbn; [destruct m; reflexivity|].
  rewrite IH. reflexivity.
Qed.

(** Every character an accepted token covers is a character of the text. *)
Lemma consumed_chars text : forall k,
  (k < consumed_at text)%nat -> char_at text k <> zero.
Proof.
  unfold consumed_at, consumed_of, parse_special_token.
  destruct (Ascii.eqb (char_at text 0) "{") eqn:H0; cbn [negb];
    [|cbn; intros; lia].
  apply Ascii.eqb_eq in H0.
  assert (Htext : text = String "{" (advance 1 text)).
  { apply char_at_head; [exact H0|discriminate]. }
  destruct (strncmp_eq text "{message" 8) eqn:Hm.
  - apply (strncmp_eq_prefix "{message") in Hm; [|reflexivity].
    destruct (scan_digits buf_room text 8 EmptyString) as [idx numBuf] eqn:Hs.
    apply scan_digits_span in Hs as [Hle Hdig].
    destruct (Ascii.eqb (char_at text idx) "}") eqn:Hb; [|cbn; intros; lia].
    apply Ascii.eqb_eq in Hb.
    destruct (_ || _); cbn [fst]; intros k Hk; [lia|].
    destruct (Nat.lt_ge_cases k 8) as [H8|H8].
    + rewrite Hm, char_at_append_left by exact H8.
      apply no_nul_char_at; [reflexivity|exact H8].
    + destruct (Nat.eq_dec k idx) as [->|Hne].
      * rewrite Hb. discriminate.
      * apply is_digit_not_zero, Hdig. lia.
  - destruct (scan_table key_table text zero_action) as [n a] eqn:Hs.
    cbn [fst]. intros k Hk.
    destruct (scan_table_accept _ _ _ _ _ Hs) as
      (cmd & ks & Hin & Hcmp & _ & _ & _ & Hshape); [lia|].
    assert (Hnn : no_nul cmd = true).
    { pose proof key_table_no_nul as F. rewrite Forall_forall in F.
      apply (F (cmd, ks) Hin). }
    apply strncmp_eq_prefix in Hcmp; [|exact Hnn].
    assert (Hword : forall q, (1 <= q < 1 + String.length cmd)%nat ->
                              char_at text q <> zero).
    { intros q Hq. replace q with (1 + (q - 1))%nat by lia.
      rewrite <- char_at_advance, Hcmp, char_at_append_left by lia.
      apply no_nul_char_at; [exact Hnn|lia]. }
    destruct (Nat.eq_dec k 0) as [->|Hk0]; [rewrite H0; discriminate|].
    destruct Hshape as [(Hb & Hn & _)|(Hc & ds & hb & Hd & Hb & Hn & _)].
    + destruct (Nat.eq_dec k (1 + String.length cmd)) as [->|Hne];
        [rewrite Hb; discriminate|apply Hword; lia].
    + apply scan_digits_span in Hd as [Hle Hdig].
      destruct (Nat.lt_ge_cases k (1 + String.length cmd)) as [Hlt|Hge];
        [apply Hword; lia|].
      destruct (Nat.eq_dec k (1 + String.length cmd)) as [->|Hne];
        [rewrite Hc; discriminate|].
      destruct (Nat.eq_dec k ds) as [->|Hne2]; [rewrite Hb; discriminate|].
      apply is_digit_not_zero, Hdig. lia.
Qed.

Lemma consumed_le_strlen text : (consumed_at text <= strlen text)%nat.
Proof. apply strlen_least, consumed_chars. Qed.

Lemma step_width_pos text : (0 < step_width text)%nat.
Proof.
  unfold step_width.
  destruct (Nat.ltb_spec 0 (consumed_at text)); lia.
Qed.

Lemma step_width_le_strlen text :
  char_at text 0 <> zero -> (step_width text <= strlen text)%nat.
Proof.
  intro H. unfold step_width.
  destruct (Nat.ltb_spec 0 (consumed_at text)); [apply consumed_le_strlen|].
  apply strlen_least. intros k Hk. replace k with 0%nat by lia. exact H.
Qed.

(** ** Cutting a text along a list of advances *)

Lemma join_pieces ns : forall text,
  join (pieces ns text) = take (list_sum ns) text.
Proof.
  induction ns as [|n ns IH]; intro text; cbn [pieces join]; [reflexivity|].
  change (list_sum (n :: ns)) with (n + list_sum ns)%nat.
  rewrite IH. apply take_take_advance.
Qed.

Lemma starts_lower ns : forall i p, In p (starts i ns) -> (i <= p)%nat.
Proof.
  induction ns as [|n ns IH]; intros i p H; cbn in H; [contradiction|].
  destruct H as [<-|H]; [lia|]. apply IH in H. lia.
Qed.

Lemma starts_NoDup ns : forall i,
  Forall (fun n => (0 < n)%nat) ns -> NoDup (starts i ns).
Proof.
  induction ns as [|n ns IH]; intros i H; cbn; constructor.
  - inversion H; subst. intro Hin. apply starts_lower in Hin. lia.
  - inversion H; subst. apply IH. assumption.
Qed.

(** ** The loop cuts the script exactly *)

Lemma loop_run_nd_tiles expand text : forall i w ns r,
  loop_run_nd expand text i w ns r ->
  forall j w', r = Some (j, w') -> g_stopRequested w' = false ->
  (i <= strlen text)%nat ->
  Forall2 (fun p n => char_at text p <> zero /\
                      n = step_width (advance p text)) (starts i ns) ns /\
  Forall (fun n => (0 < n)%nat) ns /\
  (i + list_sum ns = strlen text)%nat /\ j = strlen text.
Proof.
  induction 1 as [i w w1 H|i w H|i w n w1 ns r H _ IH];
    intros j w' Er Hstop Hi.
  - inversion Er; subst j w1. clear Er.
    pose proof (typing_step_nd_case expand text i w) as C. rewrite H in C.
    assert (Hz : char_at text i = zero).
    { inversion C as [[Hz|Hs]| | | | | |]; subst; try congruence. }
    assert (i = strlen text).
    { destruct (Nat.eq_dec i (strlen text)) as [E|E]; [exact E|].
      exfalso. apply (strlen_char_at text i); [lia|exact Hz]. }
    cbn. repeat split; auto; lia.
  - discriminate.
  - apply typing_step_nd_width in H as [Hn Hz].
    assert (Hle : (n <= strlen text - i)%nat).
    { rewrite <- strlen_advance by exact Hi. subst n.
      apply step_width_le_strlen. rewrite char_at_advance, Nat.add_0_r.
      exact Hz. }
    assert (Hlt : (i < strlen text)%nat).
    { destruct (Nat.eq_dec i (strlen text)) as [E|E]; [|lia].
      exfalso. apply Hz. rewrite E. apply strlen_end. }
    destruct (IH j w' Er Hstop) as (F2 & Fp & Hs & Hj); [lia|].
    cbn [starts].
    change (list_sum (n :: ns)) with (n + list_sum ns)%nat. repeat split.
    + constructor; [split; [exact Hz|exact Hn]|exact F2].
    + constructor; [subst n; apply step_width_pos|exact Fp].
    + lia.
    + exact Hj.
Qed.


(** ** Holding a key *)

Lemma pressKeyDown_call ks w :
  observe key_call (effects (pressKeyDown ks w)) =
  observe key_call (effects w) ++ [(key_of ks, true)].
Proof.
  unfold pressKeyDown, key_of, add_log.
  destruct (XKeysymToKeycode ks =? 0); rewrite observe_emit; reflexivity.
Qed.

Lemma pressKeyUp_call ks w :
  observe key_call (effects (pressKeyUp ks w)) =
  observe key_call (effects w) ++ [(key_of ks, false)].
Proof.
  unfold pressKeyUp, key_of, add_log.
  destruct (XKeysymToKeycode ks =? 0); rewrite observe_emit; reflexivity.
Qed.

Lemma hold_key_nd_calls ks ms w :
  observe key_call (effects (hold_key_nd ks ms w)) =
  observe key_call (effects w) ++ [(key_of ks, true); (key_of ks, false)].
Proof.
  unfold hold_key_nd, usleep, add_log.
  rewrite observe_emit, pressKeyUp_call. cbn [key_call]. rewrite app_nil_r.
  rewrite wait_observe by reflexivity.
  rewrite pressKeyDown_call, observe_emit. cbn [key_call].
  rewrite app_nil_r, <- app_assoc. reflexivity.
Qed.


(** ** The run loop and the flag *)

Lemma follows_any Q w w' : follows Q w w' -> follows any_event w w'.
Proof. apply follows_weaken. intros; exact I. Qed.

Lemma delay_nd_follows onF2 onF1 ms w :
  follows any_event w (delay_nd onF2 onF1 ms w).
Proof.
  unfold delay_nd, nodelay.
  eapply follows_trans; [|apply follows_emit; exact I].
  eapply follows_trans; [|eapply follows_any, wait_follows].
  apply follows_emit. exact I.
Qed.

Lemma loop_body_nd_follows depth text loops ld l w r :
  loop_body_nd depth text loops ld l w = Some r ->
  follows any_event w (match r with inl w' | inr w' => w' end).
Proof.
  unfold loop_body_nd. intro H.
  destruct (g_stopRequested w); [inversion H; apply follows_refl|].
  destruct (parse_and_type_nd depth text _) as [w1|] eqn:Hp; [|discriminate].
  apply parse_and_type_nd_follows, follows_any in Hp.
  assert (F1 : follows any_event w w1).
  { eapply follows_trans; [|exact Hp]. apply follows_emit. exact I. }
  destruct (g_stopRequested w1).
  { inversion H. eapply follows_trans; [exact F1|apply follows_emit; exact I]. }
  assert (F2 : follows any_event w (add_log (LoopDone (l + 1) loops) w1)).
  { eapply follows_trans; [exact F1|apply follows_emit; exact I]. }
  destruct ((l <? loops - 1) && (0 <? ld)); [|inversion H; exact F2].
  assert (F3 : follows any_event w
                 (delay_nd F2Between F1Between ld
                    (add_log (SleepingNext ld)
                       (add_log (LoopDone (l + 1) loops) w1)))).
  { eapply follows_trans; [exact F2|].
    eapply follows_trans; [apply follows_emit; exact I|apply delay_nd_follows]. }
  destruct (g_stopRequested (delay_nd _ _ _ _)); inversion H;
    [eapply follows_trans; [exact F3|apply follows_emit; exact I]|exact F3].
Qed.

Lemma run_loops_nd_follows depth text loops ld : forall m l w w',
  (Z.to_nat (loops - l) <= m)%nat ->
  run_loops_nd depth text loops ld l w = Some w' -> follows any_event w w'.
Proof.
  induction m as [|m IH]; intros l w w' Hm H; rewrite run_loops_nd_eq in H;
    destruct (Z.ltb_spec l loops) as [Hl|Hl]; try lia;
    try (inversion H; apply follows_refl).
  destruct (loop_body_nd depth text loops ld l w) as [[w1|w1]|] eqn:Hb;
    [| |discriminate].
  - inversion H; subst. apply (loop_body_nd_follows _ _ _ _ _ _ _ Hb).
  - eapply follows_trans; [apply (loop_body_nd_follows _ _ _ _ _ _ _ Hb)|].
    apply (IH (l + 1)); [lia|exact H].
Qed.

(** ** The stop flag over a run *)


(** ** Typing a script without tokens *)

Lemma effects_reset_stop w : effects (reset_stop w) = effects w.
Proof. reflexivity. Qed.

Ltac obs_emit :=
  repeat (rewrite ?effects_reset_stop; rewrite observe_emit;
          cbn [typed_char next_sleep begun inserted key_call fake_key];
          rewrite ?app_nil_r).

Lemma pressKey_typed ks w :
  observe typed_char (effects (pressKey ks w)) = observe typed_char (effects w).
Proof.
  unfold pressKey, pressKeyUp, pressKeyDown, usleep, add_log.
  destruct (XKeysymToKeycode ks =? 0); obs_emit; reflexivity.
Qed.

Lemma send_char_typed c w :
  observe typed_char (effects (send_char c w)) = observe typed_char (effects w).
Proof.
  unfold send_char. destruct (map_char_to_keysym c =? NoSymbol).
  - unfold add_log. obs_emit. reflexivity.
  - apply pressKey_typed.
Qed.

Lemma contents_step text i :
  char_at text i <> zero ->
  contents (advance i text) =
  String (char_at text i) (contents (advance (i + 1) text)).
Proof.
  revert i. induction text as [|c t IH]; intros i Hz.
  - destruct i; cbn in Hz; congruence.
  - destruct i as [|i].
    + cbn in Hz. cbn [advance Nat.add]. unfold contents at 1. cbn [strlen].
      rewrite (eqb_zero_false _ Hz). reflexivity.
    + cbn in Hz. cbn [advance Nat.add]. apply IH. exact Hz.
Qed.

Lemma contents_at_end text i :
  char_at text i = zero -> contents (advance i text) = EmptyString.
Proof.
  revert i. induction text as [|c t IH]; intros i Hz.
  - destruct i; reflexivity.
  - destruct i as [|i].
    + cbn in Hz. subst c. reflexivity.
    + cbn in Hz. cbn [advance]. apply IH. exact Hz.
Qed.

Lemma calm_flag w : calm w -> g_stopRequested w = false.
Proof. intros [H _]. exact H. Qed.

(** Without a token in the text every turn types one character. *)
Lemma literal_turn expand text i w :
  consumed_at (advance i text) = O -> char_at text i <> zero -> calm w ->
  exists w',
    typing_step_nd expand text i w = Advance_nd 1 w' /\ calm w' /\
    follows interpreter_event w w' /\
    observe typed_char (effects w') =
    observe typed_char (effects w) ++ [char_at text i].
Proof.
  intros Hc Hz Hw.
  pose proof (poll_nd_typing_follows F2Typing F1Typing w eq_refl eq_refl) as Fp.
  assert (Hp : calm (poll_nd F2Typing F1Typing w)) by (apply Fp, Hw).
  pose proof (typing_step_nd_case expand text i w) as C.
  pose proof (calm_flag _ Hw) as Hw0. pose proof (calm_flag _ Hp) as Hp0.
  inversion C as [[Hz'|Hs]|? ? Hp'| ? ? ? Hc' E|? ? ? ? Hc'|? ? ? Hc'|
                  ? ? ? Hc'|? ? ? Hc']; try congruence; try lia.
  eexists. split; [reflexivity|].
  assert (Fs : follows interpreter_event w
                 (usleep 30000
                    (send_char (char_at text i)
                       (add_log (SendingChar (char_at text i))
                          (scanned (advance i text) (poll_nd F2Typing F1Typing w)))))).
  { eapply follows_trans; [exact Fp|].
    eapply follows_trans; [apply scanned_follows|].
    unfold usleep. follow_emit.
    eapply follows_trans; [|apply send_char_follows].
    apply follows_emit. reflexivity. }
  split; [apply Fs, Hw|]. split; [exact Fs|].
  unfold usleep. obs_emit. rewrite send_char_typed. unfold add_log. obs_emit.
  rewrite scanned_observe by reflexivity.
  rewrite poll_nd_observe by reflexivity. reflexivity.
Qed.

Lemma literal_run expand text :
  (forall p, consumed_at (advance p text) = O) ->
  forall m i w,
    (strlen text - i <= m)%nat -> (i <= strlen text)%nat -> calm w ->
    exists w',
      typing_loop_nd expand text i w = Some (strlen text, w') /\ calm w' /\
      follows interpreter_event w w' /\
      observe typed_char (effects w') =
      observe typed_char (effects w) ++
      list_ascii_of_string (contents (advance i text)).
Proof.
  intros Hnone. induction m as [|m IH]; intros i w Hm Hi Hw.
  - assert (i = strlen text) by lia. subst i.
    exists w. rewrite typing_loop_nd_at_end by apply strlen_end.
    rewrite contents_at_end by apply strlen_end. cbn. rewrite app_nil_r.
    split; [reflexivity|]. split; [exact Hw|].
    split; [apply follows_refl|reflexivity].
  - destruct (Nat.eq_dec i (strlen text)) as [->|Hne].
    + exists w. rewrite typing_loop_nd_at_end by apply strlen_end.
      rewrite contents_at_end by apply strlen_end. cbn. rewrite app_nil_r.
      split; [reflexivity|]. split; [exact Hw|].
    split; [apply follows_refl|reflexivity].
    + assert (Hz : char_at text i <> zero) by (apply strlen_char_at; lia).
      destruct (literal_turn expand text i w (Hnone i) Hz Hw)
        as (w1 & Hstep & Hw1 & F1 & T1).
      destruct (IH (i + 1)%nat w1) as (w' & Hrun & Hw' & F' & T'); try lia;
        [exact Hw1|].
      exists w'. rewrite typing_loop_nd_eq, Hstep.
      split; [exact Hrun|]. split; [exact Hw'|].
      split; [eapply follows_trans; eassumption|].
      rewrite T', T1, (contents_step text i Hz). cbn.
      rewrite <- app_assoc. reflexivity.
Qed.

Lemma literal_parse_and_type depth text w :
  (forall p, consumed_at (advance p text) = O) -> calm w ->
  exists w',
    parse_and_type_nd (S depth) text w = Some w' /\ calm w' /\
    follows interpreter_event w w' /\
    observe typed_char (effects w') =
    observe typed_char (effects w) ++ list_ascii_of_string (contents text).
Proof.
  intros Hnone Hw. cbn [parse_and_type_nd].
  destruct (literal_run (parse_and_type_nd depth) text Hnone (strlen text) 0
              (nodelay true w)) as (w1 & Hrun & Hw1 & F1 & T1); try lia.
  { revert Hw. apply calm_same; reflexivity. }
  rewrite Hrun. eexists. split; [reflexivity|].
  split; [revert Hw1; apply calm_same; reflexivity|].
  split.
  - unfold nodelay. follow_emit. eapply follows_trans; [|exact F1].
    apply follows_emit. exact I.
  - unfold nodelay in *. obs_emit. rewrite T1. obs_emit. reflexivity.
Qed.

Lemma interpreter_not_begun e : interpreter_event e -> begun e = None.
Proof. destruct e as [[]| | |]; cbn; intro H; try reflexivity; discriminate. Qed.

Lemma interpreter_not_next_sleep e : interpreter_event e -> next_sleep e = None.
Proof. destruct e as [[]| | |]; cbn; intro H; try reflexivity; discriminate. Qed.

Lemma delay_nd_observe {A} (f : event -> option A) onF2 onF1 ms w :
  f (Log onF2) = None -> f (Log onF1) = None -> f (Usleep 50000) = None ->
  (forall b, f (Nodelay b) = None) ->
  observe f (effects (delay_nd onF2 onF1 ms w)) = observe f (effects w).
Proof.
  intros H2 H1 Hu Hn. unfold delay_nd, nodelay.
  rewrite observe_emit, Hn, app_nil_r, wait_observe by assumption.
  rewrite observe_emit, Hn, app_nil_r. reflexivity.
Qed.

Lemma calm_emit e w : calm w -> calm (emit e w).
Proof. apply calm_same; reflexivity. Qed.

Lemma calm_delay onF2 onF1 ms w : calm w -> calm (delay_nd onF2 onF1 ms w).
Proof. apply delay_nd_follows. Qed.

Lemma contents_cons c t :
  contents (String c t) =
  if Ascii.eqb c zero then EmptyString else String c (contents t).
Proof. unfold contents. cbn. destruct (Ascii.eqb c zero); reflexivity. Qed.

Lemma contents_length text :
  List.length (list_ascii_of_string (contents text)) = strlen text.
Proof.
  induction text as [|c t IH]; [reflexivity|].
  rewrite contents_cons. cbn [strlen].
  destruct (Ascii.eqb c zero); [reflexivity|]. cbn. now rewrite IH.
Qed.

(** The iterations over a script without tokens, in a calm world. *)
Lemma literal_loops depth text loops ld :
  (forall p, consumed_at (advance p text) = O) ->
  forall n l w,
    loops - l = Z.of_nat n -> calm w ->
    exists w',
      run_loops_nd (S depth) text loops ld l w = Some w' /\ calm w' /\
      observe typed_char (effects w') =
      observe typed_char (effects w) ++
      List.concat (repeat (list_ascii_of_string (contents text)) n) /\
      observe next_sleep (effects w') =
      observe next_sleep (effects w) ++
      repeat ld (if 0 <? ld then pred n else O) /\
      ((0 < n)%nat ->
       exists pre, effects w' = pre ++ [Log (LoopDone loops loops)]).
Proof.
  intros Hnone. induction n as [|n IH]; intros l w Hl Hw; rewrite run_loops_nd_eq.
  - destruct (Z.ltb_spec l loops); [lia|].
    exists w. split; [reflexivity|]. split; [exact Hw|].
    cbn [repeat List.concat pred]. destruct (0 <? ld); cbn [repeat];
      rewrite !app_nil_r; repeat split; auto; lia.
  - destruct (Z.ltb_spec l loops); [|lia].
    unfold loop_body_nd. rewrite (calm_flag _ Hw).
    destruct (literal_parse_and_type depth text
                (add_log (LoopBegin (l + 1) loops) w) Hnone
                (calm_emit _ _ Hw)) as (w1 & Hp & Hw1 & F1 & T1).
    rewrite Hp, (calm_flag _ Hw1).
    assert (N1 : observe next_sleep (effects w1) = observe next_sleep (effects w)).
    { rewrite (emits_observe next_sleep _ _ _ interpreter_not_next_sleep
                 (proj1 F1)).
      unfold add_log. rewrite observe_emit. cbn. apply app_nil_r. }
    assert (T1' : observe typed_char (effects w1) =
                  observe typed_char (effects w) ++
                  list_ascii_of_string (contents text)).
    { rewrite T1. unfold add_log. rewrite observe_emit. cbn.
      rewrite app_nil_r. reflexivity. }
    set (w2 := add_log (LoopDone (l + 1) loops) w1).
    assert (Hw2 : calm w2) by (apply calm_emit, Hw1).
    destruct ((l <? loops - 1) && (0 <? ld)) eqn:Hd.
    + apply andb_prop in Hd as [Hd1 Hd2].
      apply Z.ltb_lt in Hd1.
      set (w3 := delay_nd F2Between F1Between ld (add_log (SleepingNext ld) w2)).
      assert (Hw3 : calm w3) by (apply calm_delay, calm_emit, Hw2).
      rewrite (calm_flag _ Hw3).
      destruct (IH (l + 1) w3) as (w' & Hr & Hw' & T' & N' & L'); [lia|exact Hw3|].
      exists w'. split; [exact Hr|]. split; [exact Hw'|].
      assert (Hn : (0 < n)%nat) by lia.
      split; [|split].
      * rewrite T'. unfold w3. rewrite delay_nd_observe by reflexivity.
        unfold w2, add_log. obs_emit. rewrite T1'.
        cbn [repeat List.concat]. rewrite <- app_assoc. reflexivity.
      * rewrite N'. unfold w3. rewrite delay_nd_observe by reflexivity.
        unfold w2, add_log. obs_emit. rewrite N1, Hd2.
        destruct n as [|n']; [lia|]. cbn [pred repeat].
        rewrite <- app_assoc. reflexivity.
      * intros _. apply L'. exact Hn.
    + destruct (IH (l + 1) w2) as (w' & Hr & Hw' & T' & N' & L'); [lia|exact Hw2|].
      exists w'. split; [exact Hr|]. split; [exact Hw'|].
      split; [|split].
      * rewrite T'. unfold w2, add_log. obs_emit. rewrite T1'.
        cbn [repeat List.concat]. rewrite <- app_assoc. reflexivity.
      * rewrite N'. unfold w2, add_log. obs_emit. rewrite N1.
        apply andb_false_iff in Hd as [Hd|Hd].
        -- apply Z.ltb_ge in Hd. assert (n = O) by lia. subst n.
           cbn [pred repeat]. destruct (0 <? ld); reflexivity.
        -- rewrite Hd. reflexivity.
      * intros _. destruct n as [|n'].
        -- rewrite run_loops_nd_eq in Hr.
           destruct (Z.ltb_spec (l + 1) loops); [lia|].
           inversion Hr; subst w'. exists (effects w1).
           assert (E : l + 1 = loops) by lia.
           unfold w2, add_log, emit. cbn [effects]. rewrite E. reflexivity.
        -- apply L'. lia.
Qed.

Lemma advance_past p : forall text,
  (String.length text <= p)%nat -> advance p text = EmptyString.
Proof.
  induction p as [|p IH]; intros [|c t] H; cbn in *; try reflexivity; try lia.
  apply IH. lia.
Qed.

Lemma token_free_spec text :
  token_free text = true -> forall p, consumed_at (advance p text) = O.
Proof.
  unfold token_free. intros H p. rewrite forallb_forall in H.
  destruct (Nat.lt_ge_cases p (String.length text)) as [Hp|Hp].
  - apply Nat.eqb_eq, H, in_seq. lia.
  - rewrite advance_past by exact Hp. reflexivity.
Qed.

(** ** A run over a script without tokens *)

(** The run over a script without tokens, when no call waits. *)
Lemma simulate_typing_nd_literal depth text loops sd ld w :
  token_free text = true ->
  1 <= loops ->
  ~ In (KEY_F 2) (pending w) ->
  exists w',
    simulate_typing_nd (S depth) text loops sd ld w = Some w' /\
    observe typed_char (effects w') =
    observe typed_char (effects w) ++
    List.concat (repeat (list_ascii_of_string (contents text)) (Z.to_nat loops)) /\
    Z.of_nat (List.length (List.concat (repeat (list_ascii_of_string (contents text))
                                     (Z.to_nat loops)))) =
    loops * Z.of_nat (strlen text) /\
    observe next_sleep (effects w') =
    observe next_sleep (effects w) ++
    repeat ld (if 0 <? ld then Z.to_nat (loops - 1) else O) /\
    (exists pre,
        effects w' = pre ++ [Log (LoopDone loops loops); Log AllDone]) /\
    (forall c w0,
        map_char_to_keysym c = NoSymbol ->
        observe key_call (effects (send_char c w0)) =
        observe key_call (effects w0)).
Proof.
  intros Hfree Hloops Hkeys.
  pose proof (token_free_spec text Hfree) as Hnone.
  set (w1 := reset_stop (add_log (SimStart sd ld loops text) w)).
  assert (Hw1 : calm w1) by (split; [reflexivity|exact Hkeys]).
  assert (Hfin : forall w2,
    calm w2 ->
    observe typed_char (effects w2) = observe typed_char (effects w) ->
    observe next_sleep (effects w2) = observe next_sleep (effects w) ->
    exists w',
      match run_loops_nd (S depth) text loops ld 0 w2 with
      | Some w3 =>
          if negb (g_stopRequested w3) then Some (add_log AllDone w3)
          else Some (add_log StoppedByUser w3)
      | None => None
      end = Some w' /\
      observe typed_char (effects w') =
      observe typed_char (effects w) ++
      List.concat (repeat (list_ascii_of_string (contents text)) (Z.to_nat loops)) /\
      observe next_sleep (effects w') =
      observe next_sleep (effects w) ++
      repeat ld (if 0 <? ld then Z.to_nat (loops - 1) else O) /\
      (exists pre,
          effects w' = pre ++ [Log (LoopDone loops loops); Log AllDone])).
  { intros w2 Hw2 T2 N2.
    destruct (literal_loops depth text loops ld Hnone (Z.to_nat loops) 0 w2)
      as (w3 & Hr & Hw3 & T3 & N3 & L3); [lia|exact Hw2|].
    rewrite Hr, (calm_flag _ Hw3). cbn [negb].
    eexists. split; [reflexivity|].
    destruct L3 as [pre Hpre]; [lia|].
    unfold add_log. obs_emit. rewrite T3, T2, N3, N2.
    replace (pred (Z.to_nat loops)) with (Z.to_nat (loops - 1)) by lia.
    split; [reflexivity|]. split; [reflexivity|].
    exists pre. unfold emit. cbn [effects]. rewrite Hpre, <- app_assoc.
    reflexivity. }
  assert (Hlen : Z.of_nat (List.length (List.concat (repeat (list_ascii_of_string
                   (contents text)) (Z.to_nat loops)))) =
                 loops * Z.of_nat (strlen text)).
  { pose proof (contents_length text) as Hc.
    assert (Hrep : forall n, List.length (List.concat (repeat (list_ascii_of_string
                     (contents text)) n)) = (n * strlen text)%nat).
    { induction n as [|n IHn]; [reflexivity|].
      cbn [repeat List.concat]. rewrite length_app, IHn, Hc. lia. }
    rewrite Hrep. lia. }
  assert (Hsend : forall c w0,
             map_char_to_keysym c = NoSymbol ->
             observe key_call (effects (send_char c w0)) =
             observe key_call (effects w0)).
  { intros c w0 Hc. unfold send_char. rewrite Hc. cbn [Z.eqb NoSymbol].
    unfold add_log. obs_emit. reflexivity. }
  unfold simulate_typing_nd. fold w1.
  destruct (0 <? sd) eqn:Hsd.
  - set (w2 := delay_nd F2Before F1Before sd (add_log (SleepingBefore sd) w1)).
    assert (Hw2 : calm w2) by (apply calm_delay, calm_emit, Hw1).
    rewrite (calm_flag _ Hw2).
    destruct (Hfin w2 Hw2) as (w' & H1 & H2 & H3 & H4).
    + unfold w2. rewrite delay_nd_observe by reflexivity.
      unfold w1, add_log. obs_emit. reflexivity.
    + unfold w2. rewrite delay_nd_observe by reflexivity.
      unfold w1, add_log. obs_emit. reflexivity.
    + exists w'. auto 10.
  - destruct (Hfin w1 Hw1) as (w' & H1 & H2 & H3 & H4).
    + unfold w1, add_log. obs_emit. reflexivity.
    + unfold w1, add_log. obs_emit. reflexivity.
    + exists w'. auto 10.
Qed.

(** ** Delays that end with and without a stop request *)

Lemma drain_nd_unstopped onF2 onF1 : forall keys w,
  g_stopRequested (drain_nd onF2 onF1 keys w) = false ->
  emits (fun e => e = Log onF1)
    (mkWorld (g_stopRequested w) (effects w) keys) (drain_nd onF2 onF1 keys w).
Proof.
  induction keys as [|ch keys IH]; intros w H; cbn [drain_nd] in *.
  - apply emits_refl.
  - destruct (ch =? ERR); [apply emits_same_effects; reflexivity|].
    destruct (ch =? KEY_F 2).
    + exfalso.
      pose proof (drain_nd_follows onF2 onF1 keys (request_stop (add_log onF2 w)))
        as (_ & L & _).
      rewrite L in H; [discriminate|reflexivity].
    + destruct (ch =? KEY_F 1).
      * eapply emits_trans; [|apply IH, H].
        exists [Log onF1]. split; [reflexivity|]. repeat constructor.
      * apply IH, H.
Qed.

Lemma poll_nd_unstopped onF2 onF1 w :
  g_stopRequested (poll_nd onF2 onF1 w) = false ->
  emits (fun e => e = Log onF1) w (poll_nd onF2 onF1 w).
Proof.
  unfold poll_nd. intro H. pose proof (drain_nd_unstopped onF2 onF1 _ w H) as E.
  destruct w; exact E.
Qed.

Lemma wait_loop_nd_unstopped onF2 onF1 : forall n remain w,
  (Z.to_nat remain <= n)%nat ->
  g_stopRequested (wait_loop_nd onF2 onF1 remain w) = false ->
  emits (fun e => e = Log onF1 \/ e = Usleep 50000) w
    (wait_loop_nd onF2 onF1 remain w).
Proof.
  induction n as [|n IH]; intros remain w Hn H; rewrite wait_loop_nd_eq in *.
  - destruct (Z.ltb_spec 0 remain); [lia|apply emits_refl].
  - destruct (Z.ltb_spec 0 remain); [|apply emits_refl].
    destruct (g_stopRequested w); [apply emits_refl|].
    assert (Hp : g_stopRequested (poll_nd onF2 onF1 (usleep 50000 w)) = false).
    { destruct (g_stopRequested (poll_nd onF2 onF1 (usleep 50000 w))) eqn:E;
        [|reflexivity].
      pose proof (wait_follows onF2 onF1 (remain - 50)
                    (poll_nd onF2 onF1 (usleep 50000 w))) as (_ & L & _).
      rewrite L in H; [discriminate|exact E]. }
    eapply emits_trans; [|apply IH; [lia|exact H]].
    apply (emits_trans _ _ (usleep 50000 w));
      [apply emits_emit; right; reflexivity|].
    eapply emits_weaken; [|apply poll_nd_unstopped, Hp]. cbn. tauto.
Qed.

Lemma delay_nd_emits onF2 onF1 ms w :
  emits (delay_event onF2 onF1) w (delay_nd onF2 onF1 ms w).
Proof.
  unfold delay_nd, delay_event.
  apply (emits_trans _ _ (wait_loop_nd onF2 onF1 ms (nodelay true w)));
    [|apply emits_emit; tauto].
  apply (emits_trans _ _ (nodelay true w)); [apply emits_emit; tauto|].
  eapply emits_weaken; [|apply (proj1 (wait_follows onF2 onF1 ms _))].
  cbn. tauto.
Qed.

Lemma delay_nd_unstopped onF2 onF1 ms w :
  g_stopRequested (delay_nd onF2 onF1 ms w) = false ->
  emits (fun e => e = Log onF1 \/ e = Usleep 50000 \/
                  e = Nodelay true \/ e = Nodelay false)
    w (delay_nd onF2 onF1 ms w).
Proof.
  unfold delay_nd. intro H.
  apply (emits_trans _ _ (wait_loop_nd onF2 onF1 ms (nodelay true w)));
    [|apply emits_emit; tauto].
  apply (emits_trans _ _ (nodelay true w)); [apply emits_emit; tauto|].
  eapply emits_weaken;
    [|apply (wait_loop_nd_unstopped onF2 onF1 (Z.to_nat ms)); [lia|exact H]].
  cbn. tauto.
Qed.

(** ** Cutting a list of effects at a given event *)

Lemma cut_after_prefix (x : event) a : forall b pre post,
  Forall (fun e => e <> x) a ->
  a ++ b = pre ++ x :: post ->
  exists pre2, pre = a ++ pre2 /\ b = pre2 ++ x :: post.
Proof.
  induction a as [|e a IH]; intros b pre post Ha H.
  - exists pre. split; [reflexivity|exact H].
  - inversion Ha as [|? ? He Ha']; subst.
    destruct pre as [|p pre]; cbn in H; inversion H; subst; [congruence|].
    destruct (IH b pre post Ha' H2) as (pre2 & -> & ->).
    exists pre2. split; reflexivity.
Qed.

Lemma cut_before_last (x a : event) : forall X pre post,
  a <> x ->
  X ++ [a] = pre ++ x :: post ->
  exists mid, post = mid ++ [a] /\ X = pre ++ x :: mid.
Proof.
  induction X as [|e X IH]; intros pre post Hax H.
  - destruct pre as [|p pre]; cbn in H; inversion H; subst; [congruence|].
    destruct pre; discriminate.
  - destruct pre as [|p pre]; cbn in H; inversion H; subst.
    + exists X. split; reflexivity.
    + destruct (IH pre post Hax H2) as (mid & -> & ->).
      exists mid. split; reflexivity.
Qed.

Lemma not_in_cut (x : event) d pre post :
  Forall (fun e => e <> x) d -> d <> pre ++ x :: post.
Proof.
  intros F E. subst d. apply Forall_app in F as [_ F].
  inversion F; congruence.
Qed.

Lemma iterations_cons l n :
  (l + 1) :: iterations (l + 1) n = iterations l (S n).
Proof.
  unfold iterations. cbn [seq map].
  replace (l + Z.of_nat 1) with (l + 1) by lia. f_equal.
  rewrite <- (seq_shift n 1), map_map. apply map_ext. intro j. lia.
Qed.

(** ** The loop over the iterations, cut at a stop during a delay *)

Lemma effects_emit e w : effects (emit e w) = effects w ++ [e].
Proof. reflexivity. Qed.

Lemma Forall_one {A} (P : A -> Prop) a : P a -> Forall P [a].
Proof. intro H. constructor; [exact H|constructor]. Qed.

Lemma Forall_two {A} (P : A -> Prop) a b : P a -> P b -> Forall P [a; b].
Proof. intros Ha Hb. constructor; [exact Ha|apply Forall_one, Hb]. Qed.

Lemma interpreter_is_loop_event e : interpreter_event e -> loop_event e.
Proof. destruct e; cbn; auto. Qed.

Lemma interpreter_not_F2Between e : interpreter_event e -> e <> Log F2Between.
Proof. intros H E. subst e. discriminate H. Qed.

Lemma delay_is_loop_event e :
  delay_event F2Between F1Between e -> loop_event e.
Proof. intros [->|[->|[->|[->| ->]]]]; cbn; auto. Qed.

Lemma delay_not_begun onF2 onF1 e :
  begun (Log onF2) = None -> begun (Log onF1) = None ->
  delay_event onF2 onF1 e -> begun e = None.
Proof. intros H2 H1 [->|[->|[->|[->| ->]]]]; auto. Qed.

Lemma unstopped_not_begun onF1 e :
  begun (Log onF1) = None ->
  e = Log onF1 \/ e = Usleep 50000 \/ e = Nodelay true \/ e = Nodelay false ->
  begun e = None.
Proof. intros H1 [->|[->|[->| ->]]]; auto. Qed.

Lemma loops_cut depth text loops ld : forall m l w w',
  (Z.to_nat (loops - l) <= m)%nat ->
  g_stopRequested w = false ->
  run_loops_nd depth text loops ld l w = Some w' ->
  exists dl,
    effects w' = effects w ++ dl /\ Forall loop_event dl /\
    forall pre post,
      dl = pre ++ Log F2Between :: post ->
      exists n mid,
        (1 <= n)%nat /\
        observe begun pre = iterations l n /\
        Forall (delay_event F2Between F1Between) mid /\
        post = mid ++ [Log (AbortedBetween (l + Z.of_nat n) loops)] /\
        g_stopRequested w' = true.
Proof.
  induction m as [|m IH]; intros l w w' Hm Hw H; rewrite run_loops_nd_eq in H;
    destruct (Z.ltb_spec l loops) as [Hl|Hl]; try lia;
    try (inversion H; subst; exists []; rewrite app_nil_r;
         split; [reflexivity|]; split; [constructor|];
         intros pre post E; destruct pre; discriminate).
  unfold loop_body_nd in H. rewrite Hw in H.
  destruct (parse_and_type_nd depth text (add_log (LoopBegin (l + 1) loops) w))
    as [w1|] eqn:Hp; [|discriminate].
  destruct (parse_and_type_nd_follows _ _ _ _ Hp) as ((dp & Ep & Fp) & _ & _).
  unfold add_log in Ep. rewrite effects_emit in Ep.
  assert (Fp2 : Forall (fun e => e <> Log F2Between) dp).
  { eapply Forall_impl; [apply interpreter_not_F2Between|exact Fp]. }
  assert (Fp3 : Forall loop_event dp).
  { eapply Forall_impl; [apply interpreter_is_loop_event|exact Fp]. }
  assert (Bp : observe begun dp = []).
  { apply (observe_silent begun interpreter_event);
      [apply interpreter_not_begun|exact Fp]. }
  destruct (g_stopRequested w1) eqn:Hw1.
  { (* interrupted while typing *)
    inversion H; subst w'. clear H.
    exists ([Log (LoopBegin (l + 1) loops)] ++ dp ++
            [Log (LoopInterrupted (l + 1) loops)]).
    split; [unfold add_log; rewrite effects_emit, Ep, <- !app_assoc;
            reflexivity|].
    split.
    { apply Forall_app. split; [apply Forall_one; cbn; auto|].
      apply Forall_app. split; [exact Fp3|apply Forall_one; cbn; auto]. }
    intros pre post E. exfalso. revert E. apply not_in_cut.
    apply Forall_app. split; [apply Forall_one; discriminate|].
    apply Forall_app. split; [exact Fp2|apply Forall_one; discriminate]. }
  set (w2 := add_log (LoopDone (l + 1) loops) w1) in *.
  assert (E2 : effects w2 = effects w ++ [Log (LoopBegin (l + 1) loops)] ++ dp ++
                           [Log (LoopDone (l + 1) loops)]).
  { unfold w2, add_log. rewrite effects_emit, Ep, <- !app_assoc. reflexivity. }
  assert (Hw2 : g_stopRequested w2 = false) by exact Hw1.
  (* what an iteration that goes on contributes *)
  assert (Hnext : forall w3 dd,
    effects w3 = effects w2 ++ dd ->
    Forall (fun e => e <> Log F2Between) dd -> Forall loop_event dd ->
    observe begun dd = [] ->
    g_stopRequested w3 = false ->
    run_loops_nd depth text loops ld (l + 1) w3 = Some w' ->
    exists dl,
      effects w' = effects w ++ dl /\ Forall loop_event dl /\
      forall pre post,
        dl = pre ++ Log F2Between :: post ->
        exists n mid,
          (1 <= n)%nat /\
          observe begun pre = iterations l n /\
          Forall (delay_event F2Between F1Between) mid /\
          post = mid ++ [Log (AbortedBetween (l + Z.of_nat n) loops)] /\
          g_stopRequested w' = true).
  { intros w3 dd E3 Fd1 Fd2 Bd Hw3 Hr.
    destruct (IH (l + 1) w3 w') as (dl & El & Fl & Hcut); [lia|exact Hw3|exact Hr|].
    set (A := [Log (LoopBegin (l + 1) loops)] ++ dp ++
              [Log (LoopDone (l + 1) loops)] ++ dd).
    exists (A ++ dl). split.
    { rewrite El, E3, E2. unfold A. rewrite <- !app_assoc. reflexivity. }
    split.
    { apply Forall_app. split; [|exact Fl]. unfold A.
      apply Forall_app. split; [apply Forall_one; cbn; auto|].
      apply Forall_app. split; [exact Fp3|].
      apply Forall_app. split; [apply Forall_one; cbn; auto|exact Fd2]. }
    intros pre post E.
    assert (FA : Forall (fun e => e <> Log F2Between) A).
    { unfold A. apply Forall_app. split; [apply Forall_one; discriminate|].
      apply Forall_app. split; [exact Fp2|].
      apply Forall_app. split; [apply Forall_one; discriminate|exact Fd1]. }
    destruct (cut_after_prefix _ _ _ _ _ FA E) as (pre2 & -> & E').
    destruct (Hcut pre2 post E') as (n & mid & Hn & Bn & Fm & Epost & Hs).
    exists (S n), mid. split; [lia|]. split.
    { rewrite observe_app, Bn. unfold A. rewrite !observe_app, Bp, Bd.
      cbn [observe flat_map begun app]. apply iterations_cons. }
    split; [exact Fm|]. split; [|exact Hs].
    rewrite Epost.
    replace (l + Z.of_nat (S n)) with (l + 1 + Z.of_nat n) by lia.
    reflexivity. }
  fold w2 in H.
  destruct ((l <? loops - 1) && (0 <? ld)) eqn:Hd.
  2:{ (* no delay: the next iteration starts from [w2] *)
      apply (Hnext w2 []); try constructor; auto.
      rewrite app_nil_r. reflexivity. }
  set (w3 := delay_nd F2Between F1Between ld (add_log (SleepingNext ld) w2)) in *.
  destruct (g_stopRequested w3) eqn:Hw3.
  - (* stopped during the delay *)
    inversion H; subst w'. clear H Hnext.
    destruct (delay_nd_emits F2Between F1Between ld (add_log (SleepingNext ld) w2))
      as (dd & Ed & Fd).
    fold w3 in Ed. unfold add_log in Ed. rewrite effects_emit in Ed.
    set (A := [Log (LoopBegin (l + 1) loops)] ++ dp ++
              [Log (LoopDone (l + 1) loops); Log (SleepingNext ld)]).
    exists (A ++ dd ++ [Log (AbortedBetween (l + 1) loops)]). split.
    { unfold add_log. rewrite effects_emit, Ed, E2. unfold A.
      rewrite <- !app_assoc. reflexivity. }
    split.
    { apply Forall_app. split.
      - unfold A. apply Forall_app. split; [apply Forall_one; cbn; auto|].
        apply Forall_app. split; [exact Fp3|apply Forall_two; cbn; auto].
      - apply Forall_app. split; [|apply Forall_one; cbn; auto].
        eapply Forall_impl; [apply delay_is_loop_event|exact Fd]. }
    intros pre post E.
    assert (FA : Forall (fun e => e <> Log F2Between) A).
    { unfold A. apply Forall_app. split; [apply Forall_one; discriminate|].
      apply Forall_app. split; [exact Fp2|apply Forall_two; discriminate]. }
    destruct (cut_after_prefix _ _ _ _ _ FA E) as (pre2 & -> & E').
    assert (Hne : Log (AbortedBetween (l + 1) loops) <> Log F2Between)
      by discriminate.
    destruct (cut_before_last _ _ _ _ _ Hne E') as (mid & -> & Edd).
    exists 1%nat, mid. split; [lia|].
    assert (Fd' : Forall (delay_event F2Between F1Between) (pre2 ++ Log F2Between :: mid))
      by (rewrite <- Edd; exact Fd).
    apply Forall_app in Fd' as [Fpre Fmid].
    split.
    { rewrite observe_app. unfold A. rewrite !observe_app, Bp.
      rewrite (observe_silent begun _ pre2
                 (fun e => delay_not_begun F2Between F1Between e eq_refl eq_refl) Fpre).
      reflexivity. }
    split; [inversion Fmid; assumption|]. split; [reflexivity|exact Hw3].
  - (* the delay ran out: the next iteration starts from [w3] *)
    destruct (delay_nd_unstopped F2Between F1Between ld
                (add_log (SleepingNext ld) w2) Hw3) as (dd & Ed & Fd).
    fold w3 in Ed. unfold add_log in Ed. rewrite effects_emit in Ed.
    apply (Hnext w3 ([Log (SleepingNext ld)] ++ dd)); auto.
    + rewrite Ed, <- app_assoc. reflexivity.
    + apply Forall_app. split; [apply Forall_one; discriminate|].
      eapply Forall_impl; [|exact Fd].
      intros e [->|[->|[->| ->]]]; discriminate.
    + apply Forall_app. split; [apply Forall_one; cbn; auto|].
      eapply Forall_impl; [|exact Fd].
      intros e [->|[->|[->| ->]]]; cbn; auto.
    + rewrite observe_app.
      rewrite (observe_silent begun _ dd (fun e => unstopped_not_begun F1Between e eq_refl) Fd).
      reflexivity.
Qed.

(** ** A stop during a delay *)

Lemma loop_event_not_F2Before e : loop_event e -> e <> Log F2Before.
Proof. intros H E. subst e. cbn in H. destruct H; discriminate. Qed.

(** The closing part of [simulate_typing], from a world with no stop
    requested. *)
Lemma finish_cut depth text loops ld w2 w' :
  g_stopRequested w2 = false ->
  match run_loops_nd depth text loops ld 0 w2 with
  | Some w3 =>
      if negb (g_stopRequested w3) then Some (add_log AllDone w3)
      else Some (add_log StoppedByUser w3)
  | None => None
  end = Some w' ->
  exists dl final,
    effects w' = effects w2 ++ dl ++ [Log final] /\
    Forall loop_event dl /\
    (final = AllDone \/ final = StoppedByUser) /\
    forall pre post,
      dl = pre ++ Log F2Between :: post ->
      final = StoppedByUser /\ g_stopRequested w' = true /\
      exists n mid,
        (1 <= n)%nat /\
        observe begun pre = iterations 0 n /\
        Forall (delay_event F2Between F1Between) mid /\
        post = mid ++ [Log (AbortedBetween (Z.of_nat n) loops)].
Proof.
  intros Hw2 H.
  destruct (run_loops_nd depth text loops ld 0 w2) as [w3|] eqn:Hr; [|discriminate].
  destruct (loops_cut depth text loops ld (Z.to_nat (loops - 0)) 0 w2 w3)
    as (dl & El & Fl & Hcut); [lia|exact Hw2|exact Hr|].
  destruct (g_stopRequested w3) eqn:Hw3; cbn [negb] in H; inversion H; subst w'.
  - exists dl, StoppedByUser. unfold add_log. rewrite effects_emit, El, <- app_assoc.
    split; [reflexivity|]. split; [exact Fl|]. split; [right; reflexivity|].
    intros pre post E. split; [reflexivity|]. split; [exact Hw3|].
    destruct (Hcut pre post E) as (n & mid & Hn & Bn & Fm & Ep & _).
    exists n, mid. auto.
  - exists dl, AllDone. unfold add_log. rewrite effects_emit, El, <- app_assoc.
    split; [reflexivity|]. split; [exact Fl|]. split; [left; reflexivity|].
    intros pre post E.
    destruct (Hcut pre post E) as (n & mid & _ & _ & _ & _ & Hs). congruence.
Qed.

(** A run cut at the F2 line of a delay, when no call waits. *)
Lemma simulate_typing_nd_delay_stop depth text loops sd ld w w' :
  simulate_typing_nd depth text loops sd ld w = Some w' ->
  (forall pre post,
      effects w' = effects w ++ pre ++ Log F2Before :: post ->
      g_stopRequested w' = true /\
      exists pre2 mid,
        pre = [Log (SimStart sd ld loops text); Log (SleepingBefore sd)] ++ pre2 /\
        Forall (delay_event F2Before F1Before) pre2 /\
        Forall (delay_event F2Before F1Before) mid /\
        post = mid ++ [Log AbortedBefore] /\
        observe begun (pre ++ Log F2Before :: post) = []) /\
  (forall pre post,
      effects w' = effects w ++ pre ++ Log F2Between :: post ->
      g_stopRequested w' = true /\
      exists n mid,
        (1 <= n)%nat /\
        observe begun pre = iterations 0 n /\
        Forall (delay_event F2Between F1Between) mid /\
        post = mid ++ [Log (AbortedBetween (Z.of_nat n) loops);
                       Log StoppedByUser] /\
        observe begun post = []).
Proof.
  intro H. unfold simulate_typing_nd in H.
  set (w1 := reset_stop (add_log (SimStart sd ld loops text) w)) in *.
  assert (E1 : effects w1 = effects w ++ [Log (SimStart sd ld loops text)])
    by reflexivity.
  assert (Hw1 : g_stopRequested w1 = false) by reflexivity.
  destruct (0 <? sd) eqn:Hsd.
  - set (w2 := delay_nd F2Before F1Before sd (add_log (SleepingBefore sd) w1)) in *.
    set (A := [Log (SimStart sd ld loops text); Log (SleepingBefore sd)]).
    destruct (g_stopRequested w2) eqn:Hw2.
    + (* stopped during the start delay *)
      inversion H; subst w'. clear H.
      destruct (delay_nd_emits F2Before F1Before sd (add_log (SleepingBefore sd) w1))
        as (dd & Ed & Fd).
      fold w2 in Ed. unfold add_log in Ed. rewrite effects_emit, E1 in Ed.
      assert (Enew : effects (add_log AbortedBefore w2) =
                     effects w ++ A ++ dd ++ [Log AbortedBefore]).
      { unfold add_log. rewrite effects_emit, Ed. unfold A.
        rewrite <- !app_assoc. reflexivity. }
      split; intros pre post E; rewrite Enew in E; apply app_inv_head in E.
      * assert (FA : Forall (fun e => e <> Log F2Before) A)
          by (apply Forall_two; discriminate).
        destruct (cut_after_prefix _ _ _ _ _ FA E) as (pre2 & -> & E').
        assert (Hne : Log AbortedBefore <> Log F2Before) by discriminate.
        destruct (cut_before_last _ _ _ _ _ Hne E') as (mid & -> & Edd).
        rewrite Edd in Fd. apply Forall_app in Fd as [Fpre Fmid].
        split; [exact Hw2|]. exists pre2, mid.
        split; [reflexivity|]. split; [exact Fpre|].
        split; [inversion Fmid; assumption|]. split; [reflexivity|].
        rewrite <- E. unfold A. rewrite !observe_app.
        rewrite (observe_silent begun _ dd
                   (fun e => delay_not_begun F2Before F1Before e eq_refl eq_refl)).
        -- reflexivity.
        -- rewrite Edd. apply Forall_app. split; assumption.
      * exfalso. revert E. apply not_in_cut.
        apply Forall_app. split; [apply Forall_two; discriminate|].
        apply Forall_app. split; [|apply Forall_one; discriminate].
        eapply Forall_impl; [|exact Fd].
        intros e [->|[->|[->|[->| ->]]]]; discriminate.
    + (* the start delay ran out *)
      destruct (delay_nd_unstopped F2Before F1Before sd
                  (add_log (SleepingBefore sd) w1) Hw2) as (dd & Ed & Fd).
      fold w2 in Ed. unfold add_log in Ed. rewrite effects_emit, E1 in Ed.
      destruct (finish_cut depth text loops ld w2 w' Hw2 H)
        as (dl & final & El & Fl & Hfinal & Hcut).
      assert (Enew : effects w' = effects w ++ (A ++ dd) ++ dl ++ [Log final]).
      { rewrite El, Ed. unfold A. rewrite <- !app_assoc. reflexivity. }
      split; intros pre post E; rewrite Enew in E; apply app_inv_head in E.
      * exfalso. revert E. apply not_in_cut.
        apply Forall_app. split.
        { apply Forall_app. split; [apply Forall_two; discriminate|].
          eapply Forall_impl; [|exact Fd].
          intros e [->|[->|[->| ->]]]; discriminate. }
        apply Forall_app. split.
        { eapply Forall_impl; [apply loop_event_not_F2Before|exact Fl]. }
        apply Forall_one. destruct Hfinal as [->| ->]; discriminate.
      * assert (FA : Forall (fun e => e <> Log F2Between) (A ++ dd)).
        { apply Forall_app. split; [apply Forall_two; discriminate|].
          eapply Forall_impl; [|exact Fd].
          intros e [->|[->|[->| ->]]]; discriminate. }
        destruct (cut_after_prefix _ _ _ _ _ FA E) as (pre2 & -> & E').
        assert (Hne : Log final <> Log F2Between)
          by (destruct Hfinal as [->| ->]; discriminate).
        destruct (cut_before_last _ _ _ _ _ Hne E') as (mid0 & -> & Edl).
        destruct (Hcut pre2 mid0 Edl) as (-> & Hs & n & mid & Hn & Bn & Fm & ->).
        split; [exact Hs|]. exists n, mid. split; [exact Hn|].
        split.
        { rewrite !observe_app, Bn.
          rewrite (observe_silent begun _ dd
                     (fun e => unstopped_not_begun F1Before e eq_refl) Fd).
          reflexivity. }
        split; [exact Fm|]. split; [rewrite <- app_assoc; reflexivity|].
        rewrite !observe_app.
        rewrite (observe_silent begun _ mid
                   (fun e => delay_not_begun F2Between F1Between e eq_refl eq_refl) Fm).
        reflexivity.
  - (* no start delay *)
    destruct (finish_cut depth text loops ld w1 w' Hw1 H)
      as (dl & final & El & Fl & Hfinal & Hcut).
    set (A := [Log (SimStart sd ld loops text)]).
    assert (Enew : effects w' = effects w ++ A ++ dl ++ [Log final]).
    { rewrite El, E1. unfold A. rewrite <- !app_assoc. reflexivity. }
    split; intros pre post E; rewrite Enew in E; apply app_inv_head in E.
    + exfalso. revert E. apply not_in_cut.
      apply Forall_app. split; [apply Forall_one; discriminate|].
      apply Forall_app. split.
      { eapply Forall_impl; [apply loop_event_not_F2Before|exact Fl]. }
      apply Forall_one. destruct Hfinal as [->| ->]; discriminate.
    + assert (FA : Forall (fun e => e <> Log F2Between) A)
        by (apply Forall_one; discriminate).
      destruct (cut_after_prefix _ _ _ _ _ FA E) as (pre2 & -> & E').
      assert (Hne : Log final <> Log F2Between)
        by (destruct Hfinal as [->| ->]; discriminate).
      destruct (cut_before_last _ _ _ _ _ Hne E') as (mid0 & -> & Edl).
      destruct (Hcut pre2 mid0 Edl) as (-> & Hs & n & mid & Hn & Bn & Fm & ->).
      split; [exact Hs|]. exists n, mid. split; [exact Hn|].
      split; [rewrite !observe_app, Bn; reflexivity|].
      split; [exact Fm|]. split; [rewrite <- app_assoc; reflexivity|].
      rewrite !observe_app.
      rewrite (observe_silent begun _ mid
                 (fun e => delay_not_begun F2Between F1Between e eq_refl eq_refl) Fm).
      reflexivity.
Qed.

(** ** Rejected message tokens *)

Lemma decimal_from_nonneg s : forall acc, 0 <= acc -> 0 <= decimal_from acc s.
Proof.
  induction s as [|c s IH]; intros acc Ha; cbn [decimal_from]; [exact Ha|].
  destruct (is_digit c) eqn:Hc; [|exact Ha].
  apply IH. unfold digit_value. unfold is_digit in Hc.
  apply andb_prop in Hc as [H1 _]. apply Nat.leb_le in H1. lia.
Qed.

Lemma atoi_small s : decimal s <= INT_MAX -> atoi s = decimal s.
Proof.
  intro H. pose proof (decimal_from_nonneg s 0 (Z.le_refl 0)) as Hn.
  fold (decimal s) in Hn. unfold atoi, strtol10, to_int, INT_MAX, LONG_MAX in *.
  rewrite Z.min_l by lia.
  rewrite Z.mod_small by lia. lia.
Qed.

Lemma scanned_rejected text w :
  consumed_at text = O ->
  scanned text w = w \/
  exists n c, scanned text w = add_log (WarnMessageRange n c) w.
Proof.
  unfold consumed_at, consumed_of, scanned, world_of, parse_special_token.
  destruct (negb (Ascii.eqb (char_at text 0) "{")); [left; reflexivity|].
  destruct (strncmp_eq text "{message" 8).
  - destruct (scan_digits _ _ _ _) as [idx numBuf].
    destruct (Ascii.eqb _ "}"); [|left; reflexivity].
    destruct (_ || _); cbn [fst snd]; intro H; [right; eauto|lia].
  - destruct (scan_table key_table text zero_action). left. reflexivity.
Qed.


Lemma literal_turn_emits expand text i w :
  consumed_at (advance i text) = O -> char_at text i <> zero -> calm w ->
  exists w',
    typing_step_nd expand text i w = Advance_nd 1 w' /\ emits literal_event w w'.
Proof.
  intros Hc Hz Hw.
  destruct (literal_turn expand text i w Hc Hz Hw) as (w' & Hstep & Hw' & _ & _).
  exists w'. split; [exact Hstep|].
  pose proof (poll_nd_typing_follows F2Typing F1Typing w eq_refl eq_refl) as Fp.
  assert (Hp : calm (poll_nd F2Typing F1Typing w)) by (apply Fp, Hw).
  pose proof (typing_step_nd_case expand text i w) as C.
  pose proof (calm_flag _ Hw) as Hw0. pose proof (calm_flag _ Hp) as Hp0.
  rewrite Hstep in C.
  inversion C as [ | | ? ? ? Hc' | | | | ]; try lia. subst.
  apply (emits_trans _ _ (poll_nd F2Typing F1Typing w)).
  { eapply emits_weaken; [|apply (proj1 (poll_nd_follows F2Typing F1Typing w))].
    intros e [->| ->]; reflexivity. }
  apply (emits_trans _ _ (scanned (advance i text) (poll_nd F2Typing F1Typing w))).
  { destruct (scanned_rejected (advance i text) (poll_nd F2Typing F1Typing w) Hc)
      as [->|(n & c & ->)]; [apply emits_refl|apply emits_emit; reflexivity]. }
  unfold usleep, send_char, pressKey, pressKeyUp, pressKeyDown, usleep, add_log.
  destruct (map_char_to_keysym (char_at text i) =? NoSymbol);
    [|destruct (XKeysymToKeycode (map_char_to_keysym (char_at text i)) =? 0)];
    repeat (eapply emits_trans; [|apply emits_emit; first [exact I|reflexivity]]);
    apply emits_refl.
Qed.

(** A stretch of characters none of which starts a token is typed character
    by character. *)
Lemma literal_span expand text : forall n i w,
  (forall k, (k < n)%nat ->
             consumed_at (advance (i + k) text) = O /\
             char_at text (i + k) <> zero) ->
  calm w ->
  exists w',
    typing_loop_nd expand text i w = typing_loop_nd expand text (i + n) w' /\
    calm w' /\ emits literal_event w w' /\
    observe typed_char (effects w') =
    observe typed_char (effects w) ++
    list_ascii_of_string (take n (advance i text)).
Proof.
  induction n as [|n IH]; intros i w Hk Hw.
  - exists w. rewrite Nat.add_0_r. cbn. rewrite app_nil_r.
    split; [reflexivity|]. split; [exact Hw|].
    split; [apply emits_refl|reflexivity].
  - destruct (Hk 0%nat) as [Hc Hz]; [lia|]. rewrite Nat.add_0_r in Hc, Hz.
    destruct (literal_turn expand text i w Hc Hz Hw)
      as (w1 & Hstep & Hw1 & _ & T1).
    destruct (literal_turn_emits expand text i w Hc Hz Hw)
      as (w1' & Hstep' & E1).
    rewrite Hstep in Hstep'. inversion Hstep'; subst w1'. clear Hstep'.
    destruct (IH (i + 1)%nat w1) as (w' & Hrun & Hw' & E' & T').
    { intros k Hlt. replace (i + 1 + k)%nat with (i + S k)%nat by lia.
      apply Hk. lia. }
    { exact Hw1. }
    exists w'. rewrite typing_loop_nd_eq, Hstep.
    replace (i + S n)%nat with (i + 1 + n)%nat by lia.
    split; [exact Hrun|]. split; [exact Hw'|].
    split; [eapply emits_trans; eassumption|].
    rewrite T', T1, <- app_assoc. f_equal.
    assert (Ea : advance i text = String (char_at text i) (advance (i + 1) text)).
    { rewrite <- (advance_advance i text 1).
      apply char_at_head; [|exact Hz].
      rewrite char_at_advance, Nat.add_0_r. reflexivity. }
    rewrite Ea at 1. reflexivity.
Qed.


Lemma take_append s : forall rest, take (String.length s) (s ++ rest) = s.
Proof. induction s as [|c s IH]; intro rest; cbn; [reflexivity|now rewrite IH]. Qed.



Lemma message_token_scan ds rest out w :
  all_digits ds = true ->
  parse_special_token ("{message" ++ ds ++ "}" ++ rest) out w =
  if (String.length ds <=? buf_room)%nat then
    if (atoi ds <? 1) || (g_messageCount <? atoi ds)
    then (O, out, add_log (WarnMessageRange (atoi ds) g_messageCount) w)
    else
      let buf := strncpy (nth (Z.to_nat (atoi ds - 1)) g_messages EmptyString)
                   2047 in
      ((8 + String.length ds + 1)%nat, mkTokenAction 0 0 buf 1,
       add_log (FoundMessage ds (atoi ds) buf) w)
  else (O, out, w).
Proof.
  intro Hd. set (text := ("{message" ++ ds ++ "}" ++ rest)%string).
  assert (Ha : advance 8 text = (ds ++ "}" ++ rest)%string) by reflexivity.
  unfold parse_special_token.
  change (negb (Ascii.eqb (char_at text 0) "{")) with false. cbn [negb].
  change (strncmp_eq text "{message" 8) with true. cbn iota.
  destruct (Nat.leb_spec (String.length ds) buf_room) as [Hl|Hl].
  - rewrite (scan_digits_run ds buf_room text 8 EmptyString ("}" ++ rest)
               Hd Ha Hl eq_refl).
    cbn [append].
    replace (char_at text (8 + String.length ds)) with "}"%char.
    + reflexivity.
    + rewrite <- char_at_advance, Ha.
      replace (String.length ds) with (String.length ds + 0)%nat by lia.
      rewrite char_at_append_right. reflexivity.
  - destruct (scan_digits_full ds buf_room text 8 EmptyString ("}" ++ rest)
                Hd Ha Hl) as (buf' & -> & Hdig).
    rewrite (is_digit_not_brace _ Hdig). reflexivity.
Qed.

(** ** Message tokens the scanner rejects *)


(** ** Expansion chains and the depth of the recursion *)

(** An accepted message token expands to an entry of the table. *)
Lemma splice_is_entry text :
  (0 < consumed_at text)%nat -> useExpand (action_at text) <> 0 ->
  In (expandBuf (action_at text)) entries.
Proof.
  unfold consumed_at, action_at, consumed_of, action_of, parse_special_token.
  destruct (negb (Ascii.eqb (char_at text 0) "{")); [cbn; lia|].
  destruct (strncmp_eq text "{message" 8).
  - destruct (scan_digits _ _ _ _) as [idx numBuf].
    destruct (Ascii.eqb _ "}"); [|cbn; lia].
    destruct (Z.ltb_spec (atoi numBuf) 1) as [H1|H1]; [cbn; lia|].
    destruct (Z.ltb_spec g_messageCount (atoi numBuf)) as [H2|H2]; [cbn; lia|].
    cbn [orb fst snd expandBuf useExpand]. intros _ _. unfold entries.
    apply (in_map (fun m => strncpy m 2047)). apply nth_In.
    unfold g_messageCount in H2. lia.
  - destruct (scan_table key_table text zero_action) as [n a] eqn:Hs.
    cbn. intros Hn Hu.
    destruct (scan_table_accept _ _ _ _ _ Hs Hn) as (_ & _ & _ & _ & _ & Hz & _).
    contradiction.
Qed.



Lemma parse_and_type_nd_S d text w :
  parse_and_type_nd (S d) text w =
  match typing_loop_nd (parse_and_type_nd d) text 0 (nodelay true w) with
  | Some (_, w') => Some (nodelay false w')
  | None => None
  end.
Proof. reflexivity. Qed.







Lemma doomed_next t : doomed t -> exists t', splices_to t t' /\ doomed t'.
Proof.
  intros (c & Hrt & Hcyc).
  apply clos_rt_rt1n in Hrt. destruct Hrt as [|y z Hs Hrt].
  - apply clos_trans_t1n in Hcyc as Hc. inversion Hc as [y Hs|y z Hs Ht]; subst.
    + exists t. split; [exact Hs|]. exists t. split; [apply rt_refl|exact Hcyc].
    + exists y. split; [exact Hs|]. exists t. split; [|exact Hcyc].
      apply clos_t1n_trans in Ht. apply clos_t_clos_rt. exact Ht.
  - exists y. split; [exact Hs|]. exists z. split; [|exact Hcyc].
    apply clos_rt1n_rt. exact Hrt.
Qed.

(** In a calm world the loop gets to every position it can stand at, unless
    it runs out of activations before. *)
Lemma reach_position expand text :
  (forall s w w', expand s w = Some w' -> follows interpreter_event w w') ->
  forall p, visited text p ->
  forall w, calm w ->
    typing_loop_nd expand text 0 w = None \/
    exists w', calm w' /\
               typing_loop_nd expand text 0 w = typing_loop_nd expand text p w'.
Proof.
  intros Hexp p Hv. induction Hv as [|i Hv IH Hz]; intros w Hw.
  - right. exists w. split; [exact Hw|reflexivity].
  - destruct (IH w Hw) as [Hn|(w1 & Hw1 & E)]; [left; exact Hn|].
    rewrite E, typing_loop_nd_eq.
    pose proof (typing_step_nd_follows expand Hexp text i w1) as F.
    destruct (typing_step_nd expand text i w1) as [w2|n w2|] eqn:Hs.
    + exfalso. pose proof (typing_step_nd_case expand text i w1) as C.
      rewrite Hs in C.
      pose proof (calm_flag _ Hw1) as H1.
      assert (Hp : g_stopRequested (poll_nd F2Typing F1Typing w1) = false).
      { apply calm_flag.
        apply (poll_nd_typing_follows F2Typing F1Typing w1 eq_refl eq_refl), Hw1. }
      inversion C as [[Hz'|Hs']|? ? Hp'| | | | | ]; congruence.
    + right. exists w2. split; [apply F, Hw1|].
      apply typing_step_nd_width in Hs as [-> _]. reflexivity.
    + left. reflexivity.
Qed.

Lemma doomed_too_deep : forall depth t w,
  doomed t -> calm w -> parse_and_type_nd depth t w = None.
Proof.
  induction depth as [|d IH]; intros t w Hd Hw; [reflexivity|].
  rewrite parse_and_type_nd_S.
  destruct (doomed_next t Hd) as (t' & (p & Hv & Hz & Hc & Hu & Hb) & Hd').
  assert (Hw0 : calm (nodelay true w)) by (apply calm_emit, Hw).
  destruct (reach_position (parse_and_type_nd d) t (parse_and_type_nd_follows d)
              p Hv _ Hw0) as [->|(w1 & Hw1 & ->)]; [reflexivity|].
  rewrite typing_loop_nd_eq.
  pose proof (typing_step_nd_case (parse_and_type_nd d) t p w1) as C.
  pose proof (calm_flag _ Hw1) as H1.
  assert (Hp : calm (poll_nd F2Typing F1Typing w1)).
  { apply (poll_nd_typing_follows F2Typing F1Typing w1 eq_refl eq_refl), Hw1. }
  pose proof (calm_flag _ Hp) as Hp1.
  inversion C as [[Hz'|Hs']|? ? Hp'| ? ? ? Hc'|w2 ? ? ? ? ? Hx E|? ? ? ? ? Hx E|
                  ? ? ? ? Hu'|? ? ? ? Hu']; try congruence; try lia.
  exfalso. rewrite Hb in Hx. rewrite IH in Hx; [discriminate|exact Hd'|].
  apply calm_emit. apply (scanned_follows (advance p t)), Hp.
Qed.


(** ** How deep the interpreter recurses *)


(** ** The terminal mode *)

Lemma mode_after_app evs1 evs2 mode :
  mode_after (evs1 ++ evs2) mode = mode_after evs2 (mode_after evs1 mode).
Proof. unfold mode_after. apply fold_left_app. Qed.

Lemma mode_after_keeps d : forall mode,
  Forall keeps_mode d -> mode_after d mode = mode.
Proof.
  induction d as [|e d IH]; intros mode F; [reflexivity|].
  inversion F as [|? ? He Fd]; subst. cbn.
  destruct e; try contradiction; apply IH, Fd.
Qed.

Lemma nodelay_on_emit e w :
  nodelay_on (emit e w) =
  match e with Nodelay bf => bf | _ => nodelay_on w end.
Proof.
  unfold nodelay_on, emit. cbn [effects]. rewrite mode_after_app.
  destruct e; reflexivity.
Qed.

Lemma nodelay_on_same w w' : effects w' = effects w -> nodelay_on w' = nodelay_on w.
Proof. unfold nodelay_on. intros ->. reflexivity. Qed.

(** Effects that are no calls of [nodelay] leave the mode as it is. *)
Lemma emits_mode (Q : event -> Prop) w w' :
  (forall e, Q e -> keeps_mode e) -> emits Q w w' ->
  nodelay_on w' = nodelay_on w.
Proof.
  intros HQ (d & E & F). unfold nodelay_on. rewrite E, mode_after_app.
  apply mode_after_keeps. eapply Forall_impl; [exact HQ|exact F].
Qed.

Lemma add_log_mode line w : nodelay_on (add_log line w) = nodelay_on w.
Proof. unfold add_log. rewrite nodelay_on_emit. reflexivity. Qed.

Lemma request_stop_mode w : nodelay_on (request_stop w) = nodelay_on w.
Proof. reflexivity. Qed.

Lemma pressKeyDown_mode ks w : nodelay_on (pressKeyDown ks w) = nodelay_on w.
Proof.
  unfold pressKeyDown, add_log. destruct (XKeysymToKeycode ks =? 0);
    rewrite nodelay_on_emit; reflexivity.
Qed.

Lemma pressKeyUp_mode ks w : nodelay_on (pressKeyUp ks w) = nodelay_on w.
Proof.
  unfold pressKeyUp, add_log. destruct (XKeysymToKeycode ks =? 0);
    rewrite nodelay_on_emit; reflexivity.
Qed.

Lemma pressKey_mode ks w : nodelay_on (pressKey ks w) = nodelay_on w.
Proof.
  unfold pressKey, usleep.
  rewrite nodelay_on_emit, pressKeyUp_mode, nodelay_on_emit, pressKeyDown_mode.
  reflexivity.
Qed.

Lemma send_char_mode c w : nodelay_on (send_char c w) = nodelay_on w.
Proof.
  unfold send_char, add_log. destruct (map_char_to_keysym c =? NoSymbol);
    [rewrite nodelay_on_emit; reflexivity|apply pressKey_mode].
Qed.

Lemma scanned_mode text w : nodelay_on (scanned text w) = nodelay_on w.
Proof.
  destruct (scanned_cases text w) as [E|[(n & c & E)|(b & n & e & E)]];
    rewrite E; [reflexivity| |]; unfold add_log; rewrite nodelay_on_emit;
    reflexivity.
Qed.

Lemma poll_nd_mode onF2 onF1 w :
  nodelay_on (poll_nd onF2 onF1 w) = nodelay_on w.
Proof.
  apply (emits_mode (fun e => e = Log onF2 \/ e = Log onF1));
    [intros e [->| ->]; exact I|apply poll_nd_follows].
Qed.

Lemma wait_loop_nd_mode onF2 onF1 ms w :
  nodelay_on (wait_loop_nd onF2 onF1 ms w) = nodelay_on w.
Proof.
  apply (emits_mode (fun e => e = Log onF2 \/ e = Log onF1 \/ e = Usleep 50000));
    [intros e [->|[->| ->]]; exact I|apply wait_loop_nd_follows with (n := Z.to_nat ms); lia].
Qed.

Lemma hold_key_nd_mode ks ms w :
  nodelay_on (hold_key_nd ks ms w) = nodelay_on w.
Proof.
  unfold hold_key_nd, usleep, add_log.
  rewrite nodelay_on_emit, pressKeyUp_mode, wait_loop_nd_mode,
    pressKeyDown_mode, nodelay_on_emit.
  reflexivity.
Qed.

(** ** Polling in the two modes *)

(** The poll loop is a loop over [getch()]. *)
Lemma drain_getch onF2 onF1 keys w :
  drain onF2 onF1 keys w =
  match getch (nodelay_on w) keys with
  | None => Waits (mkWorld (g_stopRequested w) (effects w) [])
  | Some (ch, keys') =>
      if ch =? ERR
      then Returns (mkWorld (g_stopRequested w) (effects w) keys')
      else if ch =? KEY_F 2 then
        drain onF2 onF1 keys' (request_stop (add_log onF2 w))
      else if ch =? KEY_F 1 then drain onF2 onF1 keys' (add_log onF1 w)
      else drain onF2 onF1 keys' w
  end.
Proof.
  induction keys as [|ch keys IH]; cbn [drain getch].
  - destruct (nodelay_on w); reflexivity.
  - destruct (ch =? ERR) eqn:E; cbn [andb].
    + destruct (nodelay_on w) eqn:M; cbn [negb].
      * rewrite E. reflexivity.
      * cbn [andb]. rewrite IH. reflexivity.
    + rewrite E. reflexivity.
Qed.

(** In nodelay mode a poll returns. *)
Lemma drain_on onF2 onF1 : forall keys w,
  nodelay_on w = true ->
  drain onF2 onF1 keys w = Returns (drain_nd onF2 onF1 keys w).
Proof.
  induction keys as [|ch keys IH]; intros w M; cbn [drain drain_nd].
  - rewrite M. reflexivity.
  - rewrite M. destruct (ch =? ERR); [reflexivity|].
    destruct (ch =? KEY_F 2); [|destruct (ch =? KEY_F 1)]; apply IH;
      rewrite ?request_stop_mode, ?add_log_mode; exact M.
Qed.

(** In blocking mode a poll reads the keys that come and then waits. *)
Lemma drain_off onF2 onF1 : forall keys w,
  nodelay_on w = false ->
  drain onF2 onF1 keys w = Waits (drain_nd onF2 onF1 (keys_only keys) w).
Proof.
  induction keys as [|ch keys IH]; intros w M; cbn [drain keys_only filter].
  - rewrite M. reflexivity.
  - rewrite M. destruct (ch =? ERR) eqn:E; cbn [negb]; [apply IH, M|].
    cbn [drain_nd]. rewrite E.
    destruct (ch =? KEY_F 2); [|destruct (ch =? KEY_F 1)]; apply IH;
      rewrite ?request_stop_mode, ?add_log_mode; exact M.
Qed.

Lemma poll_on onF2 onF1 w :
  nodelay_on w = true -> poll onF2 onF1 w = Returns (poll_nd onF2 onF1 w).
Proof. intro M. apply drain_on, M. Qed.

Lemma poll_off onF2 onF1 w :
  nodelay_on w = false ->
  poll onF2 onF1 w = Waits (drain_nd onF2 onF1 (keys_only (pending w)) w).
Proof. intro M. apply drain_off, M. Qed.

(** A poll that returns was made in nodelay mode. *)
Lemma poll_returns onF2 onF1 w w' :
  poll onF2 onF1 w = Returns w' ->
  nodelay_on w = true /\ w' = poll_nd onF2 onF1 w.
Proof.
  intro H. destruct (nodelay_on w) eqn:M.
  - rewrite (poll_on _ _ _ M) in H. inversion H. auto.
  - rewrite (poll_off _ _ _ M) in H. discriminate.
Qed.

(** ** Waiting in the two modes *)

Lemma wait_loop_eq onF2 onF1 remain w :
  wait_loop onF2 onF1 remain w =
  if 0 <? remain then
    if g_stopRequested w then Returns w
    else w' <- poll onF2 onF1 (usleep 50000 w) ;;
         wait_loop onF2 onF1 (remain - 50) w'
  else Returns w.
Proof.
  rewrite wait_loop_equation_1.
  destruct (Z_lt_dec 0 remain) as [H|H]; simpl;
    destruct (Z.ltb_spec 0 remain); try lia; reflexivity.
Qed.

Lemma wait_loop_on onF2 onF1 : forall n remain w,
  (Z.to_nat remain <= n)%nat -> nodelay_on w = true ->
  wait_loop onF2 onF1 remain w = Returns (wait_loop_nd onF2 onF1 remain w).
Proof.
  induction n as [|n IH]; intros remain w Hn M;
    rewrite wait_loop_eq, wait_loop_nd_eq;
    destruct (Z.ltb_spec 0 remain); try lia; try reflexivity.
  destruct (g_stopRequested w); [reflexivity|].
  assert (M1 : nodelay_on (usleep 50000 w) = true)
    by (unfold usleep; rewrite nodelay_on_emit; exact M).
  rewrite (poll_on _ _ _ M1). cbn [bind]. apply IH; [lia|].
  rewrite poll_nd_mode. exact M1.
Qed.

(** In blocking mode a wait that has time left, and no stop request, waits
    in its first poll. *)
Lemma wait_loop_off onF2 onF1 remain w :
  nodelay_on w = false -> 0 < remain -> g_stopRequested w = false ->
  wait_loop onF2 onF1 remain w =
  Waits (drain_nd onF2 onF1 (keys_only (pending w)) (usleep 50000 w)).
Proof.
  intros M Hr Hw. rewrite wait_loop_eq.
  destruct (Z.ltb_spec 0 remain); [|lia]. rewrite Hw.
  assert (M1 : nodelay_on (usleep 50000 w) = false)
    by (unfold usleep; rewrite nodelay_on_emit; exact M).
  rewrite (poll_off _ _ _ M1). reflexivity.
Qed.

Lemma hold_key_on ks ms w :
  nodelay_on w = true -> hold_key ks ms w = Returns (hold_key_nd ks ms w).
Proof.
  intro M. unfold hold_key, hold_key_nd.
  rewrite (wait_loop_on F2Hold F1Hold (Z.to_nat ms)); [reflexivity|lia|].
  rewrite pressKeyDown_mode. unfold add_log. rewrite nodelay_on_emit. exact M.
Qed.

(** A wait that returns has made its polls in nodelay mode, or none. *)
Lemma wait_loop_returns onF2 onF1 remain w w' :
  wait_loop onF2 onF1 remain w = Returns w' ->
  w' = wait_loop_nd onF2 onF1 remain w.
Proof.
  destruct (nodelay_on w) eqn:M.
  - rewrite (wait_loop_on onF2 onF1 (Z.to_nat remain)) by (lia || exact M).
    intro H. inversion H. reflexivity.
  - rewrite wait_loop_eq, wait_loop_nd_eq.
    destruct (0 <? remain); [|intro H; inversion H; reflexivity].
    destruct (g_stopRequested w); [intro H; inversion H; reflexivity|].
    rewrite poll_off; [discriminate|].
    unfold usleep. rewrite nodelay_on_emit. exact M.
Qed.

Lemma hold_key_returns ks ms w w' :
  hold_key ks ms w = Returns w' -> w' = hold_key_nd ks ms w.
Proof.
  unfold hold_key, hold_key_nd.
  destruct (wait_loop F2Hold F1Hold ms _) as [w1|w1|] eqn:E; cbn [bind];
    try discriminate.
  apply wait_loop_returns in E. subst w1. intro H. inversion H. reflexivity.
Qed.

(** A delay sets the mode it polls in, so it returns. *)
Lemma delay_returns onF2 onF1 ms w :
  delay onF2 onF1 ms w = Returns (delay_nd onF2 onF1 ms w).
Proof.
  unfold delay, delay_nd.
  rewrite (wait_loop_on onF2 onF1 (Z.to_nat ms)); [reflexivity|lia|].
  unfold nodelay. rewrite nodelay_on_emit. reflexivity.
Qed.

Lemma delay_nd_mode onF2 onF1 ms w : nodelay_on (delay_nd onF2 onF1 ms w) = false.
Proof. unfold delay_nd, nodelay. rewrite nodelay_on_emit. reflexivity. Qed.

(** ** One turn of the loop, by the mode *)

(** A turn whose poll is made in blocking mode waits there; in nodelay mode
    the poll returns and the turn goes on, and only an expansion can keep it
    from returning. *)
Lemma typing_step_eq expand text i w :
  typing_step expand text i w =
  if Ascii.eqb (char_at text i) zero || g_stopRequested w
  then Returns (Leave w)
  else if negb (nodelay_on w)
  then Waits (drain_nd F2Typing F1Typing (keys_only (pending w)) w)
  else
    let w1 := poll_nd F2Typing F1Typing w in
    if g_stopRequested w1 then Returns (Leave w1)
    else
      let t := advance i text in
      let w2 := scanned t w1 in
      if (0 <? consumed_at t)%nat then
        if negb (useExpand (action_at t) =? 0) then
          w3 <- expand (expandBuf (action_at t))
                  (add_log (InsertLine (expandBuf (action_at t))) w2) ;;
          Returns (Advance (consumed_at t) w3)
        else if 0 <? holdMs (action_at t) then
          Returns (Advance (consumed_at t)
                     (hold_key_nd (sym (action_at t)) (holdMs (action_at t))
                        w2))
        else
          Returns (Advance (consumed_at t)
                     (pressKey (sym (action_at t))
                        (add_log (QuickPress (sym (action_at t))) w2)))
      else
        Returns (Advance 1
                   (usleep 30000
                      (send_char (char_at text i)
                         (add_log (SendingChar (char_at text i)) w2)))).
Proof.
  unfold typing_step.
  destruct (Ascii.eqb (char_at text i) zero || g_stopRequested w);
    [reflexivity|].
  destruct (nodelay_on w) eqn:M; cbn [negb].
  - rewrite (poll_on _ _ _ M). cbn [bind]. cbv zeta.
    destruct (g_stopRequested (poll_nd F2Typing F1Typing w)); [reflexivity|].
    rewrite scan_result.
    destruct (0 <? consumed_at (advance i text))%nat; [|reflexivity].
    destruct (negb (useExpand (action_at (advance i text)) =? 0));
      [reflexivity|].
    destruct (0 <? holdMs (action_at (advance i text))); [|reflexivity].
    rewrite hold_key_on; [reflexivity|].
    rewrite scanned_mode, poll_nd_mode. exact M.
  - rewrite (poll_off _ _ _ M). reflexivity.
Qed.

Lemma typing_step_nd_eq expand text i w :
  typing_step_nd expand text i w =
  if Ascii.eqb (char_at text i) zero || g_stopRequested w then Leave_nd w
  else
    let w1 := poll_nd F2Typing F1Typing w in
    if g_stopRequested w1 then Leave_nd w1
    else
      let t := advance i text in
      let w2 := scanned t w1 in
      if (0 <? consumed_at t)%nat then
        if negb (useExpand (action_at t) =? 0) then
          match expand (expandBuf (action_at t))
                  (add_log (InsertLine (expandBuf (action_at t))) w2) with
          | Some w3 => Advance_nd (consumed_at t) w3
          | None => TooDeep_nd
          end
        else if 0 <? holdMs (action_at t) then
          Advance_nd (consumed_at t)
            (hold_key_nd (sym (action_at t)) (holdMs (action_at t)) w2)
        else
          Advance_nd (consumed_at t)
            (pressKey (sym (action_at t))
               (add_log (QuickPress (sym (action_at t))) w2))
      else
        Advance_nd 1
          (usleep 30000
             (send_char (char_at text i)
                (add_log (SendingChar (char_at text i)) w2))).
Proof.
  unfold typing_step_nd.
  destruct (Ascii.eqb (char_at text i) zero || g_stopRequested w);
    [reflexivity|].
  cbv zeta.
  destruct (g_stopRequested (poll_nd F2Typing F1Typing w)); [reflexivity|].
  rewrite scan_result. reflexivity.
Qed.

(** What a turn returns is what it computes when no call waits. *)
Lemma typing_step_agrees expand expand_nd text i w :
  agrees expand expand_nd ->
  match typing_step expand text i w with
  | Returns (Leave w') => typing_step_nd expand_nd text i w = Leave_nd w'
  | Returns (Advance n w') => typing_step_nd expand_nd text i w = Advance_nd n w'
  | Waits _ => True
  | TooDeep => typing_step_nd expand_nd text i w = TooDeep_nd
  end.
Proof.
  intro Ha. rewrite typing_step_eq, typing_step_nd_eq.
  destruct (Ascii.eqb (char_at text i) zero || g_stopRequested w);
    [reflexivity|].
  destruct (nodelay_on w); cbn [negb]; [|exact I]. cbv zeta.
  destruct (g_stopRequested (poll_nd F2Typing F1Typing w)); [reflexivity|].
  destruct (0 <? consumed_at (advance i text))%nat; [|reflexivity].
  destruct (negb (useExpand (action_at (advance i text)) =? 0)).
  - specialize (Ha (expandBuf (action_at (advance i text)))
                  (add_log (InsertLine (expandBuf (action_at (advance i text))))
                     (scanned (advance i text)
                        (poll_nd F2Typing F1Typing w)))).
    destruct (expand _ _) as [w3|w3|]; cbn [bind]; [|exact I|];
      rewrite Ha; reflexivity.
  - destruct (0 <? holdMs (action_at (advance i text))); reflexivity.
Qed.

Lemma erase_agrees expand : agrees expand (erase expand).
Proof.
  intros s w. unfold erase. destruct (expand s w); auto.
Qed.

(** A turn that does not expand a message token, made in nodelay mode,
    returns, and the mode stays. *)
Lemma typing_step_on expand expand_nd text i w :
  nodelay_on w = true -> ~ splice_at text i ->
  typing_step expand text i w = turn_of (typing_step_nd expand_nd text i w) /\
  match typing_step_nd expand_nd text i w with
  | Leave_nd w' | Advance_nd _ w' => nodelay_on w' = true
  | TooDeep_nd => False
  end.
Proof.
  intros M Hs. rewrite typing_step_eq, typing_step_nd_eq, M. cbn [negb].
  destruct (Ascii.eqb (char_at text i) zero || g_stopRequested w);
    [split; [reflexivity|exact M]|].
  cbv zeta.
  assert (M1 : nodelay_on (poll_nd F2Typing F1Typing w) = true)
    by (rewrite poll_nd_mode; exact M).
  destruct (g_stopRequested (poll_nd F2Typing F1Typing w));
    [split; [reflexivity|exact M1]|].
  assert (M2 : nodelay_on (scanned (advance i text)
                             (poll_nd F2Typing F1Typing w)) = true)
    by (rewrite scanned_mode; exact M1).
  destruct (Nat.ltb_spec 0 (consumed_at (advance i text))) as [Hc|Hc].
  - destruct (Z.eqb_spec (useExpand (action_at (advance i text))) 0)
      as [He|He]; cbn [negb].
    + destruct (0 <? holdMs (action_at (advance i text)));
        (split; [reflexivity|]).
      * rewrite hold_key_nd_mode. exact M2.
      * rewrite pressKey_mode, add_log_mode. exact M2.
    + exfalso. apply Hs. split; assumption.
  - split; [reflexivity|]. unfold usleep.
    rewrite nodelay_on_emit, send_char_mode, add_log_mode. exact M2.
Qed.

(** ** The loop *)

Lemma typing_loop_eq expand text i w :
  typing_loop expand text i w =
  match typing_step expand text i w with
  | Returns (Leave w') => Returns (i, w')
  | Returns (Advance n w') => typing_loop expand text (i + n) w'
  | Waits w' => Waits w'
  | TooDeep => TooDeep
  end.
Proof.
  rewrite typing_loop_equation_1. unfold inspect.
  assert (H : forall t (e : typing_step expand text i w = t),
             typing_loop_unfold_clause_1 expand text i w (exist _ t e) =
             match t with
             | Returns (Leave w') => Returns (i, w')
             | Returns (Advance n w') => typing_loop expand text (i + n) w'
             | Waits w' => Waits w'
             | TooDeep => TooDeep
             end).
  { intros t e. destruct t as [[w'|n w']|w'|]; simp typing_loop; reflexivity. }
  apply H.
Qed.

Lemma typing_step_advance expand text i w n w' :
  typing_step expand text i w = Returns (Advance n w') ->
  n = step_width (advance i text) /\ char_at text i <> zero.
Proof.
  intro H. pose proof (typing_step_agrees expand (erase expand) text i w
                         (erase_agrees expand)) as A.
  rewrite H in A. apply (typing_step_nd_width _ _ _ _ _ _ A).
Qed.

Lemma typing_loop_run expand text : forall m i w,
  (String.length text - i <= m)%nat ->
  exists ns, loop_run expand text i w ns (typing_loop expand text i w).
Proof.
  induction m as [|m IH]; intros i w Hm; rewrite typing_loop_eq;
    destruct (typing_step expand text i w) as [[w'|n w']|w'|] eqn:Hs;
    try (exists []; constructor; exact Hs).
  - exfalso. apply typing_step_advance in Hs as [_ Hz].
    apply Hz. clear - Hm. revert i Hm.
    induction text as [|c t IHt]; intros i Hm; [destruct i; reflexivity|].
    destruct i; simpl in Hm; [lia|]. cbn. apply IHt. lia.
  - apply typing_step_advance in Hs as Hw. destruct Hw as [Hn Hz].
    assert (Hpos : (0 < n)%nat) by (subst n; apply step_width_pos).
    destruct (IH (i + n)%nat w') as [ns Hr]; [lia|].
    exists (n :: ns). econstructor; eassumption.
Qed.

Lemma loop_run_exists expand text i w :
  exists ns, loop_run expand text i w ns (typing_loop expand text i w).
Proof. apply (typing_loop_run expand text (String.length text - i)). lia. Qed.

Lemma loop_run_result expand text : forall i w ns r,
  loop_run expand text i w ns r -> typing_loop expand text i w = r.
Proof.
  induction 1 as [i w w' H|i w w' H|i w H|i w n w1 ns r H _ IH];
    rewrite typing_loop_eq, H; auto.
Qed.

(** A run of the loop that returns is the run made when no call waits. *)
Lemma loop_run_agrees expand expand_nd text :
  agrees expand expand_nd ->
  forall i w ns r,
    loop_run expand text i w ns r ->
    match r with
    | Returns x => loop_run_nd expand_nd text i w ns (Some x)
    | Waits _ => True
    | TooDeep => loop_run_nd expand_nd text i w ns None
    end.
Proof.
  intros Ha i w ns r H.
  induction H as [i w w' H|i w w' H|i w H|i w n w1 ns r H _ IH];
    try exact I;
    pose proof (typing_step_agrees expand expand_nd text i w Ha) as A;
    rewrite H in A.
  - constructor. exact A.
  - constructor. exact A.
  - destruct r as [x|w2|]; try exact I; econstructor; eassumption.
Qed.

Lemma typing_loop_agrees expand expand_nd text i w :
  agrees expand expand_nd ->
  match typing_loop expand text i w with
  | Returns x => typing_loop_nd expand_nd text i w = Some x
  | Waits _ => True
  | TooDeep => typing_loop_nd expand_nd text i w = None
  end.
Proof.
  intro Ha. destruct (loop_run_exists expand text i w) as [ns R].
  pose proof (loop_run_agrees expand expand_nd text Ha _ _ _ _ R) as A.
  destruct (typing_loop expand text i w) as [x|w'|]; try exact I;
    apply loop_run_nd_result in A; exact A.
Qed.

(** ** The interpreter and the run *)

Lemma parse_and_type_agrees depth :
  agrees (parse_and_type depth) (parse_and_type_nd depth).
Proof.
  induction depth as [|depth IH]; intros text w;
    cbn [parse_and_type parse_and_type_nd]; [reflexivity|].
  pose proof (typing_loop_agrees (parse_and_type depth)
                (parse_and_type_nd depth) text 0 (nodelay true w) IH) as A.
  destruct (typing_loop _ text 0 _) as [[j w']|w'|]; cbn [bind]; try exact I;
    rewrite A; reflexivity.
Qed.


Lemma loop_body_agrees depth text loops ld l w :
  match loop_body depth text loops ld l w with
  | Returns r => loop_body_nd depth text loops ld l w = Some r
  | Waits _ => True
  | TooDeep => loop_body_nd depth text loops ld l w = None
  end.
Proof.
  unfold loop_body, loop_body_nd.
  destruct (g_stopRequested w); [reflexivity|].
  pose proof (parse_and_type_agrees depth text
                (add_log (LoopBegin (l + 1) loops) w)) as A.
  destruct (parse_and_type depth text _) as [w1|w1|]; cbn [bind]; try exact I;
    rewrite A; [|reflexivity].
  destruct (g_stopRequested w1); [reflexivity|].
  destruct ((l <? loops - 1) && (0 <? ld)); [|reflexivity].
  rewrite delay_returns. cbn [bind].
  destruct (g_stopRequested (delay_nd _ _ _ _)); reflexivity.
Qed.

Lemma run_loops_eq depth text loops ld l w :
  run_loops depth text loops ld l w =
  if l <? loops then
    r <- loop_body depth text loops ld l w ;;
    match r with
    | inl w' => Returns w'
    | inr w' => run_loops depth text loops ld (l + 1) w'
    end
  else Returns w.
Proof.
  rewrite run_loops_equation_1.
  destruct (Z_lt_dec l loops) as [H|H]; simpl;
    destruct (Z.ltb_spec l loops); try lia; [|reflexivity].
  destruct (loop_body depth text loops ld l w) as [[?|?]| |]; reflexivity.
Qed.

Lemma run_loops_agrees depth text loops ld : forall m l w,
  (Z.to_nat (loops - l) <= m)%nat ->
  match run_loops depth text loops ld l w with
  | Returns w' => run_loops_nd depth text loops ld l w = Some w'
  | Waits _ => True
  | TooDeep => run_loops_nd depth text loops ld l w = None
  end.
Proof.
  induction m as [|m IH]; intros l w Hm;
    rewrite run_loops_eq, run_loops_nd_eq;
    destruct (Z.ltb_spec l loops) as [Hl|Hl]; try lia; try reflexivity.
  pose proof (loop_body_agrees depth text loops ld l w) as A.
  destruct (loop_body depth text loops ld l w) as [[w1|w1]|w1|]; cbn [bind];
    try exact I; rewrite A; try reflexivity.
  apply IH. lia.
Qed.

Lemma simulate_typing_agrees depth text loops sd ld w :
  match simulate_typing depth text loops sd ld w with
  | Returns w' => simulate_typing_nd depth text loops sd ld w = Some w'
  | Waits _ => True
  | TooDeep => simulate_typing_nd depth text loops sd ld w = None
  end.
Proof.
  unfold simulate_typing, simulate_typing_nd.
  set (w0 := reset_stop (add_log (SimStart sd ld loops text) w)).
  assert (Hfin : forall w1,
    match
      (w2 <- run_loops depth text loops ld 0 w1 ;;
       if negb (g_stopRequested w2) then Returns (add_log AllDone w2)
       else Returns (add_log StoppedByUser w2))
    with
    | Returns w' =>
        match run_loops_nd depth text loops ld 0 w1 with
        | Some w2 =>
            if negb (g_stopRequested w2) then Some (add_log AllDone w2)
            else Some (add_log StoppedByUser w2)
        | None => None
        end = Some w'
    | Waits _ => True
    | TooDeep =>
        match run_loops_nd depth text loops ld 0 w1 with
        | Some w2 =>
            if negb (g_stopRequested w2) then Some (add_log AllDone w2)
            else Some (add_log StoppedByUser w2)
        | None => None
        end = None
    end).
  { intro w1.
    pose proof (run_loops_agrees depth text loops ld (Z.to_nat (loops - 0))
                  0 w1 (Nat.le_refl _)) as A.
    destruct (run_loops depth text loops ld 0 w1) as [w2|w2|]; cbn [bind];
      try exact I; rewrite A; [|reflexivity].
    destruct (negb (g_stopRequested w2)); reflexivity. }
  destruct (0 <? sd); [|apply Hfin].
  rewrite delay_returns. cbn [bind].
  destruct (g_stopRequested (delay_nd _ _ _ _)); [reflexivity|apply Hfin].
Qed.

(** A run that returns is the run made when no call waits. *)
Lemma simulate_typing_returns depth text loops sd ld w w' :
  simulate_typing depth text loops sd ld w = Returns w' ->
  simulate_typing_nd depth text loops sd ld w = Some w'.
Proof.
  intro H. pose proof (simulate_typing_agrees depth text loops sd ld w) as A.
  rewrite H in A. exact A.
Qed.

Lemma parse_and_type_returns depth text w w' :
  parse_and_type depth text w = Returns w' ->
  parse_and_type_nd depth text w = Some w'.
Proof.
  intro H. pose proof (parse_and_type_agrees depth text w) as A.
  rewrite H in A. exact A.
Qed.

Lemma run_loops_returns_nd depth text loops ld l w w' :
  run_loops depth text loops ld l w = Returns w' ->
  run_loops_nd depth text loops ld l w = Some w'.
Proof.
  intro H.
  pose proof (run_loops_agrees depth text loops ld (Z.to_nat (loops - l)) l w
                (Nat.le_refl _)) as A.
  rewrite H in A. exact A.
Qed.

(** ** Texts without a message token *)

Lemma splice_free_at text i : splice_free text -> ~ splice_at text i.
Proof. intros H [Hc Hu]. apply Hu, H, Hc. Qed.

Lemma token_free_splice_free text : token_free text = true -> splice_free text.
Proof.
  intros H p Hc. rewrite (token_free_spec text H p) in Hc. lia.
Qed.

Lemma char_at_past text : forall i,
  (String.length text <= i)%nat -> char_at text i = zero.
Proof.
  induction text as [|c t IH]; intros i Hi; [destruct i; reflexivity|].
  destruct i; cbn in Hi; [lia|]. cbn. apply IH. lia.
Qed.

(** In nodelay mode the loop over such a text returns: no call of it
    changes the mode. *)
Lemma splice_free_loop expand expand_nd text :
  splice_free text ->
  forall m i w,
    (String.length text - i <= m)%nat -> nodelay_on w = true ->
    exists x,
      typing_loop expand text i w = Returns x /\
      typing_loop_nd expand_nd text i w = Some x.
Proof.
  intros Hfree. induction m as [|m IH]; intros i w Hm M;
    rewrite typing_loop_eq, typing_loop_nd_eq;
    destruct (typing_step_on expand expand_nd text i w M
                (splice_free_at text i Hfree)) as [E Hmode];
    rewrite E;
    destruct (typing_step_nd expand_nd text i w) as [w'|n w'|] eqn:Hs;
    try contradiction; cbn [turn_of]; try (eexists; split; reflexivity).
  - exfalso. apply typing_step_nd_width in Hs as [_ Hz].
    apply Hz, char_at_past. lia.
  - apply typing_step_nd_width in Hs as Hw. destruct Hw as [Hn Hz].
    assert (Hpos : (0 < n)%nat) by (subst n; apply step_width_pos).
    apply IH; [lia|exact Hmode].
Qed.

Lemma splice_free_parse_and_type depth text w :
  splice_free text ->
  exists w',
    parse_and_type (S depth) text w = Returns w' /\
    parse_and_type_nd (S depth) text w = Some w'.
Proof.
  intro Hfree. cbn [parse_and_type parse_and_type_nd].
  destruct (splice_free_loop (parse_and_type depth) (parse_and_type_nd depth)
              text Hfree (String.length text) 0 (nodelay true w))
    as ([j w1] & E & End); [lia|unfold nodelay; apply nodelay_on_emit|].
  rewrite E, End. eexists. split; reflexivity.
Qed.

(** ** Runs all of whose interpreter calls return *)

Section Same.

Variable depth : nat.
Variable text : string.
Hypothesis same :
  forall w, parse_and_type depth text w =
            returned (parse_and_type_nd depth text w).

Lemma loop_body_same loops ld l w :
  loop_body depth text loops ld l w =
  returned (loop_body_nd depth text loops ld l w).
Proof.
  unfold loop_body, loop_body_nd.
  destruct (g_stopRequested w); [reflexivity|].
  rewrite same.
  destruct (parse_and_type_nd depth text _) as [w1|]; cbn [returned bind];
    [|reflexivity].
  destruct (g_stopRequested w1); [reflexivity|].
  destruct ((l <? loops - 1) && (0 <? ld)); [|reflexivity].
  rewrite delay_returns. cbn [bind].
  destruct (g_stopRequested (delay_nd _ _ _ _)); reflexivity.
Qed.

Lemma run_loops_same loops ld : forall m l w,
  (Z.to_nat (loops - l) <= m)%nat ->
  run_loops depth text loops ld l w =
  returned (run_loops_nd depth text loops ld l w).
Proof.
  induction m as [|m IH]; intros l w Hm;
    rewrite run_loops_eq, run_loops_nd_eq;
    destruct (Z.ltb_spec l loops) as [Hl|Hl]; try lia; try reflexivity.
  rewrite loop_body_same.
  destruct (loop_body_nd depth text loops ld l w) as [[w1|w1]|];
    cbn [returned bind]; try reflexivity.
  apply IH. lia.
Qed.

Lemma simulate_typing_same loops sd ld w :
  simulate_typing depth text loops sd ld w =
  returned (simulate_typing_nd depth text loops sd ld w).
Proof.
  unfold simulate_typing, simulate_typing_nd.
  set (w0 := reset_stop (add_log (SimStart sd ld loops text) w)).
  assert (Hfin : forall w1,
    (w2 <- run_loops depth text loops ld 0 w1 ;;
     if negb (g_stopRequested w2) then Returns (add_log AllDone w2)
     else Returns (add_log StoppedByUser w2)) =
    returned
      match run_loops_nd depth text loops ld 0 w1 with
      | Some w2 =>
          if negb (g_stopRequested w2) then Some (add_log AllDone w2)
          else Some (add_log StoppedByUser w2)
      | None => None
      end).
  { intro w1.
    rewrite (run_loops_same loops ld (Z.to_nat (loops - 0)) 0 w1 (Nat.le_refl _)).
    destruct (run_loops_nd depth text loops ld 0 w1) as [w2|];
      cbn [returned bind]; [|reflexivity].
    destruct (negb (g_stopRequested w2)); reflexivity. }
  destruct (0 <? sd); [|apply Hfin].
  rewrite delay_returns. cbn [bind].
  destruct (g_stopRequested (delay_nd _ _ _ _)); [reflexivity|apply Hfin].
Qed.

End Same.

Lemma splice_free_same depth text w :
  splice_free text ->
  parse_and_type (S depth) text w =
  returned (parse_and_type_nd (S depth) text w).
Proof.
  intro H. destruct (splice_free_parse_and_type depth text w H)
    as (w' & -> & ->). reflexivity.
Qed.

(** A run over a text without a message token returns what it computes
    when no call waits. *)
Lemma splice_free_run depth text loops sd ld w :
  splice_free text ->
  simulate_typing (S depth) text loops sd ld w =
  returned (simulate_typing_nd (S depth) text loops sd ld w).
Proof.
  intro H. apply simulate_typing_same. intro w0.
  apply splice_free_same, H.
Qed.

(** ** After an expansion *)



(** ** Up to the first message token *)

Lemma visited_first_visited text p : visited_first text p -> visited text p.
Proof.
  induction 1 as [|i _ IH Hz _]; [apply visited_start|].
  apply visited_next; assumption.
Qed.

Lemma first_splices_splices t t' : first_splices_to t t' -> splices_to t t'.
Proof.
  intros (p & Hv & Hz & [Hc Hu] & Hb). exists p.
  split; [apply visited_first_visited, Hv|]. auto.
Qed.




(** * The program as it reads the keyboard *)

(** ** The loop cuts the script exactly *)

(** C1: when the loop of [parse_and_type] runs over a script and ends with
    no stop requested, the advances it made cut the script exactly: at each
    position it stood at, it moved by the scanner's count when that was
    positive and by one character when it was 0; every advance is positive,
    so no position comes twice; the pieces put together are the script, the
    advances add up to its length, and the loop ended at its end. *)
Theorem scan_partitions_script expand text w j w' :
  typing_loop expand text 0 w = Returns (j, w') ->
  g_stopRequested w' = false ->
  exists ns,
    loop_run expand text 0 w ns (Returns (j, w')) /\
    Forall2 (fun p n =>
               char_at text p <> zero /\
               n = if (0 <? consumed_at (advance p text))%nat
                   then consumed_at (advance p text) else 1%nat)
            (starts 0 ns) ns /\
    Forall (fun n => (0 < n)%nat) ns /\
    NoDup (starts 0 ns) /\
    join (pieces ns text) = contents text /\
    list_sum ns = strlen text /\
    j = strlen text.
Proof.
  intros Hrun Hstop.
  destruct (loop_run_exists expand text 0 w) as [ns R]. rewrite Hrun in R.
  exists ns. split; [exact R|].
  pose proof (loop_run_agrees expand (erase expand) text (erase_agrees expand)
                _ _ _ _ R) as Rn.
  destruct (loop_run_nd_tiles (erase expand) text 0 w ns _ Rn j w' eq_refl
              Hstop) as (F2 & Fp & Hs & Hj); [lia|].
  cbn in Hs. repeat split; auto.
  - apply starts_NoDup, Fp.
  - rewrite join_pieces, Hs. reflexivity.
Qed.

(** ** A hold token without digits *)


(** ** Holding a key *)

(** C4: a hold (a key token with a positive hold time) makes one call of
    [pressKeyDown] and, after it, one call of [pressKeyUp] for the same key,
    and no other; this is so for every sequence of keys read while holding,
    F2 included.  A hold begun in nodelay mode returns, and the interpreter
    begins none in another mode: the poll of the same turn has returned
    before.  The loop then goes on at the end of the token, where a stop
    request ends it. *)
Theorem hold_presses_then_releases :
  (forall ks ms w w',
      hold_key ks ms w = Returns w' ->
      observe key_call (effects w') =
      observe key_call (effects w) ++ [(key_of ks, true); (key_of ks, false)]) /\
  (forall ks ms w,
      nodelay_on w = true -> exists w', hold_key ks ms w = Returns w') /\
  (forall expand text i w w1,
      g_stopRequested w = false ->
      poll F2Typing F1Typing w = Returns w1 ->
      g_stopRequested w1 = false ->
      (0 < consumed_at (advance i text))%nat ->
      useExpand (action_at (advance i text)) = 0 ->
      0 < holdMs (action_at (advance i text)) ->
      let ks := sym (action_at (advance i text)) in
      let n := consumed_at (advance i text) in
      exists w',
        typing_step expand text i w = Returns (Advance n w') /\
        hold_key ks (holdMs (action_at (advance i text)))
          (scanned (advance i text) w1) = Returns w' /\
        observe key_call (effects w') =
        observe key_call (effects w) ++ [(key_of ks, true); (key_of ks, false)] /\
        (g_stopRequested w' = true ->
         typing_loop expand text (i + n) w' = Returns ((i + n)%nat, w'))).
Proof.
  assert (Hcalls : forall ks ms w w',
    hold_key ks ms w = Returns w' ->
    observe key_call (effects w') =
    observe key_call (effects w) ++ [(key_of ks, true); (key_of ks, false)]).
  { intros ks ms w w' H. apply hold_key_returns in H. subst w'.
    apply hold_key_nd_calls. }
  split; [exact Hcalls|]. split.
  { intros ks ms w M. rewrite (hold_key_on _ _ _ M). eauto. }
  intros expand text i w w1 Hw Hp Hw1 Hc He Hh ks n.
  apply poll_returns in Hp as [M ->].
  assert (Hz : char_at text i <> zero).
  { replace i with (i + 0)%nat by lia. rewrite <- char_at_advance.
    apply consumed_chars. exact Hc. }
  assert (M2 : nodelay_on (scanned (advance i text)
                             (poll_nd F2Typing F1Typing w)) = true)
    by (rewrite scanned_mode, poll_nd_mode; exact M).
  eexists. split; [|split; [apply hold_key_on, M2|split]].
  - rewrite typing_step_eq, M, Hw, (eqb_zero_false _ Hz). cbn [orb negb].
    cbv zeta. rewrite Hw1.
    destruct (Nat.ltb_spec 0 (consumed_at (advance i text))); [|lia].
    rewrite He. cbn [Z.eqb negb].
    destruct (Z.ltb_spec 0 (holdMs (action_at (advance i text)))); [|lia].
    reflexivity.
  - rewrite hold_key_nd_calls. f_equal.
    rewrite scanned_observe by reflexivity.
    apply poll_nd_observe; reflexivity.
  - intro Hs. rewrite typing_loop_eq, typing_step_eq, Hs, orb_true_r.
    reflexivity.
Qed.
(** ** A stop during a delay *)

(** C6: a stop seen during a delay ends the run without another call of
    the interpreter.  When F2 is read during the start delay, the whole run
    consists of the two opening lines, the events of that delay and the line
    [AbortedBefore]: no iteration begins.  When F2 is read during the delay
    after an iteration, the iterations begun until then are 1, ..., n, and
    what follows are events of that delay, the line [AbortedBetween n loops]
    and the closing line [StoppedByUser]: no later iteration begins. *)
Theorem stop_during_delay_ends_run depth text loops sd ld w w' :
  simulate_typing depth text loops sd ld w = Returns w' ->
  (forall pre post,
      effects w' = effects w ++ pre ++ Log F2Before :: post ->
      g_stopRequested w' = true /\
      exists pre2 mid,
        pre = [Log (SimStart sd ld loops text); Log (SleepingBefore sd)] ++ pre2 /\
        Forall (delay_event F2Before F1Before) pre2 /\
        Forall (delay_event F2Before F1Before) mid /\
        post = mid ++ [Log AbortedBefore] /\
        observe begun (pre ++ Log F2Before :: post) = []) /\
  (forall pre post,
      effects w' = effects w ++ pre ++ Log F2Between :: post ->
      g_stopRequested w' = true /\
      exists n mid,
        (1 <= n)%nat /\
        observe begun pre = iterations 0 n /\
        Forall (delay_event F2Between F1Between) mid /\
        post = mid ++ [Log (AbortedBetween (Z.of_nat n) loops);
                       Log StoppedByUser] /\
        observe begun post = []).
Proof.
  intro H. apply simulate_typing_returns in H.
  destruct (simulate_typing_nd_delay_stop depth text loops sd ld w w' H)
    as [Hbefore Hbetween].
  split.
  - intros pre post E. exact (Hbefore pre post E).
  - intros pre post E. exact (Hbetween pre post E).
Qed.

(** ** A run over a script without tokens *)

(** C7: for a script in which the scanner accepts nothing at any position, a
    run of [loops >= 1] iterations in which F2 never comes returns, and it
    has sent the characters of the script, in order, once per iteration
    ([loops] times the length of the script in all), each of them one
    position of the script, whether or not a key symbol exists for it: a
    character without one makes no call for a key.  The sleep before the
    next iteration is entered [loops - 1] times when [loopDelay_ms > 0] and
    never otherwise; the last iteration is followed by the closing line
    only. *)
Theorem literal_script_is_typed_each_loop depth text loops sd ld w :
  token_free text = true ->
  1 <= loops ->
  ~ In (KEY_F 2) (pending w) ->
  exists w',
    simulate_typing (S depth) text loops sd ld w = Returns w' /\
    observe typed_char (effects w') =
    observe typed_char (effects w) ++
    List.concat (repeat (list_ascii_of_string (contents text)) (Z.to_nat loops)) /\
    Z.of_nat (List.length (List.concat (repeat (list_ascii_of_string (contents text))
                                     (Z.to_nat loops)))) =
    loops * Z.of_nat (strlen text) /\
    observe next_sleep (effects w') =
    observe next_sleep (effects w) ++
    repeat ld (if 0 <? ld then Z.to_nat (loops - 1) else O) /\
    (exists pre,
        effects w' = pre ++ [Log (LoopDone loops loops); Log AllDone]) /\
    (forall c w0,
        map_char_to_keysym c = NoSymbol ->
        observe key_call (effects (send_char c w0)) =
        observe key_call (effects w0)).
Proof.
  intros Hfree Hloops Hkeys.
  destruct (simulate_typing_nd_literal depth text loops sd ld w Hfree Hloops
              Hkeys) as (w' & Hrun & Hrest).
  exists w'. split; [|exact Hrest].
  rewrite (splice_free_run depth text loops sd ld w
             (token_free_splice_free text Hfree)).
  rewrite Hrun. reflexivity.
Qed.

(** ** The stop flag over a run *)

(** A run over a script without tokens, with no F2 to come, ends with the
    flag clear and the line [AllDone], however the flag stood before. *)
Lemma literal_run_ends_clear depth text loops sd ld w :
  token_free text = true -> 1 <= loops -> ~ In (KEY_F 2) (pending w) ->
  exists w3,
    simulate_typing_nd (S depth) text loops sd ld w = Some (add_log AllDone w3) /\
    calm w3.
Proof.
  intros Hfree Hloops Hkeys.
  pose proof (token_free_spec text Hfree) as Hnone.
  unfold simulate_typing_nd.
  set (w1 := reset_stop (add_log (SimStart sd ld loops text) w)).
  assert (Hw1 : calm w1) by (split; [reflexivity|exact Hkeys]).
  assert (Hfin : forall w2, calm w2 ->
    exists w3,
      match run_loops_nd (S depth) text loops ld 0 w2 with
      | Some w3 =>
          if negb (g_stopRequested w3) then Some (add_log AllDone w3)
          else Some (add_log StoppedByUser w3)
      | None => None
      end = Some (add_log AllDone w3) /\ calm w3).
  { intros w2 Hw2.
    destruct (literal_loops depth text loops ld Hnone (Z.to_nat loops) 0 w2)
      as (w3 & Hr & Hw3 & _); [lia|exact Hw2|].
    exists w3. rewrite Hr, (calm_flag _ Hw3). split; [reflexivity|exact Hw3]. }
  destruct (0 <? sd); [|apply Hfin, Hw1].
  set (w2 := delay_nd F2Before F1Before sd (add_log (SleepingBefore sd) w1)).
  assert (Hw2 : calm w2) by (apply calm_delay, calm_emit, Hw1).
  rewrite (calm_flag _ Hw2). apply Hfin, Hw2.
Qed.

(** C5: [simulate_typing] clears the stop flag before anything depends on it.
    A run is the same whatever the flag was when it was called, and it is
    the run of a clear flag: entered with the flag set, a run over a script
    without tokens, with no F2 to come, does all its iterations and ends
    with the flag clear and the line [AllDone].  From there on nothing in
    the core clears the flag: a poll, a wait, a delay, the scanner, a hold,
    the interpreter and the loop over the iterations all leave a set flag
    set. *)
Theorem run_resets_flag_then_latches :
  (forall depth text loops sd ld w,
      simulate_typing depth text loops sd ld (request_stop w) =
      simulate_typing depth text loops sd ld (reset_stop w)) /\
  (forall depth text loops sd ld w,
      simulate_typing depth text loops sd ld w =
      simulate_typing depth text loops sd ld (reset_stop w)) /\
  (forall depth text loops sd ld w,
      token_free text = true -> 1 <= loops -> ~ In (KEY_F 2) (pending w) ->
      exists w',
        simulate_typing (S depth) text loops sd ld (request_stop w) =
        Returns w' /\
        g_stopRequested w' = false /\
        observe typed_char (effects w') =
        observe typed_char (effects w) ++
        List.concat (repeat (list_ascii_of_string (contents text))
                       (Z.to_nat loops)) /\
        exists pre, effects w' = pre ++ [Log AllDone]) /\
  (forall onF2 onF1 w w',
      poll onF2 onF1 w = Returns w' \/ poll onF2 onF1 w = Waits w' ->
      latched w w') /\
  (forall onF2 onF1 ms w w',
      wait_loop onF2 onF1 ms w = Returns w' -> latched w w') /\
  (forall onF2 onF1 ms w w',
      delay onF2 onF1 ms w = Returns w' -> latched w w') /\
  (forall text w, latched w (scanned text w)) /\
  (forall ks ms w w', hold_key ks ms w = Returns w' -> latched w w') /\
  (forall depth text w w',
      parse_and_type depth text w = Returns w' -> latched w w') /\
  (forall depth text loops ld l w w',
      run_loops depth text loops ld l w = Returns w' -> latched w w').
Proof.
  split; [intros; reflexivity|].
  split; [intros; reflexivity|].
  split.
  { intros depth text loops sd ld w Hfree Hloops Hkeys.
    destruct (literal_run_ends_clear depth text loops sd ld (request_stop w)
                Hfree Hloops Hkeys) as (w3 & Hrun & Hw3).
    exists (add_log AllDone w3).
    rewrite (splice_free_run depth text loops sd ld _
               (token_free_splice_free text Hfree)), Hrun.
    split; [reflexivity|]. split; [apply (calm_flag _ Hw3)|].
    split; [|exists (effects w3); reflexivity].
    destruct (simulate_typing_nd_literal depth text loops sd ld
                (request_stop w) Hfree Hloops Hkeys)
      as (w' & Hrun' & Htyped & _).
    rewrite Hrun in Hrun'. inversion Hrun'; subst w'. exact Htyped. }
  split.
  { intros onF2 onF1 w w' [H|H].
    - apply poll_returns in H as [_ ->]. apply (poll_nd_follows onF2 onF1 w).
    - destruct (nodelay_on w) eqn:M.
      + rewrite (poll_on _ _ _ M) in H. discriminate.
      + rewrite (poll_off _ _ _ M) in H. inversion H; subst w'.
        pose proof (drain_nd_follows onF2 onF1 (keys_only (pending w)) w)
          as (_ & L & _).
        exact L. }
  split.
  { intros onF2 onF1 ms w w' H. apply wait_loop_returns in H. subst w'.
    apply (wait_follows onF2 onF1 ms w). }
  split.
  { intros onF2 onF1 ms w w' H. rewrite delay_returns in H. inversion H.
    apply (delay_nd_follows onF2 onF1 ms w). }
  split; [intros; apply (scanned_follows text w)|].
  split.
  { intros ks ms w w' H. apply hold_key_returns in H. subst w'.
    apply (hold_key_nd_follows ks ms w). }
  split.
  - intros depth text w w' H. apply parse_and_type_returns in H.
    apply (parse_and_type_nd_follows _ _ _ _ H).
  - intros depth text loops ld l w w' H. apply run_loops_returns_nd in H.
    apply (run_loops_nd_follows depth text loops ld (Z.to_nat (loops - l)) l w w');
      [lia|exact H].
Qed.
(** ** Rejected message tokens *)



(** ** How deep the interpreter recurses, and where it waits *)



(** ** Arrays *)

Lemma store_some {A} (x : A) : forall l i,
  (i < List.length l)%nat ->
  exists l', store i x l = Some l' /\ List.length l' = List.length l /\
             (forall d, nth i l' d = x) /\
             (forall j d, j <> i -> nth j l' d = nth j l d).
Proof.
  induction l as [|y t IH]; intros i Hi; cbn in Hi; [lia|].
  destruct i as [|i]; cbn [store].
  - eexists. split; [reflexivity|]. split; [reflexivity|]. split; [reflexivity|].
    intros [|j] d Hj; [congruence|reflexivity].
  - destruct (IH i) as (t' & -> & Hl & Hx & Ho); [lia|].
    eexists. split; [reflexivity|]. cbn. split; [lia|]. split; [exact Hx|].
    intros [|j] d Hj; [reflexivity|]. apply Ho. congruence.
Qed.

Lemma store_forall {A} (P : A -> Prop) (x : A) : forall l i l',
  store i x l = Some l' -> P x -> Forall P l -> Forall P l'.
Proof.
  induction l as [|y t IH]; intros i l' H Hx Hl;
    [destruct i; discriminate|].
  inversion Hl; subst. destruct i as [|i]; cbn [store] in H.
  - inversion H; subst. constructor; assumption.
  - destruct (store i x t) as [t'|] eqn:E; [|discriminate].
    inversion H; subst. constructor; [assumption|]. eapply IH; eassumption.
Qed.

Lemma load_at_some {A} (l : list A) i d :
  0 <= i < Z.of_nat (List.length l) ->
  load_at i l = Some (nth (Z.to_nat i) l d).
Proof.
  intro Hi. unfold load_at. destruct (Z.ltb_spec i 0); [lia|].
  apply nth_error_nth'. lia.
Qed.

(** ** The ring of log rows *)

Lemma take_length n : forall s, (String.length (take n s) <= n)%nat.
Proof.
  induction n as [|n IH]; intros [|c s]; cbn; try lia.
  specialize (IH s). lia.
Qed.

Lemma ring_add_log msg st :
  Ring.well_formed st ->
  exists rows,
    store (Z.to_nat (Ring.g_logHead st)) (Ring.row_of msg) (Ring.g_logBuffer st)
    = Some rows /\
    Ring.add_log msg st =
    Some (Ring.mkLog rows ((Ring.g_logHead st + 1) mod 200)
            (match Ring.g_fileLog st with
             | Some out => Some (out ++ Ring.line_of msg)%string
             | None => None
             end)) /\
    Ring.well_formed
      (Ring.mkLog rows ((Ring.g_logHead st + 1) mod 200)
         (match Ring.g_fileLog st with
          | Some out => Some (out ++ Ring.line_of msg)%string
          | None => None
          end)).
Proof.
  intros (Hl & Hh & Hr).
  destruct (store_some (Ring.row_of msg) (Ring.g_logBuffer st)
              (Z.to_nat (Ring.g_logHead st))) as (rows & Hs & Hl' & _);
    [lia|].
  exists rows. split; [exact Hs|].
  unfold Ring.add_log, store_at, Ring.MAX_LOG_LINES.
  destruct (Z.ltb_spec (Ring.g_logHead st) 0); [lia|].
  fold (Ring.row_of msg). rewrite Hs.
  rewrite Z.rem_mod_nonneg by lia. split; [reflexivity|].
  split; [cbn; lia|]. split; [cbn; apply Z.mod_pos_bound; lia|].
  cbn. eapply store_forall; [exact Hs| |exact Hr].
  apply take_length.
Qed.

Lemma ring_start_well_formed file : Ring.well_formed (Ring.start file).
Proof.
  split; [reflexivity|]. split; [cbn; lia|].
  apply Forall_forall. intros row Hin. apply repeat_spec in Hin. subst.
  cbn. lia.
Qed.

Lemma ring_logged_app msgs : forall st msg,
  Ring.logged (msgs ++ [msg]) st =
  match Ring.logged msgs st with
  | Some st' => Ring.add_log msg st'
  | None => None
  end.
Proof.
  induction msgs as [|m msgs IH]; intros st msg; cbn [Ring.logged app].
  - destruct (Ring.add_log msg st); reflexivity.
  - destruct (Ring.add_log m st); [apply IH|reflexivity].
Qed.

Lemma ring_logged_well_formed msgs : forall st,
  Ring.well_formed st ->
  exists st', Ring.logged msgs st = Some st' /\ Ring.well_formed st'.
Proof.
  induction msgs as [|m msgs IH]; intros st Hw; cbn [Ring.logged].
  - exists st. split; [reflexivity|exact Hw].
  - destruct (ring_add_log m st Hw) as (rows & _ & -> & Hw').
    apply IH, Hw'.
Qed.

(** Where the rows are after [msgs], counted back from the head. *)
Lemma ring_rows msgs file :
  exists st,
    Ring.logged msgs (Ring.start file) = Some st /\
    Ring.well_formed st /\
    Ring.g_logHead st = Z.of_nat (List.length msgs) mod 200 /\
    forall j, 0 <= j < 200 ->
      nth (Z.to_nat ((Z.of_nat (List.length msgs) - 1 - j) mod 200))
          (Ring.g_logBuffer st) EmptyString =
      nth (Z.to_nat j) (rev (map Ring.row_of msgs)) EmptyString.
Proof.
  induction msgs as [|m msgs IH] using rev_ind.
  - exists (Ring.start file). split; [reflexivity|].
    split; [apply ring_start_well_formed|]. split; [reflexivity|].
    intros j Hj. cbn [map rev Ring.start Ring.g_logBuffer].
    rewrite nth_repeat. destruct (Z.to_nat j); reflexivity.
  - destruct IH as (st & Hst & Hw & Hh & Hrows).
    destruct (ring_add_log m st Hw) as (rows & Hs & Ha & Hw').
    eexists. rewrite ring_logged_app, Hst. split; [exact Ha|].
    split; [exact Hw'|]. rewrite length_app. cbn [List.length Ring.g_logHead].
    split.
    { rewrite Hh, Nat2Z.inj_add, Zplus_mod_idemp_l. reflexivity. }
    intros j Hj. cbn [Ring.g_logBuffer].
    rewrite map_app, rev_app_distr. cbn [map rev app].
    destruct Hw as (Hl & _ & _).
    destruct (store_some (Ring.row_of m) (Ring.g_logBuffer st)
                (Z.to_nat (Ring.g_logHead st))) as (rows' & Hs' & _ & Hx & Ho);
      [rewrite Hh; pose proof (Z.mod_pos_bound (Z.of_nat (List.length msgs)) 200);
       lia|].
    rewrite Hs in Hs'. inversion Hs'; subst rows'.
    set (n := Z.of_nat (List.length msgs)) in *.
    replace (Z.of_nat (List.length msgs + 1) - 1 - j) with (n - j) by lia.
    destruct (Z.eq_dec j 0) as [->|Hj0].
    + rewrite Z.sub_0_r, <- Hh. apply Hx.
    + rewrite Ho.
      * replace (n - j) with (n - 1 - (j - 1)) by lia.
        rewrite Hrows by lia.
        replace (Z.to_nat j) with (S (Z.to_nat (j - 1))) by lia. reflexivity.
      * rewrite Hh. intro E. apply Z2Nat.inj in E;
          try (apply Z.mod_pos_bound; lia).
        assert (Hd : (n - (n - j)) mod 200 = 0).
        { rewrite Zminus_mod, E, Z.sub_diag. reflexivity. }
        replace (n - (n - j)) with j in Hd by lia.
        rewrite Z.mod_small in Hd by lia. lia.
Qed.

Lemma ring_draw_rows rows max_y : forall n i index,
  List.length rows = 200%nat -> 0 <= index < 200 ->
  Ring.draw_rows n i index max_y rows =
  Some (map (fun k =>
               Ring.mkPrint (max_y - 1 - (i + Z.of_nat k)) 0
                 (nth (Z.to_nat ((index - 1 - Z.of_nat k) mod 200)) rows
                    EmptyString))
          (seq 0 n)).
Proof.
  induction n as [|n IH]; intros i index Hl Hi; cbn [Ring.draw_rows];
    [reflexivity|].
  unfold Ring.MAX_LOG_LINES.
  rewrite Z.rem_mod_nonneg by lia.
  assert (Hm : (index - 1 + 200) mod 200 = (index - 1) mod 200).
  { rewrite <- (Z.mul_1_l 200) at 1. apply Z_mod_plus_full. }
  rewrite Hm.
  pose proof (Z.mod_pos_bound (index - 1) 200 ltac:(lia)) as Hb.
  rewrite (load_at_some rows _ EmptyString) by lia.
  rewrite IH by assumption.
  cbn [seq map]. rewrite <- seq_shift, map_map. f_equal. f_equal.
  - f_equal.
    + f_equal. lia.
    + rewrite Z.sub_0_r. reflexivity.
  - apply map_ext. intro k. f_equal.
    + lia.
    + f_equal. f_equal.
      replace ((index - 1) mod 200 - 1 - Z.of_nat k)
        with ((index - 1) mod 200 - (1 + Z.of_nat k)) by lia.
      rewrite Zminus_mod_idemp_l. f_equal. lia.
Qed.
(** X1: the log rows stay within the arrays: from a log whose head is within
    0..199 and whose 200 rows hold at most 255 characters each, any number of
    [add_log] calls and any [draw_logs] access no row outside [g_logBuffer]
    and no character outside a row. *)
Theorem log_ring_within_bounds msgs st max_y start_line :
  Ring.well_formed st ->
  exists st',
    Ring.logged msgs st = Some st' /\ Ring.well_formed st' /\
    Ring.draw_logs max_y start_line st' <> None.
Proof.
  intro Hw. destruct (ring_logged_well_formed msgs st Hw) as (st' & Hl & Hw').
  exists st'. split; [exact Hl|]. split; [exact Hw'|].
  unfold Ring.draw_logs. destruct (_ <=? 0); [discriminate|].
  destruct Hw' as (Hlen & Hh & _).
  rewrite ring_draw_rows by assumption. discriminate.
Qed.

(** X2: [draw_logs] shows the log newest first from the bottom line upwards:
    after the messages [msgs], line [max_y - 1 - i] shows the [i]-th newest
    message cut to 255 characters, and an empty row where fewer messages were
    logged.  The ring has 200 rows, so on a screen with more than 200 lines
    for the log the lines repeat from the newest one. *)
Theorem draw_logs_newest_first msgs file max_y start_line :
  exists st,
    Ring.logged msgs (Ring.start file) = Some st /\
    Ring.draw_logs max_y start_line st =
    Some (map (fun i =>
                 Ring.mkPrint (max_y - 1 - Z.of_nat i) 0
                   (nth (i mod 200) (rev (map Ring.row_of msgs)) EmptyString))
            (seq 0 (Z.to_nat (max_y - start_line)))).
Proof.
  destruct (ring_rows msgs file) as (st & Hst & (Hl & Hh & _) & Hhead & Hrows).
  exists st. split; [exact Hst|]. unfold Ring.draw_logs.
  destruct (Z.leb_spec (max_y - start_line) 0) as [Hle|Hgt].
  - replace (Z.to_nat (max_y - start_line)) with O by lia. reflexivity.
  - rewrite ring_draw_rows by assumption. f_equal. apply map_ext. intro k.
    f_equal.
    rewrite Hhead.
    set (n := Z.of_nat (List.length msgs)).
    assert (Hk : 0 <= Z.of_nat k mod 200 < 200) by (apply Z.mod_pos_bound; lia).
    replace ((n mod 200 - 1 - Z.of_nat k) mod 200)
      with ((n - 1 - Z.of_nat k mod 200) mod 200).
    + rewrite Hrows by exact Hk. f_equal.
      rewrite <- (Nat2Z.id (k mod 200)). f_equal.
      rewrite Nat2Z.inj_mod. reflexivity.
    + replace (n mod 200 - 1 - Z.of_nat k) with (n mod 200 - (1 + Z.of_nat k)) by lia.
      replace (n - 1 - Z.of_nat k mod 200) with (n - 1 - (Z.of_nat k mod 200)) by lia.
      rewrite Zminus_mod_idemp_l.
      rewrite (Zminus_mod (n - 1)), Zmod_mod, <- Zminus_mod. f_equal. lia.
Qed.

(** X3: the file keeps what the ring forgets: every message goes to the open
    log file whole, up to 511 characters, one line each in the order of the
    calls, also when the row on the screen is cut at 255 characters or has
    been overwritten; without a file nothing is written, and the rows and the
    head are the same with and without one. *)
Theorem log_file_keeps_every_message msgs :
  (forall out, exists st,
      Ring.logged msgs (Ring.start (Some out)) = Some st /\
      Ring.g_fileLog st =
      Some (out ++ String.concat EmptyString (map Ring.line_of msgs))%string) /\
  (exists st,
      Ring.logged msgs (Ring.start None) = Some st /\
      Ring.g_fileLog st = None) /\
  (forall file st st0,
      Ring.logged msgs (Ring.start file) = Some st ->
      Ring.logged msgs (Ring.start None) = Some st0 ->
      Ring.g_logBuffer st = Ring.g_logBuffer st0 /\
      Ring.g_logHead st = Ring.g_logHead st0).
Proof.
  assert (G : forall st1 st2,
             Ring.well_formed st1 ->
             Ring.g_logBuffer st1 = Ring.g_logBuffer st2 ->
             Ring.g_logHead st1 = Ring.g_logHead st2 ->
             exists st1', Ring.logged msgs st1 = Some st1' /\
               (forall out, Ring.g_fileLog st1 = Some out ->
                  Ring.g_fileLog st1' =
                  Some (out ++ String.concat EmptyString
                                 (map Ring.line_of msgs))%string) /\
               (Ring.g_fileLog st1 = None -> Ring.g_fileLog st1' = None) /\
               (forall st2', Ring.logged msgs st2 = Some st2' ->
                  Ring.g_logBuffer st1' = Ring.g_logBuffer st2' /\
                  Ring.g_logHead st1' = Ring.g_logHead st2')).
  { induction msgs as [|m msgs IH]; intros st1 st2 Hw Hb Hh.
    - exists st1. split; [reflexivity|]. split; [|split].
      + intros out ->. cbn. rewrite append_empty_r. reflexivity.
      + auto.
      + intros st2' E. inversion E; subst. auto.
    - cbn [Ring.logged].
      destruct (ring_add_log m st1 Hw) as (rows & Hs & Ha & Hw').
      rewrite Ha.
      assert (Ha2 : Ring.add_log m st2 =
                    Some (Ring.mkLog rows ((Ring.g_logHead st2 + 1) mod 200)
                            (match Ring.g_fileLog st2 with
                             | Some out => Some (out ++ Ring.line_of m)%string
                             | None => None
                             end))).
      { destruct Hw as (_ & Hr & _).
        unfold Ring.add_log, store_at, Ring.MAX_LOG_LINES.
        rewrite <- Hh, <- Hb.
        destruct (Z.ltb_spec (Ring.g_logHead st1) 0); [lia|].
        fold (Ring.row_of m). rewrite Hs.
        rewrite Z.rem_mod_nonneg by lia. reflexivity. }
      rewrite Ha2.
      destruct (IH _ (Ring.mkLog rows ((Ring.g_logHead st2 + 1) mod 200)
                        (match Ring.g_fileLog st2 with
                         | Some out => Some (out ++ Ring.line_of m)%string
                         | None => None
                         end)) Hw')
        as (st1' & Hl & Hf & Hn & Hsame);
        [reflexivity|cbn; rewrite Hh; reflexivity|].
      exists st1'. split; [exact Hl|]. split; [|split].
      + intros out Eo. rewrite Eo in Hf. rewrite (Hf _ eq_refl).
        cbn [map String.concat]. f_equal.
        destruct msgs; cbn [map String.concat];
          rewrite ?append_empty_r, ?append_assoc; reflexivity.
      + intro En. apply Hn. cbn. rewrite En. reflexivity.
      + exact Hsame. }
  split; [|split].
  - intro out.
    destruct (G (Ring.start (Some out)) (Ring.start None)
                (ring_start_well_formed _) eq_refl eq_refl)
      as (st & Hl & Hf & _).
    exists st. split; [exact Hl|]. apply Hf. reflexivity.
  - destruct (G (Ring.start None) (Ring.start None)
                (ring_start_well_formed _) eq_refl eq_refl)
      as (st & Hl & _ & Hn & _).
    exists st. split; [exact Hl|]. apply Hn. reflexivity.
  - intros file st st0 H1 H0.
    destruct (G (Ring.start file) (Ring.start None)
                (ring_start_well_formed _) eq_refl eq_refl)
      as (st' & Hl & _ & _ & Hsame).
    rewrite H1 in Hl. inversion Hl; subst st'. apply Hsame, H0.
Qed.
(** ** Reading lines *)

Lemma lacks_char_at c : forall s k,
  lacks c s = true -> (k < String.length s)%nat -> char_at s k <> c.
Proof.
  induction s as [|c' s IH]; intros k H Hk; cbn in *; [lia|].
  apply andb_prop in H. destruct H as [Hc Hs].
  destruct k as [|k]; cbn.
  - apply negb_true_iff, Ascii.eqb_neq in Hc. exact Hc.
  - apply IH; [exact Hs|lia].
Qed.

Lemma lacks_append c : forall a b,
  lacks c (a ++ b) = lacks c a && lacks c b.
Proof.
  induction a as [|c' a IH]; intro b; cbn; [reflexivity|].
  rewrite IH, andb_assoc. reflexivity.
Qed.

Lemma lacks_strlen : forall s, lacks zero s = true -> strlen s = String.length s.
Proof.
  induction s as [|c s IH]; cbn; intro H; [reflexivity|].
  apply andb_prop in H. destruct H as [Hc Hs].
  apply negb_true_iff in Hc. rewrite Hc, IH by exact Hs. reflexivity.
Qed.

Lemma lacks_take c n : forall s, lacks c s = true -> lacks c (take n s) = true.
Proof.
  induction n as [|n IH]; intros [|c' s] H; cbn in *; try reflexivity.
  apply andb_prop in H. destruct H as [Hc Hs]. rewrite Hc, IH by exact Hs.
  reflexivity.
Qed.

Lemma take_all : forall s n, (String.length s <= n)%nat -> take n s = s.
Proof.
  induction s as [|c s IH]; intros [|n] H; cbn in *; try reflexivity; try lia.
  rewrite IH by lia. reflexivity.
Qed.

Lemma take_length_min n : forall s,
  String.length (take n s) = Nat.min n (String.length s).
Proof.
  induction n as [|n IH]; intros [|c s]; cbn; try reflexivity.
  rewrite IH. reflexivity.
Qed.

Lemma char_at_take n : forall s k, (k < n)%nat -> char_at (take n s) k = char_at s k.
Proof.
  induction n as [|n IH]; intros [|c s] k Hk; cbn; try lia; try reflexivity.
  destruct k as [|k]; cbn; [reflexivity|]. apply IH. lia.
Qed.

Lemma strlen_le_length : forall s, (strlen s <= String.length s)%nat.
Proof.
  induction s as [|c s IH]; cbn; [lia|].
  destruct (Ascii.eqb c zero); lia.
Qed.

Lemma strlen_lacks : forall s, lacks zero (take (strlen s) s) = true.
Proof.
  induction s as [|c s IH]; cbn; [reflexivity|].
  destruct (Ascii.eqb c zero) eqn:E; cbn; [reflexivity|].
  rewrite E, IH. reflexivity.
Qed.

(** What [fgets] reads is a prefix of the file, at most [room] long, with a
    newline nowhere but at its end; it reads something from a file that
    has something. *)
Lemma fgets_spec : forall room file line rest,
  fgets room file = (line, rest) ->
  file = (line ++ rest)%string /\ (String.length line <= room)%nat /\
  (forall k, (S k < String.length line)%nat -> char_at line k <> "010"%char) /\
  (0 < room -> file <> EmptyString -> line <> EmptyString)%nat.
Proof.
  induction room as [|room IH]; intros file line rest H.
  - destruct file; inversion H; subst; cbn; repeat split; try lia;
      intros; lia.
  - destruct file as [|c file]; cbn [fgets] in H.
    + inversion H; subst. cbn. repeat split; try lia; intros; try lia.
      congruence.
    + destruct (Ascii.eqb c "010") eqn:Ec.
      * inversion H; subst. cbn. repeat split; try lia; intros; try lia.
        discriminate.
      * destruct (fgets room file) as [l r] eqn:E. inversion H; subst.
        destruct (IH file l rest E) as (Hf & Hl & Hn & _).
        split; [cbn; congruence|]. split; [cbn; lia|]. split.
        -- intros [|k] Hk; cbn.
           ++ apply Ascii.eqb_neq. exact Ec.
           ++ apply Hn. cbn in Hk. lia.
        -- intros _ _. discriminate.
Qed.

(** A whole line with its newline is read in one call. *)
Lemma fgets_line : forall l room rest,
  lacks "010" l = true -> (String.length l < room)%nat ->
  fgets room (l ++ String "010" rest) =
  ((l ++ String "010" EmptyString)%string, rest).
Proof.
  induction l as [|c l IH]; intros room rest Hl Hr; destruct room as [|room];
    cbn in Hr; try lia; cbn [append fgets].
  - reflexivity.
  - cbn in Hl. apply andb_prop in Hl. destruct Hl as [Hc Hl].
    apply negb_true_iff in Hc. rewrite Hc.
    rewrite (IH room rest Hl) by lia. reflexivity.
Qed.

(** A call stops where the buffer is full. *)
Lemma fgets_full : forall a b,
  lacks "010" a = true ->
  fgets (String.length a) (a ++ b) = (a, b).
Proof.
  induction a as [|c a IH]; intros b Hl; cbn [String.length append fgets].
  - destruct b; reflexivity.
  - cbn in Hl. apply andb_prop in Hl. destruct Hl as [Hc Hl].
    apply negb_true_iff in Hc. rewrite Hc, IH by exact Hl. reflexivity.
Qed.

(** The last line of a file may lack its newline. *)
Lemma fgets_rest : forall l room,
  lacks "010" l = true -> (String.length l <= room)%nat ->
  fgets room l = (l, EmptyString).
Proof.
  induction l as [|c l IH]; intros room Hl Hr; destruct room as [|room];
    cbn in Hr; try lia; cbn [fgets]; try reflexivity.
  cbn in Hl. apply andb_prop in Hl. destruct Hl as [Hc Hl].
  apply negb_true_iff in Hc. rewrite Hc, IH by (assumption || lia).
  reflexivity.
Qed.

Lemma strip_is_take len : forall s,
  exists n, (n <= len)%nat /\ strip len s = take n s /\
            (0 < n -> is_eol (char_at s (Nat.pred n)) = false)%nat.
Proof.
  induction len as [|len IH]; intro s; cbn [strip].
  - exists O. split; [lia|]. split; [destruct s; reflexivity|]. lia.
  - destruct (is_eol (char_at s len)) eqn:E.
    + destruct (IH s) as (n & Hn & Hs & He). exists n. split; [lia|].
      split; assumption.
    + exists (S len). split; [lia|]. split; [reflexivity|].
      intros _. exact E.
Qed.

(** Stripping gives the line back: the line ends come off, the line, which
    ends in none, stays. *)
Lemma strip_line l e :
  whole_line l = true -> lacks zero e = true ->
  (forall k, (k < String.length e)%nat -> is_eol (char_at e k) = true) ->
  strip (strlen (l ++ e)) (l ++ e) = l.
Proof.
  intros Hw Hz He. unfold whole_line in Hw.
  apply andb_prop in Hw. destruct Hw as [Hw Hend].
  apply andb_prop in Hw. destruct Hw as [Hnul Hnl].
  rewrite lacks_strlen by (rewrite lacks_append, Hnul, Hz; reflexivity).
  rewrite append_length.
  assert (G : forall k, (k <= String.length e)%nat ->
            strip (String.length l + k) (l ++ e) =
            strip (String.length l) (l ++ e)).
  { induction k as [|k IHk]; intro Hk; [rewrite Nat.add_0_r; reflexivity|].
    rewrite Nat.add_succ_r. cbn [strip].
    rewrite char_at_append_right, He by lia. apply IHk. lia. }
  rewrite G by lia.
  destruct (String.length l) as [|n] eqn:En.
  - destruct l; [reflexivity|discriminate].
  - cbn [strip]. cbn [Nat.pred] in Hend.
    rewrite char_at_append_left by lia.
    apply negb_true_iff in Hend. rewrite Hend, <- En. apply take_append.
Qed.

Lemma line_end_eol crlf k :
  (k < String.length (line_end crlf))%nat ->
  is_eol (char_at (line_end crlf) k) = true.
Proof.
  destruct crlf; cbn; intro Hk.
  - destruct k as [|[|k]]; [reflexivity|reflexivity|lia].
  - destruct k as [|k]; [reflexivity|lia].
Qed.
Lemma take_take n : forall k s, (n <= k)%nat -> take n (take k s) = take n s.
Proof.
  induction n as [|n IH]; intros [|k] [|c s] H; cbn; try reflexivity; try lia.
  rewrite IH by lia. reflexivity.
Qed.

Lemma lacks_of_char_at c : forall s,
  (forall k, (k < String.length s)%nat -> char_at s k <> c) -> lacks c s = true.
Proof.
  induction s as [|c' s IH]; intro H; cbn; [reflexivity|].
  apply andb_true_intro. split.
  - apply negb_true_iff, Ascii.eqb_neq. apply (H O). cbn. lia.
  - apply IH. intros k Hk. apply (H (S k)). cbn. lia.
Qed.

Lemma is_eol_newline c : is_eol c = false -> c <> "010"%char.
Proof. intros H ->. discriminate H. Qed.

(** What one turn of the reading loop stores. *)
Lemma stored_line file line rest :
  fgets 1023 file = (line, rest) ->
  let m := strip (strlen line) line in
  (String.length m <= 1023)%nat /\ whole_line m = true.
Proof.
  intros Hf m.
  destruct (fgets_spec _ _ _ _ Hf) as (_ & Hlen & Hnl & _).
  destruct (strip_is_take (strlen line) line) as (n & Hn & Hs & He).
  fold m in Hs. pose proof (strlen_le_length line) as Hsl.
  assert (Hm : String.length m = n).
  { rewrite Hs, take_length_min. lia. }
  split; [lia|]. unfold whole_line.
  assert (Hz : lacks zero m = true).
  { rewrite Hs, <- (take_take n (strlen line)) by exact Hn.
    apply lacks_take, strlen_lacks. }
  assert (Hend : is_eol (char_at m (Nat.pred (String.length m))) = false).
  { rewrite Hm. destruct n as [|n].
    - rewrite Hs. destruct line; reflexivity.
    - rewrite Hs, char_at_take by (cbn; lia). apply He. lia. }
  rewrite Hz, Hend. cbn [andb negb]. rewrite andb_true_r.
  apply lacks_of_char_at. intros k Hk. rewrite Hm in Hk.
  rewrite Hs, char_at_take by exact Hk.
  destruct (Nat.eq_dec (S k) (String.length line)) as [E|E].
  - assert (Hk' : k = Nat.pred n) by lia. rewrite Hk'.
    apply is_eol_newline, He. lia.
  - apply Hnl. lia.
Qed.

Lemma read_lines_some slots c file :
  read_lines (S slots) (String c file) =
  strip (strlen (fst (fgets 1023 (String c file))))
    (fst (fgets 1023 (String c file)))
  :: read_lines slots (snd (fgets 1023 (String c file))).
Proof.
  cbn [read_lines]. destruct (fgets 1023 (String c file)). reflexivity.
Qed.

Lemma read_lines_step slots file :
  file <> EmptyString ->
  read_lines (S slots) file =
  strip (strlen (fst (fgets 1023 file))) (fst (fgets 1023 file))
  :: read_lines slots (snd (fgets 1023 file)).
Proof. destruct file; [congruence|]. intros _. apply read_lines_some. Qed.

Lemma read_lines_empty slots : read_lines slots EmptyString = [].
Proof. destruct slots; reflexivity. Qed.

Lemma read_lines_bounds : forall slots file,
  (List.length (read_lines slots file) <= slots)%nat /\
  Forall (fun m => (String.length m <= 1023)%nat /\ whole_line m = true)
    (read_lines slots file).
Proof.
  induction slots as [|slots IH]; intro file; [split; [cbn; lia|constructor]|].
  destruct file as [|c file]; [split; [cbn; lia|constructor]|].
  rewrite read_lines_some.
  destruct (fgets 1023 (String c file)) as [line rest] eqn:Hf. cbn [fst snd].
  destruct (IH rest) as [Hl Ha]. split; [cbn; lia|].
  constructor; [|exact Ha]. apply (stored_line _ _ _ Hf).
Qed.

Lemma whole_line_contents m : whole_line m = true -> contents m = m.
Proof.
  unfold whole_line, contents. intro H.
  apply andb_prop in H. destruct H as [H _].
  apply andb_prop in H. destruct H as [H _].
  rewrite lacks_strlen by exact H. apply take_all. lia.
Qed.

(** X4: every table [load_messages_file] builds fits the program's arrays: at
    most 100 entries, each at most 1023 characters long, without a NUL or a
    newline in it and without a newline or carriage return at its end; so the
    2047 characters [parse_special_token] copies of an entry are the whole
    entry. *)
Theorem loaded_table_fits filename chars old :
  let table := fst (load_messages_file filename (Some chars) old) in
  (List.length table <= 100)%nat /\
  snd (load_messages_file filename (Some chars) old) =
  LoadedLines (Z.of_nat (List.length table)) filename /\
  Forall (fun m => (String.length m <= 1023)%nat /\
                   lacks zero m = true /\ lacks "010" m = true /\
                   is_eol (char_at m (Nat.pred (String.length m))) = false /\
                   take 2047 (contents m) = m) table.
Proof.
  cbn [load_messages_file fst snd].
  destruct (read_lines_bounds MAX_MESSAGES chars) as [Hl Ha].
  split; [exact Hl|]. split; [reflexivity|].
  eapply Forall_impl; [|exact Ha]. cbn beta. intros m [Hm Hw].
  split; [exact Hm|]. rewrite (whole_line_contents m Hw).
  unfold whole_line in Hw.
  apply andb_prop in Hw. destruct Hw as [Hw He].
  apply andb_prop in Hw. destruct Hw as [Hz Hn].
  apply negb_true_iff in He.
  repeat (split; [assumption|]). apply take_all. lia.
Qed.

Lemma whole_line_nonempty_file l crlf rest :
  exists c f, (l ++ line_end crlf ++ rest)%string = String c f.
Proof. destruct l, crlf; cbn; eauto. Qed.

Lemma read_lines_line slots l crlf rest :
  whole_line l = true ->
  (String.length l + String.length (line_end crlf) <= 1023)%nat ->
  read_lines (S slots) (l ++ line_end crlf ++ rest) =
  l :: read_lines slots rest.
Proof.
  intros Hw Hlen.
  destruct (whole_line_nonempty_file l crlf rest) as (c & f & E).
  rewrite E, read_lines_some, <- E.
  assert (Hnl : lacks "010" l = true).
  { unfold whole_line in Hw. apply andb_prop in Hw. destruct Hw as [Hw _].
    apply andb_prop in Hw. apply Hw. }
  assert (Hf : fgets 1023 (l ++ line_end crlf ++ rest) =
               ((l ++ line_end crlf)%string, rest)).
  { destruct crlf; cbn [line_end append String.length] in Hlen |- *.
    - change (l ++ String "013" (String "010" rest))%string
        with (l ++ (String "013" EmptyString ++ String "010" rest))%string.
      rewrite <- append_assoc, fgets_line.
      + rewrite append_assoc. reflexivity.
      + rewrite lacks_append, Hnl. reflexivity.
      + rewrite append_length. cbn. lia.
    - apply fgets_line; [exact Hnl|lia]. }
  rewrite Hf. cbn [fst snd]. f_equal.
  apply strip_line; [exact Hw|destruct crlf; reflexivity|apply line_end_eol].
Qed.

Lemma read_lines_file lines last :
  Forall (fun l => whole_line (fst l) = true /\
                   (String.length (fst l) + String.length (line_end (snd l))
                    <= 1023)%nat) lines ->
  whole_line last = true -> (String.length last <= 1023)%nat ->
  forall slots,
    read_lines slots (file_of lines ++ last) =
    firstn slots
      (map fst lines ++ match last with EmptyString => [] | _ => [last] end).
Proof.
  intros Hl Hw Hlen.
  induction Hl as [|[l crlf] lines [Hlw Hll] _ IH]; intro slots.
  - cbn [file_of append map app].
    destruct slots as [|slots]; [reflexivity|].
    destruct last as [|c last]; [reflexivity|].
    rewrite read_lines_some.
    assert (Hnl : lacks "010" (String c last) = true).
    { unfold whole_line in Hw. apply andb_prop in Hw. destruct Hw as [Hw' _].
      apply andb_prop in Hw'. apply Hw'. }
    rewrite (fgets_rest (String c last) 1023 Hnl Hlen). cbn [fst snd].
    rewrite read_lines_empty. cbn [firstn]. f_equal.
    + pose proof (strip_line (String c last) EmptyString Hw eq_refl) as S.
      rewrite append_empty_r in S. apply S. cbn. intros; lia.
    + destruct slots; reflexivity.
  - cbn [file_of map app fst snd] in Hlw, Hll |- *.
    destruct slots as [|slots]; [reflexivity|].
    rewrite !append_assoc.
    rewrite read_lines_line by assumption.
    cbn [firstn]. f_equal. apply IH.
Qed.

Lemma take_advance n : forall s, (take n s ++ advance n s)%string = s.
Proof.
  induction n as [|n IH]; intros [|c s]; cbn; try reflexivity.
  rewrite IH. reflexivity.
Qed.

Lemma advance_length n : forall s,
  String.length (advance n s) = (String.length s - n)%nat.
Proof.
  induction n as [|n IH]; intros [|c s]; cbn; try lia. apply IH.
Qed.

Lemma lacks_advance c n : forall s, lacks c s = true -> lacks c (advance n s) = true.
Proof.
  induction n as [|n IH]; intros [|c' s] H; cbn in *; try reflexivity;
    try assumption.
  apply andb_prop in H. apply IH. apply H.
Qed.

Lemma char_at_advance_end n : forall s,
  (n < String.length s)%nat ->
  char_at (advance n s) (Nat.pred (String.length (advance n s))) =
  char_at s (Nat.pred (String.length s)).
Proof.
  induction n as [|n IH]; intros [|c s] H; cbn in *; try lia; try reflexivity.
  destruct s as [|c' s]; [cbn in H; lia|].
  rewrite IH by (cbn in *; lia). reflexivity.
Qed.

(** ** Lines that end in carriage returns or hold a NUL *)

Lemma take_append_left : forall n s rest,
  (n <= String.length s)%nat -> take n (s ++ rest) = take n s.
Proof.
  induction n as [|n IH]; intros s rest H;
    [destruct s, rest; reflexivity|].
  destruct s as [|c s]; cbn in *; [lia|].
  rewrite IH by lia. reflexivity.
Qed.

Lemma strip_append : forall n s rest,
  (n <= String.length s)%nat -> strip n (s ++ rest) = strip n s.
Proof.
  induction n as [|n IH]; intros s rest H; cbn [strip]; [reflexivity|].
  rewrite char_at_append_left by lia.
  destruct (is_eol (char_at s n)); [apply IH; lia|].
  apply take_append_left. exact H.
Qed.

Lemma strlen_append : forall l e,
  strlen (l ++ e) =
  if lacks zero l then (String.length l + strlen e)%nat else strlen l.
Proof.
  induction l as [|c l IH]; intro e; cbn; [reflexivity|].
  destruct (Ascii.eqb c zero); cbn; [reflexivity|].
  rewrite IH. destruct (lacks zero l); reflexivity.
Qed.

(** The line end read into the buffer with a line comes off, and the line is
    kept as if it had been read alone. *)
Lemma strip_kept l e :
  lacks zero e = true ->
  (forall k, (k < String.length e)%nat -> is_eol (char_at e k) = true) ->
  strip (strlen (l ++ e)) (l ++ e) = kept l.
Proof.
  intros Hz He. unfold kept. rewrite strlen_append.
  destruct (lacks zero l) eqn:Hl.
  - rewrite (lacks_strlen e Hz), (lacks_strlen l Hl).
    assert (G : forall k, (k <= String.length e)%nat ->
              strip (String.length l + k) (l ++ e) =
              strip (String.length l) (l ++ e)).
    { induction k as [|k IHk]; intro Hk; [rewrite Nat.add_0_r; reflexivity|].
      rewrite Nat.add_succ_r. cbn [strip].
      rewrite char_at_append_right, He by lia. apply IHk. lia. }
    rewrite G by lia. apply strip_append. lia.
  - apply strip_append, strlen_le_length.
Qed.

Lemma kept_whole l : whole_line l = true -> kept l = l.
Proof.
  intro Hw. pose proof (strip_line l EmptyString Hw eq_refl) as S.
  rewrite append_empty_r in S. apply S. cbn. intros; lia.
Qed.

Lemma kept_alone l : strip (strlen l) l = kept l.
Proof. reflexivity. Qed.

Lemma read_lines_kept_line slots l crlf rest :
  lacks "010" l = true ->
  (String.length l + String.length (line_end crlf) <= 1023)%nat ->
  read_lines (S slots) (l ++ line_end crlf ++ rest) =
  kept l :: read_lines slots rest.
Proof.
  intros Hnl Hlen.
  destruct (whole_line_nonempty_file l crlf rest) as (c & f & E).
  rewrite E, read_lines_some, <- E.
  assert (Hf : fgets 1023 (l ++ line_end crlf ++ rest) =
               ((l ++ line_end crlf)%string, rest)).
  { destruct crlf; cbn [line_end append String.length] in Hlen |- *.
    - change (l ++ String "013" (String "010" rest))%string
        with (l ++ (String "013" EmptyString ++ String "010" rest))%string.
      rewrite <- append_assoc, fgets_line.
      + rewrite append_assoc. reflexivity.
      + rewrite lacks_append, Hnl. reflexivity.
      + rewrite append_length. cbn. lia.
    - apply fgets_line; [exact Hnl|lia]. }
  rewrite Hf. cbn [fst snd]. f_equal.
  apply strip_kept; [destruct crlf; reflexivity|apply line_end_eol].
Qed.

Lemma read_lines_kept lines last :
  Forall (fun l => lacks "010" (fst l) = true /\
                   (String.length (fst l) + String.length (line_end (snd l))
                    <= 1023)%nat) lines ->
  lacks "010" last = true -> (String.length last <= 1023)%nat ->
  forall slots,
    read_lines slots (file_of lines ++ last) =
    firstn slots
      (map (fun l => kept (fst l)) lines ++
       match last with EmptyString => [] | _ => [kept last] end).
Proof.
  intros Hl Hnl Hlen.
  induction Hl as [|[l crlf] lines [Hlw Hll] _ IH]; intro slots.
  - cbn [file_of append map app].
    destruct slots as [|slots]; [reflexivity|].
    destruct last as [|c last]; [reflexivity|].
    rewrite read_lines_some.
    rewrite (fgets_rest (String c last) 1023 Hnl Hlen). cbn [fst snd].
    rewrite read_lines_empty, kept_alone. cbn [firstn]. f_equal.
    destruct slots; reflexivity.
  - cbn [file_of map app fst snd] in Hlw, Hll |- *.
    destruct slots as [|slots]; [reflexivity|].
    rewrite !append_assoc.
    rewrite read_lines_kept_line by assumption.
    cbn [firstn]. f_equal. apply IH.
Qed.

(** X5: loading gives the lines of the file back.  For a file of lines that
    each end in LF or CR LF and fit the line buffer with their line end
    (1023 characters), followed or not by a last line without a line end,
    the table holds an entry for each line, in order, the first 100 when
    there are more: the line without its line end, and further without the
    carriage returns at its end, and only up to its first NUL if it has one.
    So a line without a NUL that does not end in a carriage return is held
    as it is in the file. *)
Theorem load_gives_the_lines filename old lines last :
  Forall (fun l => lacks "010" (fst l) = true /\
                   (String.length (fst l) + String.length (line_end (snd l))
                    <= 1023)%nat) lines ->
  lacks "010" last = true -> (String.length last <= 1023)%nat ->
  fst (load_messages_file filename (Some (file_of lines ++ last)%string) old) =
  firstn 100
    (map (fun l => kept (fst l)) lines ++
     match last with EmptyString => [] | _ => [kept last] end) /\
  (forall l, lacks zero l = true ->
             is_eol (char_at l (Nat.pred (String.length l))) = false ->
             kept l = l).
Proof.
  intros Hl Hw Hlen. split.
  - cbn [load_messages_file fst]. apply read_lines_kept; assumption.
  - intros l Hz He. unfold kept. rewrite (lacks_strlen l Hz).
    destruct (String.length l) as [|n] eqn:En.
    + destruct l; [reflexivity|discriminate].
    + cbn [strip]. cbn [Nat.pred] in He. rewrite He, <- En.
      apply take_all. lia.
Qed.

(** X6: a line too long for the line buffer fills two entries.  A line of
    1023 characters or more that, with its line end (LF or CR LF), is no
    longer than twice the buffer (2046 characters) is read in two calls of
    [fgets]: its first 1023 characters make one entry and the rest the next
    (empty for a line of exactly 1023), each of them kept like a line, that
    is without the carriage returns at its end and up to its first NUL; so
    the lines after it are numbered one higher than in the file.  For a line
    without a NUL neither of whose two parts ends in a carriage return the
    entries are the two parts as they are. *)
Theorem long_line_fills_two_entries slots l crlf rest :
  lacks "010" l = true ->
  (1023 <= String.length l)%nat ->
  (String.length l + String.length (line_end crlf) <= 2046)%nat ->
  read_lines (S (S slots)) (l ++ line_end crlf ++ rest) =
  kept (take 1023 l) :: kept (advance 1023 l) :: read_lines slots rest /\
  (whole_line l = true -> whole_line (take 1023 l) = true ->
   kept (take 1023 l) = take 1023 l /\ kept (advance 1023 l) = advance 1023 l).
Proof.
  intros Hn Hlo Hhi.
  set (a := take 1023 l) in *. set (b := advance 1023 l).
  assert (Hab : l = (a ++ b)%string) by (symmetry; apply take_advance).
  assert (Ha : String.length a = 1023%nat).
  { unfold a. rewrite take_length_min. lia. }
  assert (Hb : String.length b = (String.length l - 1023)%nat).
  { unfold b. apply advance_length. }
  assert (Hna : lacks "010" a = true) by (apply lacks_take, Hn).
  assert (Hnb : lacks "010" b = true) by (apply lacks_advance, Hn).
  split.
  - rewrite Hab at 1. rewrite append_assoc.
    rewrite read_lines_step by (destruct a; discriminate).
    assert (Hfa : fgets 1023 (a ++ (b ++ line_end crlf ++ rest)) =
                  (a, (b ++ line_end crlf ++ rest)%string)).
    { rewrite <- Ha. apply fgets_full. exact Hna. }
    rewrite Hfa. cbn [fst snd]. rewrite kept_alone. f_equal.
    apply read_lines_kept_line; [exact Hnb|lia].
  - intros Hw Hw1. split; [apply kept_whole, Hw1|].
    apply kept_whole.
    assert (Hparts : lacks zero l = true /\
                     is_eol (char_at l (Nat.pred (String.length l))) = false).
    { unfold whole_line in Hw. apply andb_prop in Hw. destruct Hw as [Hw He].
      apply andb_prop in Hw. apply negb_true_iff in He.
      destruct Hw as [Hw _]. split; [exact Hw|exact He]. }
    destruct Hparts as (Hz & He).
    unfold whole_line. fold b. rewrite Hnb.
    unfold b at 1. rewrite lacks_advance by exact Hz. cbn [andb].
    destruct (Nat.eq_dec (String.length l) 1023) as [E|E].
    + assert (Hb0 : String.length b = O) by lia.
      destruct b; [reflexivity|discriminate].
    + unfold b. rewrite char_at_advance_end by lia. rewrite He. reflexivity.
Qed.
(** ** Runs, operation by operation

    A relation between worlds that is reflexive and transitive and holds
    across each operation of the interpreter holds across a run of it;
    likewise for the loop over the iterations. *)

Lemma scanned_flag text w :
  g_stopRequested (scanned text w) = g_stopRequested w.
Proof.
  destruct (scanned_cases text w) as [E|[(n & c & E)|(b & n & e & E)]];
    rewrite E; reflexivity.
Qed.

Section Steps.

Variable R : world -> world -> Prop.
Hypothesis R_refl : forall w, R w w.
Hypothesis R_trans : forall w1 w2 w3, R w1 w2 -> R w2 w3 -> R w1 w3.
Hypothesis R_enter :
  forall w, g_stopRequested w = false -> R w (nodelay true w).
Hypothesis R_leave : forall w, R w (nodelay false w).
Hypothesis R_poll :
  forall w, g_stopRequested w = false -> R w (poll_nd F2Typing F1Typing w).
Hypothesis R_scanned :
  forall text w, g_stopRequested w = false -> R w (scanned text w).
Hypothesis R_literal :
  forall c w, g_stopRequested w = false ->
    R w (usleep 30000 (send_char c (add_log (SendingChar c) w))).
Hypothesis R_insert :
  forall buf w, g_stopRequested w = false -> R w (add_log (InsertLine buf) w).
Hypothesis R_hold :
  forall ks ms w, g_stopRequested w = false -> 0 < ms ->
    R w (hold_key_nd ks ms w).
Hypothesis R_tap :
  forall ks w, g_stopRequested w = false ->
    R w (pressKey ks (add_log (QuickPress ks) w)).

Section StepsLoop.

Variable expand : string -> world -> option world.
Hypothesis expand_R :
  forall s w w', g_stopRequested w = false -> expand s w = Some w' -> R w w'.

Lemma typing_step_nd_steps text i w :
  match typing_step_nd expand text i w with
  | Leave_nd w' | Advance_nd _ w' => R w w'
  | TooDeep_nd => True
  end.
Proof.
  destruct (typing_step_nd_case expand text i w)
    as [H|Hz Hw Hp|Hz Hw Hp Hc|w' Hz Hw Hp Hc He Hx|Hz Hw Hp Hc He Hx|
        Hz Hw Hp Hc He Hh|Hz Hw Hp Hc He Hh];
    try exact I; try apply R_refl; try (apply R_poll; exact Hw);
    (eapply R_trans; [apply R_poll; exact Hw|]);
    (eapply R_trans; [apply (R_scanned (advance i text)); exact Hp|]);
    pose proof (scanned_flag (advance i text) (poll_nd F2Typing F1Typing w)) as Hf;
    rewrite Hp in Hf.
  - apply R_literal. exact Hf.
  - eapply R_trans; [apply R_insert; exact Hf|].
    eapply expand_R; [|exact Hx]. exact Hf.
  - apply R_hold; assumption.
  - apply R_tap. exact Hf.
Qed.

Lemma loop_run_nd_steps text : forall i w ns r,
  loop_run_nd expand text i w ns r ->
  forall j w', r = Some (j, w') -> R w w'.
Proof.
  induction 1 as [i w w1 H|i w H|i w n w1 ns r H _ IH]; intros j w' Er.
  - pose proof (typing_step_nd_steps text i w) as F.
    rewrite H in F. inversion Er; subst. exact F.
  - discriminate.
  - pose proof (typing_step_nd_steps text i w) as F. rewrite H in F.
    eapply R_trans; [exact F|eapply IH, Er].
Qed.

Lemma typing_loop_nd_steps text i w j w' :
  typing_loop_nd expand text i w = Some (j, w') -> R w w'.
Proof.
  intro H. destruct (loop_run_nd_exists expand text i w) as [ns Hr].
  eapply loop_run_nd_steps; [exact Hr|exact H].
Qed.

End StepsLoop.

Lemma parse_and_type_nd_steps depth : forall text w w',
  g_stopRequested w = false ->
  parse_and_type_nd depth text w = Some w' -> R w w'.
Proof.
  induction depth as [|depth IH]; intros text w w' Hw H;
    cbn [parse_and_type_nd] in H; [discriminate|].
  destruct (typing_loop_nd _ _ _ _) as [[j w1]|] eqn:E; [|discriminate].
  inversion H; subst.
  eapply R_trans; [apply R_enter; exact Hw|].
  eapply R_trans; [|apply R_leave].
  eapply typing_loop_nd_steps; [|exact E].
  intros s w0 w0' Hw0 Hx. apply (IH s); assumption.
Qed.

Hypothesis R_begin :
  forall l1 loops w, g_stopRequested w = false ->
    R w (add_log (LoopBegin l1 loops) w).
Hypothesis R_interrupted :
  forall l1 loops w, g_stopRequested w = true ->
    R w (add_log (LoopInterrupted l1 loops) w).
Hypothesis R_done :
  forall l1 loops w, g_stopRequested w = false ->
    R w (add_log (LoopDone l1 loops) w).
Hypothesis R_next :
  forall ms w, g_stopRequested w = false -> R w (add_log (SleepingNext ms) w).
Hypothesis R_between :
  forall ms w, g_stopRequested w = false ->
    R w (delay_nd F2Between F1Between ms w).
Hypothesis R_aborted_between :
  forall l1 loops w, g_stopRequested w = true ->
    R w (add_log (AbortedBetween l1 loops) w).
Hypothesis R_sleeping :
  forall ms w, g_stopRequested w = false ->
    R w (add_log (SleepingBefore ms) w).
Hypothesis R_before :
  forall ms w, g_stopRequested w = false ->
    R w (delay_nd F2Before F1Before ms w).
Hypothesis R_aborted_before :
  forall w, g_stopRequested w = true -> R w (add_log AbortedBefore w).
Hypothesis R_all_done :
  forall w, g_stopRequested w = false -> R w (add_log AllDone w).
Hypothesis R_stopped :
  forall w, g_stopRequested w = true -> R w (add_log StoppedByUser w).

Lemma loop_body_nd_steps depth text loops ld l w r :
  loop_body_nd depth text loops ld l w = Some r ->
  R w (match r with inl w' | inr w' => w' end).
Proof.
  unfold loop_body_nd. intro H.
  destruct (g_stopRequested w) eqn:Hw; [inversion H; apply R_refl|].
  destruct (parse_and_type_nd depth text _) as [w1|] eqn:Hp; [|discriminate].
  apply parse_and_type_nd_steps in Hp; [|exact Hw].
  assert (F1 : R w w1).
  { eapply R_trans; [|exact Hp]. apply R_begin. exact Hw. }
  destruct (g_stopRequested w1) eqn:Hw1.
  { inversion H. eapply R_trans; [exact F1|apply R_interrupted; exact Hw1]. }
  assert (F2 : R w (add_log (LoopDone (l + 1) loops) w1)).
  { eapply R_trans; [exact F1|apply R_done; exact Hw1]. }
  destruct ((l <? loops - 1) && (0 <? ld)); [|inversion H; exact F2].
  assert (F3 : R w (delay_nd F2Between F1Between ld
                      (add_log (SleepingNext ld)
                         (add_log (LoopDone (l + 1) loops) w1)))).
  { eapply R_trans; [exact F2|].
    eapply R_trans; [apply R_next; exact Hw1|apply R_between; exact Hw1]. }
  destruct (g_stopRequested (delay_nd _ _ _ _)) eqn:Hd; inversion H;
    [eapply R_trans; [exact F3|apply R_aborted_between; exact Hd]|exact F3].
Qed.

Lemma run_loops_nd_steps depth text loops ld : forall m l w w',
  (Z.to_nat (loops - l) <= m)%nat ->
  run_loops_nd depth text loops ld l w = Some w' -> R w w'.
Proof.
  induction m as [|m IH]; intros l w w' Hm H; rewrite run_loops_nd_eq in H;
    destruct (Z.ltb_spec l loops) as [Hl|Hl]; try lia;
    try (inversion H; apply R_refl).
  destruct (loop_body_nd depth text loops ld l w) as [[w1|w1]|] eqn:Hb;
    [| |discriminate].
  - inversion H; subst. apply (loop_body_nd_steps _ _ _ _ _ _ _ Hb).
  - eapply R_trans; [apply (loop_body_nd_steps _ _ _ _ _ _ _ Hb)|].
    apply (IH (l + 1)); [lia|exact H].
Qed.

(** A run, from the world in which the flag has been cleared. *)
Lemma simulate_typing_nd_steps depth text loops sd ld w w' :
  simulate_typing_nd depth text loops sd ld w = Some w' ->
  R (reset_stop (add_log (SimStart sd ld loops text) w)) w'.
Proof.
  unfold simulate_typing_nd.
  set (w0 := reset_stop (add_log (SimStart sd ld loops text) w)).
  assert (H0 : g_stopRequested w0 = false) by reflexivity.
  assert (Hfin : forall w1 w2,
             R w0 w1 ->
             match run_loops_nd depth text loops ld 0 w1 with
             | Some w3 =>
                 if negb (g_stopRequested w3) then Some (add_log AllDone w3)
                 else Some (add_log StoppedByUser w3)
             | None => None
             end = Some w2 -> R w0 w2).
  { intros w1 w2 F H.
    destruct (run_loops_nd depth text loops ld 0 w1) as [w3|] eqn:Hr;
      [|discriminate].
    apply (run_loops_nd_steps _ _ _ _ (Z.to_nat (loops - 0))) in Hr; [|lia].
    destruct (g_stopRequested w3) eqn:H3; inversion H; subst;
      (eapply R_trans; [exact F|]); (eapply R_trans; [exact Hr|]);
      [apply R_stopped|apply R_all_done]; exact H3. }
  destruct (0 <? sd).
  - intro H.
    assert (F : R w0 (delay_nd F2Before F1Before sd
                        (add_log (SleepingBefore sd) w0))).
    { eapply R_trans; [apply R_sleeping; exact H0|apply R_before; exact H0]. }
    destruct (g_stopRequested (delay_nd _ _ _ _)) eqn:Hd.
    + inversion H; subst.
      eapply R_trans; [exact F|apply R_aborted_before; exact Hd].
    + apply (Hfin _ _ F H).
  - apply Hfin, R_refl.
Qed.

End Steps.
(** ** Keys go down and up in pairs *)

Lemma paired_of (Q : event -> Prop) kss w w' :
  emits Q w w' ->
  observe key_call (effects w') = observe key_call (effects w) ++ strokes kss ->
  paired w w'.
Proof.
  intros (d & E & _) H. exists d, kss. split; [exact E|].
  rewrite E, observe_app in H. apply app_inv_head in H. exact H.
Qed.

Lemma paired_quiet (Q : event -> Prop) w w' :
  (forall e, Q e -> key_call e = None) -> emits Q w w' -> paired w w'.
Proof.
  intros HQ H. apply (paired_of Q [] w w' H).
  rewrite (emits_observe key_call Q w w' HQ H). cbn. rewrite app_nil_r.
  reflexivity.
Qed.

Lemma paired_log line w :
  key_call (Log line) = None -> paired w (add_log line w).
Proof.
  intro H. apply (paired_quiet (fun e => e = Log line)).
  - intros e ->. exact H.
  - apply emits_emit. reflexivity.
Qed.

Lemma paired_refl w : paired w w.
Proof. exists [], []. split; [rewrite app_nil_r; reflexivity|reflexivity]. Qed.

Lemma paired_trans w1 w2 w3 : paired w1 w2 -> paired w2 w3 -> paired w1 w3.
Proof.
  intros (d1 & k1 & E1 & H1) (d2 & k2 & E2 & H2).
  exists (d1 ++ d2), (k1 ++ k2). split.
  - rewrite E2, E1, app_assoc. reflexivity.
  - rewrite observe_app, H1, H2. unfold strokes. rewrite flat_map_app.
    reflexivity.
Qed.

Lemma pressKey_calls ks w :
  observe key_call (effects (pressKey ks w)) =
  observe key_call (effects w) ++ strokes [ks].
Proof.
  unfold pressKey, usleep.
  rewrite observe_emit, pressKeyUp_call, observe_emit, pressKeyDown_call.
  cbn [key_call strokes flat_map app]. rewrite !app_nil_r, <- app_assoc.
  reflexivity.
Qed.

Lemma paired_pressKey ks w : paired w (pressKey ks w).
Proof.
  apply (paired_of interpreter_event [ks]);
    [apply pressKey_follows|apply pressKey_calls].
Qed.

Lemma paired_send_char c w : paired w (send_char c w).
Proof.
  unfold send_char. destruct (map_char_to_keysym c =? NoSymbol).
  - apply paired_log. reflexivity.
  - apply paired_pressKey.
Qed.

Lemma paired_delay onF2 onF1 ms w :
  key_call (Log onF2) = None -> key_call (Log onF1) = None ->
  paired w (delay_nd onF2 onF1 ms w).
Proof.
  intros H2 H1. apply (paired_of any_event []); [apply delay_nd_follows|].
  rewrite delay_nd_observe by (assumption || reflexivity).
  cbn. rewrite app_nil_r. reflexivity.
Qed.

Lemma in_observe {A} (f : event -> option A) e a : forall d,
  In e d -> f e = Some a -> In a (observe f d).
Proof.
  induction d as [|x d IH]; intros Hin Hf; [contradiction|].
  change (x :: d) with ([x] ++ d). rewrite observe_app. apply in_or_app.
  destruct Hin as [->|Hin].
  - left. cbn. rewrite Hf. left. reflexivity.
  - right. apply IH; assumption.
Qed.

Lemma in_strokes k b kss :
  In (k, b) (strokes kss) -> exists ks, k = key_of ks.
Proof.
  unfold strokes. intro H. apply in_flat_map in H.
  destruct H as (ks & _ & [E|[E|[]]]); exists ks; congruence.
Qed.

(** The key calls of a run come in pairs. *)
Lemma simulate_typing_nd_paired depth text loops sd ld w w' :
  simulate_typing_nd depth text loops sd ld w = Some w' ->
  exists d kss,
    effects w' = effects w ++ d /\
    observe key_call d = strokes kss /\
    (forall kc b, In (FakeKey kc b) d ->
       kc <> 0 /\ exists ks, kc = XKeysymToKeycode ks).
Proof.
  intro H.
  assert (P : paired (reset_stop (add_log (SimStart sd ld loops text) w)) w').
  { apply (simulate_typing_nd_steps paired paired_refl paired_trans) with
      (depth := depth) (text := text) (loops := loops) (sd := sd) (ld := ld);
      try exact H; intros;
      try (apply paired_log; reflexivity);
      try (apply paired_delay; reflexivity).
    - apply (paired_quiet (fun e => e = Nodelay true));
        [intros e ->; reflexivity|apply emits_emit; reflexivity].
    - apply (paired_quiet (fun e => e = Nodelay false));
        [intros e ->; reflexivity|apply emits_emit; reflexivity].
    - apply (paired_quiet (fun e => e = Log F2Typing \/ e = Log F1Typing));
        [intros e [->| ->]; reflexivity|apply poll_nd_follows].
    - apply (paired_of interpreter_event []); [apply scanned_follows|].
      rewrite scanned_observe by reflexivity. cbn. rewrite app_nil_r.
      reflexivity.
    - apply (paired_trans _ (add_log (SendingChar c) w0));
        [apply paired_log; reflexivity|].
      eapply paired_trans; [apply paired_send_char|].
      apply (paired_quiet (fun e => e = Usleep 30000));
        [intros e ->; reflexivity|apply emits_emit; reflexivity].
    - apply (paired_of interpreter_event [ks]);
        [apply hold_key_nd_follows|apply hold_key_nd_calls].
    - apply (paired_trans _ (add_log (QuickPress ks) w0));
        [apply paired_log; reflexivity|].
      apply paired_pressKey. }
  destruct P as (d & kss & E & Hk). cbn [effects reset_stop add_log emit] in E.
  rewrite <- app_assoc in E.
  exists ([Log (SimStart sd ld loops text)] ++ d), kss.
  split; [exact E|]. split.
  { rewrite observe_app, Hk. reflexivity. }
  intros kc b Hin.
  assert (Hc : In (inl kc, b) (strokes kss)).
  { rewrite <- Hk. destruct Hin as [Hin|Hin]; [discriminate|].
    apply (in_observe key_call (FakeKey kc b)); [exact Hin|reflexivity]. }
  apply in_strokes in Hc. destruct Hc as (ks & Hks).
  unfold key_of in Hks.
  destruct (Z.eqb_spec (XKeysymToKeycode ks) 0); [discriminate|].
  inversion Hks; subst. split; [assumption|]. exists ks. reflexivity.
Qed.
(** ** After F2 *)

Lemma prompt_refl w : prompt w w.
Proof.
  exists []. split; [rewrite app_nil_r; reflexivity|].
  unfold stops_promptly. destruct (g_stopRequested w); [split|]; auto.
Qed.

Lemma prompt_trans w1 w2 w3 : prompt w1 w2 -> prompt w2 w3 -> prompt w1 w3.
Proof.
  intros (d1 & E1 & S1) (d2 & E2 & S2). exists (d1 ++ d2). split.
  { rewrite E2, E1, app_assoc. reflexivity. }
  unfold stops_promptly in *.
  destruct (g_stopRequested w1).
  - destruct S1 as [G2 F1]. rewrite G2 in S2. destruct S2 as [G3 F2].
    split; [exact G3|]. apply Forall_app. split; assumption.
  - destruct (g_stopRequested w2).
    + destruct S2 as [G3 F2]. rewrite G3.
      destruct S1 as (a & e & b & -> & Fa & He & Fb).
      exists a, e, (b ++ d2).
      split; [rewrite <- app_assoc; reflexivity|].
      split; [exact Fa|]. split; [exact He|].
      apply Forall_app. split; assumption.
    + destruct (g_stopRequested w3).
      * destruct S2 as (a & e & b & -> & Fa & He & Fb).
        exists (d1 ++ a), e, b. split; [rewrite <- app_assoc; reflexivity|].
        split; [apply Forall_app; split; assumption|]. split; assumption.
      * apply Forall_app. split; assumption.
Qed.

(** An effect that leaves the flag as it is. *)
Lemma prompt_emit e w :
  (g_stopRequested w = true -> winding_down e = true) ->
  (g_stopRequested w = false -> stop_line e = false) ->
  prompt w (emit e w).
Proof.
  intros Ht Hf. exists [e]. split; [reflexivity|].
  unfold stops_promptly. cbn [emit g_stopRequested].
  destruct (g_stopRequested w); [split; [reflexivity|]|];
    repeat constructor; auto.
Qed.

(** The line that reports F2 and the assignment behind it. *)
Lemma prompt_stop e w :
  stop_line e = true -> winding_down e = true ->
  prompt w (request_stop (emit e w)).
Proof.
  intros Hs Hw. exists [e]. split; [reflexivity|].
  unfold stops_promptly. cbn [request_stop g_stopRequested].
  destruct (g_stopRequested w).
  - split; [reflexivity|]. repeat constructor. exact Hw.
  - exists [], e, []. repeat split; auto.
Qed.

Lemma prompt_same w w' :
  effects w' = effects w -> g_stopRequested w' = g_stopRequested w ->
  prompt w w'.
Proof.
  intros E F. exists []. split; [rewrite app_nil_r; exact E|].
  rewrite F. unfold stops_promptly.
  destruct (g_stopRequested w); [split|]; auto.
Qed.

Section PromptPoll.

Variables onF2 onF1 : log_line.
Hypothesis onF2_stop : stop_line (Log onF2) = true.
Hypothesis onF2_down : winding_down (Log onF2) = true.
Hypothesis onF1_quiet : stop_line (Log onF1) = false.
Hypothesis onF1_down : winding_down (Log onF1) = true.

Lemma drain_nd_prompt : forall keys w, prompt w (drain_nd onF2 onF1 keys w).
Proof.
  induction keys as [|ch keys IH]; intro w; cbn [drain_nd].
  - apply prompt_same; reflexivity.
  - destruct (ch =? ERR); [apply prompt_same; reflexivity|].
    destruct (ch =? KEY_F 2); [|destruct (ch =? KEY_F 1)].
    + eapply prompt_trans; [|apply IH].
      apply prompt_stop; assumption.
    + eapply prompt_trans; [|apply IH].
      apply prompt_emit; intros _; assumption.
    + apply IH.
Qed.

Lemma poll_nd_prompt w : prompt w (poll_nd onF2 onF1 w).
Proof. apply drain_nd_prompt. Qed.

Lemma wait_loop_nd_prompt : forall n remain w,
  (Z.to_nat remain <= n)%nat -> prompt w (wait_loop_nd onF2 onF1 remain w).
Proof.
  induction n as [|n IH]; intros remain w Hn; rewrite wait_loop_nd_eq.
  - destruct (Z.ltb_spec 0 remain); [lia|apply prompt_refl].
  - destruct (Z.ltb_spec 0 remain); [|apply prompt_refl].
    destruct (g_stopRequested w) eqn:Hw; [apply prompt_refl|].
    eapply prompt_trans; [|apply IH; lia].
    eapply prompt_trans; [|apply poll_nd_prompt].
    apply prompt_emit; [congruence|reflexivity].
Qed.

Lemma wait_prompt remain w : prompt w (wait_loop_nd onF2 onF1 remain w).
Proof. apply (wait_loop_nd_prompt (Z.to_nat remain)). lia. Qed.

Lemma delay_nd_prompt ms w :
  g_stopRequested w = false -> prompt w (delay_nd onF2 onF1 ms w).
Proof.
  intro Hw. unfold delay_nd, nodelay.
  eapply prompt_trans; [|apply prompt_emit; reflexivity].
  eapply prompt_trans; [|apply wait_prompt].
  apply prompt_emit; [congruence|reflexivity].
Qed.

End PromptPoll.

Lemma pressKeyDown_prompt ks w :
  g_stopRequested w = false -> prompt w (pressKeyDown ks w).
Proof.
  intro Hw. unfold pressKeyDown, add_log.
  destruct (XKeysymToKeycode ks =? 0);
    apply prompt_emit; [congruence|reflexivity|congruence|reflexivity].
Qed.

Lemma pressKeyUp_prompt ks w : prompt w (pressKeyUp ks w).
Proof.
  unfold pressKeyUp, add_log.
  destruct (XKeysymToKeycode ks =? 0); apply prompt_emit; reflexivity.
Qed.

Lemma pressKeyDown_flag ks w :
  g_stopRequested (pressKeyDown ks w) = g_stopRequested w.
Proof. unfold pressKeyDown. destruct (_ =? 0); reflexivity. Qed.

Lemma pressKey_prompt ks w :
  g_stopRequested w = false -> prompt w (pressKey ks w).
Proof.
  intro Hw. unfold pressKey, usleep.
  eapply prompt_trans; [|apply prompt_emit; reflexivity].
  eapply prompt_trans; [|apply pressKeyUp_prompt].
  eapply prompt_trans; [apply pressKeyDown_prompt; exact Hw|].
  apply prompt_emit; [|reflexivity].
  cbn [emit g_stopRequested]. rewrite pressKeyDown_flag. congruence.
Qed.

Lemma log_prompt line w :
  g_stopRequested w = false -> stop_line (Log line) = false ->
  prompt w (add_log line w).
Proof. intros Hw Hs. apply prompt_emit; [congruence|intros _; exact Hs]. Qed.

Lemma closing_prompt line w :
  winding_down (Log line) = true -> stop_line (Log line) = false ->
  prompt w (add_log line w).
Proof. intros Hd Hs. apply prompt_emit; intros _; assumption. Qed.

(** A run and the first F2 line it logs. *)
Lemma simulate_typing_nd_prompt depth text loops sd ld w w' :
  simulate_typing_nd depth text loops sd ld w = Some w' ->
  exists d,
    effects w' = effects w ++ d /\
    (g_stopRequested w' = false ->
     Forall (fun e => stop_line e = false) d) /\
    (g_stopRequested w' = true ->
     exists a e b,
       d = a ++ e :: b /\ Forall (fun e => stop_line e = false) a /\
       stop_line e = true /\ Forall (fun e => winding_down e = true) b).
Proof.
  intro H.
  assert (P : prompt (reset_stop (add_log (SimStart sd ld loops text) w)) w').
  { apply (simulate_typing_nd_steps prompt prompt_refl prompt_trans) with
      (depth := depth) (text := text) (loops := loops) (sd := sd) (ld := ld);
      try exact H; intros;
      try (apply log_prompt; [assumption|reflexivity]);
      try (apply closing_prompt; reflexivity);
      try (apply delay_nd_prompt; [reflexivity..|assumption]).
    - apply prompt_emit; [congruence|reflexivity].
    - apply prompt_emit; reflexivity.
    - apply poll_nd_prompt; reflexivity.
    - destruct (scanned_cases text0 w0) as [E|[(n & c & E)|(b & n & e & E)]];
        rewrite E; [apply prompt_refl| |];
        (apply log_prompt; [assumption|reflexivity]).
    - unfold usleep.
      assert (Hs : prompt w0 (send_char c (add_log (SendingChar c) w0))).
      { apply (prompt_trans _ (add_log (SendingChar c) w0));
          [apply log_prompt; [assumption|reflexivity]|].
        unfold send_char. destruct (_ =? NoSymbol).
        - apply log_prompt; [assumption|reflexivity].
        - apply pressKey_prompt. assumption. }
      eapply prompt_trans; [exact Hs|].
      apply prompt_emit; [|reflexivity].
      cbn [emit g_stopRequested]. unfold send_char.
      destruct (_ =? NoSymbol); cbn; unfold pressKeyUp, pressKeyDown;
        repeat (destruct (_ =? 0)); cbn; congruence.
    - unfold hold_key_nd, usleep.
      eapply prompt_trans; [|apply prompt_emit; reflexivity].
      eapply prompt_trans; [|apply pressKeyUp_prompt].
      eapply prompt_trans; [|apply wait_prompt; reflexivity].
      apply (prompt_trans _ (add_log (Holding ks ms) w0));
        [apply log_prompt; [assumption|reflexivity]|].
      apply pressKeyDown_prompt. assumption.
    - apply (prompt_trans _ (add_log (QuickPress ks) w0));
        [apply log_prompt; [assumption|reflexivity]|].
      apply pressKey_prompt. assumption. }
  destruct P as (d & E & S). cbn [effects reset_stop add_log emit] in E.
  rewrite <- app_assoc in E.
  exists ([Log (SimStart sd ld loops text)] ++ d). split; [exact E|].
  unfold stops_promptly in S. cbn [g_stopRequested reset_stop] in S.
  destruct (g_stopRequested w').
  - split; [discriminate|]. intros _.
    destruct S as (a & e & b & -> & Fa & He & Fb).
    exists (Log (SimStart sd ld loops text) :: a), e, b.
    split; [reflexivity|]. split; [constructor; [reflexivity|exact Fa]|].
    split; assumption.
  - split; [|discriminate]. intros _. constructor; [reflexivity|exact S].
Qed.
(** ** How long a wait is *)

Lemma slices_step ms : 0 < ms -> slices ms = S (slices (ms - 50)).
Proof.
  intro H. unfold slices.
  replace (ms + 49) with (ms - 50 + 49 + 1 * 50) by lia.
  rewrite Z.div_add by lia.
  assert (0 <= (ms - 50 + 49) / 50) by (apply Z.div_pos; lia).
  lia.
Qed.

Lemma slices_none ms : ms <= 0 -> slices ms = O.
Proof.
  intro H. unfold slices.
  assert ((ms + 49) / 50 <= 0); [|lia].
  apply Z.lt_succ_r, Z.div_lt_upper_bound; lia.
Qed.

Lemma slices_bounds ms :
  0 < ms -> ms <= 50 * Z.of_nat (slices ms) < ms + 50.
Proof.
  intro H. unfold slices.
  assert (H0 : 0 <= (ms + 49) / 50) by (apply Z.div_pos; lia).
  rewrite Z2Nat.id by exact H0.
  pose proof (Z.mul_div_le (ms + 49) 50 ltac:(lia)).
  pose proof (Z.mul_succ_div_gt (ms + 49) 50 ltac:(lia)).
  lia.
Qed.

Section Slices.

Variables onF2 onF1 : log_line.
Hypothesis onF2_untimed : timeline (Log onF2) = None.
Hypothesis onF1_untimed : timeline (Log onF1) = None.

Lemma slice_timeline w :
  observe timeline (effects (poll_nd onF2 onF1 (usleep 50000 w))) =
  observe timeline (effects w) ++ [inr 50000].
Proof.
  rewrite poll_nd_observe by assumption.
  unfold usleep. rewrite observe_emit. reflexivity.
Qed.

Lemma slice_calm w : calm w -> calm (poll_nd onF2 onF1 (usleep 50000 w)).
Proof.
  intro H. apply poll_nd_follows. apply (calm_same w); [reflexivity..|exact H].
Qed.

Lemma wait_loop_nd_slices : forall n remain w,
  (Z.to_nat remain <= n)%nat -> g_stopRequested w = false -> 0 < remain ->
  exists k,
    (1 <= k <= slices remain)%nat /\
    observe timeline (effects (wait_loop_nd onF2 onF1 remain w)) =
    observe timeline (effects w) ++ repeat (inr 50000) k /\
    (calm w -> k = slices remain) /\
    ((k < slices remain)%nat ->
     g_stopRequested (wait_loop_nd onF2 onF1 remain w) = true).
Proof.
  induction n as [|n IH]; intros remain w Hn Hw Hr; [lia|].
  rewrite wait_loop_nd_eq.
  destruct (Z.ltb_spec 0 remain) as [_|]; [|lia]. rewrite Hw.
  set (w1 := poll_nd onF2 onF1 (usleep 50000 w)).
  pose proof (slices_step remain Hr) as Hs.
  destruct (Z.ltb_spec 0 (remain - 50)) as [Hmore|Hlast].
  - destruct (g_stopRequested w1) eqn:H1.
    + rewrite wait_loop_nd_eq.
      destruct (Z.ltb_spec 0 (remain - 50)) as [_|]; [|lia]. rewrite H1.
      exists 1%nat. split; [lia|]. split; [apply slice_timeline|].
      split; [|intros _; exact H1].
      intro Hc. apply slice_calm in Hc. destruct Hc as [Hc _].
      fold w1 in Hc. congruence.
    + destruct (IH (remain - 50) w1) as (k & Hk & Ht & Hcalm & Hstop);
        [lia|exact H1|exact Hmore|].
      exists (S k). split; [lia|]. split.
      * rewrite Ht. unfold w1. rewrite slice_timeline, <- app_assoc.
        reflexivity.
      * split.
        -- intro Hc. rewrite Hs. f_equal. apply Hcalm, slice_calm, Hc.
        -- intro Hlt. apply Hstop. lia.
  - rewrite wait_loop_nd_eq.
    destruct (Z.ltb_spec 0 (remain - 50)) as [|_]; [lia|].
    rewrite (slices_none (remain - 50)) in Hs by lia.
    exists 1%nat. split; [lia|]. split; [apply slice_timeline|].
    split; [intros _; lia|lia].
Qed.

End Slices.

(** The slices of a hold and of a delay, when no call waits. *)
Lemma wait_nd_lasts :
  (forall ks ms w,
      g_stopRequested w = false -> 0 < ms ->
      exists k,
        (1 <= k <= slices ms)%nat /\
        observe timeline (effects (hold_key_nd ks ms w)) =
        observe timeline (effects w) ++
        inl (key_of ks, true) :: repeat (inr 50000) k ++
        [inl (key_of ks, false); inr 30000] /\
        (calm w -> k = slices ms) /\
        ((k < slices ms)%nat ->
         g_stopRequested (hold_key_nd ks ms w) = true)) /\
  (forall onF2 onF1 ms w,
      (onF2, onF1) = (F2Before, F1Before) \/
      (onF2, onF1) = (F2Between, F1Between) ->
      g_stopRequested w = false -> 0 < ms ->
      exists k,
        (1 <= k <= slices ms)%nat /\
        observe timeline (effects (delay_nd onF2 onF1 ms w)) =
        observe timeline (effects w) ++ repeat (inr 50000) k /\
        (calm w -> k = slices ms) /\
        ((k < slices ms)%nat ->
         g_stopRequested (delay_nd onF2 onF1 ms w) = true)) /\
  (forall ms, 0 < ms -> ms <= 50 * Z.of_nat (slices ms) < ms + 50).
Proof.
  split; [|split; [|exact slices_bounds]].
  - intros ks ms w Hw Hms. unfold hold_key_nd.
    set (w1 := pressKeyDown ks (add_log (Holding ks ms) w)).
    assert (H1 : g_stopRequested w1 = false).
    { unfold w1, pressKeyDown. destruct (_ =? 0); exact Hw. }
    assert (T1 : observe timeline (effects w1) =
                 observe timeline (effects w) ++ [inl (key_of ks, true)]).
    { unfold w1, pressKeyDown, key_of, add_log.
      destruct (XKeysymToKeycode ks =? 0); rewrite !observe_emit;
        cbn; rewrite ?app_nil_r; reflexivity. }
    destruct (wait_loop_nd_slices F2Hold F1Hold eq_refl eq_refl
                (Z.to_nat ms) ms w1) as (k & Hk & Ht & Hcalm & Hstop);
      [lia|exact H1|exact Hms|].
    exists k. split; [exact Hk|]. split; [|split].
    + unfold usleep. rewrite observe_emit.
      assert (Tup : forall w0,
                 observe timeline (effects (pressKeyUp ks w0)) =
                 observe timeline (effects w0) ++ [inl (key_of ks, false)]).
      { intro w0. unfold pressKeyUp, key_of, add_log.
        destruct (XKeysymToKeycode ks =? 0); rewrite observe_emit;
          reflexivity. }
      rewrite Tup, Ht, T1. cbn [timeline key_call].
      rewrite <- !app_assoc. reflexivity.
    + intro Hc. apply Hcalm.
      assert (C1 : calm (add_log (Holding ks ms) w))
        by (apply (calm_same w); [reflexivity..|exact Hc]).
      unfold w1, pressKeyDown. destruct (_ =? 0);
        apply (calm_same (add_log (Holding ks ms) w));
        try reflexivity; exact C1.
    + intro Hlt. specialize (Hstop Hlt).
      unfold usleep, pressKeyUp. destruct (_ =? 0); exact Hstop.
  - intros onF2 onF1 ms w Hon Hw Hms. unfold delay_nd.
    assert (Hu : timeline (Log onF2) = None /\ timeline (Log onF1) = None).
    { destruct Hon as [E|E]; inversion E; subst; split; reflexivity. }
    destruct Hu as [Hu2 Hu1].
    destruct (wait_loop_nd_slices onF2 onF1 Hu2 Hu1 (Z.to_nat ms) ms
                (nodelay true w)) as (k & Hk & Ht & Hcalm & Hstop);
      [lia|exact Hw|exact Hms|].
    exists k. split; [exact Hk|]. split; [|split].
    + unfold nodelay at 1. rewrite observe_emit, Ht.
      unfold nodelay. rewrite observe_emit. cbn. rewrite !app_nil_r.
      reflexivity.
    + intro Hc. apply Hcalm. apply (calm_same w); [reflexivity..|exact Hc].
    + intro Hlt. exact (Hstop Hlt).
Qed.
(** ** A hold token and its time *)



(** * Further properties of the runs *)


(** X10: a wait lasts the time asked for, rounded up to slices of 50 ms,
    unless F2 cuts it short.  A hold of [ms] milliseconds, begun in nodelay
    mode as the interpreter begins it, presses the key, sleeps [k] slices of
    50 ms, releases the key and sleeps 30 ms; a delay sleeps [k] slices.
    [k] is at least 1 and at most [ms / 50] rounded up; it is that number
    when no stop is requested, so the key is then down for at least [ms] and
    less than [ms + 50] milliseconds; and a wait of fewer slices has set the
    stop flag. *)
Theorem wait_lasts_its_time :
  (forall ks ms w,
      nodelay_on w = true -> g_stopRequested w = false -> 0 < ms ->
      exists k w',
        hold_key ks ms w = Returns w' /\
        (1 <= k <= slices ms)%nat /\
        observe timeline (effects w') =
        observe timeline (effects w) ++
        inl (key_of ks, true) :: repeat (inr 50000) k ++
        [inl (key_of ks, false); inr 30000] /\
        (calm w -> k = slices ms) /\
        ((k < slices ms)%nat -> g_stopRequested w' = true)) /\
  (forall onF2 onF1 ms w,
      (onF2, onF1) = (F2Before, F1Before) \/
      (onF2, onF1) = (F2Between, F1Between) ->
      g_stopRequested w = false -> 0 < ms ->
      exists k w',
        delay onF2 onF1 ms w = Returns w' /\
        (1 <= k <= slices ms)%nat /\
        observe timeline (effects w') =
        observe timeline (effects w) ++ repeat (inr 50000) k /\
        (calm w -> k = slices ms) /\
        ((k < slices ms)%nat -> g_stopRequested w' = true)) /\
  (forall ms, 0 < ms -> ms <= 50 * Z.of_nat (slices ms) < ms + 50).
Proof.
  destruct wait_nd_lasts as (Hhold & Hdelay & Hbounds).
  split; [|split; [|exact Hbounds]].
  - intros ks ms w M Hw Hms.
    destruct (Hhold ks ms w Hw Hms) as (k & Hk & Ht & Hcalm & Hstop).
    exists k, (hold_key_nd ks ms w).
    split; [apply hold_key_on, M|]. auto.
  - intros onF2 onF1 ms w Hon Hw Hms.
    destruct (Hdelay onF2 onF1 ms w Hon Hw Hms) as (k & Hk & Ht & Hcalm & Hstop).
    exists k, (delay_nd onF2 onF1 ms w).
    split; [apply delay_returns|]. auto.
Qed.

(** X11: no key stays down.  Over a whole run that returns, stopped or not,
    and through every expansion, the calls of [pressKeyDown] and
    [pressKeyUp] come in pairs: a key goes down, the same key comes up, and
    only then is another key touched.  A fake key event is never sent for
    key code 0. *)
Theorem every_key_pressed_is_released depth text loops sd ld w w' :
  simulate_typing depth text loops sd ld w = Returns w' ->
  exists d kss,
    effects w' = effects w ++ d /\
    observe key_call d = strokes kss /\
    (forall kc b, In (FakeKey kc b) d ->
       kc <> 0 /\ exists ks, kc = XKeysymToKeycode ks).
Proof.
  intro H. apply simulate_typing_returns in H.
  destruct (simulate_typing_nd_paired depth text loops sd ld w w' H)
    as (d & kss & E & Hk & Hcode).
  exists d, kss. split; [exact E|]. split; [exact Hk|exact Hcode].
Qed.

(** X12: F2 ends a run at once.  A run ends with the stop flag set exactly
    when it has logged one of the four F2 lines; and after the first of them
    it presses no key, types no character, starts no iteration and waits no
    more: what follows are the other keys read by the same poll, the release
    of the key that was being held with its 30 ms, the return to blocking
    input, and the closing lines of the run. *)
Theorem stop_request_ends_run_at_once depth text loops sd ld w w' :
  simulate_typing depth text loops sd ld w = Returns w' ->
  exists d,
    effects w' = effects w ++ d /\
    (g_stopRequested w' = false ->
     Forall (fun e => stop_line e = false) d) /\
    (g_stopRequested w' = true ->
     exists a e b,
       d = a ++ e :: b /\ Forall (fun e => stop_line e = false) a /\
       stop_line e = true /\ Forall (fun e => winding_down e = true) b).
Proof.
  intro H. apply simulate_typing_returns in H.
  destruct (simulate_typing_nd_prompt depth text loops sd ld w w' H)
    as (d & E & Hclear & Hset).
  exists d. split; [exact E|]. split; [exact Hclear|exact Hset].
Qed.

(** ** C strings in arrays *)

Lemma cstring_length : forall buf s,
  cstring buf = Some s -> (String.length s < List.length buf)%nat.
Proof.
  induction buf as [|c t IH]; intros s H; cbn in H; [discriminate|].
  destruct (Ascii.eqb c zero); [inversion H; subst; cbn; lia|].
  destruct (cstring t) as [s'|] eqn:E; [|discriminate].
  inversion H; subst. specialize (IH s' eq_refl). cbn. lia.
Qed.

Lemma store_cons {A} i (c x : A) t :
  store (S i) c (x :: t) =
  match store i c t with Some t' => Some (x :: t') | None => None end.
Proof. reflexivity. Qed.

(** Writing a character and a NUL behind the string appends the
    character. *)
Lemma cstring_put c : forall buf s,
  cstring buf = Some s -> c <> zero ->
  (S (String.length s) < List.length buf)%nat ->
  exists b1 b2,
    store (String.length s) c buf = Some b1 /\
    store (S (String.length s)) zero b1 = Some b2 /\
    cstring b2 = Some (s ++ String c EmptyString)%string /\
    List.length b2 = List.length buf.
Proof.
  induction buf as [|x t IH]; intros s H Hc Hl; cbn in H; [discriminate|].
  destruct (Ascii.eqb x zero) eqn:Ex.
  - inversion H; subst s. cbn [String.length store].
    destruct t as [|y t]; [cbn in Hl; lia|].
    exists (c :: y :: t), (c :: zero :: t).
    split; [reflexivity|]. split; [reflexivity|]. split; [|reflexivity].
    cbn. apply Ascii.eqb_neq in Hc. rewrite Hc. reflexivity.
  - destruct (cstring t) as [s'|] eqn:E; [|discriminate].
    inversion H; subst s. cbn [String.length] in *.
    destruct (IH s' eq_refl Hc) as (b1 & b2 & H1 & H2 & H3 & H4);
      [cbn in Hl; lia|].
    exists (x :: b1), (x :: b2).
    split; [rewrite store_cons, H1; reflexivity|].
    split; [rewrite store_cons, H2; reflexivity|]. split.
    + cbn. rewrite Ex, H3. reflexivity.
    + cbn. rewrite H4. reflexivity.
Qed.

(** Writing a NUL into the string cuts it there. *)
Lemma cstring_cut p : forall buf s,
  cstring buf = Some s -> (p <= String.length s)%nat ->
  exists b,
    store p zero buf = Some b /\ cstring b = Some (take p s) /\
    List.length b = List.length buf.
Proof.
  induction p as [|p IH]; intros buf s H Hp.
  - destruct buf as [|x t]; [discriminate|].
    exists (zero :: t). split; [reflexivity|]. split; [|reflexivity].
    destruct s; reflexivity.
  - destruct buf as [|x t]; [discriminate|]. cbn in H.
    destruct (Ascii.eqb x zero) eqn:Ex; [inversion H; subst; cbn in Hp; lia|].
    destruct (cstring t) as [s'|] eqn:E; [|discriminate].
    inversion H; subst s. cbn [String.length] in Hp.
    destruct (IH t s' E) as (b & H1 & H2 & H3); [lia|].
    exists (x :: b). rewrite store_cons, H1. split; [reflexivity|].
    split; [cbn; rewrite Ex, H2; reflexivity|cbn; rewrite H3; reflexivity].
Qed.

Lemma strcpy_cstring : forall src dst,
  no_nul src = true -> (String.length src < List.length dst)%nat ->
  exists b, strcpy src dst = Some b /\ cstring b = Some src /\
            List.length b = List.length dst.
Proof.
  induction src as [|c s IH]; intros dst Hn Hl.
  - destruct dst as [|x t]; [cbn in Hl; lia|].
    exists (zero :: t). repeat split; reflexivity.
  - destruct dst as [|x t]; [cbn in Hl; lia|].
    cbn in Hn. apply andb_prop in Hn. destruct Hn as [Hc Hn].
    destruct (IH t Hn) as (b & H1 & H2 & H3); [cbn in Hl; lia|].
    exists (c :: b). cbn [strcpy]. rewrite H1. split; [reflexivity|].
    apply negb_true_iff in Hc.
    split; [cbn; rewrite Hc, H2; reflexivity|cbn; rewrite H3; reflexivity].
Qed.

Lemma char_of_key_printable ch :
  32 <= ch <= 126 ->
  char_of_key ch <> zero /\ printable (char_of_key ch) = true /\
  Z.of_nat (nat_of_ascii (char_of_key ch)) = ch.
Proof.
  intro H. unfold char_of_key, printable.
  assert (E : nat_of_ascii (ascii_of_nat (Z.to_nat ch)) = Z.to_nat ch)
    by (apply nat_ascii_embedding; lia).
  rewrite E. split; [|split].
  - intro Hz. apply (f_equal nat_of_ascii) in Hz. rewrite E in Hz.
    cbn in Hz. lia.
  - apply andb_true_intro. split; apply Nat.leb_le; lia.
  - lia.
Qed.

Lemma char_of_key_digit ch :
  is_digit_key ch = true -> is_digit (char_of_key ch) = true.
Proof.
  unfold is_digit_key, is_digit, char_of_key. intro H.
  apply andb_prop in H. destruct H as [H1 H2].
  apply Z.leb_le in H1. apply Z.leb_le in H2.
  rewrite nat_ascii_embedding by lia.
  apply andb_true_intro. split; apply Nat.leb_le; lia.
Qed.

Lemma put_char_holds buf size pos s ch :
  holds buf size pos s -> (S (String.length s) < size)%nat ->
  32 <= ch <= 126 ->
  exists buf',
    put_char buf pos ch = Some (buf', pos + 1) /\
    holds buf' size (pos + 1) (s ++ String (char_of_key ch) EmptyString).
Proof.
  intros (Hl & Hc & Hp & Hs) Hroom Hch.
  destruct (char_of_key_printable ch Hch) as (Hz & _).
  destruct (cstring_put (char_of_key ch) buf s Hc Hz)
    as (b1 & b2 & H1 & H2 & H3 & H4); [lia|].
  exists b2. unfold put_char, store_at. fold (char_of_key ch).
  destruct (Z.ltb_spec pos 0); [lia|].
  destruct (Z.ltb_spec (pos + 1) 0); [lia|].
  replace (Z.to_nat pos) with (String.length s) by lia. rewrite H1.
  replace (Z.to_nat (pos + 1)) with (S (String.length s)) by lia. rewrite H2.
  split; [reflexivity|].
  split; [lia|]. split; [exact H3|]. rewrite append_length. cbn.
  split; lia.
Qed.

Lemma chop_length s : String.length (chop s) = Nat.pred (String.length s).
Proof. unfold chop. rewrite take_length_min. lia. Qed.

Lemma del_char_holds buf size pos s :
  holds buf size pos s -> 0 < pos ->
  exists buf',
    del_char buf pos = Some (buf', pos - 1) /\
    holds buf' size (pos - 1) (chop s).
Proof.
  intros (Hl & Hc & Hp & Hs) Hpos.
  destruct (cstring_cut (Nat.pred (String.length s)) buf s Hc)
    as (b & H1 & H2 & H3); [lia|].
  exists b. unfold del_char, store_at.
  destruct (Z.ltb_spec (pos - 1) 0); [lia|].
  replace (Z.to_nat (pos - 1)) with (Nat.pred (String.length s)) by lia.
  rewrite H1. split; [reflexivity|].
  split; [lia|]. split; [exact H2|]. rewrite chop_length. split; lia.
Qed.

Lemma all_digits_append a : forall b,
  all_digits (a ++ b) = all_digits a && all_digits b.
Proof.
  induction a as [|c a IH]; intro b; cbn; [reflexivity|].
  rewrite IH, andb_assoc. reflexivity.
Qed.

Lemma all_digits_take n : forall s,
  all_digits s = true -> all_digits (take n s) = true.
Proof.
  induction n as [|n IH]; intros [|c s] H; cbn in *; try reflexivity.
  apply andb_prop in H. destruct H as [Hc Hs].
  rewrite Hc, IH by exact Hs. reflexivity.
Qed.

Lemma chop_append s c : chop (s ++ String c EmptyString) = s.
Proof.
  unfold chop. rewrite append_length. cbn [String.length].
  replace (Nat.pred (String.length s + 1)) with (String.length s) by lia.
  apply take_append.
Qed.

(** A key that is no [ERR] is the key a blocking [getch()] returns. *)
Lemma getch_key ch keys : ch <> ERR -> getch false (ch :: keys) = Some (ch, keys).
Proof.
  intro H. cbn [getch]. apply Z.eqb_neq in H. rewrite H. reflexivity.
Qed.
(** ** The fields as strings *)

Lemma holds_pos buf size pos s :
  holds buf size pos s -> pos = Z.of_nat (String.length s).
Proof. intros (_ & _ & H & _). exact H. Qed.

Ltac field_cases f Hf :=
  let E := fresh "E" in
  assert (E : field f = 0 \/ field f = 1 \/ field f = 2 \/ field f = 3)
    by lia;
  destruct E as [E|[E|[E|E]]]; rewrite E; cbn [Z.eqb andb Pos.eqb].

Ltac pos_test H :=
  pose proof (holds_pos _ _ _ _ H);
  repeat match goal with
  | |- context [(?n <? ?m)%nat] => destruct (Nat.ltb_spec n m); try lia
  | |- context [?a <? ?b] => destruct (Z.ltb_spec a b); try lia
  end.

(** A printable key appends its character to the active field when the
    field has room and, for a numeric field, when it is a digit; it
    changes nothing otherwise. *)
Lemma insert_reads f script sd ld n ch :
  reads f script sd ld n -> 32 <= ch <= 126 -> 0 <= field f < 4 ->
  let c := String (char_of_key ch) EmptyString in
  exists f',
    insert ch f = Some f' /\ field f' = field f /\
    reads f'
      (if (field f =? 0) && (String.length script <? 255)%nat
       then script ++ c else script)
      (if (field f =? 1) && (String.length sd <? 15)%nat && is_digit_key ch
       then sd ++ c else sd)
      (if (field f =? 2) && (String.length ld <? 15)%nat && is_digit_key ch
       then ld ++ c else ld)
      (if (field f =? 3) && (String.length n <? 15)%nat && is_digit_key ch
       then n ++ c else n).
Proof.
  intros (Ht & Hsd & Hld & Hn) Hch Hf c. unfold insert.
  field_cases f Hf.
  - pos_test Ht.
    + destruct (put_char_holds _ _ _ _ ch Ht) as (buf' & -> & Hh); [lia|exact Hch|].
      eexists. split; [reflexivity|]. split; [first [reflexivity|exact E]|].
      repeat split; try apply Hh; try apply Hsd; try apply Hld; try apply Hn.
    + eexists. split; [reflexivity|]. split; [first [reflexivity|exact E]|].
      repeat split; try apply Ht; try apply Hsd; try apply Hld; try apply Hn.
  - destruct (is_digit_key ch); rewrite ?andb_true_r, ?andb_false_r;
      pos_test Hsd.
    + destruct (put_char_holds _ _ _ _ ch Hsd) as (buf' & -> & Hh); [lia|exact Hch|].
      eexists. split; [reflexivity|]. split; [first [reflexivity|exact E]|].
      repeat split; try apply Hh; try apply Ht; try apply Hld; try apply Hn.
    + eexists. split; [reflexivity|]. split; [first [reflexivity|exact E]|].
      repeat split; try apply Ht; try apply Hsd; try apply Hld; try apply Hn.
    + eexists. split; [reflexivity|]. split; [first [reflexivity|exact E]|].
      repeat split; try apply Ht; try apply Hsd; try apply Hld; try apply Hn.
  - destruct (is_digit_key ch); rewrite ?andb_true_r, ?andb_false_r;
      pos_test Hld.
    + destruct (put_char_holds _ _ _ _ ch Hld) as (buf' & -> & Hh); [lia|exact Hch|].
      eexists. split; [reflexivity|]. split; [first [reflexivity|exact E]|].
      repeat split; try apply Hh; try apply Ht; try apply Hsd; try apply Hn.
    + eexists. split; [reflexivity|]. split; [first [reflexivity|exact E]|].
      repeat split; try apply Ht; try apply Hsd; try apply Hld; try apply Hn.
    + eexists. split; [reflexivity|]. split; [first [reflexivity|exact E]|].
      repeat split; try apply Ht; try apply Hsd; try apply Hld; try apply Hn.
  - destruct (is_digit_key ch); rewrite ?andb_true_r, ?andb_false_r;
      pos_test Hn.
    + destruct (put_char_holds _ _ _ _ ch Hn) as (buf' & -> & Hh); [lia|exact Hch|].
      eexists. split; [reflexivity|]. split; [first [reflexivity|exact E]|].
      repeat split; try apply Hh; try apply Ht; try apply Hsd; try apply Hld.
    + eexists. split; [reflexivity|]. split; [first [reflexivity|exact E]|].
      repeat split; try apply Ht; try apply Hsd; try apply Hld; try apply Hn.
    + eexists. split; [reflexivity|]. split; [first [reflexivity|exact E]|].
      repeat split; try apply Ht; try apply Hsd; try apply Hld; try apply Hn.
Qed.

(** Backspace takes the last character off the active field, if it has
    one. *)
Lemma backspace_reads f script sd ld n :
  reads f script sd ld n -> 0 <= field f < 4 ->
  exists f',
    backspace f = Some f' /\ field f' = field f /\
    reads f'
      (if field f =? 0 then chop script else script)
      (if field f =? 1 then chop sd else sd)
      (if field f =? 2 then chop ld else ld)
      (if field f =? 3 then chop n else n).
Proof.
  intros (Ht & Hsd & Hld & Hn) Hf. unfold backspace.
  assert (Hempty : forall buf size pos s,
             holds buf size pos s -> pos <= 0 -> chop s = s).
  { intros buf size pos s (_ & _ & Hp & _) H0.
    destruct s; [reflexivity|cbn in Hp; lia]. }
  field_cases f Hf.
  - destruct (Z.ltb_spec 0 (text_pos f)) as [Hp|Hp].
    + destruct (del_char_holds _ _ _ _ Ht Hp) as (buf' & -> & Hh).
      eexists. split; [reflexivity|]. split; [reflexivity|].
      repeat split; try apply Hh; try apply Hsd; try apply Hld; try apply Hn.
    + eexists. split; [reflexivity|]. split; [exact E|].
      rewrite (Hempty _ _ _ _ Ht Hp). repeat split; try apply Ht; try apply Hsd; try apply Hld; try apply Hn.
  - destruct (Z.ltb_spec 0 (startDelay_pos f)) as [Hp|Hp].
    + destruct (del_char_holds _ _ _ _ Hsd Hp) as (buf' & -> & Hh).
      eexists. split; [reflexivity|]. split; [reflexivity|].
      repeat split; try apply Hh; try apply Ht; try apply Hld; try apply Hn.
    + eexists. split; [reflexivity|]. split; [exact E|].
      rewrite (Hempty _ _ _ _ Hsd Hp). repeat split; try apply Ht; try apply Hsd; try apply Hld; try apply Hn.
  - destruct (Z.ltb_spec 0 (loopDelay_pos f)) as [Hp|Hp].
    + destruct (del_char_holds _ _ _ _ Hld Hp) as (buf' & -> & Hh).
      eexists. split; [reflexivity|]. split; [reflexivity|].
      repeat split; try apply Hh; try apply Ht; try apply Hsd; try apply Hn.
    + eexists. split; [reflexivity|]. split; [exact E|].
      rewrite (Hempty _ _ _ _ Hld Hp). repeat split; try apply Ht; try apply Hsd; try apply Hld; try apply Hn.
  - destruct (Z.ltb_spec 0 (loops_pos f)) as [Hp|Hp].
    + destruct (del_char_holds _ _ _ _ Hn Hp) as (buf' & -> & Hh).
      eexists. split; [reflexivity|]. split; [reflexivity|].
      repeat split; try apply Hh; try apply Ht; try apply Hsd; try apply Hld.
    + eexists. split; [reflexivity|]. split; [exact E|].
      rewrite (Hempty _ _ _ _ Hn Hp). repeat split; try apply Ht; try apply Hsd; try apply Hld; try apply Hn.
Qed.

Lemma literal_holds lit buf size pos s :
  holds buf size pos s -> no_nul lit = true -> (String.length lit < size)%nat ->
  exists buf',
    strcpy lit buf = Some buf' /\
    holds buf' size (Z.of_nat (String.length lit)) lit.
Proof.
  intros (Hl & _) Hn Hlen.
  destruct (strcpy_cstring lit buf Hn) as (b & H1 & H2 & H3); [lia|].
  exists b. split; [exact H1|]. split; [lia|]. split; [exact H2|].
  split; [reflexivity|exact Hlen].
Qed.

(** F1 puts the defaults into the four fields, whatever they held. *)
Lemma resetAllFields_reads a script sd ld n :
  reads (form a) script sd ld n ->
  exists f',
    resetAllFields a = Goes (log_ui FieldsReset (with_form f' a)) /\
    field f' = field (form a) /\
    reads f' EmptyString "3000" "2000" "1".
Proof.
  intros (Ht & Hsd & Hld & Hn). unfold resetAllFields.
  destruct Ht as (Hl & Hc & _ & _).
  destruct (cstring_cut 0 (text_str (form a)) script Hc) as (t & H1 & H2 & H3);
    [lia|].
  unfold store_at. cbn [Z.ltb Z.compare Z.to_nat]. rewrite H1.
  destruct (literal_holds "3000" _ _ _ _ Hsd eq_refl) as (b1 & -> & Hb1);
    [cbn; lia|].
  destruct (literal_holds "2000" _ _ _ _ Hld eq_refl) as (b2 & -> & Hb2);
    [cbn; lia|].
  destruct (literal_holds "1" _ _ _ _ Hn eq_refl) as (b3 & -> & Hb3);
    [cbn; lia|].
  eexists. split; [reflexivity|]. split; [reflexivity|].
  split; [|repeat split; try apply Hb1; try apply Hb2; try apply Hb3].
  unfold holds. cbn [text_str text_pos].
  split; [lia|]. split; [rewrite H2; destruct script; reflexivity|].
  split; [reflexivity|cbn; lia].
Qed.

(** Counting the key changes nothing but the counters and the log. *)
Lemma count_key_goes ch a :
  0 <= s_repeatCount a < INT_MAX ->
  exists a1,
    count_key ch a = Goes a1 /\ form a1 = form a /\ stop a1 = stop a /\
    input a1 = input a /\ 1 <= s_repeatCount a1 <= s_repeatCount a + 1 /\
    core_events (trace a1) = core_events (trace a).
Proof.
  intro H. unfold count_key.
  destruct (ch =? s_lastKey a).
  - destruct (Z.eqb_spec (s_repeatCount a) INT_MAX); [lia|].
    eexists. split; [reflexivity|]. cbn. repeat split; lia.
  - eexists. split; [reflexivity|]. unfold flush_key_log.
    destruct ((0 <=? s_lastKey a) && (0 <? s_repeatCount a)); cbn;
      repeat split; try lia.
    unfold core_events. rewrite flat_map_app. cbn. apply app_nil_r.
Qed.
(** ** The main loop keeps the fields in order *)

Lemma reads_cstrings f script sd ld n :
  reads f script sd ld n ->
  cstring (text_str f) = Some script /\ cstring (startDelay_str f) = Some sd /\
  cstring (loopDelay_str f) = Some ld /\ cstring (loops_str f) = Some n.
Proof.
  intros ((_ & H1 & _) & (_ & H2 & _) & (_ & H3 & _) & (_ & H4 & _)).
  auto.
Qed.

Lemma chop_digits s : all_digits s = true -> all_digits (chop s) = true.
Proof. apply all_digits_take. Qed.

Lemma put_digits (cond : bool) s ch :
  all_digits s = true ->
  all_digits (if cond && is_digit_key ch
              then s ++ String (char_of_key ch) EmptyString else s) = true.
Proof.
  intro H. destruct cond; cbn [andb]; [|exact H].
  destruct (is_digit_key ch) eqn:E; [|exact H].
  rewrite all_digits_append, H. cbn. rewrite (char_of_key_digit ch E).
  reflexivity.
Qed.

Lemma handle_key_ok depth ch a :
  form_ok (form a) ->
  handle_key depth ch a <> Undefined /\
  forall a', handle_key depth ch a = Goes a' ->
    form_ok (form a') /\ s_repeatCount a' = s_repeatCount a.
Proof.
  intros (script & sd & ld & n & Hr & Hsd & Hld & Hn & Hf).
  unfold handle_key.
  destruct (ch =? KEY_F 1).
  { destruct (resetAllFields_reads a script sd ld n Hr) as (f' & -> & Ef & Hr').
    split; [discriminate|]. intros a' E. inversion E; subst a'. cbn.
    split; [|reflexivity].
    exists EmptyString, "3000"%string, "2000"%string, "1"%string.
    rewrite Ef. repeat split; try apply Hr'; try reflexivity; lia. }
  destruct (ch =? KEY_F 2).
  { split; [discriminate|]. intros a' E. inversion E; subst a'. cbn.
    split; [|reflexivity]. exists script, sd, ld, n. auto. }
  destruct (ch =? 9).
  { cbv zeta. replace (field (form a) =? INT_MAX) with false
      by (symmetry; apply Z.eqb_neq; unfold INT_MAX; lia).
    split; [discriminate|]. intros a' E. inversion E; subst a'. cbn.
    split; [|reflexivity]. exists script, sd, ld, n.
    split; [exact Hr|]. repeat (split; [assumption|]).
    rewrite Z.rem_mod_nonneg by lia. apply Z.mod_pos_bound. lia. }
  destruct (ch =? 10).
  { unfold enter.
    destruct (reads_cstrings _ _ _ _ _ Hr) as (-> & -> & -> & ->).
    destruct (simulate_typing _ _ _ _ _ _);
      [|split; [discriminate|discriminate]|split; [discriminate|discriminate]].
    split; [discriminate|]. intros a' E. inversion E; subst a'. cbn.
    split; [|reflexivity]. exists script, sd, ld, n. auto. }
  destruct ((ch =? KEY_BACKSPACE) || (ch =? 127)).
  { destruct (backspace_reads _ _ _ _ _ Hr Hf) as (f' & -> & Ef & Hr').
    split; [discriminate|]. intros a' E. inversion E; subst a'. cbn.
    split; [|reflexivity]. eexists _, _, _, _. split; [exact Hr'|].
    rewrite Ef.
    repeat split; try lia;
      match goal with |- all_digits (if ?c then _ else _) = true =>
        destruct c; try assumption; apply chop_digits; assumption end. }
  destruct ((32 <=? ch) && (ch <=? 126)) eqn:Hp.
  { apply andb_prop in Hp. destruct Hp as [H1 H2].
    apply Z.leb_le in H1. apply Z.leb_le in H2.
    destruct (insert_reads _ _ _ _ _ ch Hr (conj H1 H2) Hf)
      as (f' & -> & Ef & Hr').
    split; [discriminate|]. intros a' E. inversion E; subst a'. cbn.
    split; [|reflexivity]. eexists _, _, _, _. split; [exact Hr'|].
    rewrite Ef. repeat split; try lia; apply put_digits; assumption. }
  split; [discriminate|]. intros a' E. inversion E; subst a'.
  split; [|reflexivity]. exists script, sd, ld, n. auto.
Qed.

Lemma main_turn_ok depth ch a :
  ui_ok a -> s_repeatCount a < INT_MAX ->
  main_turn depth ch a <> Undefined /\
  forall a', main_turn depth ch a = Goes a' ->
    ui_ok a' /\ s_repeatCount a' <= s_repeatCount a + 1.
Proof.
  intros [Hf Hc] Hlt. unfold main_turn.
  destruct (count_key_goes ch a) as (a1 & -> & Ef & _ & _ & Hc1 & _); [lia|].
  rewrite <- Ef in Hf.
  destruct (handle_key_ok depth ch a1 Hf) as [Hu Hg].
  split; [exact Hu|]. intros a' E. destruct (Hg a' E) as [Hf' Hc'].
  split; [split; [exact Hf'|lia]|lia].
Qed.

Lemma started_ok info keys : ui_ok (started info keys).
Proof.
  split; [|cbn; lia].
  exists EmptyString, "3000"%string, "2000"%string, "1"%string.
  split; [|repeat split; cbn; lia].
  repeat split; cbn; lia.
Qed.

(** X13: the main loop never leaves its arrays.  From a state in which the
    four fields hold C strings within their arrays, with the positions at the
    ends of the strings and only digits in the numeric fields, as [main] sets
    them up, no sequence of keys makes a turn of the loop write or read
    outside an array, and the state after it is of the same kind: the text
    holds at most 255 characters, the numeric fields at most 15 digits,
    [field] stays within 0..3.  The counter of repeated keys, an [int], does
    not overflow within the first 2^31 - 1 turns. *)
Theorem fields_stay_within_arrays depth turns a :
  ui_ok a -> s_repeatCount a + Z.of_nat turns <= INT_MAX ->
  main_loop depth turns a <> Undefined /\
  forall a', main_loop depth turns a = Goes a' -> ui_ok a'.
Proof.
  revert a. induction turns as [|turns IH]; intros a Hok Hb;
    cbn [main_loop].
  - split; [discriminate|]. intros a' E. inversion E; subst. exact Hok.
  - destruct (getch false (input a)) as [[ch keys]|] eqn:Ei.
    + set (a0 := mkUi (form a) (s_lastKey a) (s_repeatCount a) (stop a)
                   (trace a) keys).
      assert (Hok0 : ui_ok a0) by exact Hok.
      destruct (main_turn_ok depth ch a0 Hok0) as [Hu Hg]; [cbn; lia|].
      destruct (main_turn depth ch a0) as [a1| |a1|] eqn:Et;
        [|congruence|split; [discriminate|discriminate]
         |split; [discriminate|discriminate]].
      destruct (Hg a1 eq_refl) as [Hok1 Hc1]. cbn in Hc1.
      apply IH; [exact Hok1|lia].
    + split; [discriminate|]. intros a' E. inversion E; subst. exact Hok.
Qed.
(** ** Keys, one at a time *)

Lemma main_turn_printable depth ch a script sd ld n :
  reads (form a) script sd ld n -> 0 <= field (form a) < 4 ->
  32 <= ch <= 126 -> 0 <= s_repeatCount a < INT_MAX ->
  let c := String (char_of_key ch) EmptyString in
  exists a',
    main_turn depth ch a = Goes a' /\
    field (form a') = field (form a) /\
    reads (form a')
      (if (field (form a) =? 0) && (String.length script <? 255)%nat
       then script ++ c else script)
      (if (field (form a) =? 1) && (String.length sd <? 15)%nat
          && is_digit_key ch
       then sd ++ c else sd)
      (if (field (form a) =? 2) && (String.length ld <? 15)%nat
          && is_digit_key ch
       then ld ++ c else ld)
      (if (field (form a) =? 3) && (String.length n <? 15)%nat
          && is_digit_key ch
       then n ++ c else n) /\
    stop a' = stop a /\ input a' = input a /\
    1 <= s_repeatCount a' <= s_repeatCount a + 1 /\
    core_events (trace a') = core_events (trace a).
Proof.
  intros Hr Hf Hch Hc c. unfold main_turn.
  destruct (count_key_goes ch a Hc) as (a1 & -> & Ef & Es & Ei & Hc1 & Ht).
  rewrite <- Ef in Hr, Hf.
  destruct (insert_reads _ _ _ _ _ ch Hr Hch Hf) as (f' & Hi & Ef' & Hr').
  unfold handle_key, KEY_F, KEY_BACKSPACE.
  destruct (Z.eqb_spec ch (264 + 1)); [lia|].
  destruct (Z.eqb_spec ch (264 + 2)); [lia|].
  destruct (Z.eqb_spec ch 9); [lia|].
  destruct (Z.eqb_spec ch 10); [lia|].
  destruct (Z.eqb_spec ch 263); [lia|].
  destruct (Z.eqb_spec ch 127); [lia|]. cbn [orb].
  destruct (Z.leb_spec 32 ch); [|lia].
  destruct (Z.leb_spec ch 126); [|lia]. cbn [andb].
  rewrite Hi. eexists. split; [reflexivity|]. cbn.
  rewrite <- Ef. split; [exact Ef'|]. split; [exact Hr'|].
  split; [exact Es|]. split; [exact Ei|]. split; [exact Hc1|exact Ht].
Qed.

Lemma main_turn_backspace depth bs a script sd ld n :
  reads (form a) script sd ld n -> 0 <= field (form a) < 4 ->
  bs = KEY_BACKSPACE \/ bs = 127 -> 0 <= s_repeatCount a < INT_MAX ->
  exists a',
    main_turn depth bs a = Goes a' /\
    field (form a') = field (form a) /\
    reads (form a')
      (if field (form a) =? 0 then chop script else script)
      (if field (form a) =? 1 then chop sd else sd)
      (if field (form a) =? 2 then chop ld else ld)
      (if field (form a) =? 3 then chop n else n) /\
    stop a' = stop a /\ input a' = input a /\
    1 <= s_repeatCount a' <= s_repeatCount a + 1.
Proof.
  intros Hr Hf Hbs Hc. unfold main_turn.
  destruct (count_key_goes bs a Hc) as (a1 & -> & Ef & Es & Ei & Hc1 & Ht).
  rewrite <- Ef in Hr, Hf.
  destruct (backspace_reads _ _ _ _ _ Hr Hf) as (f' & Hb & Ef' & Hr').
  unfold handle_key.
  replace (bs =? KEY_F 1) with false by (destruct Hbs; subst; reflexivity).
  replace (bs =? KEY_F 2) with false by (destruct Hbs; subst; reflexivity).
  replace (bs =? 9) with false by (destruct Hbs; subst; reflexivity).
  replace (bs =? 10) with false by (destruct Hbs; subst; reflexivity).
  replace ((bs =? KEY_BACKSPACE) || (bs =? 127)) with true
    by (destruct Hbs; subst; reflexivity).
  rewrite Hb. eexists. split; [reflexivity|]. cbn.
  rewrite <- Ef. split; [exact Ef'|]. split; [exact Hr'|].
  split; [exact Es|]. split; [exact Ei|exact Hc1].
Qed.

(** X15: Backspace undoes a key.  A printable key that the active field takes
    (the text has room for it; a numeric field has room and the key is a
    digit), followed by Backspace, leaves the four fields as they were. *)
Theorem backspace_undoes_a_key depth ch bs a script sd ld n :
  reads (form a) script sd ld n -> 0 <= field (form a) < 4 ->
  32 <= ch <= 126 -> bs = KEY_BACKSPACE \/ bs = 127 ->
  (field (form a) = 0 /\ (String.length script < 255)%nat) \/
  (field (form a) = 1 /\ (String.length sd < 15)%nat /\
   is_digit_key ch = true) \/
  (field (form a) = 2 /\ (String.length ld < 15)%nat /\
   is_digit_key ch = true) \/
  (field (form a) = 3 /\ (String.length n < 15)%nat /\
   is_digit_key ch = true) ->
  0 <= s_repeatCount a -> s_repeatCount a + 2 <= INT_MAX ->
  exists a1 a2,
    main_turn depth ch a = Goes a1 /\
    ~ reads (form a1) script sd ld n /\
    main_turn depth bs a1 = Goes a2 /\
    reads (form a2) script sd ld n /\
    field (form a2) = field (form a).
Proof.
  intros Hr Hf Hch Hbs Hacc Hc0 Hc.
  destruct (main_turn_printable depth ch a _ _ _ _ Hr Hf Hch)
    as (a1 & H1 & Ef1 & Hr1 & _ & _ & Hc1 & _); [lia|].
  assert (Hf1 : 0 <= field (form a1) < 4) by (rewrite Ef1; exact Hf).
  destruct (main_turn_backspace depth bs a1 _ _ _ _ Hr1 Hf1 Hbs)
    as (a2 & H2 & Ef2 & Hr2 & _); [lia|].
  exists a1, a2. split; [exact H1|].
  assert (Hne : forall buf size pos s c,
             holds buf size pos (s ++ String c EmptyString) ->
             ~ holds buf size pos s).
  { intros buf size pos s c (_ & _ & Hp & _) (_ & _ & Hp' & _).
    rewrite Hp, append_length in Hp'. cbn in Hp'. lia. }
  rewrite Ef1 in Hr2.
  destruct Hacc as [[E Hl]|[(E & Hl & Hd)|[(E & Hl & Hd)|(E & Hl & Hd)]]];
    rewrite E in Hr1, Hr2; rewrite ?Hd in Hr1, Hr2;
    apply Nat.ltb_lt in Hl; rewrite Hl in Hr1, Hr2;
    cbn [Z.eqb andb Pos.eqb] in Hr1, Hr2; rewrite chop_append in Hr2;
    (split; [|split; [exact H2|split; [exact Hr2|congruence]]]);
    intros (R1 & R2 & R3 & R4);
    destruct Hr1 as (Q1 & Q2 & Q3 & Q4).
  - exact (Hne _ _ _ _ _ Q1 R1).
  - exact (Hne _ _ _ _ _ Q2 R2).
  - exact (Hne _ _ _ _ _ Q3 R3).
  - exact (Hne _ _ _ _ _ Q4 R4).
Qed.

(** X18: F1 puts the defaults back.  Whatever the fields hold, F1 leaves an
    empty text, 3000, 2000 and 1, and logs it; the active field, a stop
    request and the keys to come stay as they are. *)
Theorem reset_restores_defaults depth a script sd ld n :
  reads (form a) script sd ld n -> 0 <= s_repeatCount a < INT_MAX ->
  exists a',
    main_turn depth (KEY_F 1) a = Goes a' /\
    reads (form a') EmptyString "3000" "2000" "1" /\
    field (form a') = field (form a) /\
    stop a' = stop a /\ input a' = input a /\
    exists before, trace a' = before ++ [Ui FieldsReset].
Proof.
  intros Hr Hc. unfold main_turn.
  destruct (count_key_goes (KEY_F 1) a Hc)
    as (a1 & -> & Ef & Es & Ei & Hc1 & Ht).
  rewrite <- Ef in Hr.
  destruct (resetAllFields_reads a1 _ _ _ _ Hr) as (f' & Hreset & Ef' & Hr').
  unfold handle_key. rewrite Z.eqb_refl, Hreset.
  eexists. split; [reflexivity|]. cbn.
  split; [exact Hr'|]. split; [congruence|]. split; [exact Es|].
  split; [exact Ei|]. exists (trace a1). reflexivity.
Qed.

(** X16: a key the active field does not take changes no field: any printable
    key when the text holds 255 characters, and in a numeric field a key that
    is no digit or any key when the field holds 15 digits. *)
Theorem refused_key_changes_no_field depth ch a script sd ld n :
  reads (form a) script sd ld n -> 0 <= field (form a) < 4 ->
  32 <= ch <= 126 ->
  (field (form a) = 0 /\ String.length script = 255%nat) \/
  (field (form a) = 1 /\
   (String.length sd = 15%nat \/ is_digit_key ch = false)) \/
  (field (form a) = 2 /\
   (String.length ld = 15%nat \/ is_digit_key ch = false)) \/
  (field (form a) = 3 /\
   (String.length n = 15%nat \/ is_digit_key ch = false)) ->
  0 <= s_repeatCount a < INT_MAX ->
  exists a',
    main_turn depth ch a = Goes a' /\
    reads (form a') script sd ld n /\
    field (form a') = field (form a) /\
    stop a' = stop a /\ input a' = input a.
Proof.
  intros Hr Hf Hch Hno Hc.
  destruct (main_turn_printable depth ch a _ _ _ _ Hr Hf Hch Hc)
    as (a' & H1 & Ef & Hr' & Es & Ei & _).
  exists a'. split; [exact H1|]. split; [|auto].
  destruct Hno as [[E Hl]|[[E Hl]|[[E Hl]|[E Hl]]]]; rewrite E in Hr';
    cbn [Z.eqb andb Pos.eqb] in Hr'.
  - rewrite Hl in Hr'. exact Hr'.
  - destruct Hl as [Hl|Hl]; rewrite Hl in Hr';
      rewrite ?andb_false_r in Hr'; exact Hr'.
  - destruct Hl as [Hl|Hl]; rewrite Hl in Hr';
      rewrite ?andb_false_r in Hr'; exact Hr'.
  - destruct Hl as [Hl|Hl]; rewrite Hl in Hr';
      rewrite ?andb_false_r in Hr'; exact Hr'.
Qed.

Lemma main_turn_tab depth a script sd ld n :
  reads (form a) script sd ld n -> 0 <= field (form a) < 4 ->
  0 <= s_repeatCount a < INT_MAX ->
  exists a',
    main_turn depth 9 a = Goes a' /\
    field (form a') = (field (form a) + 1) mod 4 /\
    reads (form a') script sd ld n /\
    stop a' = stop a /\ input a' = input a /\
    1 <= s_repeatCount a' <= s_repeatCount a + 1.
Proof.
  intros Hr Hf Hc. unfold main_turn.
  destruct (count_key_goes 9 a Hc) as (a1 & -> & Ef & Es & Ei & Hc1 & _).
  unfold handle_key.
  change (9 =? KEY_F 1) with false. change (9 =? KEY_F 2) with false.
  change (9 =? 9) with true. cbn iota. cbv zeta.
  replace (field (form a1) =? INT_MAX) with false
    by (symmetry; apply Z.eqb_neq; rewrite Ef; unfold INT_MAX; lia).
  eexists. split; [reflexivity|]. cbn. rewrite Ef.
  split; [apply Z.rem_mod_nonneg; lia|]. split; [exact Hr|].
  split; [exact Es|]. split; [exact Ei|exact Hc1].
Qed.

(** X17: Tab goes round the four fields.  Each Tab makes the next field the
    active one, and the first after the last, so [k] Tabs move the active
    field [k] places on, modulo 4, and four of them come back to where they
    started; what the fields hold is not touched. *)
Theorem tab_goes_round_the_fields depth : forall k a script sd ld n rest,
  reads (form a) script sd ld n -> 0 <= field (form a) < 4 ->
  0 <= s_repeatCount a -> s_repeatCount a + Z.of_nat k <= INT_MAX ->
  input a = repeat 9 k ++ rest ->
  exists a',
    main_loop depth k a = Goes a' /\
    field (form a') = (field (form a) + Z.of_nat k) mod 4 /\
    reads (form a') script sd ld n /\
    stop a' = stop a /\ input a' = rest.
Proof.
  induction k as [|k IH]; intros a script sd ld n rest Hr Hf Hc0 Hc Hi.
  - exists a. cbn [main_loop Z.of_nat]. split; [reflexivity|].
    rewrite Z.add_0_r, Z.mod_small by lia. auto.
  - cbn [main_loop repeat app] in *. rewrite Hi.
    rewrite getch_key by discriminate.
    set (a0 := mkUi (form a) (s_lastKey a) (s_repeatCount a) (stop a)
                 (trace a) (repeat 9 k ++ rest)).
    destruct (main_turn_tab depth a0 script sd ld n Hr Hf)
      as (a1 & -> & Ef1 & Hr1 & Es1 & Ei1 & Hc1); [cbn; lia|].
    cbn [a0 form s_repeatCount stop input] in Ef1, Es1, Ei1, Hc1.
    destruct (IH a1 script sd ld n rest Hr1) as (a' & Hl & Ef' & Hr' & Es' & Ei');
      [rewrite Ef1; apply Z.mod_pos_bound; lia|lia|lia|exact Ei1|].
    exists a'. split; [exact Hl|]. split.
    + rewrite Ef', Ef1, Zplus_mod_idemp_l. f_equal. lia.
    + split; [exact Hr'|]. split; [congruence|exact Ei'].
Qed.
(** ** Typing into the text field *)

Lemma printable_key c :
  printable c = true ->
  32 <= Z.of_nat (nat_of_ascii c) <= 126 /\
  char_of_key (Z.of_nat (nat_of_ascii c)) = c.
Proof.
  unfold printable, char_of_key. intro H.
  apply andb_prop in H. destruct H as [H1 H2].
  apply Nat.leb_le in H1. apply Nat.leb_le in H2.
  split; [lia|]. rewrite Nat2Z.id. apply ascii_nat_embedding.
Qed.

Lemma typed_prefix depth : forall cs a script sd ld n rest,
  reads (form a) script sd ld n -> field (form a) = 0 ->
  forallb printable (list_ascii_of_string cs) = true ->
  (String.length script + String.length cs <= 255)%nat ->
  0 <= s_repeatCount a ->
  s_repeatCount a + Z.of_nat (String.length cs) <= INT_MAX ->
  input a = keys_of cs ++ rest ->
  exists a',
    (forall k, main_loop depth (String.length cs + k) a =
               main_loop depth k a') /\
    reads (form a') (script ++ cs) sd ld n /\ field (form a') = 0 /\
    input a' = rest /\ stop a' = stop a /\
    core_events (trace a') = core_events (trace a) /\
    0 <= s_repeatCount a' <= s_repeatCount a + Z.of_nat (String.length cs).
Proof.
  induction cs as [|c cs IH]; intros a script sd ld n rest Hr Hf Hp Hl Hc0 Hc Hi.
  - exists a. rewrite append_empty_r. split; [intro k; reflexivity|].
    split; [exact Hr|]. split; [exact Hf|]. split; [exact Hi|].
    split; [reflexivity|]. split; [reflexivity|]. cbn. lia.
  - cbn [list_ascii_of_string forallb] in Hp.
    apply andb_prop in Hp. destruct Hp as [Hpc Hp].
    destruct (printable_key c Hpc) as [Hch Eq].
    cbn [String.length] in Hl, Hc.
    set (a0 := mkUi (form a) (s_lastKey a) (s_repeatCount a) (stop a)
                 (trace a) (keys_of cs ++ rest)).
    destruct (main_turn_printable depth (Z.of_nat (nat_of_ascii c)) a0
                script sd ld n Hr) as (a1 & H1 & Ef1 & Hr1 & Es1 & Ei1 & Hc1 & Ht1);
      [cbn; lia|exact Hch|cbn; lia|].
    cbn [a0 form] in Hr1, Ef1. rewrite Hf in Hr1, Ef1. rewrite Eq in Hr1.
    replace (String.length script <? 255)%nat with true in Hr1
      by (symmetry; apply Nat.ltb_lt; lia).
    cbn [Z.eqb andb] in Hr1.
    destruct (IH a1 _ sd ld n rest Hr1 Ef1 Hp) as
      (a' & Hloop & Hr' & Hf' & Hi' & Hs' & Ht' & Hc');
      [rewrite append_length; cbn; lia|lia|cbn in Hc1; lia|exact Ei1|].
    exists a'. split.
    + intro k. cbn [String.length Nat.add main_loop]. rewrite Hi.
      cbn [keys_of list_ascii_of_string map app]. fold (keys_of cs).
      rewrite getch_key by (unfold ERR; lia).
      fold a0. rewrite H1. apply Hloop.
    + rewrite append_assoc in Hr'. cbn [append] in Hr'.
      split; [exact Hr'|]. split; [exact Hf'|]. split; [exact Hi'|].
      split; [rewrite Hs'; exact Es1|]. split; [rewrite Ht'; exact Ht1|].
      cbn in Hc1. cbn [String.length]. lia.
Qed.

(** X14: what is typed is what the text field holds.  With the text field
    active, printable keys are appended to the text one by one as long as it
    holds fewer than 255 characters; nothing else changes, and nothing of what
    the array held behind the text comes back. *)
Theorem typed_keys_fill_the_text depth cs a script sd ld n rest :
  reads (form a) script sd ld n -> field (form a) = 0 ->
  forallb printable (list_ascii_of_string cs) = true ->
  (String.length script + String.length cs <= 255)%nat ->
  0 <= s_repeatCount a ->
  s_repeatCount a + Z.of_nat (String.length cs) <= INT_MAX ->
  input a = keys_of cs ++ rest ->
  exists a',
    main_loop depth (String.length cs) a = Goes a' /\
    reads (form a') (script ++ cs) sd ld n /\ field (form a') = 0 /\
    input a' = rest /\ stop a' = stop a /\
    core_events (trace a') = core_events (trace a).
Proof.
  intros Hr Hf Hp Hl Hc0 Hc Hi.
  destruct (typed_prefix depth cs a script sd ld n rest Hr Hf Hp Hl Hc0 Hc Hi)
    as (a' & Hloop & Hr' & Hf' & Hi' & Hs' & Ht' & _).
  exists a'. split.
  - specialize (Hloop O). rewrite Nat.add_0_r in Hloop. exact Hloop.
  - auto.
Qed.

(** ** Enter *)

Lemma simulate_typing_any_flag depth script loops sd ld f es keys :
  simulate_typing depth script loops sd ld (mkWorld f es keys) =
  simulate_typing depth script loops sd ld (mkWorld false es keys).
Proof. reflexivity. Qed.

Lemma decimal_nonneg s : 0 <= decimal s.
Proof. apply decimal_from_nonneg. lia. Qed.

Lemma enter_reads depth a script sd ld n :
  reads (form a) script sd ld n ->
  decimal sd <= INT_MAX -> decimal ld <= INT_MAX -> decimal n <= INT_MAX ->
  enter depth a =
  match simulate_typing depth script (Z.max 1 (decimal n)) (decimal sd)
          (decimal ld) (mkWorld false [] (input a)) with
  | Returns w =>
      Goes (mkUi (form a) (s_lastKey a) (s_repeatCount a) (g_stopRequested w)
              (trace a ++ map Core (effects w)) (pending w))
  | Waits w =>
      Waiting (mkUi (form a) (s_lastKey a) (s_repeatCount a)
                 (g_stopRequested w) (trace a ++ map Core (effects w))
                 (pending w))
  | TooDeep => Deeper
  end.
Proof.
  intros Hr Hsd Hld Hn. unfold enter.
  destruct (reads_cstrings _ _ _ _ _ Hr) as (-> & -> & -> & ->).
  rewrite !atoi_small by assumption.
  pose proof (decimal_nonneg sd). pose proof (decimal_nonneg ld).
  destruct (Z.ltb_spec (decimal sd) 0); [lia|].
  destruct (Z.ltb_spec (decimal ld) 0); [lia|].
  replace (if decimal n <? 1 then 1 else decimal n) with (Z.max 1 (decimal n))
    by (destruct (Z.ltb_spec (decimal n) 1); lia).
  rewrite simulate_typing_any_flag. reflexivity.
Qed.

(** X19: Enter runs what the fields hold.  The script is the text, the delays
    are the numbers in the two delay fields and the number of loops is the
    number in the last field, raised to 1 when that is 0 or the field is empty
    (numbers that fit an [int], which all of up to 9 digits do).  The fields
    are left as they are.  A stop request made before the run is forgotten:
    the run is the same whether F2 was pressed before Enter or not.  When
    the run returns the main loop goes on with the keys the run has left;
    when it waits for a key for ever, so does [main]. *)
Theorem enter_runs_the_fields depth a script sd ld n :
  reads (form a) script sd ld n ->
  all_digits sd = true -> all_digits ld = true -> all_digits n = true ->
  decimal sd <= INT_MAX -> decimal ld <= INT_MAX -> decimal n <= INT_MAX ->
  0 <= s_repeatCount a < INT_MAX ->
  exists a1,
    count_key 10 a = Goes a1 /\
    main_turn depth 10 a =
    match simulate_typing depth script (Z.max 1 (decimal n)) (decimal sd)
            (decimal ld) (mkWorld false [] (input a)) with
    | Returns w =>
        Goes (mkUi (form a) (s_lastKey a1) (s_repeatCount a1)
                (g_stopRequested w) (trace a1 ++ map Core (effects w))
                (pending w))
    | Waits w =>
        Waiting (mkUi (form a) (s_lastKey a1) (s_repeatCount a1)
                   (g_stopRequested w) (trace a1 ++ map Core (effects w))
                   (pending w))
    | TooDeep => Deeper
    end.
Proof.
  intros Hr _ _ _ Hsd Hld Hn Hc. unfold main_turn.
  destruct (count_key_goes 10 a Hc) as (a1 & E1 & Ef & Es & Ei & Hc1 & Ht).
  exists a1. split; [exact E1|]. rewrite E1.
  unfold handle_key.
  change (10 =? KEY_F 1) with false. change (10 =? KEY_F 2) with false.
  change (10 =? 9) with false. change (10 =? 10) with true. cbn iota.
  rewrite <- Ef in Hr.
  rewrite (enter_reads depth a1 script sd ld n Hr Hsd Hld Hn), Ef, Ei.
  reflexivity.
Qed.
(** ** From the keyboard to a run *)

Lemma core_events_app l1 l2 :
  core_events (l1 ++ l2) = core_events l1 ++ core_events l2.
Proof. apply flat_map_app. Qed.

Lemma core_events_map es : core_events (map Core es) = es.
Proof. induction es as [|e es IH]; cbn; [reflexivity|]. f_equal. exact IH. Qed.

(** X20: what is typed into the program as it starts and entered is run.  The
    printable keys of a script of up to 255 characters followed by Enter make
    one call of [simulate_typing] with that script, 1 loop, a start delay of
    3000 ms and a loop delay of 2000 ms; the run reads the keys that follow
    Enter, and its effects are the ones the main loop adds, whether the run
    returns or waits for a key for ever (or needs more activations than it
    was given). *)
Theorem typed_script_is_run depth info cs rest :
  forallb printable (list_ascii_of_string cs) = true ->
  (String.length cs <= 255)%nat ->
  let a := started info (keys_of cs ++ 10 :: rest) in
  match simulate_typing depth cs 1 3000 2000 (mkWorld false [] rest) with
  | Returns w =>
      exists a',
        main_loop depth (S (String.length cs)) a = Goes a' /\
        core_events (trace a') = effects w /\
        input a' = pending w /\ stop a' = g_stopRequested w /\
        reads (form a') cs "3000" "2000" "1"
  | Waits w =>
      exists a',
        main_loop depth (S (String.length cs)) a = Waiting a' /\
        core_events (trace a') = effects w /\
        input a' = pending w /\ stop a' = g_stopRequested w /\
        reads (form a') cs "3000" "2000" "1"
  | TooDeep => main_loop depth (S (String.length cs)) a = Deeper
  end.
Proof.
  intros Hp Hl a.
  assert (Hr0 : reads (form a) EmptyString "3000" "2000" "1")
    by (repeat split; cbn; lia).
  destruct (typed_prefix depth cs a EmptyString "3000" "2000" "1"
              (10 :: rest) Hr0 eq_refl Hp)
    as (a1 & Hloop & Hr1 & Hf1 & Hi1 & Hs1 & Ht1 & Hc1);
    [cbn; lia|cbn; lia|cbn; unfold INT_MAX; lia|reflexivity|].
  cbn [append] in Hr1.
  replace (S (String.length cs)) with (String.length cs + 1)%nat by lia.
  rewrite Hloop. cbn [main_loop]. rewrite Hi1.
  rewrite getch_key by discriminate.
  set (a2 := mkUi (form a1) (s_lastKey a1) (s_repeatCount a1) (stop a1)
               (trace a1) rest).
  unfold main_turn.
  destruct (count_key_goes 10 a2) as (a3 & -> & Ef & Es & Ei & Hc3 & Ht3).
  { cbn. cbn in Hc1. unfold INT_MAX. lia. }
  unfold handle_key.
  change (10 =? KEY_F 1) with false. change (10 =? KEY_F 2) with false.
  change (10 =? 9) with false. change (10 =? 10) with true. cbn iota.
  assert (Hr3 : reads (form a3) cs "3000" "2000" "1")
    by (rewrite Ef; exact Hr1).
  rewrite (enter_reads depth a3 cs "3000" "2000" "1" Hr3)
    by (vm_compute; discriminate).
  change (Z.max 1 (decimal "1")) with 1.
  change (decimal "3000") with 3000. change (decimal "2000") with 2000.
  rewrite Ei. cbn [a2 input].
  destruct (simulate_typing depth cs 1 3000 2000 (mkWorld false [] rest))
    as [w|w|]; [| |reflexivity];
    (eexists; split; [reflexivity|]; cbn;
     rewrite core_events_app, core_events_map, Ht3; cbn [a2 trace];
     rewrite Ht1; split; [reflexivity|]; split; [reflexivity|];
     split; [reflexivity|]; rewrite Ef; exact Hr1).
Qed.

(** ** The key log *)

Lemma key_lines_app l1 l2 : key_lines (l1 ++ l2) = key_lines l1 ++ key_lines l2.
Proof. apply flat_map_app. Qed.

Lemma unfolded_app l1 l2 : unfolded (l1 ++ l2) = unfolded l1 ++ unfolded l2.
Proof. apply flat_map_app. Qed.

Lemma maximal_more (l : list (Z * Z)) : forall r r',
  maximal (l ++ [r]) -> fst r <> fst r' -> maximal ((l ++ [r]) ++ [r']).
Proof.
  induction l as [|x l IH]; intros r r' Hm Hne.
  - cbn. auto.
  - destruct l as [|y l].
    + cbn in *. destruct Hm as [H1 _]. auto.
    + cbn [app maximal] in *. destruct Hm as [H1 H2].
      split; [exact H1|]. apply (IH r r' H2 Hne).
Qed.

Lemma maximal_recount (l : list (Z * Z)) : forall k c c',
  maximal (l ++ [(k, c)]) -> maximal (l ++ [(k, c')]).
Proof.
  induction l as [|x l IH]; intros k c c' Hm.
  - exact I.
  - destruct l as [|y l].
    + cbn in *. exact Hm.
    + cbn [app maximal] in *. destruct Hm as [H1 H2].
      split; [exact H1|]. apply (IH k c c' H2).
Qed.

Lemma count_key_counts ch a read :
  counts a read -> 0 <= ch -> s_repeatCount a < INT_MAX ->
  exists a1,
    count_key ch a = Goes a1 /\ counts a1 (read ++ [ch]) /\
    form a1 = form a /\ input a1 = input a /\ stop a1 = stop a /\
    s_repeatCount a1 <= s_repeatCount a + 1.
Proof.
  intros (Hu & Hm & Hpos & Hnone & Hc0) Hch Hc.
  unfold counts, key_log, counted, count_key in *.
  destruct (Z.eqb_spec ch (s_lastKey a)) as [E|E].
  - destruct (Z.ltb_spec (s_lastKey a) 0) as [|Hk]; [lia|].
    assert (H1 : 1 <= s_repeatCount a).
    { apply Forall_app in Hpos. destruct Hpos as [_ Hp].
      inversion Hp; subst. cbn in *. lia. }
    destruct (Z.eqb_spec (s_repeatCount a) INT_MAX); [lia|].
    eexists. split; [reflexivity|]. cbn [trace s_lastKey s_repeatCount form input stop].
    destruct (Z.ltb_spec (s_lastKey a) 0); [lia|].
    split; [|repeat split; lia]. split; [|split; [|split]].
    + rewrite unfolded_app in *. rewrite <- Hu, <- app_assoc. f_equal.
      cbn. rewrite !app_nil_r.
      replace (Z.to_nat (s_repeatCount a + 1))
        with (S (Z.to_nat (s_repeatCount a))) by lia.
      rewrite E. cbn [repeat]. apply repeat_cons.
    + eapply maximal_recount. exact Hm.
    + apply Forall_app in Hpos. destruct Hpos as [Hp1 Hp2].
      apply Forall_app. split; [exact Hp1|].
      repeat constructor; cbn; lia.
    + split; [intro; lia|lia].
  - eexists. split; [reflexivity|]. unfold flush_key_log.
    destruct (Z.ltb_spec (s_lastKey a) 0) as [Hk|Hk].
    + replace (0 <=? s_lastKey a) with false by (symmetry; apply Z.leb_gt; lia).
      cbn [andb trace s_lastKey s_repeatCount form input stop].
      destruct (Z.ltb_spec ch 0); [lia|].
      pose proof (Hnone Hk) as Hl. rewrite Hl in Hu. cbn in Hu. subst read.
      split; [|repeat split; lia]. split; [rewrite Hl; reflexivity|].
      rewrite Hl.
      split; [exact I|]. split; [repeat constructor; cbn; lia|].
      split; [intro; lia|lia].
    + assert (H1 : 1 <= s_repeatCount a).
      { apply Forall_app in Hpos. destruct Hpos as [_ Hp].
        inversion Hp; subst. cbn in *. lia. }
      replace (0 <=? s_lastKey a) with true by (symmetry; apply Z.leb_le; lia).
      replace (0 <? s_repeatCount a) with true by (symmetry; apply Z.ltb_lt; lia).
      unfold log_ui. cbn [andb trace s_lastKey s_repeatCount form input stop].
      destruct (Z.ltb_spec ch 0); [lia|].
      rewrite key_lines_app.
      change (key_lines [Ui (KeyPressed (s_lastKey a)
                (if (32 <=? s_lastKey a) && (s_lastKey a <=? 126)
                 then s_lastKey a else 63) (s_repeatCount a))])
        with [(s_lastKey a, s_repeatCount a)].
      split; [|repeat split; lia]. split; [|split; [|split]].
      * rewrite unfolded_app, Hu. cbn. reflexivity.
      * apply maximal_more; [exact Hm|cbn; congruence].
      * apply Forall_app. split; [exact Hpos|].
        repeat constructor; cbn; lia.
      * split; [intro; lia|lia].
Qed.

Lemma handle_key_counts depth ch a read :
  form_ok (form a) -> counts a read -> ch <> 10 ->
  exists a',
    handle_key depth ch a = Goes a' /\ counts a' read /\
    form_ok (form a') /\ input a' = input a /\
    s_repeatCount a' = s_repeatCount a.
Proof.
  intros Hok Hcnt Hne.
  destruct (handle_key_ok depth ch a Hok) as [Hu Hg].
  assert (Hsame : forall a',
             key_lines (trace a') = key_lines (trace a) ->
             s_lastKey a' = s_lastKey a ->
             s_repeatCount a' = s_repeatCount a -> counts a' read).
  { intros a' E1 E2 E3. unfold counts, key_log, counted in *.
    rewrite E1, E2, E3. exact Hcnt. }
  destruct Hok as (script & sd & ld & n & Hr & Hsd & Hld & Hn & Hf).
  unfold handle_key in *.
  destruct (ch =? KEY_F 1).
  { destruct (resetAllFields_reads a script sd ld n Hr) as (f' & E & _).
    rewrite E in *. eexists. split; [reflexivity|].
    destruct (Hg _ eq_refl) as [Hok' Hc']. split; [|auto].
    apply Hsame; try reflexivity. cbn. rewrite key_lines_app. cbn.
    apply app_nil_r. }
  destruct (ch =? KEY_F 2).
  { eexists. split; [reflexivity|].
    destruct (Hg _ eq_refl) as [Hok' Hc']. split; [|auto].
    apply Hsame; try reflexivity. cbn. rewrite key_lines_app. cbn.
    apply app_nil_r. }
  destruct (ch =? 9).
  { cbv zeta in Hg |- *.
    replace (field (form a) =? INT_MAX) with false in Hg |- *
      by (symmetry; apply Z.eqb_neq; unfold INT_MAX; lia).
    eexists. split; [reflexivity|].
    destruct (Hg _ eq_refl) as [Hok' Hc']. split; [|auto].
    apply Hsame; reflexivity. }
  destruct (Z.eqb_spec ch 10); [contradiction|].
  destruct ((ch =? KEY_BACKSPACE) || (ch =? 127)).
  { destruct (backspace_reads _ _ _ _ _ Hr Hf) as (f' & E & _).
    rewrite E in *. eexists. split; [reflexivity|].
    destruct (Hg _ eq_refl) as [Hok' Hc']. split; [|auto].
    apply Hsame; reflexivity. }
  destruct ((32 <=? ch) && (ch <=? 126)) eqn:Hp.
  { apply andb_prop in Hp. destruct Hp as [H1 H2].
    apply Z.leb_le in H1. apply Z.leb_le in H2.
    destruct (insert_reads _ _ _ _ _ ch Hr (conj H1 H2) Hf) as (f' & E & _).
    rewrite E in *. eexists. split; [reflexivity|].
    destruct (Hg _ eq_refl) as [Hok' Hc']. split; [|auto].
    apply Hsame; reflexivity. }
  eexists. split; [reflexivity|].
  destruct (Hg _ eq_refl) as [Hok' Hc']. split; [|auto].
  apply Hsame; reflexivity.
Qed.

Lemma main_loop_counts depth : forall keys a read rest,
  ui_ok a -> counts a read ->
  Forall (fun k => 0 <= k /\ k <> 10) keys ->
  s_repeatCount a + Z.of_nat (List.length keys) <= INT_MAX ->
  input a = keys ++ rest ->
  exists a',
    main_loop depth (List.length keys) a = Goes a' /\
    counts a' (read ++ keys) /\ input a' = rest /\ ui_ok a'.
Proof.
  induction keys as [|ch keys IH]; intros a read rest Hok Hcnt Hk Hb Hi.
  - exists a. rewrite app_nil_r. auto.
  - inversion Hk as [|? ? [Hch Hne] Hk']; subst. cbn [List.length] in *.
    cbn [main_loop]. rewrite Hi. cbn [app].
    rewrite getch_key by (unfold ERR; lia).
    set (a0 := mkUi (form a) (s_lastKey a) (s_repeatCount a) (stop a)
                 (trace a) (keys ++ rest)).
    destruct Hok as [Hf Hc0].
    destruct (count_key_counts ch a0 read Hcnt Hch)
      as (a1 & E1 & Hcnt1 & Ef1 & Ei1 & _ & Hc1); [cbn; lia|].
    unfold main_turn. rewrite E1.
    assert (Hf1 : form_ok (form a1)) by (rewrite Ef1; exact Hf).
    destruct (handle_key_counts depth ch a1 _ Hf1 Hcnt1 Hne)
      as (a2 & -> & Hcnt2 & Hf2 & Ei2 & Ec2).
    assert (Hpos : 0 <= s_repeatCount a2) by apply Hcnt2.
    destruct (IH a2 (read ++ [ch]) rest) as (a' & El & Hcnt' & Hi' & Hok');
      [split; assumption|exact Hcnt2|exact Hk'|cbn in Hc1; lia
      |rewrite Ei2, Ei1; reflexivity|].
    exists a'. rewrite <- app_assoc in Hcnt'. auto.
Qed.

(** X21: the key log counts every key once.  The main loop logs the keys it
    reads as runs of one key repeated: each line of the log gives a key and
    how often it came in a row, and the two counters stand for the run that is
    still going on, which is logged when another key arrives.  Lines and
    counters together are the keys read, in order, cut exactly where the key
    changes.  (Enter, which hands the keyboard to a run, is left out of the
    keys considered.) *)
Theorem key_log_counts_every_key depth info keys rest :
  Forall (fun k => 0 <= k /\ k <> 10) keys ->
  Z.of_nat (List.length keys) <= INT_MAX ->
  exists a',
    main_loop depth (List.length keys) (started info (keys ++ rest)) =
    Goes a' /\
    input a' = rest /\
    unfolded (key_log a') = keys /\
    maximal (key_log a') /\
    Forall (fun r => 1 <= snd r) (key_log a').
Proof.
  intros Hk Hb.
  destruct (main_loop_counts depth keys (started info (keys ++ rest)) []
              rest (started_ok _ _))
    as (a' & El & (Hu & Hm & Hp & _ & _) & Hi & _);
    [|exact Hk|cbn; lia|reflexivity|].
  - split; [reflexivity|]. split; [exact I|]. split; [constructor|].
    split; [reflexivity|cbn; lia].
  - exists a'. split; [exact El|]. split; [exact Hi|]. split; [exact Hu|].
    split; [exact Hm|]. eapply Forall_impl; [|exact Hp]. cbn. tauto.
Qed.
End Program.

(** * The theorems at concrete inputs *)

Import Sample.

(** [{upward}] is returned with the caller's record as it was. *)
Lemma rejected_scan_leaves_action_witness :
  action_of (parse_special_token messages "{upward}"
               (mkTokenAction 7 8 "old" 1) fresh) =
  mkTokenAction 7 8 "old" 1.
Proof. apply rejected_scan_leaves_action. reflexivity. Defined.

(** [{upward}] is not [{up}], [{up}] is. *)
Lemma keyword_needs_terminator_witness :
  parse_special_token messages "{upward}" zero_action fresh =
  (O, zero_action, fresh) /\
  parse_special_token messages "{up}!" zero_action fresh =
  (4%nat, mkTokenAction XK_Up 0 EmptyString 0, fresh).
Proof.
  assert (Hin : In ("up", XK_Up) key_table) by (left; reflexivity).
  split.
  - apply (proj1 (keyword_needs_terminator messages) "up" XK_Up "ward}"
             zero_action fresh Hin); intro E; discriminate E.
  - apply (proj1 (keyword_needs_terminator messages) "up" XK_Up "}!"
             zero_action fresh Hin). reflexivity.
Defined.


(** Over [a{up}b] the loop advances by 1, 4 and 1. *)
Lemma scan_partitions_script_witness :
  exists w' ns,
    typing_loop messages keycode keysym (fun _ _ => TooDeep) "a{up}b" 0
      (polling []) = Returns (6%nat, w') /\
    loop_run messages keycode keysym (fun _ _ => TooDeep) "a{up}b" 0
      (polling []) ns (Returns (6%nat, w')) /\
    NoDup (starts 0 ns) /\
    join (pieces ns "a{up}b") = "a{up}b" /\
    list_sum ns = 6%nat.
Proof.
  eexists ?[w'].
  assert (Hrun : typing_loop messages keycode keysym (fun _ _ => TooDeep)
                   "a{up}b" 0 (polling []) = Returns (6%nat, ?w'))
    by (vm_compute; reflexivity).
  destruct (scan_partitions_script messages keycode keysym _ _ _ _ _ Hrun
              eq_refl) as (ns & R & _ & _ & Hn & Hj & Hs & _).
  exists ns. repeat split; assumption.
Defined.



(** [{up:120}] with F2 pressed during the second slice of the hold. *)
Lemma hold_presses_then_releases_witness :
  exists w',
    typing_step messages keycode keysym (fun _ _ => TooDeep) "{up:120}" 0
      (polling [ERR; ERR; KEY_F 2]) = Returns (Advance 8 w') /\
    observe (key_call) (effects w') =
    [(key_of keycode XK_Up, true); (key_of keycode XK_Up, false)] /\
    g_stopRequested w' = true /\
    typing_loop messages keycode keysym (fun _ _ => TooDeep) "{up:120}" 8 w' =
    Returns (8%nat, w').
Proof.
  destruct (hold_presses_then_releases messages keycode keysym)
    as (_ & _ & H).
  destruct (H (fun _ _ => TooDeep) "{up:120}" 0%nat
              (polling [ERR; ERR; KEY_F 2]) (polling [ERR; KEY_F 2]))
    as (w' & Hstep & _ & Hcalls & Hstop);
    try reflexivity; try (vm_compute; lia).
  exists w'. split; [exact Hstep|]. split; [exact Hcalls|].
  assert (Hs : g_stopRequested w' = true).
  { vm_compute in Hstep. inversion Hstep. reflexivity. }
  split; [exact Hs|exact (Hstop Hs)].
Defined.

(** A run called with the flag still set from the run before. *)
Lemma run_resets_flag_then_latches_witness :
  (exists w',
      simulate_typing messages keycode keysym 1 "a" 2 0 0 (stale []) =
      Returns w' /\
      g_stopRequested w' = false /\
      observe typed_char (effects w') = ["a"; "a"]%char) /\
  (forall w',
      parse_and_type messages keycode keysym 1 "a" (stale []) = Returns w' ->
      g_stopRequested w' = true).
Proof.
  destruct (run_resets_flag_then_latches messages keycode keysym)
    as (_ & _ & H3 & _ & _ & _ & _ & _ & H9 & _).
  split.
  - destruct (H3 O "a" 2 0 0 (stale [])) as (w' & Hrun & Hs & Ht & _).
    + reflexivity.
    + lia.
    + intros [].
    + exists w'. split; [exact Hrun|]. split; [exact Hs|exact Ht].
  - intros w' Hrun. apply (H9 1%nat "a" (stale []) w' Hrun). reflexivity.
Defined.

(** Three iterations asked for, F2 pressed in the sleep after the first;
    and F2 pressed in the sleep before the first. *)
Lemma stop_during_delay_ends_run_witness :
  (exists w' mid,
      simulate_typing messages keycode keysym 1 "a" 3 0 100
        (stale [ERR; KEY_F 2; ERR]) = Returns w' /\
      g_stopRequested w' = true /\
      observe begun (effects w') = [1] /\
      effects w' =
      [Log (SimStart 0 100 3 "a"); Log (LoopBegin 1 3); Nodelay true;
       Log (SendingChar "a"); FakeKey 73 true; Usleep 30000;
       FakeKey 73 false; Usleep 30000; Usleep 30000; Nodelay false;
       Log (LoopDone 1 3); Log (SleepingNext 100); Nodelay true;
       Usleep 50000] ++
      Log F2Between ::
      mid ++ [Log (AbortedBetween 1 3); Log StoppedByUser]) /\
  (exists w' mid,
      simulate_typing messages keycode keysym 0 "a" 3 70 100
        (stale [KEY_F 1; ERR; KEY_F 2; ERR]) = Returns w' /\
      g_stopRequested w' = true /\
      observe begun (effects w') = [] /\
      effects w' =
      [Log (SimStart 70 100 3 "a"); Log (SleepingBefore 70); Nodelay true;
       Usleep 50000; Log F1Before; Usleep 50000] ++
      Log F2Before :: mid ++ [Log AbortedBefore]).
Proof.
  split.
  - eexists ?[w'].
    assert (Hrun : simulate_typing messages keycode keysym 1 "a" 3 0 100
                     (stale [ERR; KEY_F 2; ERR]) = Returns ?w')
      by (vm_compute; reflexivity).
    destruct (proj2 (stop_during_delay_ends_run messages keycode keysym
                       _ _ _ _ _ _ _ Hrun)
                [Log (SimStart 0 100 3 "a"); Log (LoopBegin 1 3); Nodelay true;
                 Log (SendingChar "a"); FakeKey 73 true; Usleep 30000;
                 FakeKey 73 false; Usleep 30000; Usleep 30000; Nodelay false;
                 Log (LoopDone 1 3); Log (SleepingNext 100); Nodelay true;
                 Usleep 50000]
                [Nodelay false; Log (AbortedBetween 1 3); Log StoppedByUser]
                eq_refl)
      as (Hs & n & mid & Hn & Hb & _ & Hpost & _).
    exists mid. split; [exact Hrun|]. split; [exact Hs|].
    split; [reflexivity|].
    assert (n = 1%nat) by (destruct n as [|[|n]]; [lia|reflexivity|discriminate Hb]).
    subst n. change (Z.of_nat 1) with 1 in Hpost.
    cbn [effects]. rewrite <- Hpost. reflexivity.
  - eexists ?[w'].
    assert (Hrun : simulate_typing messages keycode keysym 0 "a" 3 70 100
                     (stale [KEY_F 1; ERR; KEY_F 2; ERR]) = Returns ?w')
      by (vm_compute; reflexivity).
    destruct (proj1 (stop_during_delay_ends_run messages keycode keysym
                       _ _ _ _ _ _ _ Hrun)
                [Log (SimStart 70 100 3 "a"); Log (SleepingBefore 70);
                 Nodelay true; Usleep 50000; Log F1Before; Usleep 50000]
                [Nodelay false; Log AbortedBefore]
                eq_refl)
      as (Hs & pre2 & mid & _ & _ & _ & Hpost & Hb).
    exists mid. split; [exact Hrun|]. split; [exact Hs|].
    split; [reflexivity|].
    cbn [effects]. rewrite <- Hpost. reflexivity.
Defined.

(** Two iterations over a letter and a character without a key symbol. *)
Lemma literal_script_is_typed_each_loop_witness :
  let text := String "a" (String "001" EmptyString) in
  exists w',
    simulate_typing messages keycode keysym 1 text 2 0 100 (stale [KEY_F 1]) =
    Returns w' /\
    observe typed_char (effects w') = ["a"; "001"; "a"; "001"]%char /\
    observe next_sleep (effects w') = [100] /\
    observe key_call (effects w') =
    [(inl 73, true); (inl 73, false); (inl 73, true); (inl 73, false)] /\
    exists pre, effects w' = pre ++ [Log (LoopDone 2 2); Log AllDone].
Proof.
  intro text.
  destruct (literal_script_is_typed_each_loop messages keycode keysym
              0 text 2 0 100 (stale [KEY_F 1]))
    as (w' & Hrun & Ht & _ & Hn & Hlast & _).
  - reflexivity.
  - lia.
  - cbn. unfold KEY_F. lia.
  - exists w'. split; [exact Hrun|]. split; [exact Ht|]. split; [exact Hn|].
    split; [|exact Hlast].
    vm_compute in Hrun. inversion Hrun. reflexivity.
Defined.




(** In the table [looping] the first entry expands to the second and the
    second to the first. *)
Lemma sample_looping_cycle :
  clos_trans string (splices_to looping) "{message2}" "{message2}".
Proof.
  apply t_trans with (y := "x{message1}"); apply t_step.
  - exists 0%nat. split; [apply visited_start|].
    split; [discriminate|]. split; [vm_compute; lia|].
    split; [discriminate|reflexivity].
  - exists 1%nat. split.
    + apply (visited_next looping "x{message1}" 0 (visited_start _ _)).
      discriminate.
    + split; [discriminate|]. split; [vm_compute; lia|].
      split; [discriminate|reflexivity].
Qed.




(** * The message file and the scanner *)

Lemma nth_in_firstn {A} (d : A) : forall n i l,
  (i < n)%nat -> nth i (firstn n l) d = nth i l d.
Proof.
  induction n as [|n IH]; intros i l Hi; [lia|].
  destruct l as [|x l]; [reflexivity|].
  destruct i as [|i]; [reflexivity|]. cbn. apply IH. lia.
Qed.

(** X7: without the message file no token expands.  When the file cannot be
    opened the table stays empty and the line saying so is logged; then the
    scanner accepts no message token, every token it accepts is a key token,
    and the interpreter returns from every script without a second
    activation. *)
Theorem missing_file_disables_messages filename
  (XKeysymToKeycode : KeySym -> KeyCode) (XStringToKeysym : string -> KeySym) :
  load_messages_file filename None [] = ([], CouldNotOpen filename) /\
  let table := fst (load_messages_file filename None []) in
  (forall ds rest out w,
      all_digits ds = true ->
      consumed_of (parse_special_token table
                     ("{message" ++ ds ++ "}" ++ rest) out w) = O) /\
  (forall text,
      (0 < consumed_at table text)%nat ->
      useExpand (action_at table text) = 0) /\
  (forall depth text w,
      exists w',
        parse_and_type table XKeysymToKeycode XStringToKeysym (S depth) text w
        = Returns w').
Proof.
  split; [reflexivity|]. cbn [load_messages_file fst]. split; [|split].
  - intros ds rest out w Hd. rewrite message_token_scan by exact Hd.
    destruct (_ <=? _)%nat; [|reflexivity].
    unfold g_messageCount. cbn [List.length Z.of_nat].
    destruct (Z.ltb_spec (atoi ds) 1); [reflexivity|].
    destruct (Z.ltb_spec 0 (atoi ds)); [reflexivity|lia].
  - intros text Hc.
    destruct (Z.eq_dec (useExpand (action_at [] text)) 0) as [E|E];
      [exact E|].
    destruct (splice_is_entry [] text Hc E).
  - intros depth text w.
    destruct (splice_free_parse_and_type [] XKeysymToKeycode XStringToKeysym
                depth text w) as (w' & Hrun & _).
    + intros p Hc.
      destruct (Z.eq_dec (useExpand (action_at [] (advance p text))) 0)
        as [E|E]; [exact E|].
      destruct (splice_is_entry [] (advance p text) Hc E).
    + exists w'. exact Hrun.
Qed.

(** X8: [{messageN}] expands to line N of the file.  For a file of lines as
    the loader keeps them whole, a message token with an index from 1 to the
    number of lines (100 at most) is accepted over its whole length and hands
    the interpreter exactly the N-th line, none of it cut off; leading zeros
    in the index do not matter. *)
Theorem message_token_expands_to_its_line filename old lines ds rest out w :
  Forall (fun l => whole_line (fst l) = true /\
                   (String.length (fst l) + String.length (line_end (snd l))
                    <= 1023)%nat) lines ->
  all_digits ds = true -> (String.length ds <= 31)%nat ->
  1 <= decimal ds <= Z.of_nat (List.length lines) -> decimal ds <= 100 ->
  let table := fst (load_messages_file filename (Some (file_of lines)) old) in
  let line := nth (Z.to_nat (decimal ds - 1)) (map fst lines) EmptyString in
  parse_special_token table ("{message" ++ ds ++ "}" ++ rest) out w =
  ((String.length ds + 9)%nat, mkTokenAction 0 0 line 1,
   add_log (FoundMessage ds (decimal ds) line) w).
Proof.
  intros Hl Hd Hlen Hn H100 table line.
  assert (Ht : table = firstn 100 (map fst lines)).
  { unfold table. cbn [load_messages_file fst].
    rewrite <- (append_empty_r (file_of lines)).
    rewrite (read_lines_file lines EmptyString Hl eq_refl) by (cbn; lia).
    rewrite app_nil_r. reflexivity. }
  assert (Hcount : decimal ds <= g_messageCount table).
  { unfold g_messageCount. rewrite Ht, length_firstn, length_map. lia. }
  assert (Hline : nth (Z.to_nat (decimal ds - 1)) table EmptyString = line).
  { rewrite Ht. apply nth_in_firstn. lia. }
  assert (Hwhole : strncpy line 2047 = line).
  { assert (Hin : In line (map fst lines)).
    { apply nth_In. rewrite length_map. lia. }
    apply in_map_iff in Hin. destruct Hin as (l & El & Hin).
    rewrite Forall_forall in Hl. destruct (Hl l Hin) as [Hw Hfit].
    rewrite El in Hw, Hfit. unfold strncpy.
    rewrite (whole_line_contents line Hw). apply take_all. lia. }
  rewrite message_token_scan by exact Hd.
  replace (String.length ds <=? buf_room)%nat with true
    by (symmetry; apply Nat.leb_le; exact Hlen).
  rewrite atoi_small by (unfold INT_MAX; lia).
  destruct (Z.ltb_spec (decimal ds) 1); [lia|].
  destruct (Z.ltb_spec (g_messageCount table) (decimal ds)); [lia|].
  cbn [orb]. rewrite Hline, Hwhole. f_equal. f_equal. lia.
Qed.

(** * The further theorems at concrete inputs *)

(** Two lines logged without a log file, on a screen of 24 lines. *)
Lemma log_ring_within_bounds_witness :
  exists st',
    Ring.logged ["F1: reset"; "SIM: done"] (Ring.start None) = Some st' /\
    Ring.well_formed st' /\ Ring.draw_logs 24 7 st' <> None.
Proof.
  apply (log_ring_within_bounds ["F1: reset"; "SIM: done"] (Ring.start None)
           24 7).
  split; [reflexivity|]. split; [cbn; lia|].
  apply Forall_forall. intros row Hin. apply repeat_spec in Hin.
  subst row. cbn. lia.
Defined.

(** Two lines logged with and without a log file. *)
Lemma log_file_keeps_every_message_witness :
  exists st st0,
    Ring.logged ["one"; "two"] (Ring.start (Some EmptyString)) = Some st /\
    Ring.logged ["one"; "two"] (Ring.start None) = Some st0 /\
    Ring.g_logBuffer st = Ring.g_logBuffer st0 /\
    Ring.g_logHead st = Ring.g_logHead st0.
Proof.
  eexists ?[st], ?[st0].
  assert (H1 : Ring.logged ["one"; "two"] (Ring.start (Some EmptyString)) =
               Some ?st) by (vm_compute; reflexivity).
  assert (H0 : Ring.logged ["one"; "two"] (Ring.start None) = Some ?st0)
    by (vm_compute; reflexivity).
  destruct (log_file_keeps_every_message ["one"; "two"]) as (_ & _ & H).
  destruct (H _ _ _ H1 H0) as [Hb Hh].
  split; [exact H1|]. split; [exact H0|]. split; [exact Hb|exact Hh].
Defined.

(** A file of two lines, the second ending in CR CR LF, and a last line
    without a line end. *)
Lemma load_gives_the_lines_witness :
  fst (load_messages_file "messages.txt"
         (Some (file_of [("hello", false);
                         (String "{" (String "u" (String "p" (String "}"
                            (String "013" EmptyString)))), true)] ++ "end")%string)
         []) =
  ["hello"; "{up}"; "end"].
Proof.
  destruct (load_gives_the_lines "messages.txt" []
              [("hello", false);
               (String "{" (String "u" (String "p" (String "}"
                  (String "013" EmptyString)))), true)] "end") as [H _].
  - repeat (first [apply Forall_nil|apply Forall_cons|split]);
      first [reflexivity|cbn; lia].
  - reflexivity.
  - cbn. lia.
  - exact H.
Defined.

(** A line of 1030 characters whose 1023rd is a carriage return, followed
    by another line: the entries have 1022 and 7 characters. *)
Lemma long_line_fills_two_entries_witness :
  let l := string_of_list_ascii
             (repeat "a"%char 1022 ++ ["013"%char] ++ repeat "b"%char 7) in
  read_lines 3 (l ++ line_end false ++ "next") =
  [string_of_list_ascii (repeat "a"%char 1022); "bbbbbbb"; "next"].
Proof.
  intro l.
  destruct (long_line_fills_two_entries 1 l false "next") as [H _].
  - vm_compute. reflexivity.
  - vm_compute. lia.
  - vm_compute. lia.
  - rewrite H. vm_compute. reflexivity.
Defined.

(** [{message1}] without a message file. *)
Lemma missing_file_disables_messages_witness :
  consumed_of (parse_special_token [] "{message1}!" zero_action fresh) = O /\
  exists w',
    parse_and_type [] keycode keysym 1 "{message1}!" fresh = Returns w'.
Proof.
  destruct (missing_file_disables_messages "messages.txt" keycode keysym)
    as (_ & H1 & _ & H3).
  split.
  - apply (H1 "1" "!" zero_action fresh). reflexivity.
  - apply (H3 O "{message1}!" fresh).
Defined.

(** [{message02}] with a file of two lines. *)
Lemma message_token_expands_to_its_line_witness :
  parse_special_token
    (fst (load_messages_file "messages.txt"
            (Some (file_of [("hi{up}", false); ("second", true)])) []))
    "{message02}!" zero_action fresh =
  (11%nat, mkTokenAction 0 0 "second" 1,
   add_log (FoundMessage "02" 2 "second") fresh).
Proof.
  apply (message_token_expands_to_its_line "messages.txt" []
           [("hi{up}", false); ("second", true)] "02" "!" zero_action fresh).
  - repeat (first [apply Forall_nil|apply Forall_cons|split]);
      first [reflexivity|cbn; lia].
  - reflexivity.
  - cbn. lia.
  - split; vm_compute; discriminate.
  - vm_compute. discriminate.
Defined.

(** Two iterations over a letter, a hold and a message that taps a key. *)
Lemma every_key_pressed_is_released_witness :
  exists w' d kss,
    simulate_typing messages keycode keysym 3 "a{up:60}{message1}" 2 0 0
      (stale [KEY_F 1]) = Returns w' /\
    effects w' = effects (stale [KEY_F 1]) ++ d /\
    observe key_call d = strokes keycode kss.
Proof.
  eexists ?[w'].
  assert (Hrun : simulate_typing messages keycode keysym 3
                   "a{up:60}{message1}" 2 0 0 (stale [KEY_F 1]) = Returns ?w')
    by (vm_compute; reflexivity).
  destruct (every_key_pressed_is_released _ _ _ _ _ _ _ _ _ _ Hrun)
    as (d & kss & E & Hk & _).
  exists d, kss. split; [exact Hrun|]. split; [exact E|exact Hk].
Defined.

(** F2 read by the poll before the second letter. *)
Lemma stop_request_ends_run_at_once_witness :
  exists w' a e b,
    simulate_typing messages keycode keysym 1 "abc" 2 0 0
      (stale [ERR; KEY_F 2; KEY_F 1]) = Returns w' /\
    effects w' = a ++ e :: b /\ stop_line e = true /\
    Forall (fun e => winding_down e = true) b.
Proof.
  eexists ?[w'].
  assert (Hrun : simulate_typing messages keycode keysym 1 "abc" 2 0 0
                   (stale [ERR; KEY_F 2; KEY_F 1]) = Returns ?w')
    by (vm_compute; reflexivity).
  destruct (stop_request_ends_run_at_once _ _ _ _ _ _ _ _ _ _ Hrun)
    as (d & E & _ & Ht).
  destruct (Ht eq_refl) as (a & e & b & Ed & _ & He & Hb).
  exists a, e, b. split; [exact Hrun|]. split; [|split; assumption].
  rewrite E, Ed. reflexivity.
Defined.

(** A hold of 120 ms with no key waiting: three slices. *)
Lemma wait_lasts_its_time_witness :
  exists k w',
    hold_key keycode XK_Up 120 (polling []) = Returns w' /\
    observe timeline (effects w') =
    inl (key_of keycode XK_Up, true) :: repeat (inr 50000) k ++
    [inl (key_of keycode XK_Up, false); inr 30000] /\
    k = 3%nat.
Proof.
  destruct (wait_lasts_its_time keycode) as (H & _ & _).
  destruct (H XK_Up 120 (polling []) eq_refl eq_refl)
    as (k & w' & Hrun & _ & Ht & Hc & _); [lia|].
  exists k, w'. split; [exact Hrun|]. split; [exact Ht|].
  apply Hc. split; [reflexivity|intros []].
Defined.


(** A letter, Tab, a digit, Backspace, F1 and Enter. *)
Lemma fields_stay_within_arrays_witness :
  main_loop messages keycode keysym 1 6
    (started (CouldNotOpen "messages.txt") [97; 9; 53; 263; KEY_F 1; 10])
  <> Undefined.
Proof.
  apply (fields_stay_within_arrays messages keycode keysym 1 6
           (started (CouldNotOpen "messages.txt")
              [97; 9; 53; 263; KEY_F 1; 10])).
  - split; [|cbn; lia].
    exists EmptyString, "3000"%string, "2000"%string, "1"%string.
    split; [|repeat split; cbn; lia]. repeat split; cbn; lia.
  - cbn. unfold INT_MAX. lia.
Defined.

(** [a] and Backspace in the empty text field. *)
Lemma backspace_undoes_a_key_witness :
  exists a1 a2,
    main_turn messages keycode keysym 1 97
      (started (CouldNotOpen "messages.txt") []) = Goes a1 /\
    main_turn messages keycode keysym 1 127 a1 = Goes a2 /\
    reads (form a2) EmptyString "3000" "2000" "1".
Proof.
  destruct (backspace_undoes_a_key messages keycode keysym 1 97 127
              (started (CouldNotOpen "messages.txt") [])
              EmptyString "3000" "2000" "1")
    as (a1 & a2 & H1 & _ & H2 & Hr & _).
  - repeat split; cbn; lia.
  - cbn. lia.
  - lia.
  - right. reflexivity.
  - left. split; [reflexivity|cbn; lia].
  - cbn. lia.
  - cbn. unfold INT_MAX. lia.
  - exists a1, a2. split; [exact H1|]. split; [exact H2|exact Hr].
Defined.

(** F1 in the program as it starts. *)
Lemma reset_restores_defaults_witness :
  exists a',
    main_turn messages keycode keysym 1 (KEY_F 1)
      (started (CouldNotOpen "messages.txt") [97]) = Goes a' /\
    reads (form a') EmptyString "3000" "2000" "1" /\
    input a' = [97].
Proof.
  destruct (reset_restores_defaults messages keycode keysym 1
              (started (CouldNotOpen "messages.txt") [97])
              EmptyString "3000" "2000" "1")
    as (a' & H1 & Hr & _ & _ & Hi & _).
  - repeat split; cbn; lia.
  - cbn. unfold INT_MAX. lia.
  - exists a'. split; [exact H1|]. split; [exact Hr|exact Hi].
Defined.

(** [hi{up}] typed into the program as it starts. *)
Lemma typed_keys_fill_the_text_witness :
  exists a',
    main_loop messages keycode keysym 1 6
      (started (CouldNotOpen "messages.txt") (keys_of "hi{up}" ++ [9])) =
    Goes a' /\
    reads (form a') "hi{up}" "3000" "2000" "1" /\ input a' = [9].
Proof.
  destruct (typed_keys_fill_the_text messages keycode keysym 1 "hi{up}"
              (started (CouldNotOpen "messages.txt") (keys_of "hi{up}" ++ [9]))
              EmptyString "3000" "2000" "1" [9])
    as (a' & H1 & Hr & _ & Hi & _).
  - repeat split; cbn; lia.
  - reflexivity.
  - reflexivity.
  - cbn. lia.
  - cbn. lia.
  - cbn. unfold INT_MAX. lia.
  - reflexivity.
  - exists a'. split; [exact H1|]. split; [exact Hr|exact Hi].
Defined.

(** Enter in the program as it starts: one loop over the empty script
    after 3000 ms. *)
Lemma enter_runs_the_fields_witness :
  exists a1,
    count_key 10 (started (CouldNotOpen "messages.txt") [KEY_F 2]) = Goes a1 /\
    main_turn messages keycode keysym 1 10
      (started (CouldNotOpen "messages.txt") [KEY_F 2]) =
    match simulate_typing messages keycode keysym 1 EmptyString 1 3000 2000
            (mkWorld false [] [KEY_F 2]) with
    | Returns w =>
        Goes (mkUi initial_fields (s_lastKey a1) (s_repeatCount a1)
                (g_stopRequested w) (trace a1 ++ map Core (effects w))
                (pending w))
    | Waits w =>
        Waiting (mkUi initial_fields (s_lastKey a1) (s_repeatCount a1)
                   (g_stopRequested w) (trace a1 ++ map Core (effects w))
                   (pending w))
    | TooDeep => Deeper
    end.
Proof.
  apply (enter_runs_the_fields messages keycode keysym 1
           (started (CouldNotOpen "messages.txt") [KEY_F 2])
           EmptyString "3000" "2000" "1").
  - repeat split; cbn; lia.
  - reflexivity.
  - reflexivity.
  - reflexivity.
  - vm_compute. discriminate.
  - vm_compute. discriminate.
  - vm_compute. discriminate.
  - cbn. unfold INT_MAX. lia.
Defined.

(** [ab] and Enter. *)
Lemma typed_script_is_run_witness :
  match simulate_typing messages keycode keysym 1 "ab" 1 3000 2000
          (mkWorld false [] []) with
  | Returns w =>
      exists a',
        main_loop messages keycode keysym 1 3
          (started (CouldNotOpen "messages.txt") (keys_of "ab" ++ [10])) =
        Goes a' /\
        core_events (trace a') = effects w /\
        input a' = pending w /\ stop a' = g_stopRequested w /\
        reads (form a') "ab" "3000" "2000" "1"
  | Waits w =>
      exists a',
        main_loop messages keycode keysym 1 3
          (started (CouldNotOpen "messages.txt") (keys_of "ab" ++ [10])) =
        Waiting a' /\
        core_events (trace a') = effects w /\
        input a' = pending w /\ stop a' = g_stopRequested w /\
        reads (form a') "ab" "3000" "2000" "1"
  | TooDeep =>
      main_loop messages keycode keysym 1 3
        (started (CouldNotOpen "messages.txt") (keys_of "ab" ++ [10])) = Deeper
  end.
Proof.
  apply (typed_script_is_run messages keycode keysym 1
           (CouldNotOpen "messages.txt") "ab" []).
  - reflexivity.
  - cbn. lia.
Defined.

(** [a], [a], [b] and Tab: a run of two is logged, then a run of one, and
    the Tab is counted. *)
Lemma key_log_counts_every_key_witness :
  exists a',
    main_loop messages keycode keysym 1 4
      (started (CouldNotOpen "messages.txt") [97; 97; 98; 9]) = Goes a' /\
    unfolded (key_log a') = [97; 97; 98; 9] /\
    maximal (key_log a').
Proof.
  destruct (key_log_counts_every_key messages keycode keysym 1
              (CouldNotOpen "messages.txt") [97; 97; 98; 9] [])
    as (a' & H1 & _ & Hu & Hm & _).
  - repeat constructor; lia.
  - cbn. unfold INT_MAX. lia.
  - exists a'. split; [exact H1|]. split; [exact Hu|exact Hm].
Defined.

(** The letter [a] with the start delay active. *)
Lemma refused_key_changes_no_field_witness :
  let a := mkUi (mkFields (char_array 256 EmptyString) (char_array 16 "3000")
                   (char_array 16 "2000") (char_array 16 "1") 0 4 4 1 1)
             (-1) 0 false [] [] in
  exists a',
    main_turn messages keycode keysym 1 97 a = Goes a' /\
    reads (form a') EmptyString "3000" "2000" "1".
Proof.
  intro a.
  destruct (refused_key_changes_no_field messages keycode keysym 1 97 a
              EmptyString "3000" "2000" "1")
    as (a' & H1 & Hr & _).
  - repeat split; cbn; lia.
  - cbn. lia.
  - lia.
  - right. left. split; [reflexivity|right; reflexivity].
  - cbn. unfold INT_MAX. lia.
  - exists a'. split; [exact H1|exact Hr].
Defined.

(** Four Tabs in the program as it starts. *)
Lemma tab_goes_round_the_fields_witness :
  exists a',
    main_loop messages keycode keysym 1 4
      (started (CouldNotOpen "messages.txt") [9; 9; 9; 9; 97]) = Goes a' /\
    field (form a') = 0 /\ input a' = [97].
Proof.
  destruct (tab_goes_round_the_fields messages keycode keysym 1 4
              (started (CouldNotOpen "messages.txt") [9; 9; 9; 9; 97])
              EmptyString "3000" "2000" "1" [97])
    as (a' & H1 & Hf & _ & _ & Hi).
  - repeat split; cbn; lia.
  - cbn. lia.
  - cbn. lia.
  - cbn. unfold INT_MAX. lia.
  - reflexivity.
  - exists a'. split; [exact H1|]. split; [exact Hf|exact Hi].
Defined.
